(* ===== verification/_CoqProject ===== *)
-Q . S2P
Prelude.v
Keys.v
Kv.v
Gostr.v
Fragment.v
Plan.v
Segment.v
Layer.v
SegmentSet.v
Index.v
IndexSpec.v
IndexRead.v
IndexAppend.v
IndexMaint.v
IndexMove.v
IndexIter.v
IndexGC.v
IndexRecover.v
IndexExamples.v
Node.v
Coalescer.v
Store.v
Handle.v
LiveFile.v
LiveWrite.v
LiveFlush.v
LiveTrunc.v
StoreSpec.v
LiveRead.v
Durable.v
Drain.v
Fs.v
FsInv.v
Tree.v
TreeSpec.v
Listing.v
StoreExamples.v
Race.v
Restart.v
LiveSystem.v
LiveExamples.v
ReadRace.v
Mover.v
MoverSpec.v
MoverExamples.v
Migrate.v
MigrateSpec.v
Metrics.v
Fuse.v
FuseSpec.v
FuseExamples.v
Rooted.v
RootedSpec.v
Sizes.v
Health.v
Exposition.v
Main.v
