(* ===== verification/Prelude.v ===== *)
(** * placefs: a verification library

    placefs is a FUSE file system on two tiers of storage, a hot and a cold
    directory.  A file is cut into stripes; the bytes of a stripe lie in
    fragments, records of append-only segment files; which fragments a stripe
    has is kept in a Pebble database, with the inodes and directory entries.
    Writes go to a buffer first and are flushed in batches; a background mover
    takes stripes from the hot to the cold tier and collects garbage.

    ** Parts, and the files that model them

    - Segments (src/segment/segment.go): Segment.v for one file, SegmentSet.v
      for the directory of a tier.  [AppendCtx], [SyncCtx], [Segment_ReadAt],
      [Scan], [OpenSet], [ActiveCtx], [Remove], [RepairTail] are the methods of
      the same names; a [File] has its bytes, the position of its descriptor
      and the length known to be on the device, and every system call consults
      a stream of faults.
    - Keys (src/kv/keys.go): Keys.v.  Handle (src/kv/db.go): Kv.v, on the class
      [Pebble].  Migration from the first versions' bbolt file
      (src/kv/migrate.go): Migrate.v, MigrateSpec.v, on the class [Bolt].
    - Fragments and read planning (src/index/fragment.go): Fragment.v, Plan.v.
    - Index (src/index/index.go): Index.v has the state and every operation, on
      the classes [Pebble] and [SegLayer] (Layer.v, implemented by SegmentSet.v);
      IndexSpec.v its invariant [index_ok] and the abstract state [content];
      IndexRead.v, IndexAppend.v, IndexMaint.v (truncation, deletion),
      IndexMove.v, IndexIter.v, IndexGC.v, IndexRecover.v one group of
      operations each; IndexExamples.v a small engine at work.
    - Write-back buffer (src/store/coalescer.go): Coalescer.v.  Files as readers
      see them, [live], and the invariant [store_ok]: LiveFile.v; writes,
      flushes, truncation: LiveWrite.v, LiveFlush.v, LiveTrunc.v; [Fsync] and
      what survives a power loss: Durable.v; [Drain]: Drain.v.
    - Open files (src/store/handle.go): Handle.v, LiveRead.v; ReadRace.v cuts a
      read into its critical sections.
    - File API (src/store/store.go): Node.v (inodes, names, paths), Store.v (the
      operations).  Fs.v is the directory tree abstractly, a map of nodes, a map
      of entries and a counter, with a pure function for each operation; FsInv.v
      shows that these keep the invariant [fs_ok], Rooted.v that the directories
      stay connected.  Tree.v relates the two by [represents]; StoreSpec.v,
      TreeSpec.v, RootedSpec.v and Listing.v are the contract, Race.v what
      happens without a lock, Restart.v a start after a power loss,
      StoreExamples.v a store at work.
    - All of this under concurrency: LiveSystem.v, a transition system whose
      steps are the critical sections of writes, reads, the four stages of a
      flush, truncations, deletions, collections and moves; LiveExamples.v.
    - Mover (src/mover/mover.go): Mover.v, MoverSpec.v, MoverExamples.v.
    - Kernel protocol (src/fuselayer/fuselayer.go, metrics.go): Metrics.v,
      Fuse.v, FuseSpec.v, FuseExamples.v.
    - Admin server (src/admin/admin.go): Health.v has the routes and
      [healthHandler], Exposition.v [metricsHandler] and what it calls, and a
      reader of the page.
    - The process (src/cmd/placefs): Main.v has [main] from main.go as a record
      of what it opens and closes, Sizes.v the byte sizes of bytes.go.
    - Gostr.v has what the code uses of Go's strconv, strings and hash/crc32;
      this file the integers, bytes, outcomes and monad of all the others.

    A call is a function in the state monad [M]: it returns [Ok], an error, or
    [Panic], and the next state.  [wp m Q s] says that [m] run from [s] ends in
    [Q]; each operation has a lemma [wp_<operation>], and the theorems follow.

    ** What the theorems show

    - Files.  A write overlays its bytes, a truncation cuts, a deletion empties,
      a read returns the file, on the engine alone ([AppendTo_overlays],
      [Truncate_cuts], [PlanRead_reads_content]) and under the buffer
      ([ReadAt_returns_file], [Setattr_refines]); in any interleaving the files
      are the fold of the calls ([interleavings_linearize]), and a read may be
      interrupted between its critical sections by whatever leaves the file in
      place ([staged_read_returns_file]).
    - Durability.  A successful Sync survives a power loss ([SyncCtx_durable],
      [recovery_keeps_content], [recovery_keeps_durable]), a start restores the
      tree and the files ([restart_restores]); a loss takes only what
      was buffered or unsynced ([crash_loses_buffered_only]); a failed flush is
      reported ([failed_flush_reported]); [Drain_completes].
    - Moves, collection and eviction change no file ([Move_preserves],
      [GC_collects], [RunOnce_keeps_files]); the loop stops ([loop_stops]).
    - The tree.  Every call does what Fs.v says, errors included, and keeps its
      invariant ([calls_refine_tree], [calls_keep_tree], [calls_keep_rooted]),
      up to the errno and attributes of the reply ([fuse_refines_tree],
      [fillAttr_exact]); listings and paths read it ([Readdir_lists],
      [LookupPath_resolves]).
    - Planning: [planRead_newest_wins], [canonicalView_equivalent].  Segments:
      [append_reads_back], [append_scan_roundtrip], [scan_torn_tail],
      [Active_rotates].  Migration: [MigrateFromBolt_copies].
    - The process.  On every path the layers are opened and closed in order and
      nothing is left open ([main_releases]); the health check answers as it
      should ([health_ok]); the metrics page is well formed and shows every
      counter of the FUSE layer ([metrics_page_reads]); a size that is printed
      reads back ([parseBytes_formatBytes]).
    - Where the code goes wrong, with the run that shows it:
      [short_write_misplaces_next], [read_inside_extent_fails],
      [flush_undoes_truncate], [truncation_leaks_budget],
      [utimes_undone_by_flush], [Move_buries_buffered_write],
      [racing_creates_share_inode], [deep_rename_cuts_loop],
      [interrupted_migration_skipped], [evict_ignores_target],
      [flush_splits_read], [Close_hides_failed_flush],
      [failed_unmount_ignores_signals].

    ** Conventions and bounds

    A Go integer is a [Z] wrapped where Go wraps ([u32], [u64], [i64]); theorems
    state the ranges they need, and hypotheses such as [fs_room] (one more inode
    below 2^64, one more link below 2^32) are where a counter would wrap.  The
    order in which Go visits a map is a parameter ([MapRange]); the lemmas on
    planning hold for every order an unstable sort may leave equal numbers in
    ([planRead_newest_wins], [plan_sorted_slice_top]), the executable plan takes
    one.  Any call of Pebble, of a segment set or of the
    system may fail; theorems that promise success ask for [PebbleReliable].
    [iter_complete] excludes an iterator that ends early without being asked
    why, which the code does not notice.

    Fuel: [scan_loop] gets one unit per byte of the segment, more than there
    are records; [split_extents], [bulk_write] and [write_chunks] one per byte
    of the payload, each round taking at least one; [dec_digits] one per bit;
    [climb] the 1000 levels that are in the source; [loop] runs for as many
    rounds as it is asked to, and [loop_stops] shows how many it needs;
    [shortest_from] tries seventeen digits, which tell any two float64 apart.

    ** Not modelled

    Logging, spans and the timing of slow operations have no effect on the file
    system.  src/obs/tracing.go only configures OpenTelemetry, and its endpoint is
    what net/url makes of a flag; [main] has it as one step that may fail.  The
    HTTP server is net/http, the arguments are parsed by the flag package; the
    statistics of Pebble and of statfs are arguments of the metrics page.
    Goroutines and channels appear as the steps and queues of LiveSystem.v and
    Coalescer.v: the flusher's scheduling, [mover.Stop]'s wait for its goroutine
    and the cancellation of contexts inside a call have no state of their own.
    go-fuse, Pebble, bbolt and the semaphore are not part of the repository:
    they are classes with laws, and each is instantiated by an example. *)

From Stdlib Require Export ZArith Lia.
From stdpp Require Export sorting strings numbers gmap base list.

Open Scope Z_scope.

(** ** Machine integers

    A Go integer of width [w] is a [Z]; an arithmetic result is wrapped by the
    conversion of its type. *)

Definition u8 (x : Z) : Z := x mod 2^8.
Definition u16 (x : Z) : Z := x mod 2^16.
Definition u32 (x : Z) : Z := x mod 2^32.
Definition u64 (x : Z) : Z := x mod 2^64.
Definition i64 (x : Z) : Z := (x + 2^63) mod 2^64 - 2^63.

Definition in_u8 (x : Z) : Prop := 0 <= x < 2^8.
Definition in_u16 (x : Z) : Prop := 0 <= x < 2^16.
Definition in_u32 (x : Z) : Prop := 0 <= x < 2^32.
Definition in_u64 (x : Z) : Prop := 0 <= x < 2^64.
Definition in_i64 (x : Z) : Prop := - 2^63 <= x < 2^63.

(** ** Bytes

    A byte is a [Z] in [0,256); Go strings and byte slices are lists of
    them.  [str] embeds a literal. *)

Abbreviation bytes := (list Z).

Definition bytes_ok (b : bytes) : Prop := Forall in_u8 b.

Fixpoint str (s : string) : bytes :=
  match s with
  | EmptyString => []
  | String c r => Z.of_nat (Ascii.nat_of_ascii c) :: str r
  end.

(** [blen b] is Go's [len(b)], as an [int]. *)
Definition blen {A} (b : list A) : Z := Z.of_nat (length b).

(** [slice b lo hi] is Go's [b[lo:hi]] when the bounds are in range. *)
Definition slice {A} (b : list A) (lo hi : Z) : list A :=
  take (Z.to_nat (hi - lo)) (drop (Z.to_nat lo) b).

(** [zreplicate n x] is [make([]T, n)] filled with [x]. *)
Definition zreplicate {A} (n : Z) (x : A) : list A := replicate (Z.to_nat n) x.

(** [byte_at b i] is the byte at a non-negative index. *)
Definition byte_at {A} (b : list A) (i : Z) : option A :=
  if decide (0 <= i) then b !! Z.to_nat i else None.

(** ** encoding/binary *)

Fixpoint put_le (n : nat) (x : Z) : bytes :=
  match n with
  | O => []
  | S n => x mod 256 :: put_le n (x / 256)
  end.

Fixpoint get_le (b : bytes) : Z :=
  match b with
  | [] => 0
  | x :: r => x + 256 * get_le r
  end.

Definition put_be (n : nat) (x : Z) : bytes := rev (put_le n x).
Definition get_be (b : bytes) : Z := get_le (rev b).

(** [bytes.Compare]-style lexicographic order: the order of the engine's keys. *)
Fixpoint lex_lt (a b : bytes) : bool :=
  match a, b with
  | [], [] => false
  | [], _ :: _ => true
  | _ :: _, [] => false
  | x :: a, y :: b => (x <? y) || ((x =? y) && lex_lt a b)
  end.

Definition lex_le (a b : bytes) : bool := negb (lex_lt b a).

(** ** Errors, panics and stateful code

    [error] keeps what the code can tell apart: a [syscall.Errno], the
    engine's not-found sentinel, the migration sentinel, a message, or a
    message that wraps another error with [%w].  A run-time panic is not an
    error value: it is an outcome of its own. *)

Inductive error : Type :=
  | Errno (n : Z)
  | ErrNotFound
  | ErrAlreadyMigrated
  | ErrIO
  | ErrShortWrite
  | ErrEOF
  | ErrMsg (m : string)
  | ErrWrap (m : string) (e : error).

Inductive outcome (A : Type) : Type :=
  | Ok (a : A)
  | Err (e : error)
  | Panic.
Arguments Ok {A} a.
Arguments Err {A} e.
Arguments Panic {A}.

#[global] Instance error_eq_dec : EqDecision error.
Proof. solve_decision. Defined.

#[global] Instance outcome_eq_dec {A} `{EqDecision A} : EqDecision (outcome A).
Proof. solve_decision. Defined.

Definition is_ok {A} (r : outcome A) : bool := match r with Ok _ => true | _ => false end.

Definition obind {A B} (r : outcome A) (f : A -> outcome B) : outcome B :=
  match r with Ok a => f a | Err e => Err e | Panic => Panic end.

(** [M S A]: code over a mutable state [S]; what was changed before an error
    or a panic stays changed. *)
Definition M (S A : Type) : Type := S -> outcome A * S.

Definition ret {S A} (a : A) : M S A := fun s => (Ok a, s).
Definition throw {S A} (e : error) : M S A := fun s => (Err e, s).
Definition panic {S A} : M S A := fun s => (Panic, s).
Definition bind {S A B} (m : M S A) (k : A -> M S B) : M S B :=
  fun s =>
    match m s with
    | (Ok a, s') => k a s'
    | (Err e, s') => (Err e, s')
    | (Panic, s') => (Panic, s')
    end.
Definition get {S} : M S S := fun s => (Ok s, s).
Definition put {S} (s : S) : M S unit := fun _ => (Ok tt, s).
Definition modify {S} (f : S -> S) : M S unit := fun s => (Ok tt, f s).
Definition of_outcome {S A} (r : outcome A) : M S A := fun s => (r, s).

(** [try m]: run [m] and hand its error (not its panic) to the caller as a
    value, the shape of [v, err := f()]. *)
Definition try {S A} (m : M S A) : M S (outcome A) :=
  fun s =>
    match m s with
    | (Ok a, s') => (Ok (Ok a), s')
    | (Err e, s') => (Ok (Err e), s')
    | (Panic, s') => (Panic, s')
    end.

(** Run code over a part of the state. *)
Definition zoom {S T A} (view : S -> T) (upd : T -> S -> S) (m : M T A) : M S A :=
  fun s => let '(r, t) := m (view s) in (r, upd t s).

Declare Scope place_scope.
Delimit Scope place_scope with place.
Notation "'let*' x ':=' c 'in' k" := (bind c (fun x => k))
  (at level 10, x pattern, c at level 200, k at level 200,
   format "'[v' 'let*'  x  ':='  c  'in' '/' k ']'") : place_scope.
Notation "'let?' x ':=' c 'in' k" := (obind c (fun x => k))
  (at level 10, x pattern, c at level 200, k at level 200,
   format "'[v' 'let?'  x  ':='  c  'in' '/' k ']'") : place_scope.
Open Scope place_scope.

(** [for _, x := range l]: stops at the first error. *)
Fixpoint mfor {S A} (l : list A) (f : A -> M S unit) : M S unit :=
  match l with
  | [] => ret tt
  | x :: r => let* _ := f x in mfor r f
  end.

(** The same with an accumulator. *)
Fixpoint mfold {S A B} (f : B -> A -> M S B) (b : B) (l : list A) : M S B :=
  match l with
  | [] => ret b
  | x :: r => let* b' := f b x in mfold f b' r
  end.

(** [for k := range m] over a Go map: the order is unspecified.  It is a
    parameter of the code, of which only [range_perm] is known. *)
Class MapRange := {
  range_order : forall {A : Type}, list A -> list A;
  range_perm : forall {A} (l : list A), range_order l ≡ₚ l;
}.

(** One possible order, for concrete runs. *)
Definition insertion_order : MapRange :=
  {| range_order := fun _ l => l; range_perm := fun _ l => reflexivity l |}.

(** ** Weakest preconditions

    [wp m Q s]: running [m] from [s] ends in an outcome and a state that
    satisfy [Q].  Every [m] is total, so this is total correctness. *)
Definition wp {S A} (m : M S A) (Q : outcome A -> S -> Prop) (s : S) : Prop :=
  Q (fst (m s)) (snd (m s)).

(** Post-conditions on success only, every other outcome being [E]. *)
Definition post {S A} (Q : A -> S -> Prop) (E : S -> Prop) : outcome A -> S -> Prop :=
  fun r s => match r with Ok a => Q a s | _ => E s end.

Create HintDb ints.
Create HintDb bytes.
Create Rewrite HintDb bytes.
Create Rewrite HintDb slices.
Create HintDb wp.

(** ** Lemmas: machine integers *)

Lemma u8_id x : in_u8 x -> u8 x = x.
Proof. unfold in_u8, u8. intros. apply Z.mod_small. lia. Qed.
Lemma u16_id x : in_u16 x -> u16 x = x.
Proof. unfold in_u16, u16. intros. apply Z.mod_small. lia. Qed.
Lemma u32_id x : in_u32 x -> u32 x = x.
Proof. unfold in_u32, u32. intros. apply Z.mod_small. lia. Qed.
Lemma u64_id x : in_u64 x -> u64 x = x.
Proof. unfold in_u64, u64. intros. apply Z.mod_small. lia. Qed.
Lemma i64_id x : in_i64 x -> i64 x = x.
Proof. unfold in_i64, i64. intros. rewrite Z.mod_small; lia. Qed.

Lemma u8_range x : in_u8 (u8 x).
Proof. unfold in_u8, u8. apply Z.mod_pos_bound. lia. Qed.
Lemma u16_range x : in_u16 (u16 x).
Proof. unfold in_u16, u16. apply Z.mod_pos_bound. lia. Qed.
Lemma u32_range x : in_u32 (u32 x).
Proof. unfold in_u32, u32. apply Z.mod_pos_bound. lia. Qed.
Lemma u64_range x : in_u64 (u64 x).
Proof. unfold in_u64, u64. apply Z.mod_pos_bound. lia. Qed.
Lemma i64_range x : in_i64 (i64 x).
Proof.
  unfold in_i64, i64.
  pose proof (Z.mod_pos_bound (x + 2^63) (2^64) ltac:(lia)). lia.
Qed.

(** Reinterpreting the bits of an [int64] as a [uint64] and back. *)
Lemma i64_u64 x : in_i64 x -> i64 (u64 x) = x.
Proof.
  unfold in_i64, i64, u64. intros H.
  rewrite Z.add_mod_idemp_l by lia. rewrite Z.mod_small; lia.
Qed.

#[export] Hint Resolve u8_range u16_range u32_range u64_range i64_range : ints.

(** [i64_simpl] removes the wraps of sums that [lia] shows in range. *)
Ltac i64_simpl :=
  repeat match goal with
    | |- context [i64 ?x] => rewrite (i64_id x) by (unfold in_i64 in *; lia)
    | H : context [i64 ?x] |- _ => rewrite (i64_id x) in H by (unfold in_i64 in *; lia)
    end.

(** [z_case] splits on an integer comparison of the goal, [z_cases] on all. *)
Ltac z_case :=
  match goal with
  | |- context [?a <? ?b] => destruct (Z.ltb_spec a b)
  | |- context [?a <=? ?b] => destruct (Z.leb_spec a b)
  | |- context [?a =? ?b] => destruct (Z.eqb_spec a b)
  end.
Ltac z_cases := repeat (z_case; simpl; try done; try lia).

(** ** Lemmas: byte codecs *)

Lemma length_put_le n x : length (put_le n x) = n.
Proof. revert x. induction n; simpl; auto. Qed.

Lemma put_le_ok n x : bytes_ok (put_le n x).
Proof.
  revert x. induction n as [|n IH]; simpl; intros x; constructor; [|apply IH].
  unfold in_u8. apply Z.mod_pos_bound. lia.
Qed.

Lemma get_put_le n x : get_le (put_le n x) = x mod 256 ^ Z.of_nat n.
Proof.
  revert x. induction n as [|n IH]; intros x; simpl put_le; simpl get_le.
  - rewrite Z.mod_1_r. done.
  - rewrite IH, Nat2Z.inj_succ, Z.pow_succ_r by lia.
    pose proof (Z.pow_pos_nonneg 256 (Z.of_nat n) ltac:(lia) ltac:(lia)).
    rewrite Z.rem_mul_r; [done|lia..].
Qed.

Lemma get_le_bound b : bytes_ok b -> 0 <= get_le b < 256 ^ Z.of_nat (length b).
Proof.
  induction 1 as [|x b Hx _ IH]; simpl get_le; simpl length; [lia|].
  rewrite Nat2Z.inj_succ, Z.pow_succ_r by lia. unfold in_u8 in Hx. nia.
Qed.

Lemma put_get_le b : bytes_ok b -> put_le (length b) (get_le b) = b.
Proof.
  induction 1 as [|x b Hx Hb IH]; simpl; [done|]. unfold in_u8 in Hx.
  assert ((x + 256 * get_le b) mod 256 = x /\ (x + 256 * get_le b) / 256 = get_le b)
    as [-> ->] by (Z.div_mod_to_equations; lia).
  by rewrite IH.
Qed.

Lemma length_put_be n x : length (put_be n x) = n.
Proof. unfold put_be. rewrite length_rev. apply length_put_le. Qed.

Lemma put_be_ok n x : bytes_ok (put_be n x).
Proof. unfold put_be, bytes_ok. apply Forall_rev, put_le_ok. Qed.

Lemma get_put_be n x : get_be (put_be n x) = x mod 256 ^ Z.of_nat n.
Proof. unfold get_be, put_be. rewrite rev_involutive. apply get_put_le. Qed.

Lemma put_get_be b : bytes_ok b -> put_be (length b) (get_be b) = b.
Proof.
  intros H. unfold put_be, get_be. rewrite <-(length_rev b).
  rewrite put_get_le by (apply Forall_rev; done). apply rev_involutive.
Qed.

Lemma put_be_S n x : put_be (S n) x = put_be n (x / 256) ++ [x mod 256].
Proof. done. Qed.

Lemma get_put_le_u64 x : in_u64 x -> get_le (put_le 8 x) = x.
Proof. unfold in_u64. intros. rewrite get_put_le. apply Z.mod_small. lia. Qed.
Lemma get_put_le_u16 x : in_u16 x -> get_le (put_le 2 x) = x.
Proof. unfold in_u16. intros. rewrite get_put_le. apply Z.mod_small. lia. Qed.
Lemma get_put_le_u32 x : in_u32 x -> get_le (put_le 4 x) = x.
Proof. unfold in_u32. intros. rewrite get_put_le. apply Z.mod_small. lia. Qed.
Lemma get_put_be_u64 x : in_u64 x -> get_be (put_be 8 x) = x.
Proof. unfold in_u64. intros. rewrite get_put_be. apply Z.mod_small. lia. Qed.
Lemma get_put_be_u32 x : in_u32 x -> get_be (put_be 4 x) = x.
Proof. unfold in_u32. intros. rewrite get_put_be. apply Z.mod_small. lia. Qed.

(** An [int64] stored as the [uint64] with the same bits. *)
Lemma get_put_le_i64 x : in_i64 x -> i64 (get_le (put_le 8 (u64 x))) = x.
Proof. intros H. rewrite get_put_le_u64 by apply u64_range. by apply i64_u64. Qed.

#[export] Hint Resolve put_le_ok put_be_ok : bytes.
#[export] Hint Rewrite length_put_le length_put_be : bytes.

#[global] Arguments put_le : simpl never.
#[global] Arguments put_be : simpl never.
#[global] Arguments slice : simpl never.
#[global] Arguments blen : simpl never.

(** ** Lemmas: slices *)

Lemma blen_nonneg {A} (b : list A) : 0 <= blen b.
Proof. unfold blen. lia. Qed.

Lemma blen_app {A} (a b : list A) : blen (a ++ b) = blen a + blen b.
Proof. unfold blen. rewrite length_app. lia. Qed.

Lemma blen_cons {A} (x : A) b : blen (x :: b) = 1 + blen b.
Proof. unfold blen. simpl length. lia. Qed.

Lemma blen_nil_inv {A} (b : list A) : blen b = 0 -> b = [].
Proof. destruct b; [done|]. rewrite blen_cons. pose proof (blen_nonneg b). lia. Qed.

Lemma blen_put_le n x : blen (put_le n x) = Z.of_nat n.
Proof. unfold blen. by rewrite length_put_le. Qed.

Lemma blen_put_be n x : blen (put_be n x) = Z.of_nat n.
Proof. unfold blen. by rewrite length_put_be. Qed.

(** A slice past a block of known length. *)
Lemma slice_app_skip {A} (a b : list A) n lo hi :
  blen a = n -> n <= lo -> slice (a ++ b) lo hi = slice b (lo - n) (hi - n).
Proof.
  intros <- Hlo. unfold slice, blen in *.
  rewrite drop_app_ge by lia. f_equal; [lia|]. f_equal. lia.
Qed.

Lemma bytes_ok_slice a lo hi : bytes_ok a -> bytes_ok (slice a lo hi).
Proof. intros H. unfold slice. by apply Forall_take, Forall_drop. Qed.

(** The slice that is exactly the leading block. *)
Lemma slice_app_here {A} (a b : list A) hi :
  blen a = hi -> slice (a ++ b) 0 hi = a.
Proof.
  intros <-. unfold slice, blen. rewrite drop_0, Z.sub_0_r, Nat2Z.id.
  by rewrite take_app_length.
Qed.

Lemma slice_all {A} (a : list A) hi : blen a = hi -> slice a 0 hi = a.
Proof. intros H. rewrite <-(app_nil_r a) at 1. by apply slice_app_here. Qed.

Lemma slice_empty {A} (a : list A) lo hi : hi <= lo -> slice a lo hi = [].
Proof. intros H. unfold slice. replace (Z.to_nat (hi - lo)) with 0%nat by lia. done. Qed.

Lemma blen_slice {A} (a : list A) lo hi :
  0 <= lo -> lo <= hi -> hi <= blen a -> blen (slice a lo hi) = hi - lo.
Proof.
  intros. unfold slice, blen in *. rewrite length_take, length_drop. lia.
Qed.

(** A slice of a list does not see what is appended past its end. *)
Lemma slice_app_l {A} (a b : list A) lo hi :
  0 <= lo -> hi <= blen a -> slice (a ++ b) lo hi = slice a lo hi.
Proof.
  intros Hlo Hhi. destruct (decide (hi <= lo)).
  { by rewrite !slice_empty by lia. }
  unfold slice, blen in *. rewrite drop_app_le by lia.
  rewrite take_app_le; [done|]. rewrite length_drop. lia.
Qed.

Lemma slice_slice {A} (a : list A) lo hi lo' hi' :
  0 <= lo -> 0 <= lo' -> hi' <= hi - lo ->
  slice (slice a lo hi) lo' hi' = slice a (lo + lo') (lo + hi').
Proof.
  intros. unfold slice. rewrite skipn_firstn_comm, take_take, drop_drop.
  f_equal; [lia|]. f_equal. lia.
Qed.

Lemma slice_split {A} (a : list A) lo mid hi :
  0 <= lo -> lo <= mid -> mid <= hi ->
  slice a lo hi = slice a lo mid ++ slice a mid hi.
Proof.
  intros. unfold slice.
  rewrite <-(take_drop (Z.to_nat (mid - lo)) (take (Z.to_nat (hi - lo)) (drop (Z.to_nat lo) a))).
  rewrite take_take, skipn_firstn_comm, drop_drop. f_equal; f_equal; try lia.
  f_equal. lia.
Qed.

Lemma lookup_slice {A} (a : list A) lo hi (i : nat) :
  0 <= lo -> Z.of_nat i < hi - lo -> slice a lo hi !! i = a !! (Z.to_nat lo + i)%nat.
Proof. intros. unfold slice. rewrite lookup_take_lt by lia. by rewrite lookup_drop. Qed.

Lemma byte_at_app_l {A} (a b : list A) i :
  i < blen a -> byte_at (a ++ b) i = byte_at a i.
Proof.
  intros. unfold byte_at, blen in *. case_decide; [|done]. apply lookup_app_l. lia.
Qed.

Lemma byte_at_slice {A} (a : list A) lo hi i :
  0 <= lo -> 0 <= i < hi - lo -> byte_at (slice a lo hi) i = byte_at a (lo + i).
Proof.
  intros. unfold byte_at. rewrite !decide_True by lia.
  rewrite lookup_slice by lia. f_equal. lia.
Qed.

Lemma byte_at_app_r {A} (a b : list A) i :
  blen a <= i -> byte_at (a ++ b) i = byte_at b (i - blen a).
Proof.
  intros. unfold byte_at, blen in *. rewrite !decide_True by lia.
  rewrite lookup_app_r by lia. f_equal. lia.
Qed.

(** Field access in a buffer that is a concatenation of encoded fields:
    [slice_tac] walks to the field. *)
Ltac blen_tac :=
  repeat first
    [ rewrite blen_app | rewrite blen_put_le | rewrite blen_put_be
    | rewrite blen_cons | progress change (blen (@nil Z)) with 0 ];
  simpl Z.of_nat; try lia.

Ltac z_cbn :=
  cbn [Z.sub Z.opp Z.add Z.pos_sub Pos.add Pos.succ Pos.sub_mask Z.succ_double
       Z.pred_double Z.double].

(** Evaluate sums of literals. *)
Ltac z_lits :=
  repeat match goal with
    | |- context [Z.pos ?a + Z.pos ?b] =>
        let c := eval vm_compute in (Z.pos a + Z.pos b) in
        change (Z.pos a + Z.pos b) with c
    end.

Ltac slice_tac :=
  repeat first
    [ rewrite slice_app_here by blen_tac
    | rewrite slice_all by blen_tac
    | match goal with
      | |- context [slice (?x :: ?l) _ _] =>
          change (x :: l) with ([x] ++ l);
          rewrite (slice_app_skip [x] l 1) by (reflexivity || lia); z_cbn
      end
    | erewrite slice_app_skip; [|solve [blen_tac; reflexivity]|lia]; z_cbn ].

(** ** Lemmas: lexicographic order *)

Lemma lex_lt_irrefl a : lex_lt a a = false.
Proof. induction a as [|x a IH]; simpl; [done|]. rewrite IH, Z.ltb_irrefl, andb_false_r. done. Qed.

Lemma lex_lt_cons x a y b :
  lex_lt (x :: a) (y :: b) = true <-> x < y \/ (x = y /\ lex_lt a b = true).
Proof. simpl. rewrite orb_true_iff, andb_true_iff, Z.ltb_lt, Z.eqb_eq. done. Qed.

Lemma lex_lt_trans a b c : lex_lt a b = true -> lex_lt b c = true -> lex_lt a c = true.
Proof.
  revert b c. induction a as [|x a IH]; intros [|y b] [|z c]; try done.
  rewrite !lex_lt_cons. intros [?|[-> ?]] [?|[-> ?]]; eauto with lia.
Qed.

Lemma lex_lt_total a b : lex_lt a b = false -> lex_lt b a = false -> a = b.
Proof.
  revert b. induction a as [|x a IH]; intros [|y b]; simpl; try done.
  rewrite !orb_false_iff, !andb_false_iff, !Z.ltb_ge, !Z.eqb_neq.
  intros [? ?] [? ?]. assert (x = y) as -> by lia. f_equal. apply IH; naive_solver.
Qed.

Lemma lex_lt_asym a b : lex_lt a b = true -> lex_lt b a = false.
Proof.
  intros H. destruct (lex_lt b a) eqn:E; [|done].
  pose proof (lex_lt_trans _ _ _ H E) as HH. by rewrite lex_lt_irrefl in HH.
Qed.

Lemma lex_lt_prefix p a b : lex_lt (p ++ a) (p ++ b) = lex_lt a b.
Proof. induction p as [|x p IH]; simpl; [done|]. by rewrite Z.ltb_irrefl, Z.eqb_refl, IH. Qed.

(** Keys that differ inside equally long prefixes are ordered by the prefixes. *)
Lemma lex_lt_app_len a b x y :
  length a = length b -> a <> b -> lex_lt (a ++ x) (b ++ y) = lex_lt a b.
Proof.
  revert b. induction a as [|z a IH]; intros [|w b] Hlen Hne; simpl in *; try done.
  injection Hlen as Hlen. destruct (decide (z = w)) as [->|Hzw].
  - rewrite Z.ltb_irrefl, Z.eqb_refl. simpl. apply IH; congruence.
  - apply Z.eqb_neq in Hzw. by rewrite Hzw.
Qed.

Lemma put_be_inj n x y :
  0 <= x < 256 ^ Z.of_nat n -> 0 <= y < 256 ^ Z.of_nat n -> put_be n x = put_be n y -> x = y.
Proof.
  intros Hx Hy H. apply (f_equal get_be) in H. rewrite !get_put_be in H.
  by rewrite !Z.mod_small in H.
Qed.

(** Big-endian encoding: lexicographic order is numeric order. *)
Lemma lex_put_be n x y :
  0 <= x < 256 ^ Z.of_nat n -> 0 <= y < 256 ^ Z.of_nat n ->
  lex_lt (put_be n x) (put_be n y) = (x <? y).
Proof.
  revert x y. induction n as [|n IH]; intros x y Hx Hy.
  { simpl Z.of_nat in *. replace x with 0 by lia. replace y with 0 by lia. done. }
  rewrite Nat2Z.inj_succ, Z.pow_succ_r in Hx, Hy by lia. rewrite !put_be_S.
  assert (0 <= x / 256 < 256 ^ Z.of_nat n /\ 0 <= y / 256 < 256 ^ Z.of_nat n) as [Hx' Hy']
    by (split; split; (apply Z.div_pos; lia) || (apply Z.div_lt_upper_bound; lia)).
  pose proof (Z.div_mod x 256 ltac:(lia)). pose proof (Z.div_mod y 256 ltac:(lia)).
  pose proof (Z.mod_pos_bound x 256 ltac:(lia)). pose proof (Z.mod_pos_bound y 256 ltac:(lia)).
  destruct (decide (x / 256 = y / 256)) as [E|E].
  - rewrite E, lex_lt_prefix. simpl. rewrite andb_false_r, orb_false_r.
    apply eq_bool_prop_intro. rewrite !Is_true_true, !Z.ltb_lt. lia.
  - rewrite lex_lt_app_len, IH; [|done..| |].
    + apply eq_bool_prop_intro. rewrite !Is_true_true, !Z.ltb_lt. lia.
    + by rewrite !length_put_be.
    + intros HE. apply E. by eapply put_be_inj.
Qed.

(** ** Lemmas: weakest preconditions *)

Section wp.
Context {S : Type}.
Implicit Types s : S.

Lemma wp_ret {A} (a : A) Q s : Q (Ok a) s -> wp (ret a) Q s.
Proof. done. Qed.

Lemma wp_throw {A} e (Q : outcome A -> S -> Prop) s : Q (Err e) s -> wp (throw e) Q s.
Proof. done. Qed.

Lemma wp_of_outcome {A} r (Q : outcome A -> S -> Prop) s : Q r s -> wp (of_outcome r) Q s.
Proof. done. Qed.

Lemma wp_get Q s : Q (Ok s) s -> wp get Q s.
Proof. done. Qed.

Lemma wp_put (s' : S) Q s : Q (Ok tt) s' -> wp (put s') Q s.
Proof. done. Qed.

Lemma wp_modify f Q s : Q (Ok tt) (f s) -> wp (modify f) Q s.
Proof. done. Qed.

Lemma wp_bind {A B} (m : M S A) (k : A -> M S B) Q s :
  wp m (fun r s' => match r with
                    | Ok a => wp (k a) Q s'
                    | Err e => Q (Err e) s'
                    | Panic => Q Panic s'
                    end) s ->
  wp (bind m k) Q s.
Proof. unfold wp, bind. destruct (m s) as [[a|e|] s']; done. Qed.

Lemma wp_bind_inv {A B} (m : M S A) (k : A -> M S B) Q s :
  wp (bind m k) Q s ->
  wp m (fun r s' => match r with
                    | Ok a => wp (k a) Q s'
                    | Err e => Q (Err e) s'
                    | Panic => Q Panic s'
                    end) s.
Proof. unfold wp, bind. destruct (m s) as [[a|e|] s']; done. Qed.

Lemma wp_mono {A} (m : M S A) (Q Q' : outcome A -> S -> Prop) s :
  wp m Q s -> (forall r s', Q r s' -> Q' r s') -> wp m Q' s.
Proof. unfold wp. auto. Qed.

(** From the precondition to the pair a run returns. *)
Lemma wp_pair {A} (m : M S A) (Q : outcome A -> S -> Prop) s :
  wp m Q s -> let '(r, s') := m s in Q r s'.
Proof. unfold wp. by destruct (m s). Qed.

Lemma wp_try {A} (m : M S A) (Q : outcome (outcome A) -> S -> Prop) s :
  wp m (fun r s' => match r with Panic => Q Panic s' | _ => Q (Ok r) s' end) s ->
  wp (try m) Q s.
Proof. unfold wp, try. destruct (m s) as [[a|e|] s']; done. Qed.

Lemma wp_zoom {T A} (v : S -> T) u (m : M T A) (Q : outcome A -> S -> Prop) s :
  wp m (fun r t => Q r (u t s)) (v s) -> wp (zoom v u m) Q s.
Proof. unfold wp, zoom. destruct (m (v s)) as [r t]; done. Qed.

(** A loop keeps an invariant over the prefix already walked. *)
Lemma wp_mfold {A B} (f : B -> A -> M S B) (I : list A -> B -> S -> Prop)
    (Q : outcome B -> S -> Prop) l b s :
  I [] b s ->
  (forall p x q b s, l = p ++ x :: q -> I p b s ->
     wp (f b x) (fun r s' => match r with
                             | Ok b' => I (p ++ [x]) b' s'
                             | Err e => Q (Err e) s'
                             | Panic => Q Panic s'
                             end) s) ->
  (forall b s, I l b s -> Q (Ok b) s) ->
  wp (mfold f b l) Q s.
Proof.
  intros HI Hstep HQ.
  assert (forall q p b s, l = p ++ q -> I p b s -> wp (mfold f b q) Q s) as Hgen.
  { induction q as [|x q IH]; intros p b' s' -> HIp; simpl.
    - apply wp_ret. apply HQ. by rewrite app_nil_r.
    - apply wp_bind. eapply wp_mono; [by eapply Hstep|].
      intros [b''|e|] s'' H; [|done..]. eapply IH; [|done]. by rewrite <-app_assoc. }
  by eapply (Hgen l []).
Qed.

Lemma wp_mfor {A} (f : A -> M S unit) (I : list A -> S -> Prop)
    (Q : outcome unit -> S -> Prop) l s :
  I [] s ->
  (forall p x q s, l = p ++ x :: q -> I p s ->
     wp (f x) (fun r s' => match r with
                           | Ok _ => I (p ++ [x]) s'
                           | Err e => Q (Err e) s'
                           | Panic => Q Panic s'
                           end) s) ->
  (forall s, I l s -> Q (Ok tt) s) ->
  wp (mfor l f) Q s.
Proof.
  intros HI Hstep HQ.
  assert (forall q p s, l = p ++ q -> I p s -> wp (mfor q f) Q s) as Hgen.
  { induction q as [|x q IH]; intros p s' -> HIp; simpl.
    - apply wp_ret, HQ. by rewrite app_nil_r.
    - apply wp_bind. eapply wp_mono; [by eapply Hstep|].
      intros [[]|e|] s'' H; [|done..]. eapply IH; [|done]. by rewrite <-app_assoc. }
  by eapply (Hgen l []).
Qed.
End wp.

(** [wp_step] takes the next instruction of a goal [wp m Q s]. *)
Ltac wp_step :=
  match goal with
  | |- wp (bind _ _) _ _ => apply wp_bind
  | |- wp (ret _) _ _ => apply wp_ret
  | |- wp (throw _) _ _ => apply wp_throw
  | |- wp (of_outcome _) _ _ => apply wp_of_outcome
  | |- wp get _ _ => apply wp_get
  | |- wp (put _) _ _ => apply wp_put
  | |- wp (modify _) _ _ => apply wp_modify
  | |- wp (try _) _ _ => apply wp_try
  | |- wp (zoom _ _ _) _ _ => apply wp_zoom
  end.
