(* ===== verification/Keys.v ===== *)
(** * The keyspace (src/kv/keys.go)

    Pebble has no buckets: a key is a one-byte tag followed by big-endian
    numbers (and, for a dirent, the name).  The extraction helpers slice their
    argument, so on a key that is too short they panic; here that is the
    [Panic] outcome.

    The lemmas show what the users of the keyspace rely on: the parsers invert
    the builders, the four kinds of key never collide, key order is numeric
    order, and [PrefixUpperBound] bounds exactly the keys with a prefix. *)

From S2P Require Import Prelude.

Definition tagStoreMeta : Z := 77.   (* 'M' *)
Definition tagNode : Z := 110.       (* 'n' *)
Definition tagDirent : Z := 100.     (* 'd' *)
Definition tagStripe : Z := 115.     (* 's' *)

Definition StoreNextInodeKey : bytes := [tagStoreMeta; 110; 105].

Definition NodeKey (inode : Z) : bytes := tagNode :: put_be 8 inode.

Definition DirentKey (parent : Z) (name : bytes) : bytes :=
  tagDirent :: put_be 8 parent ++ name.

Definition DirentPrefix (parent : Z) : bytes := tagDirent :: put_be 8 parent.

Definition DirentParentFromKey (k : bytes) : outcome Z :=
  if blen k <? 9 then Panic else Ok (get_be (slice k 1 9)).

Definition DirentNameFromKey (k : bytes) : outcome bytes :=
  if blen k <? 9 then Panic else Ok (slice k 9 (blen k)).

Definition LegacyStripeKey (inode stripeID : Z) : bytes :=
  tagStripe :: put_be 8 inode ++ put_be 4 stripeID.

Definition FragmentKey (inode stripeID seq : Z) : bytes :=
  tagStripe :: put_be 8 inode ++ put_be 4 stripeID ++ put_be 8 seq.

Definition FragmentStripePrefix (inode stripeID : Z) : bytes :=
  tagStripe :: put_be 8 inode ++ put_be 4 stripeID.

Definition StripePrefix (inode : Z) : bytes := tagStripe :: put_be 8 inode.

Definition StripeAllPrefix : bytes := [tagStripe].

Definition StripeIDFromFragmentKey (k : bytes) : outcome Z :=
  if blen k <? 13 then Panic else Ok (get_be (slice k 9 13)).

Definition StripeInodeFromFragmentKey (k : bytes) : outcome Z :=
  if blen k <? 9 then Panic else Ok (get_be (slice k 1 9)).

Definition SeqFromFragmentKey (k : bytes) : outcome Z :=
  if blen k <? 21 then Panic else Ok (get_be (slice k 13 21)).

Definition IsFragmentKey (k : bytes) : bool := blen k =? 21.

Definition IsLegacyStripeKey (k : bytes) : bool := blen k =? 13.

(** The loop of [PrefixUpperBound] runs from the last byte down, so it is a
    recursion over the reversed prefix: bump, return what is left when the
    byte did not overflow, else drop it.  [None] is Go's [nil]. *)
Fixpoint bump_from_end (rev_end : bytes) : option bytes :=
  match rev_end with
  | [] => None
  | x :: rest =>
      let x' := u8 (x + 1) in
      if x' =? 0 then bump_from_end rest else Some (rev (x' :: rest))
  end.

Definition PrefixUpperBound (prefix : bytes) : option bytes :=
  bump_from_end (rev prefix).

(** ** The range an iterator is scoped to *)

(** [k] lies in the half-open range [lo, hi); a missing [hi] is no bound. *)
Definition in_range (lo : bytes) (hi : option bytes) (k : bytes) : bool :=
  lex_le lo k && match hi with Some h => lex_lt k h | None => true end.

Definition has_prefix (p k : bytes) : Prop := exists r, k = p ++ r.

(** ** Lengths and well-formedness *)

Lemma blen_FragmentKey i s q : blen (FragmentKey i s q) = 21.
Proof. unfold FragmentKey. blen_tac. Qed.
Lemma blen_LegacyStripeKey i s : blen (LegacyStripeKey i s) = 13.
Proof. unfold LegacyStripeKey. blen_tac. Qed.
Lemma blen_NodeKey i : blen (NodeKey i) = 9.
Proof. unfold NodeKey. blen_tac. Qed.
Lemma blen_DirentKey i n : blen (DirentKey i n) = 9 + blen n.
Proof. unfold DirentKey. blen_tac. Qed.

Lemma FragmentKey_ok i s q : bytes_ok (FragmentKey i s q).
Proof.
  unfold FragmentKey, bytes_ok. constructor; [done|].
  rewrite ?Forall_app. repeat split; apply put_be_ok.
Qed.

Lemma LegacyStripeKey_ok i s : bytes_ok (LegacyStripeKey i s).
Proof.
  unfold LegacyStripeKey, bytes_ok. constructor; [done|].
  rewrite ?Forall_app. repeat split; apply put_be_ok.
Qed.

Lemma FragmentStripePrefix_ok i s : bytes_ok (FragmentStripePrefix i s).
Proof.
  unfold FragmentStripePrefix, bytes_ok. constructor; [done|].
  rewrite ?Forall_app. repeat split; apply put_be_ok.
Qed.

Lemma StripePrefix_ok i : bytes_ok (StripePrefix i).
Proof. constructor; [done|apply put_be_ok]. Qed.

Lemma NodeKey_ok i : bytes_ok (NodeKey i).
Proof. constructor; [done|apply put_be_ok]. Qed.

Lemma DirentKey_ok i n : bytes_ok n -> bytes_ok (DirentKey i n).
Proof. intros. constructor; [done|]. apply Forall_app; split; [apply put_be_ok|done]. Qed.

Lemma DirentPrefix_ok i : bytes_ok (DirentPrefix i).
Proof. constructor; [done|apply put_be_ok]. Qed.

(** ** Parsing what was built *)

Lemma StripeInode_FragmentKey i s q :
  in_u64 i -> StripeInodeFromFragmentKey (FragmentKey i s q) = Ok i.
Proof.
  intros. unfold StripeInodeFromFragmentKey. rewrite blen_FragmentKey. simpl.
  unfold FragmentKey. slice_tac. by rewrite get_put_be_u64.
Qed.

Lemma StripeID_FragmentKey i s q :
  in_u32 s -> StripeIDFromFragmentKey (FragmentKey i s q) = Ok s.
Proof.
  intros. unfold StripeIDFromFragmentKey. rewrite blen_FragmentKey. simpl.
  unfold FragmentKey. slice_tac. by rewrite get_put_be_u32.
Qed.

Lemma Seq_FragmentKey i s q :
  in_u64 q -> SeqFromFragmentKey (FragmentKey i s q) = Ok q.
Proof.
  intros. unfold SeqFromFragmentKey. rewrite blen_FragmentKey. simpl.
  unfold FragmentKey. slice_tac. by rewrite get_put_be_u64.
Qed.

Lemma StripeInode_LegacyStripeKey i s :
  in_u64 i -> StripeInodeFromFragmentKey (LegacyStripeKey i s) = Ok i.
Proof.
  intros. unfold StripeInodeFromFragmentKey. rewrite blen_LegacyStripeKey. simpl.
  unfold LegacyStripeKey. slice_tac. by rewrite get_put_be_u64.
Qed.

Lemma StripeID_LegacyStripeKey i s :
  in_u32 s -> StripeIDFromFragmentKey (LegacyStripeKey i s) = Ok s.
Proof.
  intros. unfold StripeIDFromFragmentKey. rewrite blen_LegacyStripeKey. simpl.
  unfold LegacyStripeKey. slice_tac. by rewrite get_put_be_u32.
Qed.

Lemma DirentParent_DirentKey i n :
  in_u64 i -> DirentParentFromKey (DirentKey i n) = Ok i.
Proof.
  intros. unfold DirentParentFromKey. rewrite blen_DirentKey.
  pose proof (blen_nonneg n). destruct (Z.ltb_spec (9 + blen n) 9); [lia|].
  unfold DirentKey. slice_tac. by rewrite get_put_be_u64.
Qed.

Lemma DirentName_DirentKey i n : DirentNameFromKey (DirentKey i n) = Ok n.
Proof.
  unfold DirentNameFromKey. rewrite blen_DirentKey.
  pose proof (blen_nonneg n). destruct (Z.ltb_spec (9 + blen n) 9); [lia|].
  unfold DirentKey. by slice_tac.
Qed.

Lemma FragmentKey_inj i s q i' s' q' :
  in_u64 i -> in_u32 s -> in_u64 q -> in_u64 i' -> in_u32 s' -> in_u64 q' ->
  FragmentKey i s q = FragmentKey i' s' q' -> i = i' /\ s = s' /\ q = q'.
Proof.
  intros ?????? H.
  pose proof (StripeInode_FragmentKey i s q). pose proof (StripeInode_FragmentKey i' s' q').
  pose proof (StripeID_FragmentKey i s q). pose proof (StripeID_FragmentKey i' s' q').
  pose proof (Seq_FragmentKey i s q). pose proof (Seq_FragmentKey i' s' q').
  rewrite H in *. intuition congruence.
Qed.

Lemma DirentKey_inj i n i' n' :
  in_u64 i -> in_u64 i' -> DirentKey i n = DirentKey i' n' -> i = i' /\ n = n'.
Proof.
  intros ?? H.
  pose proof (DirentParent_DirentKey i n). pose proof (DirentParent_DirentKey i' n').
  pose proof (DirentName_DirentKey i n). pose proof (DirentName_DirentKey i' n').
  rewrite H in *. intuition congruence.
Qed.

Lemma NodeKey_inj i i' : in_u64 i -> in_u64 i' -> NodeKey i = NodeKey i' -> i = i'.
Proof.
  unfold in_u64. intros ?? H. apply (f_equal (drop 1)) in H.
  apply (put_be_inj 8); [simpl Z.of_nat; lia..|exact H].
Qed.

Lemma split_8_4_8 (r : bytes) :
  blen r = 20 ->
  exists a b c, r = a ++ b ++ c /\ length a = 8%nat /\ length b = 4%nat /\ length c = 8%nat.
Proof.
  unfold blen. intros H. exists (take 8 r), (take 4 (drop 8 r)), (drop 4 (drop 8 r)).
  rewrite !length_take, !length_drop. split; [by rewrite !take_drop|lia].
Qed.

Lemma get_be_range x n : length x = n -> bytes_ok x -> 0 <= get_be x < 256 ^ Z.of_nat n.
Proof.
  intros <- Hx. unfold get_be. rewrite <-(length_rev x). by apply get_le_bound, Forall_rev.
Qed.

(** A 21-byte key under the stripe tag is a fragment key. *)
Lemma FragmentKey_surj k :
  bytes_ok k -> has_prefix StripeAllPrefix k -> IsFragmentKey k = true ->
  exists i s q, in_u64 i /\ in_u32 s /\ in_u64 q /\ k = FragmentKey i s q.
Proof.
  intros Hok [r ->] Hlen. apply Z.eqb_eq in Hlen. rewrite blen_app in Hlen.
  change (blen StripeAllPrefix) with 1 in Hlen.
  apply Forall_app in Hok as [_ Hok].
  destruct (split_8_4_8 r) as (a & b & c & -> & La & Lb & Lc); [lia|].
  rewrite !Forall_app in Hok. destruct Hok as (Ha & Hb & Hc).
  exists (get_be a), (get_be b), (get_be c).
  pose proof (get_be_range a _ La Ha) as Ba. pose proof (get_be_range b _ Lb Hb) as Bb.
  pose proof (get_be_range c _ Lc Hc) as Bc.
  unfold in_u64, in_u32. split_and!; try lia.
  unfold FragmentKey. rewrite <-La at 1. rewrite <-Lb at 1. rewrite <-Lc at 1.
  by rewrite !put_get_be.
Qed.

(** ** Prefixes *)

Lemma has_prefix_refl p : has_prefix p p.
Proof. exists []. by rewrite app_nil_r. Qed.

Lemma has_prefix_cons x p k : has_prefix (x :: p) (x :: k) <-> has_prefix p k.
Proof. split; intros [r H]; exists r; [by injection H|by simpl; rewrite H]. Qed.

Lemma has_prefix_tag x p y k : has_prefix (x :: p) (y :: k) -> x = y.
Proof. intros [r H]. by injection H. Qed.

(** Equally long leading blocks of a prefix and of a key agree. *)
Lemma has_prefix_app_len a b p k :
  length a = length b -> has_prefix (a ++ p) (b ++ k) <-> a = b /\ has_prefix p k.
Proof.
  intros Hlen. split.
  - intros [r H]. rewrite <-app_assoc in H. apply app_inj_1 in H; [|done].
    destruct H as [-> ->]. split; [done|by exists r].
  - intros [-> [r ->]]. exists r. by rewrite app_assoc.
Qed.

Lemma prefix_StripeAll_FragmentKey i s q : has_prefix StripeAllPrefix (FragmentKey i s q).
Proof. by eexists. Qed.

Lemma prefix_StripePrefix_FragmentKey i i' s q :
  in_u64 i -> in_u64 i' -> has_prefix (StripePrefix i) (FragmentKey i' s q) <-> i = i'.
Proof.
  intros Hi Hi'. unfold StripePrefix, FragmentKey. rewrite has_prefix_cons.
  rewrite <-(app_nil_r (put_be 8 i)), has_prefix_app_len by (by rewrite !length_put_be).
  split; [|intros ->; split; [done|by eexists]].
  intros [H _]. apply (put_be_inj 8) in H; [done|exact Hi|exact Hi'].
Qed.

Lemma prefix_FragmentStripePrefix_FragmentKey i s i' s' q :
  in_u64 i -> in_u64 i' -> in_u32 s -> in_u32 s' ->
  has_prefix (FragmentStripePrefix i s) (FragmentKey i' s' q) <-> i = i' /\ s = s'.
Proof.
  intros Hi Hi' Hs Hs'. unfold FragmentStripePrefix, FragmentKey. rewrite has_prefix_cons.
  rewrite has_prefix_app_len by (by rewrite !length_put_be).
  rewrite <-(app_nil_r (put_be 4 s)), has_prefix_app_len by (by rewrite !length_put_be).
  split; [|intros [-> ->]; split_and!; [done..|by eexists]].
  intros (H1 & H2 & _). apply (put_be_inj 8) in H1; [|exact Hi|exact Hi'].
  apply (put_be_inj 4) in H2; [done|exact Hs|exact Hs'].
Qed.

Lemma prefix_DirentPrefix_DirentKey p p' n :
  in_u64 p -> in_u64 p' -> has_prefix (DirentPrefix p) (DirentKey p' n) <-> p = p'.
Proof.
  intros Hp Hp'. unfold DirentPrefix, DirentKey. rewrite has_prefix_cons.
  rewrite <-(app_nil_r (put_be 8 p)), has_prefix_app_len by (by rewrite !length_put_be).
  split; [|intros ->; split; [done|by eexists]].
  intros [H _]. apply (put_be_inj 8) in H; [done|exact Hp|exact Hp'].
Qed.

(** A key with a stripe prefix has the stripe tag. *)
Lemma has_prefix_trans p q k : has_prefix p q -> has_prefix q k -> has_prefix p k.
Proof. intros [r ->] [r' ->]. exists (r ++ r'). by rewrite app_assoc. Qed.

Lemma prefix_StripePrefix_all i : has_prefix StripeAllPrefix (StripePrefix i).
Proof. by eexists. Qed.
Lemma prefix_FragmentStripePrefix_StripePrefix i s :
  has_prefix (StripePrefix i) (FragmentStripePrefix i s).
Proof. by exists (put_be 4 s). Qed.
Lemma prefix_FragmentStripePrefix_all i s : has_prefix StripeAllPrefix (FragmentStripePrefix i s).
Proof. by eexists. Qed.

(** ** PrefixUpperBound *)

Lemma PrefixUpperBound_snoc p x :
  in_u8 x ->
  PrefixUpperBound (p ++ [x]) =
    if decide (x = 255) then PrefixUpperBound p else Some (p ++ [x + 1]).
Proof.
  unfold in_u8. intros Hx. unfold PrefixUpperBound. rewrite rev_app_distr. simpl.
  case_decide as H; [by subst|].
  rewrite u8_id by (unfold in_u8; lia).
  destruct (Z.eqb_spec (x + 1) 0); [lia|]. by rewrite rev_involutive.
Qed.

Lemma lex_le_prefix p r : lex_le p (p ++ r) = true.
Proof.
  unfold lex_le. rewrite <-(app_nil_r p) at 2. rewrite lex_lt_prefix.
  by destruct r.
Qed.

Lemma lex_le_lt_trans a b c : lex_le a b = true -> lex_lt b c = true -> lex_lt a c = true.
Proof.
  unfold lex_le. rewrite negb_true_iff. intros H1 H2.
  destruct (lex_lt a b) eqn:E; [by eapply lex_lt_trans|].
  by rewrite (lex_lt_total _ _ E H1).
Qed.

Lemma lex_le_trans a b c : lex_le a b = true -> lex_le b c = true -> lex_le a c = true.
Proof.
  unfold lex_le. rewrite !negb_true_iff. intros H1 H2.
  destruct (lex_lt c a) eqn:E; [|done]. destruct (lex_lt a b) eqn:E'.
  - by rewrite (lex_lt_trans _ _ _ E E') in H2.
  - rewrite (lex_lt_total _ _ E' H1) in E. congruence.
Qed.

(** What lies between two keys that share a prefix shares it too. *)
Lemma lex_between_prefix p a b k :
  lex_le (p ++ a) k = true -> lex_lt k (p ++ b) = true ->
  exists r, k = p ++ r /\ lex_le a r = true /\ lex_lt r b = true.
Proof.
  revert k. induction p as [|x p IH]; simpl; intros k Hle Hlt; [by exists k|].
  destruct k as [|y k]; [done|].
  unfold lex_le in Hle. rewrite negb_true_iff in Hle. simpl in Hle.
  apply orb_false_iff in Hle as [H1 H2]. apply Z.ltb_ge in H1.
  apply lex_lt_cons in Hlt as [?|[-> Hlt]]; [lia|].
  rewrite Z.eqb_refl in H2. simpl in H2.
  destruct (IH k) as (r & -> & ? & ?); [unfold lex_le; by rewrite H2|done|].
  by exists r.
Qed.

Lemma lex_le_single x r :
  lex_le [x] r = true -> exists y r', r = y :: r' /\ x <= y.
Proof.
  unfold lex_le. rewrite negb_true_iff. destruct r as [|y r]; [done|]. simpl.
  rewrite orb_false_iff, Z.ltb_ge. intros [? _]. eauto.
Qed.

(** The range of a prefix scan is exactly the keys with that prefix. *)
Lemma in_range_prefix p k :
  bytes_ok p -> bytes_ok k -> in_range p (PrefixUpperBound p) k = true <-> has_prefix p k.
Proof.
  intros Hp Hk. revert Hp. induction p as [|x p IH] using rev_ind; intros Hp.
  { split; [by intros; exists k|]. intros _. unfold in_range, lex_le. by destruct k. }
  apply Forall_app in Hp as [Hp Hx]. inversion_clear Hx as [|? ? Hx8 _].
  specialize (IH Hp). unfold in_range in *. rewrite PrefixUpperBound_snoc by done.
  rewrite andb_true_iff in *. case_decide as Hx255.
  - subst x. split.
    + intros [Hle Hub]. destruct (proj1 IH) as [r ->].
      { split; [|done]. eapply lex_le_trans; [apply (lex_le_prefix p [255])|done]. }
      unfold lex_le in Hle. rewrite lex_lt_prefix in Hle.
      destruct (lex_le_single _ _ Hle) as (y & r' & -> & Hy).
      apply Forall_app in Hk as [_ Hk]. inversion_clear Hk as [|? ? Hy8 _].
      unfold in_u8 in Hy8. replace y with 255 by lia. exists r'. by rewrite <-app_assoc.
    + intros [r ->]. split; [apply lex_le_prefix|].
      apply IH. exists (255 :: r). by rewrite <-app_assoc.
  - split.
    + intros [Hle Hlt]. destruct (lex_between_prefix p [x] [x + 1] k) as (r & -> & H1 & H2);
        [done..|].
      destruct (lex_le_single _ _ H1) as (y & r' & -> & Hy).
      apply lex_lt_cons in H2 as [?|[? H2]]; [|by destruct r'].
      replace y with x by lia. exists r'. by rewrite <-app_assoc.
    + intros [r ->]. split; [apply lex_le_prefix|]. rewrite <-app_assoc, lex_lt_prefix.
      apply lex_lt_cons. lia.
Qed.

(** ** Key order *)

Lemma FragmentKey_lt i s q i' s' q' :
  in_u64 i -> in_u32 s -> in_u64 q -> in_u64 i' -> in_u32 s' -> in_u64 q' ->
  lex_lt (FragmentKey i s q) (FragmentKey i' s' q') = true <->
  i < i' \/ (i = i' /\ (s < s' \/ (s = s' /\ q < q'))).
Proof.
  unfold in_u64, in_u32, FragmentKey. intros. rewrite lex_lt_cons.
  assert (forall n a b x y, 0 <= a < 256 ^ Z.of_nat n -> 0 <= b < 256 ^ Z.of_nat n ->
    lex_lt (put_be n a ++ x) (put_be n b ++ y) = true <->
    a < b \/ (a = b /\ lex_lt x y = true)) as Hblock.
  { intros n a b x y Ha Hb. destruct (decide (a = b)) as [->|Hne].
    - rewrite lex_lt_prefix. intuition lia.
    - rewrite lex_lt_app_len, lex_put_be, Z.ltb_lt; [intuition lia|done..| |].
      + by rewrite !length_put_be.
      + intros HE. apply Hne. by eapply put_be_inj. }
  rewrite Hblock, Hblock, lex_put_be, Z.ltb_lt by (simpl Z.of_nat; lia).
  intuition lia.
Qed.

(** The range that [fragmentsInRange] scans: the stripes [first..last]. *)
Lemma lex_lt_FragmentStripePrefix i b i' s q :
  in_u64 i -> in_u64 i' -> in_u32 b -> in_u32 s ->
  lex_lt (FragmentKey i' s q) (FragmentStripePrefix i b) = true <->
  i' < i \/ (i' = i /\ s < b).
Proof.
  unfold in_u64, in_u32, FragmentKey, FragmentStripePrefix. intros. rewrite lex_lt_cons.
  destruct (decide (i' = i)) as [->|Hi].
  - rewrite lex_lt_prefix. rewrite <-(app_nil_r (put_be 4 b)).
    destruct (decide (s = b)) as [->|Hs].
    + rewrite lex_lt_prefix. destruct (put_be 8 q); simpl; intuition (done || lia).
    + rewrite lex_lt_app_len, lex_put_be, Z.ltb_lt; [intuition lia|simpl Z.of_nat; lia..| |].
      * by rewrite !length_put_be.
      * intros HE. apply Hs. apply (put_be_inj 4) in HE; simpl Z.of_nat; lia.
  - rewrite lex_lt_app_len, lex_put_be, Z.ltb_lt; [intuition lia|simpl Z.of_nat; lia..| |].
    + by rewrite !length_put_be.
    + intros HE. apply Hi. apply (put_be_inj 8) in HE; simpl Z.of_nat; lia.
Qed.

Lemma lex_le_FragmentStripePrefix i a i' s q :
  in_u64 i -> in_u64 i' -> in_u32 a -> in_u32 s ->
  lex_le (FragmentStripePrefix i a) (FragmentKey i' s q) = true <->
  i < i' \/ (i = i' /\ a <= s).
Proof.
  intros Hi Hi' Ha Hs. unfold lex_le. rewrite negb_true_iff, <-not_true_iff_false.
  rewrite lex_lt_FragmentStripePrefix by done. lia.
Qed.

(** ** Properties *)

Lemma has_prefix_dec_bool p k : has_prefix p k -> take (length p) k = p.
Proof. intros [r ->]. by rewrite take_app_length. Qed.

(** C24: [PrefixUpperBound] scopes a scan exactly: for byte strings, the keys in
    [prefix, PrefixUpperBound(prefix)) are the keys that start with the
    prefix, and the bound is the smallest key above all of them. *)
Theorem prefix_scan_exact p :
  bytes_ok p ->
  (forall k, bytes_ok k -> in_range p (PrefixUpperBound p) k = true <-> has_prefix p k) /\
  (forall u v, PrefixUpperBound p = Some u -> bytes_ok v ->
     (forall k, bytes_ok k -> has_prefix p k -> lex_lt k v = true) -> lex_le u v = true).
Proof.
  intros Hp. split; [intros k Hk; by apply in_range_prefix|].
  intros u v Hu Hv Habove. unfold lex_le. rewrite negb_true_iff.
  destruct (lex_lt v u) eqn:E; [|done].
  assert (has_prefix p v) as Hpv.
  { apply in_range_prefix; [done..|]. unfold in_range. rewrite Hu, E, andb_true_r.
    unfold lex_le. rewrite negb_true_iff. apply lex_lt_asym, Habove; [done|apply has_prefix_refl]. }
  specialize (Habove v Hv Hpv). by rewrite lex_lt_irrefl in Habove.
Qed.

Lemma prefix_scan_exact_witness :
  PrefixUpperBound [115; 0; 255] = Some [115; 1] /\
  forall k, bytes_ok k ->
    in_range [115; 0; 255] (PrefixUpperBound [115; 0; 255]) k = true <-> has_prefix [115; 0; 255] k.
Proof.
  split; [reflexivity|]. apply (prefix_scan_exact [115; 0; 255]). by repeat constructor.
Defined.

(** the parsers of the keyspace invert its builders, fragment keys are
    recognised by their length, and keys of different kinds never collide. *)
Theorem keyspace_roundtrip i s q name :
  in_u64 i -> in_u32 s -> in_u64 q ->
  StripeInodeFromFragmentKey (FragmentKey i s q) = Ok i /\
  StripeIDFromFragmentKey (FragmentKey i s q) = Ok s /\
  SeqFromFragmentKey (FragmentKey i s q) = Ok q /\
  IsFragmentKey (FragmentKey i s q) = true /\
  IsLegacyStripeKey (FragmentKey i s q) = false /\
  IsLegacyStripeKey (LegacyStripeKey i s) = true /\
  StripeInodeFromFragmentKey (LegacyStripeKey i s) = Ok i /\
  StripeIDFromFragmentKey (LegacyStripeKey i s) = Ok s /\
  DirentParentFromKey (DirentKey i name) = Ok i /\
  DirentNameFromKey (DirentKey i name) = Ok name /\
  forall j t r name', NoDup [NodeKey j; DirentKey j name'; FragmentKey j t r; StoreNextInodeKey].
Proof.
  intros Hi Hs Hq. split_and!.
  - by apply StripeInode_FragmentKey.
  - by apply StripeID_FragmentKey.
  - by apply Seq_FragmentKey.
  - unfold IsFragmentKey. by rewrite blen_FragmentKey.
  - unfold IsLegacyStripeKey. by rewrite blen_FragmentKey.
  - unfold IsLegacyStripeKey. by rewrite blen_LegacyStripeKey.
  - by apply StripeInode_LegacyStripeKey.
  - by apply StripeID_LegacyStripeKey.
  - by apply DirentParent_DirentKey.
  - by apply DirentName_DirentKey.
  - intros j t r name'. unfold NodeKey, DirentKey, FragmentKey, StoreNextInodeKey.
    repeat (apply NoDup_cons; split); [..|apply NoDup_nil_2];
      rewrite ?elem_of_cons, ?elem_of_nil; intuition discriminate.
Qed.

Lemma keyspace_roundtrip_witness :
  StripeIDFromFragmentKey (FragmentKey 7 3 9) = Ok 3 /\ SeqFromFragmentKey (FragmentKey 7 3 9) = Ok 9.
Proof.
  split; apply (keyspace_roundtrip 7 3 9 []); by compute.
Defined.

(** The order of fragment keys is the numeric order of (inode, stripe,
    seq), so a scan of one inode meets its stripes, and each stripe its
    sequence numbers, in increasing order; and the range that
    [fragmentsInRange] builds holds exactly the stripes [first..last]. *)
Theorem fragment_key_order i s q i' s' q' :
  in_u64 i -> in_u32 s -> in_u64 q -> in_u64 i' -> in_u32 s' -> in_u64 q' ->
  (lex_lt (FragmentKey i s q) (FragmentKey i' s' q') = true <->
     i < i' \/ (i = i' /\ (s < s' \/ (s = s' /\ q < q')))) /\
  forall first last, in_u32 first -> in_u32 (last + 1) ->
    in_range (FragmentStripePrefix i' first) (Some (FragmentStripePrefix i' (last + 1)))
      (FragmentKey i s q) = true <-> i = i' /\ first <= s <= last.
Proof.
  intros. split; [by apply FragmentKey_lt|]. intros first last ??.
  unfold in_range. rewrite andb_true_iff, lex_le_FragmentStripePrefix,
    lex_lt_FragmentStripePrefix by done. lia.
Qed.
