(* ===== verification/Kv.v ===== *)
(** * The key/value handle (src/kv/db.go)

    [kv.DB] is a thin wrapper over Pebble, which is not part of the
    repository.  Pebble is therefore a parameter: the class [Pebble] lists the
    calls the wrapper makes, and [PebbleLaws] the documented behaviour they
    rely on (a point read sees the committed state, a batch commits
    atomically, an iterator yields the keys of a half-open range in
    lexicographic order).  Every call may fail.  [PebbleReliable] is an engine
    that never does; theorems that promise success ask for it.

    An iteration is one call: nothing is written between [First] and [Close].
    The walk sees a list of pairs; an I/O error ends it early and is only
    reported by [Close], so the call returns the pairs and that error. *)

From S2P Require Import Prelude Keys.

Inductive wop : Type :=
  | WSet (k v : bytes)
  | WDelete (k : bytes).

#[global] Instance wop_eq_dec : EqDecision wop.
Proof. solve_decision. Defined.

Class Pebble (P : Type) := {
  (** [pebble.DB.Get]: [Err ErrNotFound] when the key is absent. *)
  peb_get : P -> bytes -> outcome bytes;
  (** [pebble.Batch.Set] / [Delete]: may refuse to queue. *)
  peb_queue : P -> wop -> outcome unit;
  (** [pebble.Batch.Commit], with [Sync] or [NoSync]. *)
  peb_commit : bool -> P -> list wop -> outcome unit * P;
  (** [pebble.DB.NewIter] over [lo, hi), walked to the end and closed: the
      pairs seen and the error of [Close]. *)
  peb_iter : P -> bytes -> option bytes -> outcome (list (bytes * bytes) * option error);
  (** [pebble.DB.Close]. *)
  peb_close : P -> outcome unit * P;
}.

Definition apply_op (m : gmap bytes bytes) (o : wop) : gmap bytes bytes :=
  match o with WSet k v => <[k := v]> m | WDelete k => delete k m end.

Definition apply_ops (ops : list wop) (m : gmap bytes bytes) : gmap bytes bytes :=
  foldl apply_op m ops.

Definition key_before (a b : bytes * bytes) : Prop := lex_lt a.1 b.1 = true.

Class PebbleLaws (P : Type) `{Pebble P} := {
  contents : P -> gmap bytes bytes;
  peb_get_law : forall p k,
    match peb_get p k with
    | Ok v => contents p !! k = Some v
    | Err ErrNotFound => contents p !! k = None
    | Err _ => True
    | Panic => False
    end;
  peb_queue_law : forall p o, peb_queue p o <> Panic;
  peb_commit_law : forall sync p ops,
    match peb_commit sync p ops with
    | (Ok _, p') => contents p' = apply_ops ops (contents p)
    | (Err _, p') => contents p' = contents p \/ contents p' = apply_ops ops (contents p)
    | (Panic, _) => False
    end;
  peb_iter_law : forall p lo hi,
    match peb_iter p lo hi with
    | Ok (l, e) =>
        StronglySorted key_before l /\
        (forall k v, (k, v) ∈ l -> contents p !! k = Some v /\ in_range lo hi k = true) /\
        (e = None -> forall k v, contents p !! k = Some v -> in_range lo hi k = true ->
           (k, v) ∈ l)
    | Err _ => True
    | Panic => False
    end;
  peb_close_law : forall p, fst (peb_close p) <> Panic /\ contents (snd (peb_close p)) = contents p;
}.

Class PebbleReliable (P : Type) `{Pebble P} := {
  rel_get : forall p k e, peb_get p k = Err e -> e = ErrNotFound;
  rel_queue : forall p o, peb_queue p o = Ok tt;
  rel_commit : forall sync p ops, is_ok (fst (peb_commit sync p ops)) = true;
  rel_iter : forall p lo hi, exists l, peb_iter p lo hi = Ok (l, None);
}.

(** ** The wrapper *)

Abbreviation Batch := (list wop).

Section DB.
Context {P : Type} `{Pebble P}.

(** [DB.Get]: [None] is Go's nil slice (absent key); a present key gives a
    copy, possibly empty. *)
Definition DB_Get (key : bytes) : M P (option bytes) := fun p =>
  match peb_get p key with
  | Err ErrNotFound => (Ok None, p)
  | Err e => (Err e, p)
  | Ok v => (Ok (Some v), p)
  | Panic => (Panic, p)
  end.

Definition DB_Has (key : bytes) : M P bool := fun p =>
  match peb_get p key with
  | Err ErrNotFound => (Ok false, p)
  | Err e => (Err e, p)
  | Ok _ => (Ok true, p)
  | Panic => (Panic, p)
  end.

Definition NewBatch : Batch := [].

(** Reads on a batch go to the parent DB, not to the queued writes. *)
Definition Batch_Get (b : Batch) (key : bytes) : M P (option bytes) := DB_Get key.
Definition Batch_Has (b : Batch) (key : bytes) : M P bool := DB_Has key.

Definition Batch_op (b : Batch) (o : wop) : M P Batch := fun p =>
  match peb_queue p o with
  | Ok _ => (Ok (b ++ [o]), p)
  | Err e => (Err e, p)
  | Panic => (Panic, p)
  end.

Definition Batch_Set (b : Batch) (key value : bytes) : M P Batch :=
  Batch_op b (WSet key value).

Definition Batch_Delete (b : Batch) (key : bytes) : M P Batch :=
  Batch_op b (WDelete key).

Definition Batch_Commit (b : Batch) (sync : bool) : M P unit := fun p =>
  peb_commit sync p b.

(** Queue writes one after the other, stopping at the first refusal (the
    callers then close the batch, which discards it). *)
Definition queue_all (ops : list wop) : M P Batch := mfold Batch_op NewBatch ops.

(** [DB.Iter(lo, hi)] followed by the walk [First; Valid; Next] and [Close]. *)
Definition DB_Iter (lo : bytes) (hi : option bytes) : M P (list (bytes * bytes) * option error) :=
  fun p => (peb_iter p lo hi, p).

(** The walk by a caller that checks the error of [Close] ... *)
Definition DB_walk (lo : bytes) (hi : option bytes) : M P (list (bytes * bytes)) :=
  let* le := DB_Iter lo hi in
  match le.2 with None => ret le.1 | Some e => throw e end.

(** ... and by one that drops it ([defer it.Close()]). *)
Definition DB_walk_unchecked (lo : bytes) (hi : option bytes) : M P (list (bytes * bytes)) :=
  let* le := DB_Iter lo hi in ret le.1.

Definition DB_Close : M P unit := peb_close.
End DB.

(** ** An engine for the concrete examples: a map, never failing *)

Definition lex_le_pair (a b : bytes * bytes) : Prop := lex_le a.1 b.1 = true.

#[global] Instance lex_le_pair_dec a b : Decision (lex_le_pair a b).
Proof. unfold lex_le_pair. apply _. Defined.

Abbreviation MemDB := (gmap bytes bytes).

Definition mem_range (m : MemDB) (lo : bytes) (hi : option bytes) : list (bytes * bytes) :=
  merge_sort lex_le_pair
    (filter (fun kv : bytes * bytes => in_range lo hi kv.1 = true) (map_to_list m)).

#[global] Instance MemDB_pebble : Pebble MemDB := {
  peb_get m k := match m !! k with
                 | Some v => Ok v | None => Err ErrNotFound end;
  peb_queue _ _ := Ok tt;
  peb_commit _ m ops := (Ok tt, apply_ops ops m);
  peb_iter m lo hi := Ok (mem_range m lo hi, None);
  peb_close m := (Ok tt, m);
}.

(** ** Lemmas *)

Lemma apply_ops_app a b m : apply_ops (a ++ b) m = apply_ops b (apply_ops a m).
Proof. apply foldl_app. Qed.

Definition op_key (o : wop) : bytes := match o with WSet k _ | WDelete k => k end.

Lemma apply_op_ne m o k : op_key o <> k -> apply_op m o !! k = m !! k.
Proof. destruct o; simpl; intros; [by apply lookup_insert_ne|by apply lookup_delete_ne]. Qed.

(** A key that no queued operation names keeps its value. *)
Lemma apply_ops_other ops m k :
  Forall (fun o => op_key o <> k) ops -> apply_ops ops m !! k = m !! k.
Proof.
  revert m. induction ops as [|o ops IH]; intros m Hf; [done|]. inversion_clear Hf.
  unfold apply_ops in *. simpl. rewrite IH by done. by apply apply_op_ne.
Qed.

(** The last operation on a key decides. *)
Lemma apply_ops_last a o b m :
  Forall (fun o' => op_key o' <> op_key o) b ->
  apply_ops (a ++ o :: b) m !! op_key o =
    match o with WSet _ v => Some v | WDelete _ => None end.
Proof.
  intros Hb. rewrite apply_ops_app. unfold apply_ops at 1. simpl.
  fold (apply_ops b (apply_op (apply_ops a m) o)). rewrite apply_ops_other by done.
  destruct o; simpl; [apply lookup_insert_eq|apply lookup_delete_eq].
Qed.

(** Batches of deletes and batches of writes to distinct keys. *)
Lemma apply_deletes ks m k :
  apply_ops (WDelete <$> ks) m !! k = if decide (k ∈ ks) then None else m !! k.
Proof.
  revert m. induction ks as [|x ks IH]; intros m.
  { rewrite decide_False by (by intros ?%elem_of_nil). done. }
  change (apply_ops (WDelete <$> x :: ks) m) with (apply_ops (WDelete <$> ks) (delete x m)).
  rewrite IH. repeat case_decide; try done; try set_solver.
  - assert (k = x) as -> by set_solver. by rewrite lookup_delete_eq.
  - rewrite lookup_delete_ne; [done|]. set_solver.
Qed.

Definition set_ops (kvs : list (bytes * bytes)) : list wop :=
  (fun kv => WSet kv.1 kv.2) <$> kvs.

Lemma apply_sets kvs m k :
  NoDup kvs.*1 ->
  apply_ops (set_ops kvs) m !! k =
    match list_find (fun kv => kv.1 = k) kvs with
    | Some (_, kv) => Some kv.2
    | None => m !! k
    end.
Proof.
  revert m. induction kvs as [|[x v] kvs IH]; intros m Hnd; [done|].
  inversion_clear Hnd as [|? ? Hx Hnd'].
  change (apply_ops (set_ops ((x, v) :: kvs)) m) with (apply_ops (set_ops kvs) (<[x:=v]> m)).
  rewrite IH by done. simpl. case_decide as Hk.
  - subst k. assert (list_find (fun kv : bytes * bytes => kv.1 = x) kvs = None) as ->.
    { apply list_find_None, Forall_forall. intros kv Hin Hkv. apply Hx.
      apply list_elem_of_fmap. exists kv. by rewrite Hkv. }
    apply lookup_insert_eq.
  - destruct (list_find (fun kv : bytes * bytes => kv.1 = k) kvs) as [[i kv]|]; simpl; [done|].
    by rewrite lookup_insert_ne.
Qed.

Lemma apply_sets_in kvs m k v :
  NoDup kvs.*1 -> (k, v) ∈ kvs -> apply_ops (set_ops kvs) m !! k = Some v.
Proof.
  intros Hnd Hin. rewrite apply_sets by done.
  destruct (list_find (fun kv => kv.1 = k) kvs) as [[i [k' v']]|] eqn:E; simpl.
  - apply list_find_Some in E as (Hl & Hk & _). simpl in Hk. subst k'.
    apply list_elem_of_lookup in Hin as [j Hj].
    assert (i = j) as ->.
    { eapply NoDup_lookup; [exact Hnd| |]; rewrite list_lookup_fmap; [rewrite Hl|rewrite Hj]; done. }
    congruence.
  - apply list_find_None in E. rewrite Forall_forall in E. by apply E in Hin.
Qed.

Lemma apply_sets_notin kvs m k :
  k ∉ kvs.*1 -> apply_ops (set_ops kvs) m !! k = m !! k.
Proof.
  intros Hk. apply apply_ops_other, Forall_forall. intros o Ho. unfold set_ops in Ho.
  apply list_elem_of_fmap in Ho as ([k' v] & -> & Hin). simpl. intros ->.
  apply Hk, list_elem_of_fmap. by exists (k, v).
Qed.

#[global] Instance MemDB_laws : PebbleLaws MemDB.
Proof.
  refine {| contents := fun m : MemDB => m |}.
  - intros m k. simpl. destruct (_ !! k) eqn:E; done.
  - done.
  - intros sync m ops. simpl. done.
  - intros m lo hi. simpl. unfold mem_range.
    set (l := filter _ _).
    assert (NoDup (merge_sort lex_le_pair l).*1) as Hnd.
    { rewrite merge_sort_Permutation. unfold l.
      eapply sublist_NoDup; [apply (NoDup_fst_map_to_list m)|].
      apply fmap_sublist, sublist_filter. }
    split.
    + assert (StronglySorted lex_le_pair (merge_sort lex_le_pair l)) as Hs.
      { apply StronglySorted_merge_sort.
        - intros a b c. unfold lex_le_pair. apply lex_le_trans.
        - intros a b. unfold lex_le_pair, lex_le. rewrite !negb_true_iff.
          destruct (lex_lt b.1 a.1) eqn:E; [right; by apply lex_lt_asym|by left]. }
      revert Hs Hnd. generalize (merge_sort lex_le_pair l). clear l.
      induction 1 as [|a l Hs IH Hf]; intros Hnd; constructor.
      * apply IH. by inversion_clear Hnd.
      * apply NoDup_cons in Hnd as [Ha _]. rewrite Forall_forall in *. intros b Hb.
        specialize (Hf b Hb). unfold lex_le_pair, lex_le, key_before in *.
        rewrite negb_true_iff in Hf.
        destruct (lex_lt a.1 b.1) eqn:E; [done|]. destruct Ha.
        rewrite (lex_lt_total _ _ E Hf). apply list_elem_of_fmap. by exists b.
    + assert (forall k v, (k, v) ∈ merge_sort lex_le_pair l <->
        m !! k = Some v /\ in_range lo hi k = true) as Hiff; [|split; naive_solver].
      intros k v. rewrite merge_sort_Permutation. unfold l.
      rewrite list_elem_of_filter, elem_of_map_to_list. simpl. tauto.
  - done.
Defined.

#[global] Instance MemDB_reliable : PebbleReliable MemDB.
Proof.
  split; try done.
  - intros m k e. simpl. destruct (_ !! k); congruence.
  - intros m lo hi. by exists (mem_range m lo hi).
Qed.

(** ** Specifications *)

Section Specs.
Context {P : Type} `{PebbleLaws P}.

Lemma wp_DB_walk lo hi (Q : outcome (list (bytes * bytes)) -> P -> Prop) p :
  (forall l, StronglySorted key_before l ->
     (forall k v, (k, v) ∈ l <-> contents p !! k = Some v /\ in_range lo hi k = true) ->
     Q (Ok l) p) ->
  (forall e, Q (Err e) p) -> wp (DB_walk lo hi) Q p.
Proof.
  intros HO HE. unfold wp, DB_walk, DB_Iter, bind, ret, throw.
  pose proof (peb_iter_law p lo hi) as HL.
  destruct (peb_iter p lo hi) as [[l e]|e|] eqn:E; [|apply HE|done].
  destruct HL as (Hs & Hin & Hall). destruct e as [e|]; cbn; [done|].
  apply HO; [done|]. intros k v. split; [apply Hin|]. intros [??]. by apply Hall.
Qed.

(** Without the check, the pairs seen may be a part only. *)
Lemma wp_DB_walk_unchecked lo hi (Q : outcome (list (bytes * bytes)) -> P -> Prop) p :
  (forall l, StronglySorted key_before l ->
     (forall k v, (k, v) ∈ l -> contents p !! k = Some v /\ in_range lo hi k = true) ->
     ((exists e l', peb_iter p lo hi = Ok (l', Some e)) \/
      forall k v, contents p !! k = Some v -> in_range lo hi k = true -> (k, v) ∈ l) ->
     Q (Ok l) p) ->
  (forall e, Q (Err e) p) -> wp (DB_walk_unchecked lo hi) Q p.
Proof.
  intros HO HE. unfold wp, DB_walk_unchecked, DB_Iter, bind, ret.
  pose proof (peb_iter_law p lo hi) as HL.
  destruct (peb_iter p lo hi) as [[l e]|e|] eqn:E; [|apply HE|done].
  destruct HL as (Hs & Hin & Hall). cbn. apply HO; [done..|]. destruct e as [e|]; eauto.
Qed.

(** Queueing does not touch the database. *)
Lemma wp_Batch_op b o (Q : outcome Batch -> P -> Prop) p :
  Q (Ok (b ++ [o])) p -> (forall e, Q (Err e) p) -> wp (Batch_op b o) Q p.
Proof.
  intros HO HE. unfold wp, Batch_op. pose proof (peb_queue_law p o).
  destruct (peb_queue p o); [exact HO|apply HE|done].
Qed.

Lemma wp_queue_ops ops b (Q : outcome Batch -> P -> Prop) p :
  Q (Ok (b ++ ops)) p -> (forall e, Q (Err e) p) -> wp (mfold Batch_op b ops) Q p.
Proof.
  revert b. induction ops as [|o ops IH]; intros b HO HE; cbn [mfold].
  - apply wp_ret. by rewrite app_nil_r in HO.
  - wp_step. apply wp_Batch_op; [|done]. apply IH; [|done]. by rewrite <-app_assoc.
Qed.

(** A commit applies the batch, or fails having applied all of it or nothing. *)
Lemma wp_Batch_Commit b sync (Q : outcome unit -> P -> Prop) p :
  (forall p', contents p' = apply_ops b (contents p) -> Q (Ok tt) p') ->
  (forall e p', contents p' = contents p \/ contents p' = apply_ops b (contents p) -> Q (Err e) p') ->
  wp (Batch_Commit b sync) Q p.
Proof.
  intros HO HE. unfold wp, Batch_Commit. pose proof (peb_commit_law sync p b) as HL.
  destruct (peb_commit sync p b) as [[[]|e|] p']; [by apply HO|by apply HE|done].
Qed.

(** The same for a batch queued whole. *)
Lemma wp_queue_commit ops sync (Q : outcome unit -> P -> Prop) p :
  (forall p', contents p' = apply_ops ops (contents p) -> Q (Ok tt) p') ->
  (forall e p', contents p' = contents p \/ contents p' = apply_ops ops (contents p) -> Q (Err e) p') ->
  wp (let* b := queue_all ops in Batch_Commit b sync) Q p.
Proof.
  intros HO HE. wp_step. apply wp_queue_ops; [|intros e; apply HE; by left].
  cbn [app]. by apply wp_Batch_Commit.
Qed.

(** An engine that does not fail leaves the first case. *)
Lemma wp_DB_Get_rel key (Q : outcome (option bytes) -> P -> Prop) p :
  Q (Ok (contents p !! key)) p -> (forall e, ~ PebbleReliable P -> Q (Err e) p) -> wp (DB_Get key) Q p.
Proof.
  intros HO HE. unfold wp, DB_Get. pose proof (peb_get_law p key) as HL.
  destruct (peb_get p key) as [v|e|] eqn:E; [by rewrite HL in HO| |done].
  assert (e <> ErrNotFound -> ~ PebbleReliable P) as Hne
    by (intros Hne Hrel; by apply Hne, (rel_get p key)).
  destruct e; try (apply HE; by apply Hne). by rewrite HL in HO.
Qed.

Lemma wp_DB_Get key (Q : outcome (option bytes) -> P -> Prop) p :
  Q (Ok (contents p !! key)) p -> (forall e, Q (Err e) p) -> wp (DB_Get key) Q p.
Proof. intros HO HE. by apply wp_DB_Get_rel. Qed.

Lemma wp_queue_commit_rel ops sync (Q : outcome unit -> P -> Prop) p :
  (forall p', contents p' = apply_ops ops (contents p) -> Q (Ok tt) p') ->
  (forall e p', ~ PebbleReliable P -> contents p' = contents p \/ contents p' = apply_ops ops (contents p) -> Q (Err e) p') ->
  wp (let* b := queue_all ops in Batch_Commit b sync) Q p.
Proof.
  intros HO HE.
  assert (PebbleReliable P -> is_ok ((let* b := queue_all ops in Batch_Commit b sync) p).1 = true) as Hrel.
  { intros Hrel. unfold queue_all, bind.
    assert (forall os b, mfold Batch_op b os p = (Ok (b ++ os), p)) as Hq.
    { induction os as [|o os IH]; intros b; [by rewrite app_nil_r|]. cbn [mfold]. unfold bind, Batch_op at 1.
      rewrite rel_queue, IH. by rewrite <-app_assoc. }
    rewrite Hq. apply rel_commit. }
  assert (wp (let* b := queue_all ops in Batch_Commit b sync) (fun r p' =>
    match r with
    | Ok _ => contents p' = apply_ops ops (contents p)
    | Err _ => contents p' = contents p \/ contents p' = apply_ops ops (contents p)
    | Panic => False end) p) as Hw by (apply wp_queue_commit; auto).
  unfold wp in *. destruct ((let* b := queue_all ops in Batch_Commit b sync) p) as [[[]|e|] p'].
  - by apply HO.
  - apply HE; [|done]. intros Hr. by specialize (Hrel Hr).
  - done.
Qed.

End Specs.

(** No scan of [p] ends early. *)
Definition iter_complete {P} `{Pebble P} (p : P) : Prop :=
  forall lo hi l e, peb_iter p lo hi <> Ok (l, Some e).

Lemma reliable_iter_complete {P} `{PebbleReliable P} (p : P) : iter_complete p.
Proof. intros lo hi l e. destruct (rel_iter p lo hi) as [l' ->]. congruence. Qed.

Lemma wp_DB_walk_complete {P} `{PebbleLaws P} lo hi (Q : outcome (list (bytes * bytes)) -> P -> Prop) p :
  iter_complete p ->
  (forall l, StronglySorted key_before l ->
     (forall k v, (k, v) ∈ l <-> contents p !! k = Some v /\ in_range lo hi k = true) -> Q (Ok l) p) ->
  (forall e, ~ PebbleReliable P -> Q (Err e) p) -> wp (DB_walk_unchecked lo hi) Q p.
Proof.
  intros Hc HO HE. unfold wp, DB_walk_unchecked, DB_Iter, bind, ret.
  pose proof (peb_iter_law p lo hi) as HL. destruct (peb_iter p lo hi) as [[l e]|e|] eqn:E; [| |done].
  - destruct HL as (Hs & Hin & Hall). destruct e as [e|]; [by destruct (Hc _ _ _ _ E)|]. apply HO; [done|].
    intros k v. split; [apply Hin|]. intros [??]. by apply Hall.
  - apply HE. intros Hrel. destruct (rel_iter p lo hi) as [l El]. congruence.
Qed.
