(* ===== verification/Gostr.v ===== *)
(** * The parts of Go's [strconv], [strings], [fmt] and [hash/crc32] the
    program uses, on byte strings *)

From S2P Require Import Prelude.

(** ** Decimal numbers *)

Definition is_digit (c : Z) : bool := (48 <=? c) && (c <=? 57).

(** The digits of a non-negative number, most significant first; [fuel]
    bounds their number. *)
Fixpoint dec_digits (fuel : nat) (n : Z) : bytes :=
  match fuel with
  | O => []
  | S fuel =>
      if n <? 10 then [48 + n] else dec_digits fuel (n / 10) ++ [48 + n mod 10]
  end.

(** [%d] / [strconv.FormatInt(n, 10)]. *)
Definition format_int (n : Z) : bytes :=
  let digits m := dec_digits (S (Z.to_nat (Z.log2 m))) m in
  if n <? 0 then 45 :: digits (- n) else digits n.

(** [%0wd] of a non-negative number. *)
Definition format_padded (w : nat) (n : Z) : bytes :=
  let d := format_int n in replicate (w - length d) 48 ++ d.

Fixpoint parse_digits (acc : Z) (s : bytes) : option Z :=
  match s with
  | [] => Some acc
  | c :: r => if is_digit c then parse_digits (acc * 10 + (c - 48)) r else None
  end.

(** [strconv.ParseUint(s, 10, bits)]: [None] is a syntax or range error. *)
Definition parse_uint (bits : Z) (s : bytes) : option Z :=
  match s with
  | [] => None
  | _ =>
      match parse_digits 0 s with
      | Some n => if n <? 2 ^ bits then Some n else None
      | None => None
      end
  end.

(** [strconv.ParseInt(s, 10, 64)]: an optional sign, then digits. *)
Definition parse_int64 (s : bytes) : option Z :=
  let '(neg, digits) :=
    match s with
    | 45 :: r => (true, r)
    | 43 :: r => (false, r)
    | _ => (false, s)
    end in
  match digits with
  | [] => None
  | _ =>
      match parse_digits 0 digits with
      | Some n =>
          if neg then (if n <=? 2^63 then Some (- n) else None)
          else (if n <? 2^63 then Some n else None)
      | None => None
      end
  end.

(** ** Strings *)

Definition has_suffix (suf s : bytes) : bool :=
  bool_decide (drop (length s - length suf) s = suf) && (length suf <=? length s)%nat.

Definition trim_suffix (suf s : bytes) : bytes :=
  if has_suffix suf s then take (length s - length suf) s else s.

(** The UTF-8 encodings of the runes [unicode.IsSpace] holds of. *)
Definition space_runes : list bytes :=
  [[9]; [10]; [11]; [12]; [13]; [32]; [194; 133]; [194; 160]; [225; 154; 128];
   [226; 128; 168]; [226; 128; 169]; [226; 128; 175]; [226; 129; 159]; [227; 128; 128]] ++
  ((fun k => [226; 128; 128 + Z.of_nat k]) <$> seq 0 11).

(** [s] without the elements of [runes] it starts with; a round takes a byte. *)
Fixpoint strip (runes : list bytes) (fuel : nat) (s : bytes) : bytes :=
  match fuel with
  | O => s
  | S fuel =>
      match list_find (fun r => take (length r) s = r) runes with
      | Some (_, r) => strip runes fuel (drop (length r) s)
      | None => s
      end
  end.

(** [strings.TrimSpace]. *)
Definition trim_space (s : bytes) : bytes :=
  let s := strip space_runes (length s) s in
  rev (strip (@rev Z <$> space_runes) (length s) (rev s)).

Definition is_letter (c : Z) : bool :=
  ((97 <=? c) && (c <=? 122)) || ((65 <=? c) && (c <=? 90)).

Definition to_lower (s : bytes) : bytes :=
  (fun c => if (65 <=? c) && (c <=? 90) then c + 32 else c) <$> s.

(** ** CRC-32 (IEEE), bit by bit *)

Definition crc32_poly : Z := 3988292384.   (* 0xEDB88320 *)

Fixpoint crc32_bits (n : nat) (c : Z) : Z :=
  match n with
  | O => c
  | S n => crc32_bits n (if Z.odd c then Z.lxor (Z.shiftr c 1) crc32_poly else Z.shiftr c 1)
  end.

Definition crc32_byte (c x : Z) : Z := crc32_bits 8 (Z.lxor c x).

Definition crc32_ieee (data : bytes) : Z :=
  Z.lxor (foldl crc32_byte 4294967295 data) 4294967295.

Example crc32_check_value : crc32_ieee (str "123456789") = 3421780262.
Proof. by vm_compute. Qed.

Example format_padded_ex : format_padded 10 42 = str "0000000042".
Proof. by vm_compute. Qed.

(** ** Lemmas *)

Lemma dec_digits_digit fuel n : 0 <= n -> Forall (fun c => is_digit c = true) (dec_digits fuel n).
Proof.
  revert n. induction fuel as [|fuel IH]; intros n Hn; simpl; [constructor|].
  destruct (Z.ltb_spec n 10).
  - repeat constructor. unfold is_digit. z_cases.
  - pose proof (Z.mod_pos_bound n 10 ltac:(lia)).
    apply Forall_app. split; [apply IH; apply Z.div_pos; lia|].
    repeat constructor. unfold is_digit. z_cases.
Qed.

Lemma parse_digits_app acc s r :
  parse_digits acc (s ++ r) = match parse_digits acc s with Some a => parse_digits a r | None => None end.
Proof. revert acc. induction s as [|c s IH]; intros acc; simpl; [done|]. by destruct (is_digit c). Qed.

Lemma parse_dec_digits fuel n :
  0 <= n < 2 ^ Z.of_nat fuel -> parse_digits 0 (dec_digits fuel n) = Some n.
Proof.
  revert n. induction fuel as [|fuel IH]; intros n Hn.
  { simpl in Hn. replace n with 0 by lia. done. }
  rewrite Nat2Z.inj_succ, Z.pow_succ_r in Hn by lia. simpl.
  destruct (Z.ltb_spec n 10).
  - simpl. unfold is_digit. z_cases. f_equal. lia.
  - rewrite parse_digits_app, IH.
    + pose proof (Z.mod_pos_bound n 10 ltac:(lia)). pose proof (Z.div_mod n 10 ltac:(lia)).
      simpl. unfold is_digit. z_cases. f_equal. lia.
    + split; [apply Z.div_pos; lia|]. apply Z.div_lt_upper_bound; lia.
Qed.

Lemma parse_format_int n : 0 <= n -> parse_digits 0 (format_int n) = Some n.
Proof.
  intros Hn. unfold format_int. destruct (Z.ltb_spec n 0); [lia|].
  apply parse_dec_digits. split; [done|].
  rewrite Nat2Z.inj_succ, Z2Nat.id by apply Z.log2_nonneg.
  destruct (decide (n = 0)) as [->|]; [done|]. apply Z.log2_spec. lia.
Qed.

Lemma dec_digits_nonempty fuel n : dec_digits (S fuel) n <> [].
Proof. simpl. destruct (n <? 10); [done|]. by destruct (dec_digits fuel (n / 10)). Qed.

Lemma format_int_nonempty n : format_int n <> [].
Proof. unfold format_int. destruct (n <? 0); [done|apply dec_digits_nonempty]. Qed.

Lemma format_int_digits n : 0 <= n -> Forall (fun c => is_digit c = true) (format_int n).
Proof.
  intros. unfold format_int. destruct (Z.ltb_spec n 0); [lia|]. by apply dec_digits_digit.
Qed.

Lemma parse_zeros k s : parse_digits 0 (replicate k 48 ++ s) = parse_digits 0 s.
Proof. induction k as [|k IH]; [done|]. simpl. apply IH. Qed.

Lemma parse_uint_padded bits w n :
  0 <= n < 2 ^ bits -> parse_uint bits (format_padded w n) = Some n.
Proof.
  intros Hn. unfold parse_uint, format_padded.
  destruct (replicate _ 48 ++ format_int n) as [|c r] eqn:E.
  { apply app_eq_nil in E as [_ E]. by apply format_int_nonempty in E. }
  rewrite <-E, parse_zeros, parse_format_int by lia. z_cases.
Qed.

Lemma trim_suffix_app s suf : trim_suffix suf (s ++ suf) = s.
Proof.
  unfold trim_suffix, has_suffix. rewrite length_app, Nat.add_sub, drop_app_length.
  rewrite bool_decide_eq_true_2 by done. rewrite (proj2 (Nat.leb_le _ _)) by lia. simpl.
  by rewrite take_app_length.
Qed.

Lemma has_suffix_app s suf : has_suffix suf (s ++ suf) = true.
Proof.
  unfold has_suffix. rewrite length_app, Nat.add_sub, drop_app_length.
  rewrite bool_decide_eq_true_2 by done. rewrite (proj2 (Nat.leb_le _ _)) by lia. done.
Qed.

Lemma lxor_u32 a b : in_u32 a -> in_u32 b -> in_u32 (Z.lxor a b).
Proof.
  unfold in_u32. intros Ha Hb.
  assert (0 <= Z.lxor a b) by (apply Z.lxor_nonneg; lia). split; [done|].
  destruct (decide (Z.lxor a b = 0)) as [->|Hne]; [lia|].
  apply Z.log2_lt_pow2; [lia|]. eapply Z.le_lt_trans; [apply Z.log2_lxor; lia|].
  assert (forall z, 0 <= z < 2^32 -> Z.log2 z < 32) as Hl.
  { intros z Hz. destruct (decide (z = 0)) as [->|]; [done|]. apply Z.log2_lt_pow2; lia. }
  apply Z.max_lub_lt; by apply Hl.
Qed.

Lemma crc32_bits_range n c : in_u32 c -> in_u32 (crc32_bits n c).
Proof.
  revert c. induction n as [|n IH]; intros c Hc; simpl; [done|]. apply IH.
  assert (in_u32 (Z.shiftr c 1)) as Hs.
  { unfold in_u32 in *. rewrite Z.shiftr_div_pow2 by lia.
    split; [apply Z.div_pos; lia|]. apply Z.div_lt_upper_bound; lia. }
  destruct (Z.odd c); [|done]. by apply lxor_u32.
Qed.

Lemma crc32_ieee_range data : bytes_ok data -> in_u32 (crc32_ieee data).
Proof.
  intros Hd. unfold crc32_ieee. apply lxor_u32; [|done].
  assert (in_u32 4294967295) as H by done. revert H. generalize 4294967295.
  induction Hd as [|x data Hx _ IH]; intros c Hc; simpl; [done|]. apply IH.
  apply crc32_bits_range, lxor_u32; [done|]. unfold in_u8, in_u32 in *. lia.
Qed.

#[global] Arguments crc32_ieee : simpl never.

Lemma parse_digits_nonneg s : forall acc n, 0 <= acc -> parse_digits acc s = Some n -> 0 <= n.
Proof.
  induction s as [|c s IH]; intros acc n Ha; simpl; [by intros [= <-]|].
  destruct (is_digit c) eqn:E; [|done]. apply IH. unfold is_digit in E.
  apply andb_true_iff in E as [?%Z.leb_le ?%Z.leb_le]. lia.
Qed.

Lemma parse_uint_range bits s n : parse_uint bits s = Some n -> 0 <= n < 2 ^ bits.
Proof.
  unfold parse_uint. destruct s as [|c s]; [done|].
  destruct (parse_digits 0 (c :: s)) as [m|] eqn:E; [|done].
  z_case; [|done]. intros [= <-]. apply parse_digits_nonneg in E; lia.
Qed.
