(* ===== verification/Fragment.v ===== *)
(** * Fragments and their encoding (src/index/fragment.go, src/segment/segment.go)

    A fragment names a run of bytes of a file and where they lie in a segment.
    This file has the data, the 40-byte encoding, and its round trips. *)

From S2P Require Import Prelude.

(** [segment.Tier] is a [uint8]; a decoded byte can be any value. *)
Definition TierHot : Z := 1.
Definition TierCold : Z := 2.
Definition TierMem : Z := 3.

Definition Tier_String (t : Z) : string :=
  if t =? TierHot then "hot"%string
  else if t =? TierCold then "cold"%string
  else if t =? TierMem then "mem"%string
  else "tier"%string.

(** [segment.Locator]. *)
Record Locator : Type := mkLocator {
  loc_Tier : Z;
  loc_SegmentID : Z;
  loc_Offset : Z;
  loc_Length : Z;
}.

Record Fragment : Type := mkFragment {
  fr_Seq : Z;            (* uint64 *)
  fr_LogicalOff : Z;     (* int64 *)
  fr_Length : Z;         (* int64 *)
  fr_Tier : Z;           (* uint8 *)
  fr_SegmentID : Z;      (* uint32 *)
  fr_SegmentOffset : Z;  (* int64 *)
}.

#[global] Instance Locator_eq_dec : EqDecision Locator.
Proof. solve_decision. Defined.
#[global] Instance Fragment_eq_dec : EqDecision Fragment.
Proof. solve_decision. Defined.

Definition fragmentEncodedSize : Z := 40.

(** The 40 bytes [encodeFragmentInto] writes. *)
Definition encodeFragmentInto (f : Fragment) : bytes :=
  put_le 8 (fr_Seq f) ++
  put_le 8 (u64 (fr_LogicalOff f)) ++
  put_le 8 (u64 (fr_Length f)) ++
  [fr_Tier f; 0; 0; 0] ++
  put_le 4 (fr_SegmentID f) ++
  put_le 8 (u64 (fr_SegmentOffset f)).

Definition decodeFragment (buf : bytes) : Fragment := {|
  fr_Seq := get_le (slice buf 0 8);
  fr_LogicalOff := i64 (get_le (slice buf 8 16));
  fr_Length := i64 (get_le (slice buf 16 24));
  fr_Tier := get_le (slice buf 24 25);
  fr_SegmentID := get_le (slice buf 28 32);
  fr_SegmentOffset := i64 (get_le (slice buf 32 40));
|}.

Definition encodeFragments (frags : list Fragment) : bytes :=
  concat (encodeFragmentInto <$> frags).

(** [n := len(buf) / 40] records; a shorter tail is ignored. *)
Definition decodeFragments (buf : bytes) : list Fragment :=
  (fun i => decodeFragment (drop (i * 40) buf)) <$> seq 0 (Z.to_nat (blen buf / fragmentEncodedSize)).

(** [decodeFragments(v)[0]]: panics when the value holds no record. *)
Definition decodeFragments_0 (buf : bytes) : outcome Fragment :=
  match decodeFragments buf with f :: _ => Ok f | [] => Panic end.

(** [sameFragments]: element-wise comparison (unused by the program). *)
Fixpoint sameFragments (a b : list Fragment) : bool :=
  match a, b with
  | [], [] => true
  | x :: a, y :: b => bool_decide (x = y) && sameFragments a b
  | _, _ => false
  end.

(** Every field fits its Go type. *)
Definition fragment_typed (f : Fragment) : Prop :=
  in_u64 (fr_Seq f) /\ in_i64 (fr_LogicalOff f) /\ in_i64 (fr_Length f) /\
  in_u8 (fr_Tier f) /\ in_u32 (fr_SegmentID f) /\ in_i64 (fr_SegmentOffset f).

(** A fragment as the index writes them: a non-empty run at non-negative
    offsets whose ends fit an [int64]. *)
Definition fragment_ok (f : Fragment) : Prop :=
  in_u64 (fr_Seq f) /\ 0 <= fr_LogicalOff f /\ 0 < fr_Length f /\
  fr_LogicalOff f + fr_Length f < 2^63 /\
  in_u8 (fr_Tier f) /\ in_u32 (fr_SegmentID f) /\
  0 <= fr_SegmentOffset f /\ fr_SegmentOffset f + fr_Length f < 2^63.

(** ** Lemmas *)

Lemma fragment_ok_typed f : fragment_ok f -> fragment_typed f.
Proof. unfold fragment_ok, fragment_typed, in_i64. intuition lia. Qed.
#[export] Hint Resolve fragment_ok_typed : ints.

Lemma blen_encodeFragmentInto f : blen (encodeFragmentInto f) = 40.
Proof. unfold encodeFragmentInto. blen_tac. Qed.

Lemma encodeFragmentInto_ok f : in_u8 (fr_Tier f) -> bytes_ok (encodeFragmentInto f).
Proof.
  intros Ht. unfold encodeFragmentInto, bytes_ok. rewrite !Forall_app.
  split_and!; try apply put_le_ok. rewrite !Forall_cons. by split_and!.
Qed.

Lemma decode_encodeFragment f r :
  fragment_typed f -> decodeFragment (encodeFragmentInto f ++ r) = f.
Proof.
  intros (Hs & Hl & Hn & Ht & Hg & Ho). destruct f as [sq lo ln ti sg so].
  unfold decodeFragment, encodeFragmentInto.
  cbn [fr_Seq fr_LogicalOff fr_Length fr_Tier fr_SegmentID fr_SegmentOffset] in *.
  rewrite <-!app_assoc.
  f_equal; slice_tac; rewrite ?get_put_le_i64, ?get_put_le_u64, ?get_put_le_u32 by done; try done.
  simpl. lia.
Qed.

Lemma blen_encodeFragments fs : blen (encodeFragments fs) = 40 * blen fs.
Proof.
  unfold encodeFragments. induction fs as [|f fs IH]; [done|].
  rewrite fmap_cons. cbn [concat]. rewrite blen_app, IH, blen_encodeFragmentInto, blen_cons. lia.
Qed.

Lemma drop_encodeFragments fs i :
  drop (i * 40) (encodeFragments fs) = encodeFragments (drop i fs).
Proof.
  revert i. unfold encodeFragments. induction fs as [|f fs IH]; intros [|i]; [by rewrite drop_nil..|done|].
  rewrite fmap_cons. cbn [concat]. cbn [drop].
  assert (length (encodeFragmentInto f) = 40%nat) as Hl.
  { pose proof (blen_encodeFragmentInto f). unfold blen in *. lia. }
  replace (S i * 40)%nat with (length (encodeFragmentInto f) + i * 40)%nat by lia.
  rewrite <-drop_drop, drop_app_length. apply IH.
Qed.

Lemma decode_encodeFragments fs :
  Forall fragment_typed fs -> decodeFragments (encodeFragments fs) = fs.
Proof.
  intros Hf. unfold decodeFragments. rewrite blen_encodeFragments. unfold fragmentEncodedSize.
  replace (40 * blen fs / 40) with (blen fs) by (Z.to_euclidean_division_equations; lia).
  unfold blen. rewrite Nat2Z.id. apply list_eq. intros i. rewrite list_lookup_fmap.
  destruct (fs !! i) as [f|] eqn:E.
  - rewrite lookup_seq_lt by (by eapply lookup_lt_Some). simpl. f_equal.
    rewrite drop_encodeFragments, (drop_S _ _ _ E). unfold encodeFragments.
    rewrite fmap_cons. cbn [concat]. apply decode_encodeFragment. by eapply Forall_lookup_1.
  - rewrite lookup_seq_ge; [done|]. by apply lookup_ge_None.
Qed.

Lemma encodeFragments_ok fs : Forall fragment_typed fs -> bytes_ok (encodeFragments fs).
Proof.
  unfold encodeFragments. induction 1 as [|f fs Hf _ IH]; [constructor|].
  rewrite fmap_cons. cbn [concat]. apply Forall_app. split; [|done].
  apply encodeFragmentInto_ok. by destruct Hf as (?&?&?&?&?).
Qed.

(** The value the index stores under a fragment key: one record. *)
Lemma decode_single f : fragment_typed f -> decodeFragments (encodeFragments [f]) = [f].
Proof. intros. apply decode_encodeFragments. by constructor. Qed.

Lemma decode_single_0 f : fragment_typed f -> decodeFragments_0 (encodeFragments [f]) = Ok f.
Proof. intros. unfold decodeFragments_0. by rewrite decode_single. Qed.

(** ** Properties *)

(** encoding a list of fragments and decoding it gives the list back, for
    every value of the Go field types; a fragment takes exactly 40 bytes, each
    a byte. *)
Theorem fragments_roundtrip fs :
  Forall fragment_typed fs ->
  decodeFragments (encodeFragments fs) = fs /\
  blen (encodeFragments fs) = fragmentEncodedSize * blen fs /\
  bytes_ok (encodeFragments fs).
Proof.
  intros Hf. split_and!; [by apply decode_encodeFragments|apply blen_encodeFragments|
    by apply encodeFragments_ok].
Qed.

Lemma fragments_roundtrip_witness :
  let fs := [mkFragment (2^64 - 1) (-5) 1024 TierHot 5 4096] in
  Forall fragment_typed fs /\ decodeFragments (encodeFragments fs) = fs.
Proof.
  intros fs. assert (Forall fragment_typed fs) as H by (repeat constructor; by compute).
  split; [exact H|]. exact (proj1 (fragments_roundtrip fs H)).
Defined.
