(* ===== verification/Plan.v ===== *)
(** * Read planning (src/index/fragment.go)

    [planRead] decides, byte for byte, which fragment serves a read, newer
    sequence numbers shadowing older ones; [canonicalView] computes the live
    runs of a stripe.  Both walk the fragments in descending [Seq] order and
    subtract each from a list of still-uncovered intervals.

    The specification is [newest]: the fragment with the greatest [Seq] among
    those that cover a byte.  The proof goes through [cut_cells], an ordered
    list of cells that tile the range: the uncovered intervals are the cells
    with no owner, and what the loops emit are the owned ones. *)

From S2P Require Import Prelude Fragment.

Record ReadSlice : Type := mkReadSlice {
  rs_LogicalOff : Z;
  rs_Length : Z;
  rs_Sparse : bool;
  rs_Locator : Locator;
}.

#[global] Instance ReadSlice_eq_dec : EqDecision ReadSlice.
Proof. solve_decision. Defined.

Definition zeroLocator : Locator := mkLocator 0 0 0 0.

Definition ivl : Type := Z * Z.

(** [sort.Slice(sorted, ... Seq > ... Seq)]: [sort.Slice] promises a sorted
    permutation; which one, when two keys are equal, is unspecified. *)
Definition seq_ge (a b : Fragment) : Prop := fr_Seq b <= fr_Seq a.
Definition off_le (a b : ReadSlice) : Prop := rs_LogicalOff a <= rs_LogicalOff b.
Definition fr_off_le (a b : Fragment) : Prop := fr_LogicalOff a <= fr_LogicalOff b.

#[global] Instance seq_ge_dec a b : Decision (seq_ge a b).
Proof. unfold seq_ge. apply _. Defined.
#[global] Instance off_le_dec a b : Decision (off_le a b).
Proof. unfold off_le. apply _. Defined.
#[global] Instance fr_off_le_dec a b : Decision (fr_off_le a b).
Proof. unfold fr_off_le. apply _. Defined.

Definition sort_desc (frags : list Fragment) : list Fragment := merge_sort seq_ge frags.

Section Cover.
(** What the loop appends for the part [ovStart, ovEnd) of fragment [f]: a
    [ReadSlice] in [planRead], a [Fragment] in [canonicalView].  The two
    loops are otherwise the same text. *)
Context {A : Type} (emit : Fragment -> Z -> Z -> A).

(** One uncovered interval [u] against fragment [f]: [acc] is
    ([slices], [next]). *)
Definition cover_step (f : Fragment) (acc : list A * list ivl) (u : ivl) : list A * list ivl :=
  let '(slices, next) := acc in
  let fStart := fr_LogicalOff f in
  let fEnd := i64 (fr_LogicalOff f + fr_Length f) in
  let '(ustart, uend) := u in
  if (fEnd <=? ustart) || (uend <=? fStart) then (slices, next ++ [u])
  else
    let ovStart := if fStart <? ustart then ustart else fStart in
    let ovEnd := if uend <? fEnd then uend else fEnd in
    let slices := slices ++ [emit f ovStart ovEnd] in
    let next := if ustart <? ovStart then next ++ [(ustart, ovStart)] else next in
    let next := if ovEnd <? uend then next ++ [(ovEnd, uend)] else next in
    (slices, next).

(** The loop over the sorted fragments, left as soon as nothing is
    uncovered. *)
Fixpoint cover_loop (sorted : list Fragment) (slices : list A) (uncovered : list ivl)
    : list A * list ivl :=
  match sorted with
  | [] => (slices, uncovered)
  | f :: rest =>
      match uncovered with
      | [] => (slices, uncovered)
      | _ =>
          let '(slices', next) := foldl (cover_step f) (slices, []) uncovered in
          cover_loop rest slices' next
      end
  end.
End Cover.

Definition plan_emit (f : Fragment) (ovStart ovEnd : Z) : ReadSlice :=
  let n := i64 (ovEnd - ovStart) in
  {| rs_LogicalOff := ovStart; rs_Length := n; rs_Sparse := false;
     rs_Locator :=
       {| loc_Tier := fr_Tier f; loc_SegmentID := fr_SegmentID f;
          loc_Offset := i64 (fr_SegmentOffset f + i64 (ovStart - fr_LogicalOff f));
          loc_Length := n |} |}.

Definition sparse_slice (u : ivl) : ReadSlice :=
  {| rs_LogicalOff := u.1; rs_Length := i64 (u.2 - u.1); rs_Sparse := true;
     rs_Locator := zeroLocator |}.

(** [planRead] after the first sort. *)
Definition plan_sorted (sorted : list Fragment) (readOff readLen : Z) : list ReadSlice :=
  let '(slices, uncovered) :=
    cover_loop plan_emit sorted [] [(readOff, i64 (readOff + readLen))] in
  merge_sort off_le (slices ++ (sparse_slice <$> uncovered)).

Definition planRead (frags : list Fragment) (readOff readLen : Z) : list ReadSlice :=
  if readLen <=? 0 then [] else plan_sorted (sort_desc frags) readOff readLen.

Definition PlanRead := planRead.

Definition view_emit (f : Fragment) (ovStart ovEnd : Z) : Fragment :=
  {| fr_Seq := fr_Seq f; fr_LogicalOff := ovStart; fr_Length := i64 (ovEnd - ovStart);
     fr_Tier := fr_Tier f; fr_SegmentID := fr_SegmentID f;
     fr_SegmentOffset := i64 (fr_SegmentOffset f + i64 (ovStart - fr_LogicalOff f)) |}.

(** The initial range of [canonicalView]: the union of all extents. *)
Definition view_bounds (f0 : Fragment) (rest : list Fragment) : Z * Z :=
  foldl (fun '(minOff, maxEnd) f =>
      let minOff := if fr_LogicalOff f <? minOff then fr_LogicalOff f else minOff in
      let e := i64 (fr_LogicalOff f + fr_Length f) in
      let maxEnd := if maxEnd <? e then e else maxEnd in
      (minOff, maxEnd))
    (fr_LogicalOff f0, i64 (fr_LogicalOff f0 + fr_Length f0)) rest.

(** [canonicalView] after the first sort. *)
Definition view_sorted (sorted : list Fragment) : list Fragment :=
  match sorted with
  | [] => []
  | f0 :: rest =>
      let '(minOff, maxEnd) := view_bounds f0 rest in
      let '(out, _) := cover_loop view_emit sorted [] [(minOff, maxEnd)] in
      merge_sort fr_off_le out
  end.

Definition canonicalView (frags : list Fragment) : list Fragment := view_sorted (sort_desc frags).

(** ** Specification *)

Definition covers (f : Fragment) (x : Z) : bool :=
  (fr_LogicalOff f <=? x) && (x <? fr_LogicalOff f + fr_Length f).

(** The fragment that serves byte [x]: the newest that covers it. *)
Fixpoint newest (frags : list Fragment) (x : Z) : option Fragment :=
  match frags with
  | [] => None
  | f :: r =>
      match newest r x with
      | None => if covers f x then Some f else None
      | Some g => if covers f x && (fr_Seq g <? fr_Seq f) then Some f else Some g
      end
  end.

(** Where byte [x] physically lies: tier, segment and offset. *)
Definition source : Type := Z * Z * Z.

Definition fragment_source (f : Fragment) (x : Z) : source :=
  (fr_Tier f, fr_SegmentID f, fr_SegmentOffset f + (x - fr_LogicalOff f)).

Definition source_of (frags : list Fragment) (x : Z) : option source :=
  (fun f => fragment_source f x) <$> newest frags x.

Definition slice_source (sl : ReadSlice) (x : Z) : option source :=
  if rs_Sparse sl then None
  else Some (loc_Tier (rs_Locator sl), loc_SegmentID (rs_Locator sl),
             loc_Offset (rs_Locator sl) + (x - rs_LogicalOff sl)).

(** Slices that follow each other without gap or overlap from [lo] to [hi]. *)
Fixpoint tiles (l : list ReadSlice) (lo hi : Z) : Prop :=
  match l with
  | [] => lo = hi
  | s :: r => rs_LogicalOff s = lo /\ 0 < rs_Length s /\ tiles r (lo + rs_Length s) hi
  end.

(** Runs in increasing order that do not overlap. *)
Definition disjoint_runs (l : list Fragment) : Prop :=
  StronglySorted (fun a b => fr_LogicalOff a + fr_Length a <= fr_LogicalOff b) l.

(** [g] is a part of [f]: same bytes of the same segment, same [Seq]. *)
Definition run_of (f g : Fragment) : Prop :=
  fr_Seq g = fr_Seq f /\ fr_Tier g = fr_Tier f /\ fr_SegmentID g = fr_SegmentID f /\
  fr_LogicalOff f <= fr_LogicalOff g /\ 0 < fr_Length g /\
  fr_LogicalOff g + fr_Length g <= fr_LogicalOff f + fr_Length f /\
  fr_SegmentOffset g = fr_SegmentOffset f + (fr_LogicalOff g - fr_LogicalOff f).

(** Fragments that overlap have different sequence numbers. *)
Definition seqs_distinct (frags : list Fragment) : Prop :=
  forall f g x, f ∈ frags -> g ∈ frags -> covers f x = true -> covers g x = true ->
    fr_Seq f = fr_Seq g -> f = g.

(** ** The reference computation: an ordered list of cells *)

Record cell : Type := mkCell { c_lo : Z; c_hi : Z; c_owner : option Fragment }.

Definition cut_cell (f : Fragment) (c : cell) : list cell :=
  match c_owner c with
  | Some _ => [c]
  | None =>
      let fs := fr_LogicalOff f in
      let fe := fr_LogicalOff f + fr_Length f in
      if (fe <=? c_lo c) || (c_hi c <=? fs) then [c]
      else
        let s := Z.max fs (c_lo c) in
        let e := Z.min fe (c_hi c) in
        (if c_lo c <? s then [mkCell (c_lo c) s None] else []) ++
        [mkCell s e (Some f)] ++
        (if e <? c_hi c then [mkCell e (c_hi c) None] else [])
  end.

Definition cut_cells (sorted : list Fragment) (cells : list cell) : list cell :=
  foldl (fun cs f => concat (cut_cell f <$> cs)) cells sorted.

Fixpoint cells_tile (cs : list cell) (lo hi : Z) : Prop :=
  match cs with
  | [] => lo = hi
  | c :: r => c_lo c = lo /\ c_lo c < c_hi c /\ cells_tile r (c_hi c) hi
  end.

Fixpoint find_first (sorted : list Fragment) (x : Z) : option Fragment :=
  match sorted with
  | [] => None
  | f :: r => if covers f x then Some f else find_first r x
  end.

(** ** Lemmas: cells *)

Definition cuts (f : Fragment) (cs : list cell) : list cell := concat (cut_cell f <$> cs).

Lemma cuts_cons f c cs : cuts f (c :: cs) = cut_cell f c ++ cuts f cs.
Proof. done. Qed.

Lemma cut_cells_cons f fs cs : cut_cells (f :: fs) cs = cut_cells fs (cuts f cs).
Proof. done. Qed.

Lemma cells_tile_app a b lo hi :
  cells_tile (a ++ b) lo hi <-> exists mid, cells_tile a lo mid /\ cells_tile b mid hi.
Proof.
  revert lo. induction a as [|c a IH]; intros lo; simpl.
  - split; [by exists lo|]. by intros (mid & -> & ?).
  - rewrite IH. naive_solver.
Qed.

Lemma cells_tile_bounds cs lo hi c :
  cells_tile cs lo hi -> c ∈ cs -> lo <= c_lo c /\ c_lo c < c_hi c /\ c_hi c <= hi.
Proof.
  revert lo. induction cs as [|d cs IH]; intros lo; simpl; [by intros _ ?%elem_of_nil|].
  intros (Hlo & Hlt & Ht) [->|Hin]%elem_of_cons.
  - assert (c_hi d <= hi); [|lia]. clear -Ht. revert Ht. generalize (c_hi d).
    induction cs as [|e cs IH]; simpl; intros z; [lia|]. intros (? & ? & ?%IH). lia.
  - specialize (IH _ Ht Hin). lia.
Qed.

Lemma cut_cell_tile f c :
  fragment_ok f -> c_lo c < c_hi c -> cells_tile (cut_cell f c) (c_lo c) (c_hi c).
Proof.
  intros (_ & _ & Hlen & _) Hc. unfold cut_cell. destruct (c_owner c); [done|].
  destruct (Z.leb_spec (fr_LogicalOff f + fr_Length f) (c_lo c)); [done|].
  destruct (Z.leb_spec (c_hi c) (fr_LogicalOff f)); [done|]. simpl.
  destruct (Z.ltb_spec (c_lo c) (Z.max (fr_LogicalOff f) (c_lo c)));
    destruct (Z.ltb_spec (Z.min (fr_LogicalOff f + fr_Length f) (c_hi c)) (c_hi c));
    simpl; split_and!; lia.
Qed.

Lemma cuts_tile f cs lo hi :
  fragment_ok f -> cells_tile cs lo hi -> cells_tile (cuts f cs) lo hi.
Proof.
  intros Hf. revert lo. induction cs as [|c cs IH]; intros lo; [done|].
  simpl. intros (<- & Hlt & Ht). rewrite cuts_cons, cells_tile_app.
  exists (c_hi c). split; [by apply cut_cell_tile|by apply IH].
Qed.

Lemma cut_cells_tile fs cs lo hi :
  Forall fragment_ok fs -> cells_tile cs lo hi -> cells_tile (cut_cells fs cs) lo hi.
Proof.
  intros Hfs. revert cs. induction Hfs as [|f fs Hf _ IH]; intros cs Ht; [done|].
  rewrite cut_cells_cons. by apply IH, cuts_tile.
Qed.

Lemma find_first_snoc d f x :
  find_first (d ++ [f]) x =
    match find_first d x with
    | Some g => Some g
    | None => if covers f x then Some f else None
    end.
Proof.
  induction d as [|g d IH]; simpl; [done|]. by destruct (covers g x).
Qed.

Definition cells_owned (done : list Fragment) (cs : list cell) : Prop :=
  forall c x, c ∈ cs -> c_lo c <= x < c_hi c -> c_owner c = find_first done x.

Lemma covers_true f x :
  covers f x = true <-> fr_LogicalOff f <= x < fr_LogicalOff f + fr_Length f.
Proof. unfold covers. rewrite andb_true_iff, Z.leb_le, Z.ltb_lt. lia. Qed.

Lemma covers_false f x :
  covers f x = false <-> x < fr_LogicalOff f \/ fr_LogicalOff f + fr_Length f <= x.
Proof. rewrite <-not_true_iff_false, covers_true. lia. Qed.

(** The parts of a cell after a cut: their owner at every byte. *)
Lemma cut_cell_owner f c c' x :
  c' ∈ cut_cell f c -> c_lo c' <= x < c_hi c' ->
  c_lo c <= x < c_hi c /\
  c_owner c' = match c_owner c with
               | Some g => Some g
               | None => if covers f x then Some f else None
               end.
Proof.
  unfold cut_cell. intros Hin Hx. destruct (c_owner c) as [g|] eqn:Eo.
  { apply list_elem_of_singleton in Hin as ->. by rewrite Eo. }
  destruct (Z.leb_spec (fr_LogicalOff f + fr_Length f) (c_lo c)) as [|H1]; simpl in Hin.
  { apply list_elem_of_singleton in Hin as ->. rewrite Eo. split; [done|].
    by rewrite (proj2 (covers_false f x)) by lia. }
  destruct (Z.leb_spec (c_hi c) (fr_LogicalOff f)) as [|H2].
  { apply list_elem_of_singleton in Hin as ->. rewrite Eo. split; [done|].
    by rewrite (proj2 (covers_false f x)) by lia. }
  rewrite elem_of_app, elem_of_cons in Hin.
  destruct Hin as [Hin|[->|Hin]]; simpl in Hx |- *.
  - destruct (_ <? _); [|by apply elem_of_nil in Hin].
    apply list_elem_of_singleton in Hin as ->. simpl in *. split; [lia|].
    by rewrite (proj2 (covers_false f x)) by lia.
  - split; [lia|]. by rewrite (proj2 (covers_true f x)) by lia.
  - destruct (_ <? _); [|by apply elem_of_nil in Hin].
    apply list_elem_of_singleton in Hin as ->. simpl in *. split; [lia|].
    by rewrite (proj2 (covers_false f x)) by lia.
Qed.

Lemma elem_of_cuts f cs c' : c' ∈ cuts f cs <-> exists c, c ∈ cs /\ c' ∈ cut_cell f c.
Proof.
  unfold cuts. induction cs as [|d cs IH]; simpl.
  - split; [by intros ?%elem_of_nil|]. by intros (? & ?%elem_of_nil & ?).
  - rewrite elem_of_app, IH. setoid_rewrite elem_of_cons. naive_solver.
Qed.

Lemma cuts_owned d f cs : cells_owned d cs -> cells_owned (d ++ [f]) (cuts f cs).
Proof.
  intros Ho c' x Hin Hx. apply elem_of_cuts in Hin as (c & Hc & Hc').
  destruct (cut_cell_owner _ _ _ _ Hc' Hx) as [Hx' ->].
  by rewrite find_first_snoc, <-(Ho c x Hc Hx').
Qed.

Lemma cut_cells_owned d fs cs :
  cells_owned d cs -> cells_owned (d ++ fs) (cut_cells fs cs).
Proof.
  revert d cs. induction fs as [|f fs IH]; intros d cs Ho; [by rewrite app_nil_r|].
  rewrite cut_cells_cons, cons_middle, app_assoc. apply IH. by apply cuts_owned.
Qed.

(** ** Lemmas: the loops compute the cells *)

Definition open (cs : list cell) : list ivl :=
  omap (fun c => match c_owner c with Some _ => None | None => Some (c_lo c, c_hi c) end) cs.

Lemma open_cons c cs :
  open (c :: cs) = match c_owner c with Some _ => open cs | None => (c_lo c, c_hi c) :: open cs end.
Proof. unfold open. simpl. by destruct (c_owner c). Qed.

Section CoverLemmas.
Context {A : Type} (emit : Fragment -> Z -> Z -> A).

Definition emitted (cs : list cell) : list A :=
  omap (fun c => match c_owner c with
                 | Some g => Some (emit g (c_lo c) (c_hi c)) | None => None end) cs.

Lemma emitted_cons c cs :
  emitted (c :: cs) =
    match c_owner c with
    | Some g => emit g (c_lo c) (c_hi c) :: emitted cs
    | None => emitted cs
    end.
Proof. unfold emitted. simpl. by destruct (c_owner c). Qed.

Definition cell_small (c : cell) : Prop := 0 <= c_lo c /\ c_lo c < c_hi c /\ c_hi c < 2^63.

Lemma cover_step_cut f c sl nx :
  fragment_ok f -> cell_small c -> c_owner c = None ->
  cover_step emit f (sl, nx) (c_lo c, c_hi c) =
    (sl ++ emitted (cut_cell f c), nx ++ open (cut_cell f c)).
Proof.
  intros (_ & Hoff & Hlen & Hend & _) Hc Ho. unfold cell_small in Hc.
  unfold cover_step, cut_cell. rewrite Ho. i64_simpl.
  destruct (Z.leb_spec (fr_LogicalOff f + fr_Length f) (c_lo c)) as [|H1]; simpl.
  { unfold emitted, open. simpl. rewrite Ho. by rewrite app_nil_r. }
  destruct (Z.leb_spec (c_hi c) (fr_LogicalOff f)) as [|H2].
  { unfold emitted, open. simpl. rewrite Ho. by rewrite app_nil_r. }
  assert ((if fr_LogicalOff f <? c_lo c then c_lo c else fr_LogicalOff f) =
          Z.max (fr_LogicalOff f) (c_lo c)) as ->
    by (destruct (Z.ltb_spec (fr_LogicalOff f) (c_lo c)); lia).
  assert ((if c_hi c <? fr_LogicalOff f + fr_Length f then c_hi c
           else fr_LogicalOff f + fr_Length f) =
          Z.min (fr_LogicalOff f + fr_Length f) (c_hi c)) as ->
    by (destruct (Z.ltb_spec (c_hi c) (fr_LogicalOff f + fr_Length f)); lia).
  unfold emitted, open. repeat case_match; simpl; by rewrite <-?app_assoc, ?app_nil_r.
Qed.

Lemma emitted_app a b : emitted (a ++ b) = emitted a ++ emitted b.
Proof. apply omap_app. Qed.

Lemma open_app a b : open (a ++ b) = open a ++ open b.
Proof. apply omap_app. Qed.

(** One pass of the inner loop. *)
Lemma cover_pass f cs sl nx :
  fragment_ok f -> Forall cell_small cs ->
  exists new,
    foldl (cover_step emit f) (sl, nx) (open cs) = (sl ++ new, nx ++ open (cuts f cs)) /\
    emitted (cuts f cs) ≡ₚ emitted cs ++ new.
Proof.
  intros Hf Hcs. revert sl nx. induction Hcs as [|c cs Hc _ IH]; intros sl nx.
  { exists []. by rewrite !app_nil_r. }
  rewrite cuts_cons, emitted_app, open_app.
  destruct (c_owner c) as [g|] eqn:Eo.
  - destruct (IH sl nx) as (new & E1 & E2). exists new.
    assert (cut_cell f c = [c]) as -> by (unfold cut_cell; by rewrite Eo).
    rewrite !open_cons, !emitted_cons, Eo. simpl. by rewrite E2.
  - destruct (IH (sl ++ emitted (cut_cell f c)) (nx ++ open (cut_cell f c)))
      as (new & E1 & E2).
    exists (emitted (cut_cell f c) ++ new).
    rewrite open_cons, emitted_cons, Eo.
    cbn [foldl]. rewrite cover_step_cut, E1, <-!app_assoc by done. split; [done|].
    rewrite E2. rewrite !app_assoc. by rewrite (Permutation_app_comm (emitted (cut_cell f c))).
Qed.

Lemma cuts_all_owned f cs : open cs = [] -> cuts f cs = cs.
Proof.
  induction cs as [|c cs IH]; [done|]. rewrite open_cons. destruct (c_owner c) eqn:Eo; [|done].
  intros H. rewrite cuts_cons, IH by done. unfold cut_cell. by rewrite Eo.
Qed.

Lemma cut_cells_all_owned fs cs : open cs = [] -> cut_cells fs cs = cs.
Proof.
  induction fs as [|f fs IH]; [done|]. intros H. rewrite cut_cells_cons.
  by rewrite cuts_all_owned, IH.
Qed.

Lemma cover_loop_cells fs cs sl lo hi :
  Forall fragment_ok fs -> cells_tile cs lo hi -> 0 <= lo -> hi < 2^63 ->
  sl ≡ₚ emitted cs ->
  exists sl', cover_loop emit fs sl (open cs) = (sl', open (cut_cells fs cs)) /\
    sl' ≡ₚ emitted (cut_cells fs cs).
Proof.
  intros Hfs. revert cs sl. induction Hfs as [|f fs Hf _ IH]; intros cs sl Ht Hlo Hhi Hsl.
  { by exists sl. }
  assert (Forall cell_small cs) as Hsm.
  { apply Forall_forall. intros c Hc. pose proof (cells_tile_bounds _ _ _ _ Ht Hc).
    unfold cell_small. lia. }
  rewrite cut_cells_cons. simpl. destruct (open cs) as [|u us] eqn:Eop.
  { exists sl. rewrite cuts_all_owned, cut_cells_all_owned by done. by rewrite Eop. }
  rewrite <-Eop. destruct (cover_pass f cs sl [] Hf Hsm) as (new & -> & E2).
  simpl app. apply IH; [by apply cuts_tile|done|done|].
  by rewrite E2, Hsl.
Qed.
End CoverLemmas.

(** ** Lemmas: the newest fragment *)

Lemma newest_Some frags x f :
  newest frags x = Some f ->
  f ∈ frags /\ covers f x = true /\
  forall g, g ∈ frags -> covers g x = true -> fr_Seq g <= fr_Seq f.
Proof.
  revert f. induction frags as [|h r IH]; intros f; simpl; [done|].
  destruct (newest r x) as [g|] eqn:En.
  - destruct (IH g eq_refl) as (Hin & Hcov & Hmax).
    destruct (covers h x) eqn:Ec; simpl;
      [destruct (Z.ltb_spec (fr_Seq g) (fr_Seq h)) as [Hlt|Hge]|]; intros [= <-].
    + split_and!; [left|done|]. intros k [->|Hk]%elem_of_cons Hkc; [lia|].
      specialize (Hmax k Hk Hkc). lia.
    + split_and!; [by right|done|]. intros k [->|Hk]%elem_of_cons Hkc; [lia|auto].
    + split_and!; [by right|done|]. intros k [->|Hk]%elem_of_cons Hkc; [congruence|auto].
  - destruct (covers h x) eqn:Ec; intros [= <-]. split_and!; [left|done|].
    intros k [->|Hk]%elem_of_cons Hkc; [lia|].
    exfalso. clear IH. induction r as [|a r IHr]; [by apply elem_of_nil in Hk|].
    simpl in En. destruct (newest r x) as [b|] eqn:Eb.
    { by destruct (covers a x && _). }
    destruct (covers a x) eqn:Ea; [done|].
    apply elem_of_cons in Hk as [->|Hk]; [congruence|by apply IHr].
Qed.

Lemma newest_None frags x :
  newest frags x = None <-> forall g, g ∈ frags -> covers g x = false.
Proof.
  induction frags as [|h r IH]; simpl; [by split; [intros _ g ?%elem_of_nil|]|].
  setoid_rewrite elem_of_cons. destruct (newest r x) as [g|] eqn:En.
  - split; [by destruct (covers h x && _)|]. intros Hf.
    destruct IH as [_ IH]. discriminate IH. intros k Hk. apply Hf. by right.
  - destruct (covers h x) eqn:Ec.
    + split; [done|]. intros Hf. specialize (Hf h (or_introl eq_refl)). congruence.
    + split; [|done]. intros _ k [->|Hk]; [done|]. by apply IH.
Qed.

(** [newest] depends on the set of fragments only. *)
Lemma newest_unique frags x f :
  seqs_distinct frags -> f ∈ frags -> covers f x = true ->
  (forall g, g ∈ frags -> covers g x = true -> fr_Seq g <= fr_Seq f) ->
  newest frags x = Some f.
Proof.
  intros Hd Hin Hc Hmax. destruct (newest frags x) as [g|] eqn:E.
  - destruct (newest_Some _ _ _ E) as (Hg & Hgc & Hgm). f_equal.
    apply (Hd g f x); [done..|]. specialize (Hgm f Hin Hc). specialize (Hmax g Hg Hgc). lia.
  - rewrite newest_None in E. by rewrite E in Hc.
Qed.

Lemma newest_equiv frags frags' x :
  seqs_distinct frags -> (forall f, f ∈ frags <-> f ∈ frags') -> newest frags x = newest frags' x.
Proof.
  intros Hd Heq. destruct (newest frags' x) as [f|] eqn:E.
  - destruct (newest_Some _ _ _ E) as (Hin & Hc & Hmax).
    apply newest_unique; [done|by apply Heq|done|]. intros g Hg. by apply Hmax, Heq.
  - apply newest_None. intros g Hg. rewrite newest_None in E. by apply E, Heq.
Qed.

Lemma newest_app frags frags' x :
  newest (frags ++ frags') x =
    match newest frags' x with
    | None => newest frags x
    | Some g => match newest frags x with
                | Some f => if fr_Seq g <? fr_Seq f then Some f else Some g
                | None => Some g
                end
    end.
Proof.
  induction frags as [|h r IH]; simpl; [by destruct (newest frags' x)|].
  rewrite IH. destruct (newest frags' x) as [g|]; [|done].
  destruct (newest r x) as [f|]; simpl; [|by destruct (covers h x)].
  z_case; destruct (covers h x); simpl; try done; z_cases.
Qed.

Lemma find_first_spec sorted x :
  StronglySorted seq_ge sorted ->
  match find_first sorted x with
  | Some f => f ∈ sorted /\ covers f x = true /\
              forall g, g ∈ sorted -> covers g x = true -> fr_Seq g <= fr_Seq f
  | None => forall g, g ∈ sorted -> covers g x = false
  end.
Proof.
  induction 1 as [|f r Hs IH Hf]; simpl; [by intros g ?%elem_of_nil|].
  rewrite Forall_forall in Hf. destruct (covers f x) eqn:Ec.
  - split_and!; [left|done|]. intros g [->|Hg]%elem_of_cons _; [lia|by apply Hf].
  - destruct (find_first r x) as [h|].
    + destruct IH as (Hh & Hhc & Hmax). split_and!; [by right|done|].
      intros g [->|Hg]%elem_of_cons Hgc; [congruence|auto].
    + intros g [->|Hg]%elem_of_cons; [done|auto].
Qed.

(** A newest fragment at [x], if any; of several with one number, any. *)
Definition top (frags : list Fragment) (x : Z) (o : option Fragment) : Prop :=
  match o with
  | Some f => f ∈ frags /\ covers f x = true /\
      forall g, g ∈ frags -> covers g x = true -> fr_Seq g <= fr_Seq f
  | None => forall g, g ∈ frags -> covers g x = false
  end.

Lemma find_first_top frags sorted x :
  sorted ≡ₚ frags -> StronglySorted seq_ge sorted -> top frags x (find_first sorted x).
Proof.
  intros Hp Hs. pose proof (find_first_spec sorted x Hs) as H. unfold top. destruct (find_first sorted x) as [f|].
  - destruct H as (Hin & Hc & Hmax). split_and!; [by rewrite <-Hp|done|]. intros g Hg. apply Hmax. by rewrite Hp.
  - intros g Hg. apply H. by rewrite Hp.
Qed.

Lemma find_first_newest frags sorted x :
  sorted ≡ₚ frags -> StronglySorted seq_ge sorted -> seqs_distinct frags ->
  find_first sorted x = newest frags x.
Proof.
  intros Hp Hs Hd. pose proof (find_first_spec sorted x Hs) as H.
  destruct (find_first sorted x) as [f|].
  - destruct H as (Hin & Hc & Hmax). symmetry. apply newest_unique; [done|by rewrite <-Hp|done|].
    intros g Hg. apply Hmax. by rewrite Hp.
  - symmetry. apply newest_None. intros g Hg. apply H. by rewrite Hp.
Qed.

Lemma sort_desc_sorted frags : StronglySorted seq_ge (sort_desc frags).
Proof.
  apply StronglySorted_merge_sort; unfold seq_ge; [intros a b c; lia|intros a b; lia].
Qed.

Lemma sort_desc_perm frags : sort_desc frags ≡ₚ frags.
Proof. apply merge_sort_Permutation. Qed.

(** ** Lemmas: the plan is the cells *)

Definition slice_of (c : cell) : ReadSlice :=
  match c_owner c with
  | Some f => plan_emit f (c_lo c) (c_hi c)
  | None => sparse_slice (c_lo c, c_hi c)
  end.

Lemma slice_of_off c : rs_LogicalOff (slice_of c) = c_lo c.
Proof. unfold slice_of. by destruct (c_owner c). Qed.

Lemma slice_of_perm cs :
  emitted plan_emit cs ++ (sparse_slice <$> open cs) ≡ₚ slice_of <$> cs.
Proof.
  induction cs as [|c cs IH]; [done|]. rewrite emitted_cons, open_cons, fmap_cons.
  unfold slice_of at 1. destruct (c_owner c); simpl; rewrite <-IH; [done|].
  by rewrite <-Permutation_middle.
Qed.

(** Cells are in strictly increasing order, so sorting by offset restores
    their order. *)
Lemma cells_sorted cs lo hi :
  cells_tile cs lo hi -> StronglySorted (fun c d => c_hi c <= c_lo d) cs.
Proof.
  revert lo. induction cs as [|c cs IH]; intros lo; simpl; [constructor|].
  intros (<- & Hlt & Ht). constructor; [by eapply IH|]. apply Forall_forall. intros d Hd.
  pose proof (cells_tile_bounds _ _ _ _ Ht Hd). lia.
Qed.

Lemma StronglySorted_impl_in {A} (R R' : A -> A -> Prop) l :
  (forall x y, x ∈ l -> y ∈ l -> R x y -> R' x y) -> StronglySorted R l -> StronglySorted R' l.
Proof.
  intros HR. induction 1 as [|a l Hs IH Hf]; constructor.
  - apply IH. intros x y ??. apply HR; by right.
  - rewrite Forall_forall in *. intros y Hy. apply HR; [left|by right|auto].
Qed.

Lemma StronglySorted_fmap_in {A B} (f : A -> B) (R : A -> A -> Prop) (R' : B -> B -> Prop) l :
  (forall x y, x ∈ l -> y ∈ l -> R x y -> R' (f x) (f y)) ->
  StronglySorted R l -> StronglySorted R' (f <$> l).
Proof.
  intros HR Hs. apply (StronglySorted_impl_in _ (fun x y => R' (f x) (f y))) in Hs; [|done].
  clear HR. induction Hs as [|a l Hs IH Hf]; [constructor|]. rewrite fmap_cons.
  constructor; [done|]. by apply Forall_fmap.
Qed.

Definition cells_ordered (cs : list cell) : Prop :=
  StronglySorted (fun c d => c_hi c <= c_lo d) cs /\ forall c, c ∈ cs -> c_lo c < c_hi c.

Lemma cells_tile_ordered cs lo hi : cells_tile cs lo hi -> cells_ordered cs.
Proof.
  intros Ht. split; [by eapply cells_sorted|]. intros c Hc.
  by apply (cells_tile_bounds _ _ _ _ Ht).
Qed.

Lemma cell_lo_inj cs c d :
  cells_ordered cs -> c ∈ cs -> d ∈ cs -> c_lo c = c_lo d -> c = d.
Proof.
  intros [Hs Hlt] Hc Hd E. induction Hs as [|a l Hs IH Hf]; [by apply elem_of_nil in Hc|].
  rewrite Forall_forall in Hf.
  apply elem_of_cons in Hc as [->|Hc]; apply elem_of_cons in Hd as [->|Hd]; [done| | |].
  - specialize (Hf _ Hd). specialize (Hlt a (list_elem_of_here _ _)). lia.
  - specialize (Hf _ Hc). specialize (Hlt a (list_elem_of_here _ _)). lia.
  - apply IH; [|done..]. intros e He. apply Hlt. by right.
Qed.

Lemma sort_cells {A} (R : A -> A -> Prop) `{!RelDecision R} (g : cell -> A) (k : A -> Z) cs l :
  (forall a b, R a b <-> k a <= k b) -> (forall c, c ∈ cs -> k (g c) = c_lo c) ->
  cells_ordered cs -> l ≡ₚ g <$> cs -> merge_sort R l = g <$> cs.
Proof.
  intros HR Hk Ht Hl. apply (StronglySorted_unique_strong R).
  - intros x y Hx Hy. rewrite merge_sort_Permutation, Hl in Hx.
    apply list_elem_of_fmap in Hx as (c & -> & Hc). apply list_elem_of_fmap in Hy as (d & -> & Hd).
    rewrite !HR, !Hk by done. intros. f_equal. eapply cell_lo_inj; [done..|]. lia.
  - apply StronglySorted_merge_sort.
    + intros a b c. rewrite !HR. lia.
    + intros a b. rewrite !HR. lia.
  - eapply StronglySorted_fmap_in; [|apply Ht].
    intros c d Hc Hd. simpl. rewrite HR, !Hk by done.
    pose proof (proj2 Ht c Hc). lia.
  - by rewrite merge_sort_Permutation.
Qed.

Lemma plan_sorted_cells sorted off len :
  Forall fragment_ok sorted -> 0 <= off -> 0 < len -> off + len < 2^63 ->
  plan_sorted sorted off len = slice_of <$> cut_cells sorted [mkCell off (off + len) None].
Proof.
  intros Hok Hoff Hlen Hend. unfold plan_sorted. i64_simpl.
  set (cs := [mkCell off (off + len) None]).
  assert (cells_tile cs off (off + len)) as Ht by (simpl; lia).
  change [(off, off + len)] with (open cs).
  destruct (cover_loop_cells plan_emit sorted cs [] off (off + len)) as (sl & -> & Hsl);
    [done..|].
  apply (sort_cells off_le slice_of rs_LogicalOff).
  - done.
  - intros. apply slice_of_off.
  - by eapply cells_tile_ordered, cut_cells_tile.
  - by rewrite Hsl, slice_of_perm.
Qed.

Lemma slice_of_tiles cs lo hi :
  cells_tile cs lo hi -> 0 <= lo -> hi < 2^63 -> tiles (slice_of <$> cs) lo hi.
Proof.
  intros Ht Hlo Hhi. revert lo Ht Hlo.
  induction cs as [|c cs IH]; intros lo Ht Hlo; [done|].
  pose proof (cells_tile_bounds _ _ _ c Ht (list_elem_of_here _ _)) as Hb.
  destruct Ht as (<- & Hlt & Ht). rewrite fmap_cons. cbn [tiles].
  assert (rs_Length (slice_of c) = c_hi c - c_lo c) as ->.
  { unfold slice_of. destruct (c_owner c); simpl; i64_simpl; done. }
  rewrite slice_of_off. split_and!; [done|lia|].
  replace (c_lo c + (c_hi c - c_lo c)) with (c_hi c) by lia. apply IH; [done|lia].
Qed.

(** A cell and the fragment that owns it. *)
Definition cell_in_owner (c : cell) : Prop :=
  match c_owner c with
  | Some f => fr_LogicalOff f <= c_lo c /\ c_hi c <= fr_LogicalOff f + fr_Length f
  | None => True
  end.

Lemma cuts_in_owner f cs :
  Forall cell_in_owner cs -> Forall cell_in_owner (cuts f cs).
Proof.
  rewrite !Forall_forall. intros Hf c' Hin. apply elem_of_cuts in Hin as (c & Hc & Hc').
  specialize (Hf c Hc). revert Hc'. unfold cut_cell. destruct (c_owner c) as [g|] eqn:Eo.
  { intros ->%list_elem_of_singleton. done. }
  destruct (_ || _) eqn:Eb.
  { intros ->%list_elem_of_singleton. done. }
  rewrite orb_false_iff, !Z.leb_gt in Eb.
  rewrite !elem_of_app, list_elem_of_singleton.
  intros [Hx|[->|Hx]]; [|unfold cell_in_owner; simpl; lia|];
    destruct (_ <? _); try (by apply elem_of_nil in Hx);
    by apply list_elem_of_singleton in Hx as ->.
Qed.

Lemma cut_cells_in_owner fs cs :
  Forall cell_in_owner cs -> Forall cell_in_owner (cut_cells fs cs).
Proof.
  revert cs. induction fs as [|f fs IH]; intros cs H; [done|].
  rewrite cut_cells_cons. by apply IH, cuts_in_owner.
Qed.

Definition cell_owner_in (frags : list Fragment) (c : cell) : Prop :=
  match c_owner c with Some f => f ∈ frags | None => True end.

Section PlanSpec.
Context (frags sorted : list Fragment).
Hypothesis Hok : Forall fragment_ok frags.
Hypothesis Hd : seqs_distinct frags.
Hypothesis Hperm : sorted ≡ₚ frags.
Hypothesis Hsort : StronglySorted seq_ge sorted.

Lemma sorted_ok : Forall fragment_ok sorted.
Proof using Hok Hperm. by rewrite Hperm. Qed.

(** The cells of a range: a tiling, each owned by a newest fragment. *)
Lemma range_cells_top lo hi :
  0 <= lo -> lo < hi -> hi < 2^63 ->
  let cs := cut_cells sorted [mkCell lo hi None] in
  cells_tile cs lo hi /\ Forall cell_in_owner cs /\
  forall c x, c ∈ cs -> c_lo c <= x < c_hi c -> top frags x (c_owner c) /\ c_owner c = find_first sorted x.
Proof using Hok Hperm Hsort.
  intros H1 H2 H3 cs. split_and!.
  - apply cut_cells_tile; [apply sorted_ok|simpl; lia].
  - apply cut_cells_in_owner. by repeat constructor.
  - intros c x Hc Hx. assert (c_owner c = find_first sorted x) as ->; [|by split; [apply find_first_top|]].
    apply (cut_cells_owned [] sorted [mkCell lo hi None]); [|done..].
    by intros d y ->%list_elem_of_singleton.
Qed.

Lemma range_cells lo hi :
  0 <= lo -> lo < hi -> hi < 2^63 ->
  let cs := cut_cells sorted [mkCell lo hi None] in
  cells_tile cs lo hi /\ Forall cell_in_owner cs /\
  forall c x, c ∈ cs -> c_lo c <= x < c_hi c -> c_owner c = newest frags x.
Proof using Hok Hd Hperm Hsort.
  intros H1 H2 H3. destruct (range_cells_top lo hi) as (Ht & Ho & Hn); [done..|]. split_and!; [done..|].
  intros c x Hc Hx. rewrite <-(find_first_newest frags sorted) by done. by apply Hn.
Qed.

Lemma plan_sorted_tiles off len :
  0 <= off -> 0 < len -> off + len < 2^63 -> tiles (plan_sorted sorted off len) off (off + len).
Proof using Hok Hperm Hsort.
  intros. rewrite plan_sorted_cells by (done || apply sorted_ok).
  apply slice_of_tiles; [|done..]. apply range_cells_top; lia.
Qed.

(** Every slice is sparse, or a run of one of the fragments. *)
Definition planned (here : Z -> option Fragment -> Prop) (off len : Z) (sl : ReadSlice) : Prop :=
  off <= rs_LogicalOff sl /\ 0 < rs_Length sl /\ rs_LogicalOff sl + rs_Length sl <= off + len /\
  (rs_Sparse sl = true /\
     (forall x, rs_LogicalOff sl <= x < rs_LogicalOff sl + rs_Length sl -> here x None)
   \/ rs_Sparse sl = false /\ exists f, f ∈ frags /\
     (forall x, rs_LogicalOff sl <= x < rs_LogicalOff sl + rs_Length sl -> here x (Some f)) /\
     fr_LogicalOff f <= rs_LogicalOff sl /\
     rs_LogicalOff sl + rs_Length sl <= fr_LogicalOff f + fr_Length f /\
     rs_Locator sl = mkLocator (fr_Tier f) (fr_SegmentID f)
       (fr_SegmentOffset f + (rs_LogicalOff sl - fr_LogicalOff f)) (rs_Length sl)).

Lemma plan_sorted_slice_top off len sl :
  0 <= off -> 0 < len -> off + len < 2^63 -> sl ∈ plan_sorted sorted off len ->
  planned (fun x o => top frags x o /\ o = find_first sorted x) off len sl.
Proof using Hok Hperm Hsort.
  intros H1 H2 H3 Hin. rewrite plan_sorted_cells in Hin by (done || apply sorted_ok).
  apply list_elem_of_fmap in Hin as (c & -> & Hc).
  destruct (range_cells_top off (off + len)) as (Ht & Ho & Hn); [lia..|].
  pose proof (cells_tile_bounds _ _ _ _ Ht Hc) as Hb.
  rewrite Forall_forall in Ho. specialize (Ho c Hc). unfold cell_in_owner in Ho.
  unfold planned. rewrite slice_of_off. unfold slice_of. destruct (c_owner c) as [f|] eqn:Eo.
  - assert (f ∈ frags) as Hf.
    { destruct (Hn c (c_lo c) Hc ltac:(lia)) as [E _]. rewrite Eo in E. by destruct E. }
    pose proof (proj1 (Forall_forall _ _) Hok f Hf) as (_ & F1 & F2 & F3 & _ & _ & F4 & F5).
    simpl. unfold plan_emit. simpl. i64_simpl. split_and!; [lia..|]. right. split; [done|].
    exists f. split_and!; [done| |lia|lia|done]. intros x Hx. pose proof (Hn c x Hc ltac:(lia)) as E. rewrite Eo in E. exact E.
  - simpl. i64_simpl. split_and!; [lia..|]. left. split; [done|]. intros x Hx. pose proof (Hn c x Hc ltac:(lia)) as E. rewrite Eo in E. exact E.
Qed.

Lemma plan_sorted_slice off len sl :
  0 <= off -> 0 < len -> off + len < 2^63 -> sl ∈ plan_sorted sorted off len ->
  planned (fun x o => newest frags x = o) off len sl.
Proof using Hok Hd Hperm Hsort.
  intros H1 H2 H3 Hin. assert (forall x o, o = find_first sorted x -> newest frags x = o) as Hn
    by (intros x o ->; symmetry; by apply find_first_newest).
  destruct (plan_sorted_slice_top off len sl H1 H2 H3 Hin) as (L1 & L2 & L3 & [[Hs Hx]|(Hs & f & Hf & Hx & Hr)]);
    split_and!; try done; [left|right].
  - split; [done|]. intros x Hr. by apply Hn, Hx.
  - split; [done|]. exists f. split_and!; try apply Hr; [done|]. intros x Hr'. by apply Hn, Hx.
Qed.
End PlanSpec.

(** ** Lemmas: the canonical view *)

Lemma view_bounds_spec f0 rest mn mx :
  Forall fragment_ok (f0 :: rest) -> view_bounds f0 rest = (mn, mx) ->
  0 <= mn /\ mx < 2^63 /\
  forall f, f ∈ f0 :: rest -> mn <= fr_LogicalOff f /\ fr_LogicalOff f + fr_Length f <= mx.
Proof.
  rewrite Forall_cons. intros [(_ & H1 & H2 & H3 & _) Hr]. unfold view_bounds. i64_simpl.
  assert (forall m x, 0 <= m -> x < 2^63 ->
    let '(m', x') := foldl (fun '(minOff, maxEnd) f =>
      let minOff := if fr_LogicalOff f <? minOff then fr_LogicalOff f else minOff in
      let e := i64 (fr_LogicalOff f + fr_Length f) in
      let maxEnd := if maxEnd <? e then e else maxEnd in
      (minOff, maxEnd)) (m, x) rest in
    0 <= m' <= m /\ x <= x' < 2^63 /\
    forall f, f ∈ rest -> m' <= fr_LogicalOff f /\ fr_LogicalOff f + fr_Length f <= x') as Hgen.
  { induction Hr as [|f rest (_ & F1 & F2 & F3 & _) _ IH]; intros m x Hm Hx; cbn [foldl].
    { split_and!; try lia. by intros f ?%elem_of_nil. }
    i64_simpl. match goal with |- context [foldl _ (?m', ?x') rest] =>
      specialize (IH m' x'); destruct (foldl _ (m', x') rest) as [m2 x2] end.
    destruct IH as (I1 & I2 & I3); [z_cases..|].
    revert I1 I2. z_cases; intros I1 I2; (split_and!; [lia..|]);
      (intros g [->|Hg]%elem_of_cons; [lia|by apply I3]). }
  specialize (Hgen (fr_LogicalOff f0) (fr_LogicalOff f0 + fr_Length f0)).
  destruct (foldl _ _ rest) as [m' x']. intros [= <- <-].
  destruct Hgen as (G1 & G2 & G3); [lia..|]. split_and!; [lia..|].
  intros f [->|Hf]%elem_of_cons; [lia|by apply G3].
Qed.

Definition owned (c : cell) : Prop := is_Some (c_owner c).
#[global] Instance owned_dec c : Decision (owned c).
Proof. unfold owned. apply _. Defined.

Definition view_of (c : cell) : Fragment :=
  match c_owner c with
  | Some f => view_emit f (c_lo c) (c_hi c)
  | None => mkFragment 0 0 0 0 0 0
  end.

Lemma emitted_view cs : emitted view_emit cs = view_of <$> filter owned cs.
Proof.
  induction cs as [|c cs IH]; [done|]. rewrite emitted_cons, filter_cons.
  destruct (c_owner c) as [f|] eqn:Eo.
  - rewrite decide_True by (unfold owned; by rewrite Eo). rewrite fmap_cons, <-IH.
    unfold view_of at 1. by rewrite Eo.
  - rewrite decide_False by (unfold owned; rewrite Eo; by intros [? ?]). done.
Qed.

Lemma cells_ordered_filter (Q : cell -> Prop) `{!forall c, Decision (Q c)} cs :
  cells_ordered cs -> cells_ordered (filter Q cs).
Proof.
  intros [Hs Hlt]. split; [|intros c [_ Hc]%list_elem_of_filter; auto].
  clear Hlt. induction Hs as [|c cs Hs IH Hf]; [constructor|]. rewrite filter_cons.
  case_decide; [|done]. constructor; [done|]. rewrite Forall_forall in *.
  intros d [_ Hd]%list_elem_of_filter. auto.
Qed.

Section ViewSpec.
Context (frags sorted : list Fragment).
Hypothesis Hok : Forall fragment_ok frags.
Hypothesis Hd : seqs_distinct frags.
Hypothesis Hperm : sorted ≡ₚ frags.
Hypothesis Hsort : StronglySorted seq_ge sorted.

Lemma view_sorted_cells :
  exists lo hi, 0 <= lo /\ hi < 2^63 /\
    (forall f, f ∈ frags -> lo <= fr_LogicalOff f /\ fr_LogicalOff f + fr_Length f <= hi) /\
    (frags <> [] -> lo < hi) /\
    view_sorted sorted =
      if decide (frags = []) then []
      else view_of <$> filter owned (cut_cells sorted [mkCell lo hi None]).
Proof using Hok Hd Hperm Hsort.
  pose proof (sorted_ok frags sorted Hok Hperm) as Hsok.
  destruct sorted as [|f0 rest] eqn:Es.
  { exists 0, 0. assert (frags = []) as He by (by apply Permutation_nil_r).
    rewrite decide_True by done. split_and!; [lia..| |done|done].
    rewrite He. by intros f ?%elem_of_nil. }
  destruct (view_bounds f0 rest) as [mn mx] eqn:Eb.
  destruct (view_bounds_spec _ _ _ _ Hsok Eb) as (B1 & B2 & B3).
  exists mn, mx. rewrite <-Es in *.
  assert (mn < mx) as Hlt.
  { destruct (B3 f0) as [? ?]; [rewrite Es; left|].
    rewrite Es, Forall_cons in Hsok. destruct Hsok as [(_ & _ & ? & _) _]. lia. }
  rewrite decide_False.
  2: { intros ->. apply Permutation_nil_r in Hperm. by rewrite Es in Hperm. }
  split_and!; [done|done| |done|].
  { intros f Hf. apply B3. by rewrite Hperm. }
  unfold view_sorted. rewrite Es at 1. rewrite Eb.
  assert (cells_tile [mkCell mn mx None] mn mx) as Ht by done.
  change [(mn, mx)] with (open [mkCell mn mx None]).
  destruct (cover_loop_cells view_emit sorted [mkCell mn mx None] [] mn mx)
    as (sl & -> & Hsl); [done..|].
  rewrite emitted_view in Hsl.
  apply (sort_cells fr_off_le view_of fr_LogicalOff); [done| | |done].
  - intros c [[f Hf] _]%list_elem_of_filter. unfold view_of. by rewrite Hf.
  - by eapply cells_ordered_filter, cells_tile_ordered, cut_cells_tile.
Qed.

(** The runs of the view: each a part of the fragment that is newest on it. *)
Lemma view_sorted_run g :
  g ∈ view_sorted sorted ->
  exists f, f ∈ frags /\ run_of f g /\
    forall x, covers g x = true -> newest frags x = Some f.
Proof using Hok Hd Hperm Hsort.
  destruct view_sorted_cells as (lo & hi & Hlo & Hhi & Hcov & Hlt & ->).
  case_decide as He; [by intros ?%elem_of_nil|]. specialize (Hlt He).
  intros (c & -> & [[f Hf] Hc]%list_elem_of_filter)%list_elem_of_fmap.
  destruct (range_cells frags sorted Hok Hd Hperm Hsort lo hi) as (Ht & Ho & Hn); [done..|].
  pose proof (cells_tile_bounds _ _ _ _ Ht Hc) as Hb.
  rewrite Forall_forall in Ho. specialize (Ho c Hc). unfold cell_in_owner in Ho.
  rewrite Hf in Ho. exists f.
  pose proof (Hn c (c_lo c) Hc ltac:(lia)) as E. rewrite Hf in E.
  symmetry in E. apply newest_Some in E as (Hin & _ & _).
  pose proof (proj1 (Forall_forall _ _) Hok f Hin) as (_ & F1 & F2 & F3 & _ & _ & F4 & F5).
  unfold view_of. rewrite Hf. unfold view_emit, run_of.
  cbn [fr_Seq fr_LogicalOff fr_Length fr_Tier fr_SegmentID fr_SegmentOffset].
  i64_simpl. split_and!; try done; try lia. intros x Hx. rewrite <-Hf. symmetry.
  apply covers_true in Hx. cbn [fr_LogicalOff fr_Length] in Hx. apply Hn; [done|lia].
Qed.

Lemma view_sorted_disjoint : disjoint_runs (view_sorted sorted).
Proof using Hok Hd Hperm Hsort.
  destruct view_sorted_cells as (lo & hi & Hlo & Hhi & Hcov & Hlt & ->).
  case_decide as He; [constructor|]. specialize (Hlt He).
  destruct (range_cells frags sorted Hok Hd Hperm Hsort lo hi) as (Ht & _ & _); [done..|].
  unfold disjoint_runs. eapply StronglySorted_fmap_in.
  2: { apply cells_ordered_filter, (cells_tile_ordered _ _ _ Ht). }
  intros c d [[f Hf] Hc]%list_elem_of_filter [[f' Hf'] Hc']%list_elem_of_filter Hle.
  simpl in Hle. pose proof (cells_tile_bounds _ _ _ _ Ht Hc).
  pose proof (cells_tile_bounds _ _ _ _ Ht Hc').
  unfold view_of. rewrite Hf, Hf'. simpl. i64_simpl. lia.
Qed.

(** Every byte that some fragment covers is covered by a run. *)
Lemma view_sorted_complete f x :
  newest frags x = Some f -> exists g, g ∈ view_sorted sorted /\ covers g x = true.
Proof using Hok Hd Hperm Hsort.
  intros Hx. destruct (newest_Some _ _ _ Hx) as (Hin & Hc & _).
  destruct view_sorted_cells as (lo & hi & Hlo & Hhi & Hcov & Hlt & ->).
  case_decide as He; [subst; by apply elem_of_nil in Hin|]. specialize (Hlt He).
  destruct (range_cells frags sorted Hok Hd Hperm Hsort lo hi) as (Ht & _ & Hn); [done..|].
  apply covers_true in Hc. specialize (Hcov f Hin).
  assert (exists c, c ∈ cut_cells sorted [mkCell lo hi None] /\ c_lo c <= x < c_hi c)
    as (c & Hcin & Hcx).
  { revert Ht. assert (lo <= x < hi) as Hxr by lia. revert Hxr.
    generalize (cut_cells sorted [mkCell lo hi None]). clear. revert lo.
    intros lo cs. revert lo. induction cs as [|c cs IH]; simpl; intros lo Hxr; [lia|].
    intros (<- & Hlt & Ht). destruct (decide (x < c_hi c)).
    - exists c. split; [left|lia].
    - destruct (IH (c_hi c)) as (d & ? & ?); [lia|done|]. exists d. split; [by right|done]. }
  specialize (Hn c x Hcin Hcx). rewrite Hx in Hn.
  pose proof (cells_tile_bounds _ _ _ _ Ht Hcin).
  exists (view_of c). split.
  - apply list_elem_of_fmap. exists c. split; [done|]. apply list_elem_of_filter.
    split; [unfold owned; by rewrite Hn|done].
  - apply covers_true. unfold view_of. rewrite Hn. simpl. i64_simpl. lia.
Qed.
End ViewSpec.

(** Two runs that share a byte are the same run. *)
Lemma disjoint_runs_unique l g h x :
  disjoint_runs l -> g ∈ l -> h ∈ l -> covers g x = true -> covers h x = true -> g = h.
Proof.
  rewrite !covers_true. intros Hdis Hg Hh Hgx Hhx.
  induction Hdis as [|a l Hs IH Hf]; [by apply elem_of_nil in Hg|].
  rewrite Forall_forall in Hf.
  apply elem_of_cons in Hg as [->|Hg]; apply elem_of_cons in Hh as [->|Hh]; [done| | |auto].
  - specialize (Hf _ Hh). lia.
  - specialize (Hf _ Hg). lia.
Qed.

Section View.
Context (frags sorted : list Fragment).
Hypothesis Hok : Forall fragment_ok frags.
Hypothesis Hd : seqs_distinct frags.
Hypothesis Hperm : sorted ≡ₚ frags.
Hypothesis Hsort : StronglySorted seq_ge sorted.

Lemma view_sorted_unique g h x :
  g ∈ view_sorted sorted -> h ∈ view_sorted sorted ->
  covers g x = true -> covers h x = true -> g = h.
Proof using Hok Hd Hperm Hsort. apply disjoint_runs_unique. by eapply view_sorted_disjoint. Qed.

Lemma view_sorted_source x : source_of (view_sorted sorted) x = source_of frags x.
Proof using Hok Hd Hperm Hsort.
  unfold source_of. destruct (newest (view_sorted sorted) x) as [g|] eqn:Eg.
  - apply newest_Some in Eg as (Hg & Hgx & _).
    destruct (view_sorted_run frags sorted Hok Hd Hperm Hsort g Hg) as (f & Hf & Hr & Hn).
    rewrite (Hn x Hgx). simpl. unfold fragment_source.
    destruct Hr as (_ & -> & -> & _ & _ & _ & ->). do 2 f_equal. lia.
  - destruct (newest frags x) as [f|] eqn:Ef; [|done].
    destruct (view_sorted_complete frags sorted Hok Hd Hperm Hsort f x Ef) as (g & Hg & Hgx).
    rewrite newest_None in Eg. by rewrite Eg in Hgx.
Qed.

Lemma view_sorted_ok : Forall fragment_ok (view_sorted sorted).
Proof using Hok Hd Hperm Hsort.
  apply Forall_forall. intros g Hg.
  destruct (view_sorted_run frags sorted Hok Hd Hperm Hsort g Hg)
    as (f & Hf & (R1 & R2 & R3 & R4 & R5 & R6 & R7) & _).
  pose proof (proj1 (Forall_forall _ _) Hok f Hf) as (F0 & F1 & F2 & F3 & F6 & F7 & F4 & F5).
  unfold fragment_ok. rewrite R1, R2, R3. split_and!; try done; lia.
Qed.
End View.

(** ** Properties *)

(** The example of the tests: an old run [0,20) with [5,15) overwritten. *)
Definition ex_frags : list Fragment :=
  [mkFragment 1 0 20 TierHot 1 100; mkFragment 2 5 10 TierHot 1 500].

Lemma ex_frags_ok : Forall fragment_ok ex_frags.
Proof. repeat constructor; by compute. Qed.

Lemma seqs_distinct_NoDup frags : NoDup (fr_Seq <$> frags) -> seqs_distinct frags.
Proof.
  intros Hnd f g x Hf Hg _ _ E.
  apply list_elem_of_lookup in Hf as [i Hi]. apply list_elem_of_lookup in Hg as [j Hj].
  assert (i = j) as ->; [|congruence].
  eapply NoDup_lookup; [exact Hnd| |]; rewrite list_lookup_fmap; [rewrite Hi|rewrite Hj];
    simpl; [done|by rewrite E].
Qed.

Lemma ex_frags_distinct : seqs_distinct ex_frags.
Proof. apply seqs_distinct_NoDup. by apply (bool_decide_unpack _). Qed.

Example planRead_shadowing :
  planRead ex_frags 0 20 =
    [ mkReadSlice 0 5 false (mkLocator TierHot 1 100 5);
      mkReadSlice 5 10 false (mkLocator TierHot 1 500 10);
      mkReadSlice 15 5 false (mkLocator TierHot 1 115 5) ].
Proof. by vm_compute. Qed.

Example planRead_sparse :
  planRead [] 0 100 = [mkReadSlice 0 100 true zeroLocator].
Proof. by vm_compute. Qed.

(** C18: [planRead] is correct: whatever order [sort.Slice] gives to equal
    keys, the slices tile the requested range exactly, in order and without
    overlap, and at every byte the slice in force points at the physical byte
    of the newest fragment that covers it (or is sparse when none does). *)
Theorem planRead_newest_wins frags sorted off len :
  Forall fragment_ok frags -> seqs_distinct frags ->
  sorted ≡ₚ frags -> StronglySorted seq_ge sorted ->
  0 <= off -> 0 < len -> off + len < 2^63 ->
  tiles (plan_sorted sorted off len) off (off + len) /\
  forall sl x, sl ∈ plan_sorted sorted off len ->
    rs_LogicalOff sl <= x < rs_LogicalOff sl + rs_Length sl ->
    slice_source sl x = source_of frags x /\
    (rs_Sparse sl = false -> loc_Length (rs_Locator sl) = rs_Length sl).
Proof.
  intros Hok Hd Hp Hs Ho Hl He. split; [by eapply plan_sorted_tiles|].
  intros sl x Hsl Hx.
  destruct (plan_sorted_slice frags sorted Hok Hd Hp Hs off len sl Ho Hl He Hsl)
    as (_ & _ & _ & [[Esp Hn]|(Esp & f & Hf & Hn & _ & _ & El)]);
    unfold slice_source, source_of; rewrite Esp, (Hn x Hx); [done|].
  rewrite El. simpl. unfold fragment_source. split; [|done]. do 2 f_equal. lia.
Qed.

Lemma planRead_newest_wins_witness :
  tiles (plan_sorted (sort_desc ex_frags) 0 20) 0 20 /\
  forall sl x, sl ∈ plan_sorted (sort_desc ex_frags) 0 20 ->
    rs_LogicalOff sl <= x < rs_LogicalOff sl + rs_Length sl ->
    slice_source sl x = source_of ex_frags x /\
    (rs_Sparse sl = false -> loc_Length (rs_Locator sl) = rs_Length sl).
Proof.
  apply (planRead_newest_wins ex_frags (sort_desc ex_frags) 0 20);
    [exact ex_frags_ok|exact ex_frags_distinct|exact (sort_desc_perm _)
    |exact (sort_desc_sorted _)|lia|lia|lia].
Defined.

(** C19: [canonicalView] is an equivalent layout: its runs are well formed, in
    increasing order and disjoint, each is a part of one input fragment (same
    segment bytes, same [Seq]), and every byte of the file resolves to the
    same physical byte before and after. *)
Theorem canonicalView_equivalent frags sorted :
  Forall fragment_ok frags -> seqs_distinct frags ->
  sorted ≡ₚ frags -> StronglySorted seq_ge sorted ->
  Forall fragment_ok (view_sorted sorted) /\ disjoint_runs (view_sorted sorted) /\
  (forall g, g ∈ view_sorted sorted -> exists f, f ∈ frags /\ run_of f g) /\
  forall x, source_of (view_sorted sorted) x = source_of frags x.
Proof.
  intros Hok Hd Hp Hs. split_and!.
  - by eapply view_sorted_ok.
  - by eapply view_sorted_disjoint.
  - intros g Hg. destruct (view_sorted_run frags sorted Hok Hd Hp Hs g Hg) as (f & ? & ? & _).
    by exists f.
  - by apply view_sorted_source.
Qed.

Lemma canonicalView_equivalent_witness :
  view_sorted (sort_desc ex_frags) = canonicalView ex_frags /\
  forall x, source_of (view_sorted (sort_desc ex_frags)) x = source_of ex_frags x.
Proof.
  split; [reflexivity|].
  apply (canonicalView_equivalent ex_frags (sort_desc ex_frags));
    [exact ex_frags_ok|exact ex_frags_distinct|exact (sort_desc_perm _)
    |exact (sort_desc_sorted _)].
Defined.
