(* ===== verification/Segment.v ===== *)
(** * Segments (src/segment/segment.go, [Segment])

    A segment is an append-only file of CRC'd records.  The model keeps the
    file under the descriptor: its bytes, the descriptor's position, and how
    many leading bytes are known to be on the device.  Every system call
    consults a stream of faults, so each error branch of the code can be
    taken: [None] is success, [Some n] a failure, which for [write] leaves the
    first [n] bytes of the buffer in the file.

    Spans and logging have no effect on the state and are left out, as are the
    mutexes: an operation here is what runs between lock and unlock. *)

From S2P Require Import Prelude Fragment Gostr.

(** ** Files *)

Record File : Type := mkFile {
  fl_data : bytes;
  fl_pos : Z;       (* offset of the descriptor *)
  fl_synced : Z;    (* length of the prefix known to be durable *)
}.

Abbreviation io_stream := (list (option Z)).

(** [f.Write(buf)] at the descriptor's position; a gap past the end of the
    file reads as zeros. *)
Definition write_at (data : bytes) (pos : Z) (buf : bytes) : bytes :=
  slice data 0 pos ++ zreplicate (pos - blen data) 0 ++ buf ++
  slice data (pos + blen buf) (blen data).

Definition file_write (buf : bytes) (f : File) : File :=
  mkFile (write_at (fl_data f) (fl_pos f) buf) (fl_pos f + blen buf)
    (Z.min (fl_synced f) (fl_pos f)).

Definition file_sync (f : File) : File := mkFile (fl_data f) (fl_pos f) (blen (fl_data f)).

Definition file_truncate (size : Z) (f : File) : File :=
  mkFile (slice (fl_data f) 0 size) (fl_pos f) (Z.min (fl_synced f) size).

Definition file_seek (pos : Z) (f : File) : File := mkFile (fl_data f) pos (fl_synced f).

(** [f.ReadAt(p, off)] with [len(p) = n]: all [n] bytes, or an error. *)
Definition file_read_at (n off : Z) (f : File) : outcome bytes :=
  if off <? 0 then Err ErrIO
  else if n <=? 0 then Ok []
  else if off + n <=? blen (fl_data f) then Ok (slice (fl_data f) off (off + n))
  else Err ErrEOF.

(** ** Records *)

Definition recordMagic : Z := 1163086928.   (* 0x45534C50 *)
Definition recordVersion : Z := 1.
Definition headerSize : Z := 40.
Definition trailerSize : Z := 4.

Definition FramedSize (payloadLen : Z) : Z := headerSize + payloadLen + trailerSize.

Record RecordHeader : Type := mkRecordHeader {
  rh_Inode : Z;       (* uint64 *)
  rh_StripeID : Z;    (* uint32 *)
  rh_Seq : Z;         (* uint64 *)
  rh_LogicalOff : Z;  (* int64 *)
  rh_Length : Z;      (* uint32 *)
}.

#[global] Instance RecordHeader_eq_dec : EqDecision RecordHeader.
Proof. solve_decision. Defined.

(** Version to payload: what the CRC covers. *)
Definition frame_body (h : RecordHeader) (payload : bytes) : bytes :=
  [recordVersion; 0] ++ put_le 2 0 ++
  put_le 8 (rh_Inode h) ++ put_le 4 (rh_StripeID h) ++ put_le 8 (rh_Seq h) ++
  put_le 8 (u64 (rh_LogicalOff h)) ++ put_le 4 (rh_Length h) ++ payload.

Definition frame (h : RecordHeader) (payload : bytes) : bytes :=
  put_le 4 recordMagic ++ frame_body h payload ++ put_le 4 (crc32_ieee (frame_body h payload)).

(** ** Segments *)

Record Segment : Type := mkSegment {
  sg_id : Z;
  sg_file : File;
  sg_open : bool;   (* [s.f != nil] *)
  sg_size : Z;
}.

(** The state of a segment operation: the segment and the fault stream. *)
Abbreviation SegSt := (Segment * io_stream)%type.

Definition next_io : M SegSt (option Z) := fun '(s, io) =>
  match io with
  | [] => (Ok None, (s, []))
  | x :: io => (Ok x, (s, io))
  end.

Definition seg_get : M SegSt Segment := fun st => (Ok st.1, st).
Definition seg_modify (f : Segment -> Segment) : M SegSt unit :=
  fun '(s, io) => (Ok tt, (f s, io)).

Definition on_file (g : File -> File) (s : Segment) : Segment :=
  mkSegment (sg_id s) (g (sg_file s)) (sg_open s) (sg_size s).
Definition set_size (z : Z) (s : Segment) : Segment :=
  mkSegment (sg_id s) (sg_file s) (sg_open s) z.
Definition set_closed (s : Segment) : Segment :=
  mkSegment (sg_id s) (sg_file s) false (sg_size s).

(** A system call on the descriptor: fails on a nil descriptor; [ok] is its
    effect, [partial n] what a failure leaves behind. *)
Definition fd_call (ok : File -> File) (partial : Z -> File -> File) : M SegSt unit :=
  let* s := seg_get in
  if negb (sg_open s) then throw ErrIO
  else
    let* fault := next_io in
    match fault with
    | None => seg_modify (on_file ok)
    | Some n => let* _ := seg_modify (on_file (partial n)) in throw ErrIO
    end.

Definition no_effect (n : Z) (f : File) : File := f.

(** No file grows past the kernel's limit; a write that would is refused. *)
Definition max_file_size : Z := 2^62.

Definition fd_write (buf : bytes) : M SegSt unit :=
  let* s := seg_get in
  if max_file_size <? fl_pos (sg_file s) + blen buf then throw ErrIO
  else
    fd_call (file_write buf)
      (fun n => file_write (slice buf 0 (Z.min (Z.max 0 n) (blen buf - 1)))).

Definition Segment_Size : M SegSt Z := let* s := seg_get in ret (sg_size s).

(** [Segment.ReadAt]: the bytes read into a buffer of [n] bytes. *)
Definition Segment_ReadAt (n off : Z) : M SegSt bytes :=
  let* s := seg_get in
  if negb (sg_open s) then throw ErrIO
  else
    let* fault := next_io in
    match fault with
    | None => of_outcome (file_read_at n off (sg_file s))
    | Some _ => throw ErrIO
    end.

Definition AppendCtx (h : RecordHeader) (payload : bytes) : M SegSt Z :=
  if negb (rh_Length h =? blen payload) then throw (ErrMsg "segment: header length != payload")
  else
    let total := headerSize + blen payload + trailerSize in
    let buf := frame h payload in
    let payloadStart := headerSize in
    let* _ := fd_write buf in
    let* s := seg_get in
    let payloadOff := i64 (sg_size s + payloadStart) in
    let* _ := seg_modify (set_size (i64 (sg_size s + total))) in
    ret payloadOff.

Definition Append (h : RecordHeader) (payload : bytes) : M SegSt Z := AppendCtx h payload.

Definition SyncCtx : M SegSt unit :=
  let* s := seg_get in
  if negb (sg_open s) then ret tt else fd_call file_sync no_effect.

Definition Sync : M SegSt unit := SyncCtx.

Definition Segment_Close : M SegSt unit :=
  let* s := seg_get in
  if negb (sg_open s) then ret tt
  else
    let* fault := next_io in
    let* _ := seg_modify set_closed in
    match fault with None => ret tt | Some _ => throw ErrIO end.

Definition truncate (size : Z) : M SegSt unit :=
  let* s := seg_get in
  if size =? sg_size s then ret tt
  else if sg_size s <? size then throw (ErrMsg "segment: truncate grow not supported")
  else
    let* _ := fd_call (file_truncate size) no_effect in
    let* _ := fd_call (file_seek size) no_effect in
    let* _ := seg_modify (set_size size) in
    fd_call file_sync no_effect.

(** ** Scan *)

(** The checks of one iteration of [Scan] at [pos < size]: the header of a
    valid record, or [None] where the loop returns [pos]. *)
Definition scan_record (data : bytes) (size pos : Z) : option RecordHeader :=
  let at4 p := get_le (slice data p (p + 4)) in
  let at8 p := get_le (slice data p (p + 8)) in
  if size - pos <? headerSize + trailerSize then None
  else if negb (at4 pos =? recordMagic) then None
  else if negb (get_le (slice data (pos + 4) (pos + 5)) =? recordVersion) then None
  else
    let h := {| rh_Inode := at8 (pos + 8); rh_StripeID := at4 (pos + 16);
                rh_Seq := at8 (pos + 20); rh_LogicalOff := i64 (at8 (pos + 28));
                rh_Length := at4 (pos + 36) |} in
    let recordEnd := pos + headerSize + rh_Length h + trailerSize in
    if size <? recordEnd then None
    else
      let crcOff := pos + headerSize + rh_Length h in
      let want := at4 crcOff in
      let got := crc32_ieee (slice data (pos + 4) crcOff) in
      if negb (got =? want) then None else Some h.

(** The loop; [visit] may fail.  [fuel] bounds the number of records. *)
Fixpoint scan_loop {T} (visit : RecordHeader -> Z -> M T unit) (fuel : nat)
    (data : bytes) (size pos : Z) : M T Z :=
  match fuel with
  | O => panic
  | S fuel =>
      if negb (pos <? size) then ret pos
      else
        match scan_record data size pos with
        | None => ret pos
        | Some h =>
            let payloadOff := pos + headerSize in
            let* _ := visit h payloadOff in
            scan_loop visit fuel data size (pos + headerSize + rh_Length h + trailerSize)
        end
  end.

(** A record takes at least 44 bytes, so one step per byte is plenty. *)
Definition scan_fuel (data : bytes) : nat := S (length data).

(** The callback works on a state of its own, carried next to the segment's. *)
Definition Scan {T} (visit : RecordHeader -> Z -> M T unit) : M (SegSt * T) Z :=
  fun '(st, t) =>
    let size := sg_size st.1 in
    if size =? 0 then (Ok 0, (st, t))
    else
      match Segment_ReadAt size 0 st with
      | (Ok data, st') =>
          let '(r, t') := scan_loop visit (scan_fuel data) data size 0 t in (r, (st', t'))
      | (Err e, st') => (Err e, (st', t))
      | (Panic, st') => (Panic, (st', t))
      end.

(** ** What a well-formed segment holds *)

Definition record : Type := RecordHeader * bytes.

Definition header_ok (h : RecordHeader) : Prop :=
  in_u64 (rh_Inode h) /\ in_u32 (rh_StripeID h) /\ in_u64 (rh_Seq h) /\
  in_i64 (rh_LogicalOff h) /\ in_u32 (rh_Length h).

Definition record_ok (r : record) : Prop :=
  header_ok r.1 /\ rh_Length r.1 = blen r.2 /\ bytes_ok r.2.

Definition frames (rs : list record) : bytes := concat ((fun r => frame r.1 r.2) <$> rs).

(** The visits of a scan of [rs] laid out from [pos]. *)
Fixpoint record_offsets (pos : Z) (rs : list record) : list (RecordHeader * Z) :=
  match rs with
  | [] => []
  | (h, p) :: rs => (h, pos + headerSize) :: record_offsets (pos + FramedSize (blen p)) rs
  end.

(** A callback that only remembers its visits. *)
Definition collect_record (h : RecordHeader) (off : Z) : M (list (RecordHeader * Z)) unit :=
  modify (fun l => l ++ [(h, off)]).

(** What every operation needs and keeps, whatever the bytes are: the
    descriptor is open and stands at the end of the file, and [s.size] is the
    file's length. *)
Definition seg_clean (s : Segment) : Prop :=
  sg_open s = true /\ fl_pos (sg_file s) = sg_size s /\
  sg_size s = blen (fl_data (sg_file s)) /\
  0 <= fl_synced (sg_file s) <= sg_size s /\
  sg_size s <= max_file_size.

(** ** Lemmas: files *)

Lemma blen_zreplicate {A} n (x : A) : 0 <= n -> blen (zreplicate n x) = n.
Proof. intros. unfold blen, zreplicate. rewrite length_replicate. lia. Qed.

Lemma file_write_end buf f :
  fl_pos f = blen (fl_data f) ->
  file_write buf f =
    mkFile (fl_data f ++ buf) (fl_pos f + blen buf) (Z.min (fl_synced f) (fl_pos f)).
Proof.
  intros Hp. unfold file_write. f_equal. unfold write_at. rewrite Hp, Z.sub_diag.
  rewrite slice_all by done. pose proof (blen_nonneg buf).
  rewrite slice_empty by lia. rewrite app_nil_r. done.
Qed.

Lemma file_read_at_slice n off f :
  0 <= off -> 0 <= n -> off + n <= blen (fl_data f) ->
  file_read_at n off f = Ok (slice (fl_data f) off (off + n)).
Proof.
  intros. unfold file_read_at. z_cases. by rewrite slice_empty by lia.
Qed.

(** ** Lemmas: frames *)

Lemma blen_frame_body h p : blen (frame_body h p) = 36 + blen p.
Proof. unfold frame_body. blen_tac. Qed.

Lemma frame_body_ok h p : bytes_ok p -> bytes_ok (frame_body h p).
Proof.
  intros Hp. unfold bytes_ok, frame_body. rewrite !Forall_app.
  split_and!; try apply put_le_ok; [by repeat constructor|done].
Qed.

Lemma blen_frame h p : blen (frame h p) = FramedSize (blen p).
Proof.
  unfold frame, FramedSize, headerSize, trailerSize. rewrite !blen_app, blen_frame_body.
  rewrite !blen_put_le. lia.
Qed.

Lemma frames_app a b : frames (a ++ b) = frames a ++ frames b.
Proof. unfold frames. by rewrite fmap_app, concat_app. Qed.

Lemma frames_cons h p rs : frames ((h, p) :: rs) = frame h p ++ frames rs.
Proof. done. Qed.

Lemma frames_snoc rs h p : frames (rs ++ [(h, p)]) = frames rs ++ frame h p.
Proof. rewrite frames_app, frames_cons. by rewrite app_nil_r. Qed.

Lemma slice_app_pre {A} (pre x : list A) a b :
  0 <= a -> slice (pre ++ x) (blen pre + a) (blen pre + b) = slice x a b.
Proof. intros. rewrite (slice_app_skip _ _ (blen pre)) by lia. f_equal; lia. Qed.

(** The fields of a frame, at their offsets. *)
Lemma frame_fields h p tail :
  let d := frame h p ++ tail in
  slice d 0 4 = put_le 4 recordMagic /\
  slice d 4 5 = [recordVersion] /\
  slice d 8 16 = put_le 8 (rh_Inode h) /\
  slice d 16 20 = put_le 4 (rh_StripeID h) /\
  slice d 20 28 = put_le 8 (rh_Seq h) /\
  slice d 28 36 = put_le 8 (u64 (rh_LogicalOff h)) /\
  slice d 36 40 = put_le 4 (rh_Length h).
Proof.
  intros d. subst d. unfold frame. rewrite <-!app_assoc. unfold frame_body.
  change ([recordVersion; 0] ++ ?x) with ([recordVersion] ++ [0] ++ x).
  rewrite <-!app_assoc. repeat split; slice_tac; done.
Qed.

Lemma frame_payload h p tail :
  slice (frame h p ++ tail) 40 (40 + blen p) = p /\
  slice (frame h p ++ tail) 4 (40 + blen p) = frame_body h p /\
  slice (frame h p ++ tail) (40 + blen p) (40 + blen p + 4)
    = put_le 4 (crc32_ieee (frame_body h p)).
Proof.
  pose proof (blen_nonneg p). pose proof (blen_frame_body h p) as Hb.
  unfold frame. rewrite <-!app_assoc. split_and!.
  - rewrite slice_app_skip with (n := 4) by (blen_tac || lia).
    unfold frame_body. rewrite <-!app_assoc.
    repeat (erewrite slice_app_skip; [|solve [blen_tac; reflexivity]|lia]).
    apply slice_app_here. lia.
  - rewrite slice_app_skip with (n := 4) by (blen_tac || lia).
    apply slice_app_here. lia.
  - rewrite slice_app_skip with (n := 4) by (blen_tac || lia).
    rewrite slice_app_skip with (n := 36 + blen p) by lia.
    replace (40 + blen p - 4 - (36 + blen p)) with 0 by lia.
    apply slice_app_here. rewrite blen_put_le. lia.
Qed.

(** ** Lemmas: scanning *)

(** A field read at [pos + a] in a scan. *)
Lemma field_at (pre x : bytes) a b :
  0 <= a -> slice (pre ++ x) (blen pre + a) (blen pre + a + b) = slice x a (a + b).
Proof. intros. rewrite <-Z.add_assoc. by apply slice_app_pre. Qed.

Lemma field_at_0 (pre x : bytes) b : slice (pre ++ x) (blen pre) (blen pre + b) = slice x 0 b.
Proof. rewrite <-(Z.add_0_r (blen pre)) at 1. by apply slice_app_pre. Qed.

Lemma scan_record_frame pre h p tail size :
  record_ok (h, p) -> size = blen pre + FramedSize (blen p) + blen tail ->
  scan_record (pre ++ frame h p ++ tail) size (blen pre) = Some h.
Proof.
  intros ((Hi & Hst & Hs & Hl & Hn) & Hlen & Hb) ->. cbn [fst snd] in *.
  destruct (frame_fields h p tail) as (F0 & F4 & F8 & F16 & F20 & F28 & F36).
  destruct (frame_payload h p tail) as (_ & Fb & Fc).
  pose proof (blen_nonneg p). pose proof (blen_nonneg tail).
  unfold scan_record, FramedSize, headerSize, trailerSize.
  rewrite field_at_0, slice_app_pre, !field_at by lia. z_lits.
  rewrite F0, F4, F8, F16, F20, F28, F36.
  rewrite !get_put_le_u32, !get_put_le_u64 by (done || apply u64_range).
  rewrite i64_u64 by done. cbn [rh_Length]. rewrite Hlen.
  rewrite <-(Z.add_assoc (blen pre) 40), slice_app_pre, Fb by lia.
  rewrite field_at, Fc by lia.
  rewrite get_put_le_u32.
  2: by apply crc32_ieee_range, frame_body_ok.
  rewrite !Z.eqb_refl. change (get_le [recordVersion] =? recordVersion) with true.
  cbn [negb]. z_case; [lia|]. z_case; [lia|]. rewrite <-Hlen. by destruct h.
Qed.

(** A record cut short anywhere is not accepted. *)
Lemma scan_record_torn pre h p k :
  record_ok (h, p) -> 0 <= k < FramedSize (blen p) ->
  scan_record (pre ++ slice (frame h p) 0 k) (blen pre + k) (blen pre) = None.
Proof.
  intros ((_ & _ & _ & _ & Hn) & Hlen & _) Hk. cbn [fst snd] in *.
  unfold scan_record, FramedSize, headerSize, trailerSize in *.
  z_case; [done|]. destruct (negb _); [done|]. destruct (negb _); [done|].
  cbn [rh_Length].
  destruct (frame_fields h p []) as (_ & _ & _ & _ & _ & _ & F36).
  rewrite app_nil_r in F36.
  rewrite field_at, slice_slice by lia. z_lits. rewrite !Z.add_0_l, F36.
  rewrite get_put_le_u32, Hlen by done. z_case; [done|lia].
Qed.

Lemma scan_record_end data size pos : size <= pos -> scan_record data size pos = None.
Proof. intros. unfold scan_record, headerSize, trailerSize. z_case; [done|lia]. Qed.

(** An accepted record lies inside the file. *)
Lemma scan_record_bounds data size pos h :
  bytes_ok data -> scan_record data size pos = Some h ->
  0 <= rh_Length h /\ pos + headerSize + rh_Length h + trailerSize <= size.
Proof.
  intros Hb. unfold scan_record. z_case; [done|].
  destruct (negb _); [done|]. destruct (negb _); [done|]. cbn [rh_Length].
  z_case; [done|]. destruct (negb _); [done|]. intros [= <-]. cbn [rh_Length]. split; [|lia].
  apply get_le_bound. by apply Forall_take, Forall_drop.
Qed.

(** The loop over records laid out from [pos]: it visits them in order and
    goes on behind the last. *)
Lemma scan_loop_frames {T} (visit : RecordHeader -> Z -> M T unit) rs :
  forall fuel pre tail data size pos (t : T),
  Forall record_ok rs -> data = pre ++ frames rs ++ tail -> size = blen data ->
  pos = blen pre ->
  scan_loop visit (length rs + fuel) data size pos t =
    bind (mfor (record_offsets pos rs) (fun ro => visit ro.1 ro.2))
      (fun _ => scan_loop visit fuel data size (pos + blen (frames rs))) t.
Proof.
  induction rs as [|[h p] rs IH]; intros fuel pre tail data size pos t Hrs Hd Hsz Hpos.
  - change (blen (frames [])) with 0. rewrite Z.add_0_r. done.
  - cbn [scan_loop record_offsets mfor length Nat.add].
    inversion_clear Hrs as [|? ? Hr Hrs']. pose proof Hr as (_ & Hlen & _). cbn [fst snd] in Hlen.
    rewrite frames_cons, <-app_assoc in Hd.
    assert (size = blen pre + FramedSize (blen p) + blen (frames rs ++ tail)) as Hsz'.
    { subst. rewrite !blen_app, blen_frame. lia. }
    pose proof (blen_nonneg p). pose proof (blen_nonneg (frames rs ++ tail)).
    z_case; [|unfold FramedSize, headerSize, trailerSize in *; lia]. cbn [negb].
    assert (scan_record data size pos = Some h) as ->
      by (rewrite Hd, Hpos; by apply scan_record_frame).
    unfold bind at 1 2. unfold bind at 1. cbn [fst snd].
    destruct (visit h _ t) as [[[]|e|] t']; [|done..].
    rewrite frames_cons, blen_app, blen_frame.
    replace (pos + headerSize + rh_Length h + trailerSize) with (pos + FramedSize (blen p))
      by (unfold FramedSize; lia).
    rewrite (IH fuel (pre ++ frame h p) tail), Z.add_assoc; try done.
    + rewrite Hd. by rewrite <-app_assoc.
    + rewrite blen_app, blen_frame. lia.
Qed.

Lemma scan_loop_end {T} (visit : RecordHeader -> Z -> M T unit) fuel data size pos (t : T) :
  scan_record data size pos = None -> scan_loop visit (S fuel) data size pos t = (Ok pos, t).
Proof. intros He. cbn [scan_loop]. destruct (negb _); [done|]. by rewrite He. Qed.

(** On any bytes at all the loop ends, inside the file. *)
Lemma scan_loop_bounds {T} (visit : RecordHeader -> Z -> M T unit) data size :
  bytes_ok data -> size = blen data ->
  (forall h o t, fst (visit h o t) <> Panic) ->
  forall fuel pos t, 0 <= pos <= size -> size - pos < Z.of_nat fuel ->
  wp (scan_loop visit fuel data size pos)
    (fun r _ => match r with Ok e => pos <= e <= size | Err _ => True | Panic => False end) t.
Proof.
  intros Hb Hsz Hv. induction fuel as [|fuel IH]; intros pos t Hpos Hf; [lia|].
  cbn [scan_loop]. destruct (negb (pos <? size)); [apply wp_ret; lia|].
  destruct (scan_record data size pos) as [h|] eqn:E; [|apply wp_ret; lia].
  apply scan_record_bounds in E as [Hl He]; [|done].
  unfold headerSize, trailerSize in *.
  apply wp_bind. unfold wp at 1. specialize (Hv h (pos + 40) t).
  destruct (visit h (pos + 40) t) as [[[]|e|] t']; cbn [fst snd] in *; [|done..].
  eapply wp_mono; [apply IH; lia|]. intros [e|e|] t''; [lia|done..].
Qed.

(** ** Files made of whole records

    [whole d]: a scan accepts [d] to its last byte.  Bytes that a crash leaves
    behind may be accepted too, so this is weaker than being [frames]. *)

Definition chunk_ok (c : bytes) (h : RecordHeader) : Prop :=
  scan_record c (blen c) 0 = Some h /\ 0 <= rh_Length h /\ blen c = FramedSize (rh_Length h).

Inductive whole : bytes -> Prop :=
  | whole_nil : whole []
  | whole_cons c h d : chunk_ok c h -> whole d -> whole (c ++ d).

Lemma whole_app a b : whole a -> whole b -> whole (a ++ b).
Proof.
  induction 1 as [|c h d Hc Hd IH]; intros Hb; [done|].
  rewrite <-app_assoc. econstructor; [done|by apply IH].
Qed.

Lemma whole_chunk c h : chunk_ok c h -> whole c.
Proof. intros Hc. rewrite <-(app_nil_r c). econstructor; [done|constructor]. Qed.

Lemma whole_frame h p : record_ok (h, p) -> whole (frame h p).
Proof.
  intros Hr. apply (whole_chunk _ h). pose proof Hr as (_ & Hl & _). cbn [fst snd] in Hl.
  pose proof (blen_nonneg p). split_and!; [|lia|by rewrite blen_frame, Hl].
  pose proof (scan_record_frame [] h p [] (blen (frame h p)) Hr) as H'.
  rewrite app_nil_r in H'. apply H'. rewrite blen_frame. change (blen (@nil Z)) with 0. lia.
Qed.

(** The length field decides how far a record reaches; the bytes around it do
    not matter. *)
Lemma scan_record_length data size pos h :
  scan_record data size pos = Some h -> rh_Length h = get_le (slice data (pos + 36) (pos + 36 + 4)).
Proof.
  unfold scan_record. destruct (_ <? _); [done|]. do 2 (destruct (negb _); [done|]).
  cbn [rh_Length]. destruct (_ <? _); [done|]. destruct (negb _); [done|]. by intros [= <-].
Qed.

Lemma scan_record_shift pre c tail size :
  44 <= blen c -> blen c = 40 + get_le (slice c 36 (36 + 4)) + 4 ->
  size = blen pre + blen c + blen tail ->
  scan_record (pre ++ c ++ tail) size (blen pre) = scan_record c (blen c) 0.
Proof.
  intros H44 Hl ->. pose proof (blen_nonneg tail).
  unfold scan_record, headerSize, trailerSize.
  rewrite !Z.add_0_l, Z.sub_0_r, field_at_0, slice_app_pre, !field_at by lia.
  rewrite !(slice_app_l c tail) by lia. z_lits. change (36 + 4) with 40 in Hl.
  rewrite (proj2 (Z.ltb_ge (blen c) 44)) by lia.
  rewrite (proj2 (Z.ltb_ge (blen pre + blen c + blen tail - blen pre) 44)) by lia.
  do 2 (destruct (negb _); [done|]). cbn [rh_Length].
  set (n := get_le (slice c 36 40)) in *.
  rewrite (proj2 (Z.ltb_ge (blen c) _)) by lia.
  rewrite (proj2 (Z.ltb_ge (blen pre + blen c + blen tail) _)) by lia.
  rewrite <-(Z.add_assoc (blen pre) 40), slice_app_pre, field_at by lia.
  by rewrite !(slice_app_l c tail) by lia.
Qed.

(** A record is accepted wherever it lies. *)
Lemma scan_record_chunk pre c h tail size :
  chunk_ok c h -> size = blen pre + blen c + blen tail ->
  scan_record (pre ++ c ++ tail) size (blen pre) = Some h.
Proof.
  intros (Hs & Hn & Hl) Hsz. rewrite <-Hs. unfold FramedSize, headerSize, trailerSize in Hl.
  apply scan_record_shift; [lia| |done].
  apply scan_record_length in Hs. rewrite Z.add_0_l in Hs. lia.
Qed.

Definition nop (_ : RecordHeader) (_ : Z) : M unit unit := ret tt.

(** A scan that reaches the start of whole records gets past them. *)
Lemma scan_loop_whole d : whole d -> forall fuel pre tail size,
  bytes_ok (pre ++ d ++ tail) -> size = blen (pre ++ d ++ tail) ->
  size - blen pre < Z.of_nat fuel ->
  exists e, scan_loop nop fuel (pre ++ d ++ tail) size (blen pre) tt = (Ok e, tt) /\
            blen pre + blen d <= e <= size.
Proof.
  induction 1 as [|c h d Hc Hd IH]; intros fuel pre tail size Hb Hsz Hf.
  - pose proof (scan_loop_bounds nop (pre ++ [] ++ tail) size Hb Hsz ltac:(done) fuel
      (blen pre) tt) as H. unfold wp in H. cbn [app] in *. rewrite blen_app in Hsz.
    pose proof (blen_nonneg pre). pose proof (blen_nonneg tail).
    specialize (H ltac:(lia) ltac:(lia)).
    destruct (scan_loop nop fuel (pre ++ tail) size (blen pre) tt) as [[e|e|] []] eqn:E;
      cbn [fst] in H; [|exfalso|done].
    + exists e. split; [done|]. change (blen (@nil Z)) with 0. lia.
    + clear -E. revert E. generalize (blen pre). induction fuel as [|fuel IH]; intros z; [done|].
      cbn [scan_loop]. destruct (negb _); [done|]. destruct (scan_record _ _ _); [|done].
      unfold nop, bind, ret. apply IH.
  - pose proof Hc as (_ & Hn & Hl). pose proof (blen_nonneg (d ++ tail)).
    pose proof (blen_nonneg pre). rewrite <-app_assoc in Hb, Hsz |- *.
    pose proof Hsz as Hsz'. rewrite !blen_app in Hsz'. rewrite blen_app in H.
    unfold FramedSize, headerSize, trailerSize in Hl.
    destruct fuel as [|fuel]; [lia|]. cbn [scan_loop].
    rewrite (scan_record_chunk pre c h) by (done || (rewrite blen_app; lia)).
    z_case; [|lia]. cbn [negb]. unfold nop, bind, ret. fold nop.
    destruct (IH fuel (pre ++ c) tail size) as (e & He & Hee);
      [by rewrite <-app_assoc..|rewrite blen_app; lia|].
    exists e. rewrite !blen_app in *. unfold headerSize, trailerSize.
    rewrite <-app_assoc in He. split; [|lia]. rewrite <-He. f_equal. lia.
Qed.

(** Conversely, an accepted record is one on its own. *)
Lemma scan_record_chunk_inv pre c h tail size :
  0 <= rh_Length h -> blen c = FramedSize (rh_Length h) ->
  size = blen pre + blen c + blen tail ->
  scan_record (pre ++ c ++ tail) size (blen pre) = Some h -> chunk_ok c h.
Proof.
  intros Hn Hl Hsz Hs. pose proof (scan_record_length _ _ _ _ Hs) as Hh.
  unfold FramedSize, headerSize, trailerSize in Hl.
  rewrite field_at, slice_app_l in Hh by lia. split_and!; [|done..].
  rewrite <-Hs. symmetry. apply scan_record_shift; [lia|lia|done].
Qed.

Lemma slice_cut {A} (d : list A) a b :
  0 <= a -> a <= b -> b <= blen d -> d = slice d 0 a ++ slice d a b ++ slice d b (blen d).
Proof.
  intros. rewrite <-(slice_all d (blen d)) at 1 by done.
  rewrite (slice_split d 0 a (blen d)), (slice_split d a b (blen d)) by lia. done.
Qed.

(** What a scan accepts is whole. *)
Lemma scan_loop_accepts data size fuel : forall pos e,
  bytes_ok data -> size = blen data -> 0 <= pos <= size -> whole (slice data 0 pos) ->
  scan_loop nop fuel data size pos tt = (Ok e, tt) -> whole (slice data 0 e).
Proof.
  induction fuel as [|fuel IH]; intros pos e Hb Hsz Hpos Hw; [done|]. cbn [scan_loop].
  destruct (negb (pos <? size)); [by intros [= <-]|].
  destruct (scan_record data size pos) as [h|] eqn:E; [|by intros [= <-]].
  unfold nop, bind, ret. fold nop. destruct (scan_record_bounds _ _ _ _ Hb E) as [Hn He].
  unfold headerSize, trailerSize in *. apply IH; [done|done|lia|].
  rewrite (slice_split data 0 pos) by lia. apply whole_app; [done|]. apply (whole_chunk _ h).
  eapply (scan_record_chunk_inv (slice data 0 pos) _ h (slice data (pos + 40 + rh_Length h + 4) size) size).
  - done.
  - rewrite blen_slice by lia. unfold FramedSize, headerSize, trailerSize. lia.
  - rewrite !blen_slice by lia. lia.
  - rewrite blen_slice by lia. rewrite Z.sub_0_r. rewrite <-E. f_equal. rewrite Hsz.
    symmetry. apply slice_cut; lia.
Qed.

(** A scan with no callback, on any file: the accepted prefix is whole and
    contains every whole prefix of the file. *)
Lemma Scan_nop s io :
  seg_clean s -> bytes_ok (fl_data (sg_file s)) ->
  wp (Scan nop) (fun r st => st.1.1 = s /\
    match r with
    | Ok e => 0 <= e <= sg_size s /\ whole (slice (fl_data (sg_file s)) 0 e) /\
              (forall k, 0 <= k <= sg_size s -> whole (slice (fl_data (sg_file s)) 0 k) -> k <= e)
    | Err _ => True
    | Panic => False
    end) ((s, io), tt).
Proof.
  intros (Ho & _ & Hsz & _) Hb. unfold wp, Scan. cbn [fst snd].
  set (d := fl_data (sg_file s)) in *. pose proof (blen_nonneg d).
  destruct (Z.eqb_spec (sg_size s) 0) as [E|E].
  { cbn. split; [done|]. split_and!; [lia..|constructor|intros; lia]. }
  assert (forall k, 0 <= k <= sg_size s -> whole (slice d 0 k) ->
    exists e, scan_loop nop (scan_fuel d) d (sg_size s) 0 tt = (Ok e, tt) /\ k <= e <= sg_size s) as Hgo.
  { intros k Hk Hw.
    assert (slice d 0 k ++ slice d k (blen d) = d) as Hcut
      by (rewrite <-slice_split by lia; by apply slice_all).
    pose proof (scan_loop_whole (slice d 0 k) Hw (scan_fuel d) [] (slice d k (blen d)) (sg_size s))
      as Hs. cbn [app] in Hs. rewrite Hcut in Hs. change (blen (@nil Z)) with 0 in Hs.
    destruct Hs as (e & He & Hee); [done|done|unfold scan_fuel, blen in *; lia|].
    rewrite blen_slice in Hee by lia. exists e. split; [done|lia]. }
  destruct (Hgo 0) as (e & He & Hee); [lia|constructor|].
  assert (whole (slice d 0 e)) as Hwe
    by (eapply (scan_loop_accepts d (sg_size s) _ 0); [done..|lia|constructor|exact He]).
  assert (forall k, 0 <= k <= sg_size s -> whole (slice d 0 k) -> k <= e) as Hmax.
  { intros k Hk Hw. destruct (Hgo k Hk Hw) as (e' & He' & ?). rewrite He in He'.
    injection He' as ->. lia. }
  unfold Segment_ReadAt, bind, seg_get, next_io, of_outcome, throw. cbn [fst snd].
  rewrite Ho. cbn [negb].
  assert (file_read_at (sg_size s) 0 (sg_file s) = Ok d) as Hr.
  { rewrite file_read_at_slice by (fold d; lia). fold d. by rewrite slice_all. }
  destruct io as [|[n|] io]; cbn [fst snd]; rewrite ?Hr; fold d; rewrite ?He; cbn; done.
Qed.

(** ** Lemmas: the operations *)

Definition with_data (d : bytes) (pos : Z) (size : Z) (s : Segment) : Segment :=
  mkSegment (sg_id s) (mkFile d pos (fl_synced (sg_file s))) (sg_open s) size.

(** [AppendCtx] in full: a success adds the frame; a failed write leaves a
    proper prefix of it behind and does not advance [s.size]. *)
Lemma AppendCtx_spec h p s io :
  seg_clean s -> rh_Length h = blen p ->
  wp (AppendCtx h p) (fun r st =>
    match r with
    | Ok off =>
        off = sg_size s + headerSize /\ sg_size s + FramedSize (blen p) <= max_file_size /\
        st.1 = with_data (fl_data (sg_file s) ++ frame h p) (sg_size s + FramedSize (blen p))
                 (sg_size s + FramedSize (blen p)) s
    | Err _ => exists k, 0 <= k < FramedSize (blen p) /\
        st.1 = with_data (fl_data (sg_file s) ++ slice (frame h p) 0 k) (sg_size s + k)
                 (sg_size s) s
    | Panic => False
    end) (s, io).
Proof.
  intros (Ho & Hpos & Hsz & Hsy & Hmax) Hlen. pose proof (blen_nonneg p).
  pose proof (blen_nonneg (fl_data (sg_file s))).
  unfold AppendCtx. rewrite Hlen, Z.eqb_refl. cbn [negb].
  unfold FramedSize, headerSize, trailerSize, max_file_size in *.
  destruct s as [id [d pos sy] op size]. cbn in Ho, Hpos, Hsz, Hsy, Hmax. subst op pos.
  unfold wp, fd_write, fd_call, bind, seg_get, next_io, seg_modify, throw, ret.
  cbn [fst snd sg_file fl_pos]. rewrite blen_frame.
  unfold FramedSize, headerSize, trailerSize, max_file_size.
  destruct (Z.ltb_spec (2^62) (size + (40 + blen p + 4))) as [Hbig|Hbig].
  { cbn [fst snd]. exists 0. split; [lia|]. unfold with_data. cbn.
    by rewrite app_nil_r, Z.add_0_r. }
  destruct io as [|[n|] io]; cbn [fst snd sg_open negb bind];
    unfold on_file, set_size, with_data; cbn [sg_file sg_id sg_open sg_size].
  - rewrite file_write_end by exact Hsz. cbn [fl_pos fl_data fl_synced].
    rewrite blen_frame. unfold FramedSize, headerSize, trailerSize. i64_simpl.
    rewrite Z.min_l by lia. split_and!; (done || lia).
  - set (k := Z.min (Z.max 0 n) (40 + blen p + 4 - 1)).
    assert (0 <= k < 40 + blen p + 4) as Hk by lia.
    exists k. split; [done|]. rewrite file_write_end by exact Hsz. cbn [fl_pos fl_data fl_synced].
    rewrite blen_slice by (rewrite ?blen_frame; unfold FramedSize, headerSize, trailerSize; lia).
    rewrite Z.min_l by lia. f_equal. f_equal. lia.
  - rewrite file_write_end by exact Hsz. cbn [fl_pos fl_data fl_synced].
    rewrite blen_frame. unfold FramedSize, headerSize, trailerSize. i64_simpl.
    rewrite Z.min_l by lia. split_and!; (done || lia).
Qed.

(** The segment after one whole record. *)
Definition with_record (h : RecordHeader) (p : bytes) (s : Segment) : Segment :=
  with_data (fl_data (sg_file s) ++ frame h p) (sg_size s + FramedSize (blen p))
    (sg_size s + FramedSize (blen p)) s.

Lemma with_record_clean h p s :
  seg_clean s -> sg_size s + FramedSize (blen p) <= max_file_size ->
  seg_clean (with_record h p s).
Proof.
  intros (Ho & Hpos & Hsz & Hsy & Hmax) Hm. unfold seg_clean, with_record. cbn.
  pose proof (blen_nonneg p). rewrite blen_app, blen_frame.
  unfold FramedSize, headerSize, trailerSize in *. split_and!; (done || lia).
Qed.

Lemma Segment_ReadAt_ok n off s io :
  sg_open s = true -> 0 <= off -> 0 <= n -> off + n <= blen (fl_data (sg_file s)) ->
  Segment_ReadAt n off (s, []) = (Ok (slice (fl_data (sg_file s)) off (off + n)), (s, [])) /\
  fst (Segment_ReadAt n off (s, None :: io)) = Ok (slice (fl_data (sg_file s)) off (off + n)).
Proof.
  intros Ho ???. unfold Segment_ReadAt, bind, seg_get, next_io, of_outcome. cbn [fst snd].
  rewrite Ho. cbn. by rewrite file_read_at_slice.
Qed.

(** Bytes already in the file are read as before, whatever was appended. *)
Lemma read_appended n off s d pos size :
  sg_open s = true -> 0 <= off -> 0 <= n -> off + n <= blen (fl_data (sg_file s)) ->
  fst (Segment_ReadAt n off (with_data (fl_data (sg_file s) ++ d) pos size s, [])) =
  fst (Segment_ReadAt n off (s, [])).
Proof.
  intros Ho ???. pose proof (blen_nonneg d).
  destruct (Segment_ReadAt_ok n off s [] ) as [-> _]; try done.
  destruct (Segment_ReadAt_ok n off (with_data (fl_data (sg_file s) ++ d) pos size s) [])
    as [-> _]; try done; cbn [with_data sg_file fl_data].
  { rewrite blen_app. lia. }
  cbn. by rewrite slice_app_l by lia.
Qed.

(** Append the records of a list one after the other, keeping the offsets. *)
Definition append_all (rs : list record) : M SegSt (list Z) :=
  mfold (fun offs r => let* off := AppendCtx r.1 r.2 in ret (offs ++ [off])) [] rs.

Lemma AppendCtx_ok h p s :
  seg_clean s -> rh_Length h = blen p -> sg_size s + FramedSize (blen p) <= max_file_size ->
  AppendCtx h p (s, []) = (Ok (sg_size s + headerSize), (with_record h p s, [])).
Proof.
  intros Hc Hl Hm. pose proof (AppendCtx_spec h p s [] Hc Hl) as H. unfold wp in H.
  destruct Hc as (Ho & Hpos & _).
  destruct (AppendCtx h p (s, [])) as [r [s' io']] eqn:E. cbn [fst snd] in H.
  assert (io' = [] /\ is_ok r = true) as [-> Hr].
  { revert E. unfold AppendCtx, fd_write, fd_call, bind, seg_get, next_io, seg_modify, ret.
    rewrite Hl, Z.eqb_refl. cbn [negb fst]. rewrite blen_frame, Hpos.
    destruct (Z.ltb_spec max_file_size (sg_size s + FramedSize (blen p))); [lia|].
    cbn. rewrite Ho. cbn. intros [= <- _ <-]. done. }
  destruct r as [off|e|]; [|done..]. destruct H as (-> & _ & ->). done.
Qed.

Lemma append_all_ok rs : forall offs s,
  seg_clean s -> Forall record_ok rs -> sg_size s + blen (frames rs) <= max_file_size ->
  mfold (fun offs r => let* off := AppendCtx r.1 r.2 in ret (offs ++ [off])) offs rs (s, []) =
    (Ok (offs ++ (record_offsets (sg_size s) rs).*2),
     (with_data (fl_data (sg_file s) ++ frames rs) (sg_size s + blen (frames rs))
        (sg_size s + blen (frames rs)) s, [])).
Proof.
  induction rs as [|[h p] rs IH]; intros offs s Hc Hrs Hm.
  - cbn. rewrite !app_nil_r. change (blen (frames [])) with 0. rewrite Z.add_0_r.
    destruct Hc as (_ & Hp & _). rewrite <-Hp at 1. unfold ret, with_data.
    by destruct s as [? [] ? ?].
  - inversion_clear Hrs as [|? ? Hr Hrs']. pose proof Hr as (_ & Hl & _). cbn [fst snd] in Hl.
    rewrite frames_cons, blen_app, blen_frame in *. pose proof (blen_nonneg (frames rs)).
    cbn [mfold]. unfold bind at 1 2. cbn [fst snd]. rewrite AppendCtx_ok by (done || lia).
    unfold ret at 1. rewrite IH; [|apply with_record_clean; [done|lia]|done|cbn; lia].
    cbn [record_offsets fmap list_fmap]. unfold with_record, with_data.
    cbn [sg_size sg_file sg_id sg_open fl_data fl_pos fl_synced].
    rewrite <-!app_assoc. cbn [app]. rewrite !Z.add_assoc. done.
Qed.

Lemma Scan_clean {T} (visit : RecordHeader -> Z -> M T unit) s (t : T) :
  seg_clean s ->
  Scan visit ((s, []), t) =
    let '(r, t') := scan_loop visit (scan_fuel (fl_data (sg_file s))) (fl_data (sg_file s))
                      (sg_size s) 0 t in
    (r, ((s, []), t')).
Proof.
  intros (Ho & _ & Hsz & _). unfold Scan. cbn [fst]. pose proof (blen_nonneg (fl_data (sg_file s))).
  destruct (Z.eqb_spec (sg_size s) 0) as [E|E].
  - unfold scan_fuel. cbn [scan_loop]. rewrite E. done.
  - destruct (Segment_ReadAt_ok (sg_size s) 0 s []) as [-> _]; [done|lia..|].
    rewrite Z.add_0_l, slice_all by done. done.
Qed.

(** Scanning whole records followed by bytes that are not one. *)
Lemma Scan_frames {T} (visit : RecordHeader -> Z -> M T unit) s rs tail (t : T) :
  seg_clean s -> fl_data (sg_file s) = frames rs ++ tail -> Forall record_ok rs ->
  scan_record (fl_data (sg_file s)) (sg_size s) (blen (frames rs)) = None ->
  Scan visit ((s, []), t) =
    let '(r, t') := mfor (record_offsets 0 rs) (fun ro => visit ro.1 ro.2) t in
    (obind r (fun _ => Ok (blen (frames rs))), ((s, []), t')).
Proof.
  intros Hc Hd Hrs He. pose proof Hc as (_ & _ & Hsz & _). rewrite Scan_clean by done.
  assert (exists n, scan_fuel (fl_data (sg_file s)) = (length rs + S n)%nat) as [n ->].
  { exists (length (fl_data (sg_file s)) - length rs)%nat. unfold scan_fuel.
    assert (length rs <= length (fl_data (sg_file s)))%nat; [|lia].
    rewrite Hd, length_app. clear. induction rs as [|[h p] rs IH]; [simpl; lia|].
    rewrite frames_cons, length_app. pose proof (blen_frame h p) as Hf. unfold blen in Hf.
    unfold FramedSize, headerSize, trailerSize in Hf. cbn [length]. lia. }
  rewrite (scan_loop_frames visit rs (S n) [] tail) by done.
  unfold bind. destruct (mfor _ _ t) as [[[]|e|] t']; [|done..].
  by rewrite scan_loop_end.
Qed.

Lemma mfor_collect l acc :
  mfor l (fun ro : RecordHeader * Z => collect_record ro.1 ro.2) acc = (Ok tt, acc ++ l).
Proof.
  revert acc. induction l as [|[h o] l IH]; intros acc; cbn [mfor].
  - by rewrite app_nil_r.
  - unfold bind, collect_record, modify. cbn [fst snd]. unfold collect_record, modify in IH.
    rewrite IH. by rewrite <-app_assoc.
Qed.

(** C20: what [AppendCtx] writes reads back.  On success the payload is found at
    the returned offset and the segment is again clean; on success and on
    failure alike every byte that was in the file still reads the same, and a
    failure does not advance [s.size]; it never panics. *)
Theorem append_reads_back (h : RecordHeader) (p : bytes) (s : Segment) (io : io_stream) :
  seg_clean s -> rh_Length h = blen p ->
  let '(r, (s', _)) := AppendCtx h p (s, io) in
  (forall n off, 0 <= off -> 0 <= n -> off + n <= sg_size s ->
     fst (Segment_ReadAt n off (s', [])) = fst (Segment_ReadAt n off (s, []))) /\
  match r with
  | Ok off => seg_clean s' /\ sg_size s' = sg_size s + FramedSize (blen p) /\
              fst (Segment_ReadAt (blen p) off (s', [])) = Ok p
  | Err _ => sg_size s' = sg_size s
  | Panic => False
  end.
Proof.
  intros Hc Hl. pose proof (AppendCtx_spec h p s io Hc Hl) as H. unfold wp in H.
  destruct (AppendCtx h p (s, io)) as [r [s' io']]. cbn [fst snd] in H.
  pose proof Hc as (Ho & Hpos & Hsz & Hsy & _). pose proof (blen_nonneg p).
  destruct r as [off|e|]; [|destruct H as (k & Hk & ->)|done].
  - destruct H as (-> & Hm & ->). split; [intros; apply read_appended; (done || lia)|].
    split; [by apply with_record_clean|]. split; [done|].
    unfold headerSize.
    destruct (Segment_ReadAt_ok (blen p) (sg_size s + 40) (with_record h p s) []) as [E _];
      [done|lia|lia| |unfold with_record in E; rewrite E; cbn [fst with_data sg_file fl_data]].
    + unfold with_record. cbn. rewrite blen_app, blen_frame.
      unfold FramedSize, headerSize, trailerSize. lia.
    + rewrite Hsz, <-Z.add_assoc, slice_app_pre by lia.
      destruct (frame_payload h p []) as (Hp & _). rewrite app_nil_r in Hp. by rewrite Hp.
  - split; [intros; apply read_appended; (done || lia)|done].
Qed.

(** C21: appending and scanning round trip.  Records appended to a segment that
    holds records are all found by [Scan], in order, at the offsets [Append]
    returned, and the scan ends exactly at the end of the file. *)
Theorem append_scan_roundtrip (rs0 rs : list record) (s : Segment) :
  seg_clean s -> fl_data (sg_file s) = frames rs0 -> Forall record_ok (rs0 ++ rs) ->
  blen (frames (rs0 ++ rs)) <= max_file_size ->
  exists s',
    append_all rs (s, []) = (Ok (record_offsets (sg_size s) rs).*2, (s', [])) /\
    seg_clean s' /\ fl_data (sg_file s') = frames (rs0 ++ rs) /\
    Scan collect_record ((s', []), []) =
      (Ok (blen (frames (rs0 ++ rs))), ((s', []), record_offsets 0 (rs0 ++ rs))).
Proof.
  intros Hc Hd Hrs Hm. pose proof Hc as (Ho & Hpos & Hsz & Hsy & _).
  rewrite frames_app, blen_app in Hm. rewrite Hd in Hsz.
  unfold append_all. rewrite append_all_ok; [|done|by apply Forall_app in Hrs as [_ ?]|lia].
  eexists. split; [done|]. pose proof (blen_nonneg (frames rs)).
  assert (forall z, z = blen (frames (rs0 ++ rs)) ->
    seg_clean (with_data (frames rs0 ++ frames rs) z z s)) as Hc'.
  { intros z ->. unfold seg_clean. cbn. rewrite frames_app, blen_app. split_and!; (done || lia). }
  assert (sg_size s + blen (frames rs) = blen (frames (rs0 ++ rs))) as ->
    by (rewrite frames_app, blen_app; lia).
  rewrite Hd. split_and!; [by apply Hc'|by rewrite frames_app|].
  rewrite (Scan_frames _ _ (rs0 ++ rs) []).
  - by rewrite mfor_collect.
  - by apply Hc'.
  - cbn. by rewrite app_nil_r, frames_app.
  - done.
  - cbn. by apply scan_record_end.
Qed.

(** A torn tail is found exactly.  When the file holds whole records and
    then the beginning of one more, cut anywhere, [Scan] visits the whole
    records and reports the offset where the torn one starts. *)
Theorem scan_torn_tail (rs : list record) (h : RecordHeader) (p : bytes) (k : Z) (s : Segment) :
  seg_clean s -> Forall record_ok (rs ++ [(h, p)]) -> 0 <= k < FramedSize (blen p) ->
  fl_data (sg_file s) = frames rs ++ slice (frame h p) 0 k ->
  Scan collect_record ((s, []), []) = (Ok (blen (frames rs)), ((s, []), record_offsets 0 rs)).
Proof.
  intros Hc Hrs Hk Hd. apply Forall_app in Hrs as [Hrs Hr]. inversion_clear Hr.
  rewrite (Scan_frames _ _ rs (slice (frame h p) 0 k)); [by rewrite mfor_collect|done..|].
  destruct Hc as (_ & _ & -> & _). rewrite Hd, blen_app.
  rewrite blen_slice; [|lia..|rewrite blen_frame; lia]. rewrite Z.sub_0_r.
  by apply scan_record_torn.
Qed.

(** ** The theorems at concrete inputs *)

Definition ex_seg : Segment := mkSegment 0 (mkFile [] 0 0) true 0.
Definition ex_h (seq off len : Z) : RecordHeader :=
  {| rh_Inode := 7; rh_StripeID := 1; rh_Seq := seq; rh_LogicalOff := off; rh_Length := len |}.
Definition ex_r1 : record := (ex_h 1 0 3, [1; 2; 3]).
Definition ex_r2 : record := (ex_h 2 3 2, [4; 5]).

Lemma ex_seg_clean : seg_clean ex_seg.
Proof. repeat split; done. Qed.

Lemma ex_records_ok : Forall record_ok [ex_r1; ex_r2].
Proof.
  repeat constructor; unfold in_u64, in_u32, in_i64, in_u8; simpl; lia.
Qed.

Example ex_append_offsets :
  fst (append_all [ex_r1; ex_r2] (ex_seg, [])) = Ok [40; 87].
Proof. vm_compute. reflexivity. Qed.

Lemma append_reads_back_witness :
  seg_clean ex_seg /\
  let '(r, (s', _)) := AppendCtx (fst ex_r1) (snd ex_r1) (ex_seg, [None]) in
  r = Ok 40 /\ fst (Segment_ReadAt 3 40 (s', [])) = Ok [1; 2; 3].
Proof.
  split; [exact ex_seg_clean|].
  pose proof (append_reads_back (fst ex_r1) (snd ex_r1) ex_seg [None] ex_seg_clean
                eq_refl) as H.
  vm_compute in H |- *. destruct H as (_ & _ & _ & H). split; [reflexivity|exact H].
Defined.

Lemma append_scan_roundtrip_witness :
  Forall record_ok ([] ++ [ex_r1; ex_r2]) /\
  exists s', append_all [ex_r1; ex_r2] (ex_seg, []) = (Ok [40; 87], (s', [])) /\
    Scan collect_record ((s', []), []) =
      (Ok 93, ((s', []), [(fst ex_r1, 40); (fst ex_r2, 87)])).
Proof.
  split; [exact ex_records_ok|].
  destruct (append_scan_roundtrip [] [ex_r1; ex_r2] ex_seg ex_seg_clean eq_refl
              ex_records_ok ltac:(vm_compute; congruence)) as (s' & Ha & _ & _ & Hs).
  exists s'. split; [exact Ha|exact Hs].
Defined.

Definition ex_torn : Segment :=
  let d := frame (fst ex_r1) (snd ex_r1) ++ slice (frame (fst ex_r2) (snd ex_r2)) 0 45 in
  mkSegment 0 (mkFile d 92 47) true 92.

Lemma scan_torn_tail_witness :
  seg_clean ex_torn /\
  Scan collect_record ((ex_torn, []), []) = (Ok 47, ((ex_torn, []), [(fst ex_r1, 40)])).
Proof.
  assert (seg_clean ex_torn) as Hc by (repeat split; vm_compute; congruence).
  split; [exact Hc|].
  exact (scan_torn_tail [ex_r1] (fst ex_r2) (snd ex_r2) 45 ex_torn Hc ex_records_ok
           ltac:(split; [done|reflexivity]) ltac:(vm_compute; reflexivity)).
Defined.

