(* ===== verification/Layer.v ===== *)
(** * What the index asks of a segment set

    [SegLayer] lists the calls the index makes on a [segment.Set];
    [SegLayerLaws] is what they promise, stated on two views of a set: the
    bytes of every live segment, and how many of them are durable.  The index
    is modelled and proved against this interface; SegmentSet.v implements it.

    [lv_ok] holds at all times.  [lv_clean] holds as long as no write failed
    part way: such a failure leaves the file offset and [Segment.size] apart,
    and only then can an append go to the wrong place. *)

From S2P Require Import Prelude Gostr Segment.

(** ** File names *)

Definition seg_ext : bytes := [46; 115; 101; 103].   (* ".seg" *)

Definition segFileName (id : Z) : bytes := format_padded 10 id ++ seg_ext.

(** The id of a directory entry, as [OpenSet] and [GC] parse it. *)
Definition seg_name_id (name : bytes) : option Z :=
  if has_suffix seg_ext name then parse_uint 32 (trim_suffix seg_ext name) else None.

(** ** The interface *)

Class SegLayer (S : Type) := {
  sl_open : M S unit;                            (* OpenSet *)
  sl_repair : M S unit;                          (* RepairTail *)
  sl_active : Z -> M S Z;                        (* ActiveCtx, the segment's id *)
  sl_append : Z -> RecordHeader -> bytes -> M S Z;
  sl_sync : Z -> M S unit;
  sl_get : S -> Z -> bool;                       (* Get(id) != nil *)
  sl_read : Z -> Z -> Z -> M S bytes;            (* Get(id).ReadAt: length, offset *)
  sl_size : S -> Z -> Z;                         (* Get(id).Size() *)
  sl_all : S -> list Z;
  sl_active_id : S -> option Z;
  sl_remove : Z -> M S unit;
  sl_sync_all : M S unit;
  sl_close_all : M S unit;
  sl_readdir : M S (list (bytes * bool));        (* os.ReadDir(s.Dir()) *)
  sl_unlink : bytes -> M S unit;                 (* os.Remove in s.Dir() *)
}.

(** [extends m m']: every segment of [m] is in [m'], with bytes added at most. *)
Definition extends (m m' : gmap Z bytes) : Prop :=
  forall id d, m !! id = Some d -> exists t, m' !! id = Some (d ++ t).

Section Laws.
Context {S : Type} (data : S -> gmap Z bytes) (durable : S -> Z -> Z).

(** A step that adds bytes at most, and forgets nothing durable. *)
Definition grows (s s' : S) : Prop :=
  extends (data s) (data s') /\ forall id, is_Some (data s !! id) -> durable s id <= durable s' id.

(** A step that changes no byte. *)
Definition quiet (s s' : S) : Prop :=
  data s' = data s /\ forall id, is_Some (data s !! id) -> durable s id <= durable s' id.
End Laws.

Class SegLayerLaws (S : Type) `{SegLayer S} := {
  lv_data : S -> gmap Z bytes;
  lv_durable : S -> Z -> Z;
  lv_ok : S -> Prop;
  lv_clean : S -> Prop;
  (** Opened on what a power loss leaves of a set, before [sl_open]. *)
  lv_crashed : S -> S -> Prop;
  (** The 32-bit segment counter has not wrapped around. *)
  lv_ordered : S -> Prop;
  (** No system call is going to fail. *)
  lv_reliable : S -> Prop;

  lv_bounds : forall s id d, lv_ok s -> lv_data s !! id = Some d ->
    in_u32 id /\ 0 <= lv_durable s id <= blen d;
  lv_bytes : forall s id d, lv_ok s -> lv_clean s -> lv_data s !! id = Some d -> bytes_ok d;
  lv_get : forall s id, sl_get s id = bool_decide (is_Some (lv_data s !! id));
  lv_all : forall s id, id ∈ sl_all s <-> is_Some (lv_data s !! id);
  lv_active_id : forall s id, lv_ok s -> sl_active_id s = Some id -> is_Some (lv_data s !! id);

  lv_active : forall n s, lv_ok s ->
    wp (sl_active n) (fun r s' =>
      lv_ok s' /\ grows lv_data lv_durable s s' /\ (lv_clean s -> lv_clean s') /\
      match r with
      | Ok id => is_Some (lv_data s' !! id)
      | Err _ => True
      | Panic => False
      end) s;
  lv_append : forall id h p s, lv_ok s -> lv_clean s -> is_Some (lv_data s !! id) ->
    header_ok h -> bytes_ok p ->
    wp (sl_append id h p) (fun r s' =>
      lv_ok s' /\ grows lv_data lv_durable s s' /\
      match r with
      | Ok off => lv_clean s' /\ rh_Length h = blen p /\ 0 <= off /\ off + blen p < 2^63 /\
          exists d, lv_data s' !! id = Some d /\ off + blen p <= blen d /\
                    slice d off (off + blen p) = p
      | Err _ => True
      | Panic => False
      end) s;
  lv_sync : forall id s, lv_ok s -> is_Some (lv_data s !! id) ->
    wp (sl_sync id) (fun r s' =>
      lv_ok s' /\ quiet lv_data lv_durable s s' /\ (lv_clean s -> lv_clean s') /\
      match r with
      | Ok _ => forall d, lv_data s' !! id = Some d -> lv_durable s' id = blen d
      | Err _ => True
      | Panic => False
      end) s;
  lv_read : forall id n off s, lv_ok s -> is_Some (lv_data s !! id) -> 0 <= n ->
    wp (sl_read id n off) (fun r s' =>
      lv_ok s' /\ quiet lv_data lv_durable s s' /\ (lv_clean s -> lv_clean s') /\
      (lv_reliable s -> lv_reliable s') /\
      match r with
      | Ok b => blen b = n /\ forall d, lv_data s !! id = Some d -> 0 <= off ->
                  off + n <= blen d -> b = slice d off (off + n)
      | Err _ => forall d, lv_data s !! id = Some d -> 0 <= off -> off + n <= blen d ->
                  ~ lv_reliable s
      | Panic => False
      end) s;
  lv_remove : forall id s, lv_ok s -> lv_clean s -> sl_active_id s <> Some id ->
    wp (sl_remove id) (fun r s' =>
      lv_ok s' /\ lv_clean s' /\ lv_data s' = delete id (lv_data s) /\
      sl_active_id s' = sl_active_id s /\
      (forall id', id' <> id -> lv_durable s' id' = lv_durable s id') /\ r <> Panic) s;
  lv_sync_all : forall s, lv_ok s ->
    wp sl_sync_all (fun r s' =>
      lv_ok s' /\ quiet lv_data lv_durable s s' /\ (lv_clean s -> lv_clean s') /\
      match r with
      | Ok _ => forall id d, lv_data s' !! id = Some d -> lv_durable s' id = blen d
      | Err _ => True
      | Panic => False
      end) s;
  lv_close_all : forall s, wp sl_close_all (fun r _ => r <> Panic) s;
  lv_dir : forall s, lv_ok s ->
    wp sl_readdir (fun r s' =>
      lv_ok s' /\ quiet lv_data lv_durable s s' /\ (lv_clean s -> lv_clean s') /\
      sl_active_id s' = sl_active_id s /\ r <> Panic) s;
  (** Of an entry that is not the file of a live segment. *)
  lv_unlink : forall name s, lv_ok s ->
    (forall id, seg_name_id name = Some id -> lv_data s !! id = None) ->
    wp (sl_unlink name) (fun r s' =>
      lv_ok s' /\ quiet lv_data lv_durable s s' /\ (lv_clean s -> lv_clean s') /\
      sl_active_id s' = sl_active_id s /\ r <> Panic) s;
  (** Recovery: no durable byte of a clean set is lost. *)
  lv_recover : forall s s0, lv_ok s -> lv_clean s -> lv_ordered s -> lv_crashed s s0 ->
    wp (let* _ := sl_open in sl_repair) (fun r s' =>
      r <> Panic /\
      (r = Ok tt ->
        lv_ok s' /\ lv_clean s' /\
        forall id d, lv_data s !! id = Some d ->
          exists t, lv_data s' !! id = Some (slice d 0 (lv_durable s id) ++ t) /\
                    lv_durable s id <= lv_durable s' id)) s0;
}.
