(* ===== verification/SegmentSet.v ===== *)
(** * Segment sets (src/segment/segment.go, [Set])

    A set is the directory of one tier: the open segments, the active one, the
    rotation counter, and the directory entries with what is known about their
    durability.  A file that is open as a segment lives in [ss_segments]; every
    other entry of the directory is in [ss_dir].

    The set's mutex makes each operation atomic; two interleavings the code
    leaves to its callers (an append to a segment that [Remove] closes, a sync
    that races with a close) are outside this file. *)

From S2P Require Import Prelude Fragment Gostr Segment Layer.

Inductive Dirent : Type :=
  | DSub                              (* a directory *)
  | DReg (data : bytes) (synced : Z). (* a regular file *)

Record SegSet : Type := mkSet {
  ss_tier : Z;
  ss_maxSize : Z;
  ss_dir : gmap bytes Dirent;
  ss_segments : gmap Z Segment;
  ss_active : option Z;
  ss_nextID : Z;            (* ids handed out; the uint32 [s.nextID] is its [u32] *)
  ss_durable : gset bytes;  (* names whose directory entry is on the device *)
  ss_open : bool;           (* [s.segments != nil] *)
}.

Abbreviation SetSt := (SegSet * io_stream)%type.

(** ** State access *)

Definition ss_get : M SetSt SegSet := fun st => (Ok st.1, st).
Definition ss_modify (f : SegSet -> SegSet) : M SetSt unit :=
  fun '(s, io) => (Ok tt, (f s, io)).

Definition with_segments (m : gmap Z Segment) (s : SegSet) : SegSet :=
  mkSet (ss_tier s) (ss_maxSize s) (ss_dir s) m (ss_active s) (ss_nextID s) (ss_durable s) (ss_open s).
Definition with_dir (d : gmap bytes Dirent) (s : SegSet) : SegSet :=
  mkSet (ss_tier s) (ss_maxSize s) d (ss_segments s) (ss_active s) (ss_nextID s) (ss_durable s) (ss_open s).
Definition with_active (a : option Z) (s : SegSet) : SegSet :=
  mkSet (ss_tier s) (ss_maxSize s) (ss_dir s) (ss_segments s) a (ss_nextID s) (ss_durable s) (ss_open s).
Definition with_nextID (n : Z) (s : SegSet) : SegSet :=
  mkSet (ss_tier s) (ss_maxSize s) (ss_dir s) (ss_segments s) (ss_active s) n (ss_durable s) (ss_open s).
Definition with_durable (d : gset bytes) (s : SegSet) : SegSet :=
  mkSet (ss_tier s) (ss_maxSize s) (ss_dir s) (ss_segments s) (ss_active s) (ss_nextID s) d (ss_open s).
Definition with_open (b : bool) (s : SegSet) : SegSet :=
  mkSet (ss_tier s) (ss_maxSize s) (ss_dir s) (ss_segments s) (ss_active s) (ss_nextID s) (ss_durable s) b.

(** A system call with no effect of its own. *)
Definition sys : M SetSt unit := fun '(s, io) =>
  match io with
  | [] => (Ok tt, (s, []))
  | None :: io => (Ok tt, (s, io))
  | Some _ :: io => (Err ErrIO, (s, io))
  end.

(** An operation on the segment with id [id]; following a nil pointer panics. *)
Definition on_seg {A} (id : Z) (m : M SegSt A) : M SetSt A := fun '(s, io) =>
  match ss_segments s !! id with
  | None => (Panic, (s, io))
  | Some g =>
      let '(r, (g', io')) := m (g, io) in
      (r, (with_segments (<[id := g']> (ss_segments s)) s, io'))
  end.

(** The names present in the directory. *)
Definition ss_names (s : SegSet) : gset bytes :=
  dom (ss_dir s) ∪ list_to_set (segFileName <$> (map_to_list (ss_segments s)).*1).

(** ** Operations *)

(** [openSegment]: the file is created when absent; the caller decides whether
    the segment enters the set ([install]). *)
Definition openSegment (id : Z) : M SetSt Segment :=
  let name := segFileName id in
  let* _ := sys in
  let* s := ss_get in
  let* file :=
    match ss_segments s !! id with
    | Some g => ret (fl_data (sg_file g), fl_synced (sg_file g))
    | None =>
        match ss_dir s !! name with
        | Some DSub => throw ErrIO
        | Some (DReg d sy) => ret (d, sy)
        | None =>
            let* _ := ss_modify (with_dir (<[name := DReg [] 0]> (ss_dir s))) in ret ([], 0)
        end
    end in
  let '(d, sy) := file in
  let* _ := sys in                    (* Seek *)
  let* _ := sys in                    (* Stat *)
  ret (mkSegment id (mkFile d (blen d) sy) true (blen d)).

Definition install (id : Z) (g : Segment) (s : SegSet) : SegSet :=
  with_dir (delete (segFileName id) (ss_dir s))
    (with_segments (<[id := g]> (ss_segments s)) s).

Definition fsyncDir : M SetSt unit :=
  let* _ := sys in                    (* Open *)
  let* syncErr := try sys in
  let* _ :=
    match syncErr with
    | Ok _ => ss_modify (fun s => with_durable (ss_names s) s)
    | _ => ret tt
    end in
  let* closeErr := try sys in
  match syncErr with Ok _ => of_outcome closeErr | e => of_outcome e end.

(** [ActiveCtx] once the outgoing segment is synced: open the next file, make
    its entry durable, and only then install it. *)
Definition rotate : M SetSt Z :=
  let* s := ss_get in
  let id := u32 (ss_nextID s) in
  let* _ := ss_modify (with_nextID (ss_nextID s + 1)) in
  let* seg := openSegment id in
  let* dirErr := try fsyncDir in
  match dirErr with
  | Ok _ =>
      if negb (ss_open s) then panic   (* s.segments is nil after CloseAll *)
      else
        let* _ := ss_modify (fun s => with_active (Some id) (install id seg s)) in
        ret id
  | Err e =>
      let* _ := try sys in             (* seg.Close *)
      throw (ErrWrap "segment: fsync rotation dir" e)
  | Panic => panic
  end.

Definition ActiveCtx (recordSize : Z) : M SetSt Z :=
  let* s := ss_get in
  match ss_active s with
  | None => rotate
  | Some a =>
      match ss_segments s !! a with
      | None => panic
      | Some g =>
          if i64 (sg_size g + recordSize) <=? ss_maxSize s then ret a
          else let* _ := on_seg a Sync in rotate
      end
  end.

Definition Active (recordSize : Z) : M SetSt Z := ActiveCtx recordSize.

(** [ActiveID]: [None] is [ok = false]. *)
Definition ActiveID (s : SegSet) : option Z := ss_active s.

Definition Get (s : SegSet) (id : Z) : option Segment := ss_segments s !! id.

Definition All (s : SegSet) : list Z := merge_sort Z.le (map_to_list (ss_segments s)).*1.

Definition Remove (id : Z) : M SetSt unit :=
  let* s := ss_get in
  match ss_segments s !! id with
  | None => ret tt
  | Some g =>
      let name := segFileName id in
      let* _ := ss_modify (with_segments (delete id (ss_segments s))) in
      let* _ := ss_modify (fun s =>
        if bool_decide (ss_active s = Some id) then with_active None s else s) in
      let* _ := ss_modify (fun s =>
        with_dir (<[name := DReg (fl_data (sg_file g)) (fl_synced (sg_file g))]> (ss_dir s)) s) in
      let* _ := (if sg_open g then let* _ := try sys in ret tt else ret tt) in   (* seg.Close *)
      let* _ := sys in                                                         (* os.Remove *)
      let* _ := ss_modify (fun s => with_dir (delete name (ss_dir s)) s) in
      fsyncDir
  end.

(** [Scan] of the segment with id [id], the callback working on [T]. *)
Definition scan_seg {T} (visit : RecordHeader -> Z -> M T unit) (id : Z) : M (SetSt * T) Z :=
  fun '((s, io), t) =>
    match ss_segments s !! id with
    | None => (Panic, ((s, io), t))
    | Some g =>
        let '(r, ((g', io'), t')) := Scan visit ((g, io), t) in
        (r, ((with_segments (<[id := g']> (ss_segments s)) s, io'), t'))
    end.

(** The segment is truncated behind its last valid record. *)
Definition trim (id truncAt : Z) : M SetSt unit :=
  let* size := on_seg id Segment_Size in
  if truncAt <? size then on_seg id (truncate truncAt) else ret tt.

Definition RepairTail : M SetSt unit :=
  let* s := ss_get in
  match ss_active s with
  | None => ret tt
  | Some a =>
      let* truncAt := (fun st => let '(r, (st', _)) := scan_seg nop a (st, tt) in (r, st')) in
      trim a truncAt
  end.

Definition ScanAll {T} (visit : Z -> RecordHeader -> Z -> M T unit) : M (SetSt * T) unit :=
  let* st := get in
  mfor (All st.1.1) (fun id =>
    let* st := get in
    match Get st.1.1 id with
    | None => ret tt
    | Some _ =>
        let* truncAt := scan_seg (visit id) id in
        zoom fst (fun x st => (x, st.2)) (trim id truncAt)
    end).

(** [OpenSet] on the directory of a set that is not open.  An entry whose name
    does not parse is skipped. *)
Definition dir_ids (d : gmap bytes Dirent) : list Z :=
  omap (fun e : bytes * Dirent =>
    match e.2 with DSub => None | DReg _ _ => seg_name_id e.1 end) (map_to_list d).

Definition open_one (id : Z) : M SetSt unit :=
  let* seg := openSegment id in
  ss_modify (fun s =>
    let s := install id seg s in
    if u32 (ss_nextID s) <? u32 (id + 1) then with_nextID (u32 (id + 1)) s else s).

Definition OpenSet : M SetSt unit :=
  let* _ := sys in                    (* MkdirAll *)
  let* _ := sys in                    (* ReadDir *)
  let* s := ss_get in
  let ids := merge_sort Z.le (dir_ids (ss_dir s)) in
  let* _ := ss_modify (fun s =>
    with_open true (with_nextID 0 (with_active None (with_segments ∅ s)))) in
  let* _ := mfor ids open_one in
  ss_modify (fun s => with_active (last ids) s).

Section Range.
Context `{MapRange}.

Definition SyncAll : M SetSt unit :=
  let* s := ss_get in
  mfor (range_order (map_to_list (ss_segments s)).*1) (fun id => on_seg id Sync).

(** [CloseAll]: every descriptor is closed; the first error is reported. *)
Definition CloseAll : M SetSt unit :=
  let* s := ss_get in
  let* firstErr := mfold (fun firstErr id =>
      let* err := try (on_seg id Segment_Close) in
      ret match firstErr, err with Ok _, Err e => Err e | _, _ => firstErr end)
    (Ok tt) (range_order (map_to_list (ss_segments s)).*1) in
  let* _ := ss_modify (fun s =>
    with_open false (with_active None
      (with_dir (foldr (fun kg d => <[segFileName kg.1 := DReg (fl_data (sg_file kg.2)) (fl_synced (sg_file kg.2))]> d)
                   (ss_dir s) (map_to_list (ss_segments s)))
        (with_segments ∅ s)))) in
  of_outcome firstErr.
End Range.

(** The second pass of the index's [GC] reads the directory itself. *)
Definition ReadDir : M SetSt (list (bytes * bool)) :=
  let* _ := sys in
  let* s := ss_get in
  ret (((fun e : bytes * Dirent => (e.1, match e.2 with DSub => true | DReg _ _ => false end)) <$> map_to_list (ss_dir s)) ++
       ((fun id => (segFileName id, false)) <$> (map_to_list (ss_segments s)).*1)).

(** [os.Remove] in the directory.  Never called on a directory, which could
    only be unlinked when empty; the file of a live segment stays open but has
    no entry any more. *)
Definition unlink_file (name : bytes) : M SetSt unit :=
  let* _ := sys in
  let* s := ss_get in
  match ss_dir s !! name with
  | Some DSub => throw ErrIO
  | _ =>
      if bool_decide (name ∈ segFileName <$> (map_to_list (ss_segments s)).*1) then
        ss_modify (with_durable (ss_durable s ∖ {[name]}))
      else ss_modify (with_dir (delete name (ss_dir s)))
  end.

(** ** What a set promises (the views and invariants of Layer.v) *)

Definition set_data (st : SetSt) : gmap Z bytes :=
  (fun g => fl_data (sg_file g)) <$> ss_segments st.1.

Definition set_durable (st : SetSt) (id : Z) : Z :=
  match ss_segments st.1 !! id with Some g => fl_synced (sg_file g) | None => 0 end.

Definition seg_ok (id : Z) (g : Segment) : Prop :=
  sg_open g = true /\ in_u32 id /\ 0 <= fl_synced (sg_file g) <= blen (fl_data (sg_file g)).

Definition set_ok (s : SegSet) : Prop :=
  (forall id g, ss_segments s !! id = Some g -> seg_ok id g) /\
  (forall name d sy, ss_dir s !! name = Some (DReg d sy) -> 0 <= sy <= blen d) /\
  (forall a, ss_active s = Some a -> is_Some (ss_segments s !! a)) /\
  0 <= ss_nextID s /\ ss_open s = true.

(** A segment file that is, or may come back as, an entry of the directory. *)
Definition known (s : SegSet) (name : bytes) (id : Z) : Prop :=
  seg_name_id name = Some id /\
  ((exists d sy, ss_dir s !! name = Some (DReg d sy)) \/
   (name ∈ ss_durable s /\ ss_dir s !! name <> Some DSub)).

(** What recovery relies on, as long as the id counter has not wrapped. *)
Definition set_good (s : SegSet) : Prop :=
  (forall name id, known s name id -> name = segFileName id /\ id < ss_nextID s) /\
  (forall id, is_Some (ss_segments s !! id) ->
     id < ss_nextID s /\ segFileName id ∈ ss_durable s /\
     exists a, ss_active s = Some a /\ id <= a) /\
  (forall a g, ss_active s = Some a -> ss_segments s !! a = Some g ->
     whole (fl_data (sg_file g)) /\
     whole (slice (fl_data (sg_file g)) 0 (fl_synced (sg_file g)))).

Definition set_clean (s : SegSet) : Prop :=
  (forall id g, ss_segments s !! id = Some g -> seg_clean g /\ bytes_ok (fl_data (sg_file g))) /\
  (forall name d sy, ss_dir s !! name = Some (DReg d sy) ->
     bytes_ok d /\ blen d <= max_file_size) /\
  (ss_nextID s < 2^32 -> set_good s).

(** [s0]: the directory a power loss leaves of [s].  A file keeps its durable
    prefix and ends anyhow; an entry that was not durable may be missing, and
    one whose removal was not may come back. *)
Definition set_crashed (s s0 : SegSet) : Prop :=
  ss_segments s0 = ∅ /\ ss_durable s0 = dom (ss_dir s0) /\
  (forall name d sy, ss_dir s0 !! name = Some (DReg d sy) ->
     sy = blen d /\ bytes_ok d /\ blen d <= max_file_size /\
     forall id, seg_name_id name = Some id ->
       (is_Some (ss_segments s !! id) /\ name = segFileName id) \/ known s name id) /\
  (forall id g, ss_segments s !! id = Some g -> segFileName id ∈ ss_durable s ->
     exists t sy, ss_dir s0 !! segFileName id =
       Some (DReg (slice (fl_data (sg_file g)) 0 (fl_synced (sg_file g)) ++ t) sy)).

(** ** Lemmas: names *)

Lemma seg_name_id_segFileName id : in_u32 id -> seg_name_id (segFileName id) = Some id.
Proof.
  intros Hid. unfold seg_name_id, segFileName. rewrite has_suffix_app, trim_suffix_app.
  by apply parse_uint_padded.
Qed.

Lemma segFileName_inj id id' :
  in_u32 id -> in_u32 id' -> segFileName id = segFileName id' -> id = id'.
Proof.
  intros H H' E. apply seg_name_id_segFileName in H, H'. rewrite E in H. congruence.
Qed.

(** ** Lemmas: steps *)

Lemma wp_ss_get Q (s : SegSet) io : Q (Ok s) (s, io) -> wp ss_get Q (s, io).
Proof. done. Qed.

Lemma wp_ss_modify f Q (s : SegSet) io : Q (Ok tt) (f s, io) -> wp (ss_modify f) Q (s, io).
Proof. done. Qed.

Lemma wp_sys (Q : outcome unit -> SetSt -> Prop) s io :
  (forall io', Q (Ok tt) (s, io')) -> (forall io', Q (Err ErrIO) (s, io')) -> wp sys Q (s, io).
Proof. intros HO HE. unfold wp, sys. destruct io as [|[n|] io]; cbn; auto. Qed.

Lemma wp_on_seg {A} id (m : M SegSt A) (Q : outcome A -> SetSt -> Prop) s io g :
  ss_segments s !! id = Some g ->
  wp m (fun r st => Q r (with_segments (<[id := st.1]> (ss_segments s)) s, st.2)) (g, io) ->
  wp (on_seg id m) Q (s, io).
Proof.
  intros Hg. unfold wp, on_seg. rewrite Hg. destruct (m (g, io)) as [r [g' io']]. done.
Qed.

(** The file [openSegment id] opens, and the directory after it. *)
Definition file_of (s : SegSet) (id : Z) : option (bytes * Z) :=
  match ss_segments s !! id with
  | Some g => Some (fl_data (sg_file g), fl_synced (sg_file g))
  | None =>
      match ss_dir s !! segFileName id with
      | Some DSub => None
      | Some (DReg d sy) => Some (d, sy)
      | None => Some ([], 0)
      end
  end.

Definition created (s : SegSet) (id : Z) : SegSet :=
  match ss_segments s !! id, ss_dir s !! segFileName id with
  | None, None => with_dir (<[segFileName id := DReg [] 0]> (ss_dir s)) s
  | _, _ => s
  end.

Definition fresh_segment (id : Z) (file : bytes * Z) : Segment :=
  mkSegment id (mkFile file.1 (blen file.1) file.2) true (blen file.1).

Lemma wp_openSegment id (Q : outcome Segment -> SetSt -> Prop) s io :
  (forall file io', file_of s id = Some file -> Q (Ok (fresh_segment id file)) (created s id, io')) ->
  (forall e io', Q (Err e) (s, io')) ->
  (forall e io', Q (Err e) (created s id, io')) ->
  wp (openSegment id) Q (s, io).
Proof.
  intros HO HE HC. unfold openSegment. wp_step. apply wp_sys; intros io1; [|apply HE].
  wp_step. apply wp_ss_get. wp_step.
  assert (forall file io', file_of s id = Some file ->
    wp (let* _ := sys in let* _ := sys in
        ret (mkSegment id (mkFile file.1 (blen file.1) file.2) true (blen file.1))) Q
       (created s id, io')) as Hrest.
  { intros file io' Hf. wp_step. apply wp_sys; intros io2; [|apply HC].
    wp_step. apply wp_sys; intros io3; [|apply HC]. wp_step. by apply HO. }
  unfold file_of, created in *. cbn [fst snd].
  destruct (ss_segments s !! id) as [g|] eqn:Eg; cycle 1.
  1: destruct (ss_dir s !! segFileName id) as [[|d sy]|] eqn:Ed.
  - wp_step. apply HE.
  - wp_step. by apply (Hrest (d, sy)).
  - wp_step. apply wp_ss_modify. wp_step. by apply (Hrest ([], 0)).
  - wp_step. by apply (Hrest (fl_data (sg_file g), fl_synced (sg_file g))).
Qed.

Lemma wp_fsyncDir (Q : outcome unit -> SetSt -> Prop) s io :
  (forall io', Q (Ok tt) (with_durable (ss_names s) s, io')) ->
  (forall e io', Q (Err e) (s, io')) ->
  (forall e io', Q (Err e) (with_durable (ss_names s) s, io')) ->
  wp fsyncDir Q (s, io).
Proof.
  intros HO HE HD. unfold fsyncDir. wp_step. apply wp_sys; intros io1; [|apply HE].
  wp_step. wp_step. apply wp_sys; intros io2; wp_step.
  - apply wp_ss_modify. wp_step. wp_step. apply wp_sys; intros io3; wp_step; [apply HO|apply HD].
  - wp_step. wp_step. wp_step. apply wp_sys; intros io3; wp_step; apply HE.
Qed.

Lemma Sync_spec s io :
  wp Sync (fun r st => (st.1 = s \/ st.1 = on_file file_sync s) /\ r <> Panic /\
             (r = Ok tt -> sg_open s = true -> st.1 = on_file file_sync s)) (s, io).
Proof.
  unfold wp, Sync, SyncCtx, fd_call, bind, seg_get, next_io, seg_modify, throw, ret, no_effect.
  cbn [fst snd]. destruct (sg_open s) eqn:Ho; cbn [negb fst snd]; [|naive_solver].
  rewrite Ho. destruct io as [|[n|] io]; cbn; [naive_solver| |naive_solver].
  split_and!; [left|done|done]. by destruct s as [? [] ? ?].
Qed.

(** ** Lemmas: the invariants step by step *)

Lemma elem_of_ss_names s name :
  name ∈ ss_names s <->
  is_Some (ss_dir s !! name) \/ exists id, is_Some (ss_segments s !! id) /\ name = segFileName id.
Proof.
  unfold ss_names. rewrite elem_of_union, elem_of_dom, elem_of_list_to_set, list_elem_of_fmap.
  apply or_iff_compat_l. split.
  - intros (id & -> & Hid). apply list_elem_of_fmap in Hid as ([id' g] & -> & Hin).
    apply elem_of_map_to_list in Hin. eauto.
  - intros (id & [g Hg] & ->). exists id. split; [done|]. apply list_elem_of_fmap.
    exists (id, g). split; [done|]. by apply elem_of_map_to_list.
Qed.

#[global] Arguments segFileName : simpl never.
#[global] Arguments seg_name_id : simpl never.
#[global] Arguments slice : simpl never.

Definition set_seg (id : Z) (g : Segment) (s : SegSet) : SegSet :=
  with_segments (<[id := g]> (ss_segments s)) s.

Lemma ok_nextID s n : set_ok s -> 0 <= n -> set_ok (with_nextID n s).
Proof. intros (H1 & H2 & H3 & H4 & H5) Hn. unfold set_ok. by split_and!. Qed.

Lemma clean_nextID s : set_clean s -> set_clean (with_nextID (ss_nextID s + 1) s).
Proof.
  intros (H1 & H2 & H3). split_and!; [done..|]. cbn. intros Hn.
  destruct (H3 ltac:(lia)) as (G1 & G2 & G3). split_and!.
  - intros name id Hk. destruct (G1 name id Hk). cbn. split; [done|lia].
  - intros id Hid. destruct (G2 id Hid) as (? & ? & ?). cbn. split_and!; [lia|done..].
  - exact G3.
Qed.

Lemma ok_durable s d : set_ok s -> set_ok (with_durable d s).
Proof. done. Qed.

Lemma clean_durable s : set_ok s -> set_clean s -> set_clean (with_durable (ss_names s) s).
Proof.
  intros Hok (H1 & H2 & H3). split_and!; [done..|]. cbn. intros Hn.
  destruct (H3 Hn) as (G1 & G2 & G3). split_and!; [|intros id Hid|exact G3].
  - intros name id [Hp [Hd|[Hdur Hsub]]]; cbn in *; [apply G1; split; auto|].
    apply elem_of_ss_names in Hdur as [[[|d sy] Hd]|(id' & Hid' & ->)]; [done| |].
    + apply G1. split; [done|]. left. eauto.
    + assert (id' = id) as ->.
      { destruct Hid' as [g Hg]. destruct (proj1 Hok id' g Hg) as (_ & Hu & _).
        rewrite seg_name_id_segFileName in Hp by done. congruence. }
      split; [done|]. by apply G2.
  - destruct (G2 id Hid) as (? & _ & ?). cbn. split_and!; [done| |done].
    apply elem_of_ss_names. eauto.
Qed.

Lemma ok_created s id : set_ok s -> set_ok (created s id).
Proof.
  intros (H1 & H2 & H3 & H4 & H5). unfold created.
  destruct (ss_segments s !! id), (ss_dir s !! segFileName id); try done.
  unfold set_ok. split_and!; try done. intros name d sy. cbn.
  destruct (decide (name = segFileName id)) as [->|Hne];
    rewrite ?lookup_insert_eq, ?lookup_insert_ne by done; [by intros [= <- <-]|apply H2].
Qed.

Lemma clean_created s id :
  in_u32 id -> id < ss_nextID s -> set_clean s -> set_clean (created s id).
Proof.
  intros Hu Hid (H1 & H2 & H3). unfold created.
  destruct (ss_segments s !! id), (ss_dir s !! segFileName id) eqn:Ed; try done.
  split_and!; [done| |].
  - intros name d sy. cbn. destruct (decide (name = segFileName id)) as [->|Hne];
      rewrite ?lookup_insert_eq, ?lookup_insert_ne by done; [|apply H2].
    intros [= <- <-]. split; [constructor|done].
  - cbn. intros Hn. destruct (H3 Hn) as (G1 & G2 & G3). split_and!; [|exact G2|exact G3].
    intros name id' [Hp Hk]. cbn in *. destruct (decide (name = segFileName id)) as [->|Hne].
    { rewrite seg_name_id_segFileName in Hp by done. injection Hp as ->. done. }
    rewrite lookup_insert_ne in Hk by done. apply G1. by split.
Qed.

Lemma ok_set_seg s id g :
  set_ok s -> is_Some (ss_segments s !! id) -> seg_ok id g -> set_ok (set_seg id g s).
Proof.
  intros (H1 & H2 & H3 & H4 & H5) Hid Hg. split_and!; [|done| |done..].
  - intros id' g'. cbn. destruct (decide (id' = id)) as [->|Hne];
      rewrite ?lookup_insert_eq, ?lookup_insert_ne by done; [congruence|apply H1].
  - intros a Ha. cbn. destruct (decide (a = id)) as [->|Hne];
      rewrite ?lookup_insert_eq, ?lookup_insert_ne by done; eauto.
Qed.

Lemma clean_set_seg s id g g' :
  set_clean s -> ss_segments s !! id = Some g -> seg_clean g' ->
  bytes_ok (fl_data (sg_file g')) ->
  (whole (fl_data (sg_file g)) -> whole (slice (fl_data (sg_file g)) 0 (fl_synced (sg_file g))) ->
   whole (fl_data (sg_file g')) /\
   whole (slice (fl_data (sg_file g')) 0 (fl_synced (sg_file g')))) ->
  set_clean (set_seg id g' s).
Proof.
  intros (H1 & H2 & H3) Hg Hc Hb Hw. split_and!; [|done|].
  - intros id' g0. cbn. destruct (decide (id' = id)) as [->|Hne];
      rewrite ?lookup_insert_eq, ?lookup_insert_ne by done; [by intros [= <-]|apply H1].
  - cbn. intros Hn. destruct (H3 Hn) as (G1 & G2 & G3). split_and!; [exact G1| |].
    + intros id' Hid'. apply G2. cbn in Hid'. destruct (decide (id' = id)) as [->|Hne]; [eauto|].
      by rewrite lookup_insert_ne in Hid'.
    + intros a g0 Ha. cbn. destruct (decide (a = id)) as [->|Hne];
        rewrite ?lookup_insert_eq, ?lookup_insert_ne by done; [|by apply G3].
      intros [= <-]. destruct (G3 _ _ Ha Hg). by apply Hw.
Qed.

Lemma seg_ok_sync id g : seg_ok id g -> seg_ok id (on_file file_sync g).
Proof.
  intros (? & ? & ?). unfold seg_ok. cbn. pose proof (blen_nonneg (fl_data (sg_file g))).
  split_and!; (done || lia).
Qed.

Lemma seg_clean_sync g : seg_clean g -> seg_clean (on_file file_sync g).
Proof.
  intros (? & ? & ? & ? & ?). unfold seg_clean. cbn. pose proof (blen_nonneg (fl_data (sg_file g))).
  split_and!; (done || lia).
Qed.

Lemma file_of_ok s id d sy : set_ok s -> file_of s id = Some (d, sy) -> 0 <= sy <= blen d.
Proof.
  intros (H1 & H2 & _). unfold file_of.
  destruct (ss_segments s !! id) as [g|] eqn:Eg.
  - intros [= <- <-]. by apply (H1 id g).
  - destruct (ss_dir s !! segFileName id) as [[|d' sy']|] eqn:Ed; intros [= <- <-]; [|done].
    by apply (H2 _ _ _ Ed).
Qed.

Lemma file_of_clean s id d sy :
  set_clean s -> file_of s id = Some (d, sy) -> bytes_ok d /\ blen d <= max_file_size.
Proof.
  intros (H1 & H2 & _). unfold file_of.
  destruct (ss_segments s !! id) as [g|] eqn:Eg.
  - intros [= <- <-]. destruct (H1 id g Eg) as ((_ & _ & E & _ & ?) & ?). by rewrite <-E.
  - destruct (ss_dir s !! segFileName id) as [[|d' sy']|] eqn:Ed; intros [= <- <-];
      [by apply (H2 _ _ _ Ed)|]. by split; [constructor|].
Qed.

(** A segment installed under [id], whatever becomes of the active one. *)
Lemma install_segments s id g id' g' :
  ss_segments (install id g s) !! id' = Some g' ->
  (id' = id /\ g' = g) \/ (id' <> id /\ ss_segments s !! id' = Some g').
Proof.
  cbn. destruct (decide (id' = id)) as [->|Hne].
  - rewrite lookup_insert_eq. intros [= ->]. by left.
  - rewrite lookup_insert_ne by done. by right.
Qed.

Lemma ok_install s id file :
  set_ok s -> in_u32 id -> file_of s id = Some file ->
  set_ok (install id (fresh_segment id file) s).
Proof.
  intros Hok Hu Hf. destruct file as [d sy]. pose proof (file_of_ok _ _ _ _ Hok Hf).
  destruct Hok as (H1 & H2 & H3 & H4 & H5). unfold set_ok. split_and!; try done.
  - intros id' g Hl. apply install_segments in Hl as [[-> ->]|[_ Hl]]; [|by apply H1].
    split; [done|]. by split.
  - intros name d' sy' Hl. cbn in Hl. apply lookup_delete_Some in Hl as [_ Hl]. by apply (H2 name).
  - intros a Ha. cbn in *. destruct (decide (a = id)) as [->|Hne];
      rewrite ?lookup_insert_eq, ?lookup_insert_ne by done; eauto.
Qed.

Lemma ok_active s a : set_ok s -> is_Some (ss_segments s !! a) -> set_ok (with_active (Some a) s).
Proof.
  intros (H1 & H2 & H3 & H4 & H5) Ha. unfold set_ok. split_and!; try done. cbn.
  by intros ? [= <-].
Qed.

Lemma fresh_segment_clean id d sy :
  0 <= sy <= blen d -> blen d <= max_file_size -> seg_clean (fresh_segment id (d, sy)).
Proof. intros. split; [done|]. split; [done|]. split; [done|]. by split. Qed.

(** Rotation: the new segment is empty unless the counter has wrapped. *)
Lemma clean_rotate s id file :
  set_ok s -> set_clean s -> in_u32 id -> file_of s id = Some file ->
  id < ss_nextID s -> (forall id', is_Some (ss_segments s !! id') -> segFileName id' ∈ ss_durable s) ->
  segFileName id ∈ ss_durable s ->
  (ss_nextID s < 2^32 -> (forall id', is_Some (ss_segments s !! id') -> id' < id) /\
     file = ([], 0)) ->
  set_clean (with_active (Some id) (install id (fresh_segment id file) s)).
Proof.
  intros Hok Hc Hu Hf Hid Hdur Hdid Hfresh. destruct file as [d sy].
  pose proof (file_of_ok _ _ _ _ Hok Hf) as Hsy. destruct (file_of_clean _ _ _ _ Hc Hf) as [Hb Hm].
  destruct Hc as (H1 & H2 & H3). split_and!.
  - intros id' g Hl. apply install_segments in Hl as [[-> ->]|[_ Hl]]; [|exact (H1 _ _ Hl)].
    split; [by apply fresh_segment_clean|done].
  - intros name d' sy' Hl. cbn in Hl. apply lookup_delete_Some in Hl as [_ Hl]. by apply (H2 name d' sy').
  - intros Hn. cbn in Hn. destruct (Hfresh Hn) as [Hlt Hempty]. injection Hempty as -> ->.
    destruct (H3 Hn) as (G1 & G2 & G3). split_and!.
    + intros name id' [Hp Hk]. cbn in *.
      destruct (decide (name = segFileName id)) as [->|Hne].
      { rewrite seg_name_id_segFileName in Hp by done. injection Hp as <-. done. }
      apply G1. split; [done|]. by rewrite !lookup_delete_ne in Hk.
    + intros id' [g Hl]. apply install_segments in Hl as [[-> ->]|[_ Hl]]; cbn.
      * split_and!; [done..|]. exists id. split; [done|lia].
      * destruct (G2 id' ltac:(eauto)) as (? & ? & _). split_and!; [done..|].
        exists id. split; [done|]. specialize (Hlt id' ltac:(eauto)). lia.
    + intros a g [= <-] Hl. apply install_segments in Hl as [[_ ->]|[? _]]; [|done].
      cbn. split; constructor.
Qed.

(** ** Lemmas: what every step preserves *)

(** Bytes are only added, durability only gained, and the invariants kept. *)
Definition sgrows (s s' : SegSet) : Prop :=
  forall id g, ss_segments s !! id = Some g ->
    exists g' t, ss_segments s' !! id = Some g' /\
      fl_data (sg_file g') = fl_data (sg_file g) ++ t /\
      fl_synced (sg_file g) <= fl_synced (sg_file g').

Definition evolves (s s' : SegSet) : Prop :=
  set_ok s -> set_ok s' /\ sgrows s s' /\ (set_clean s -> set_clean s').

Lemma sgrows_refl s : sgrows s s.
Proof. intros id g Hg. exists g, []. by rewrite app_nil_r. Qed.

#[global] Instance sgrows_preorder : PreOrder sgrows.
Proof.
  split; [exact sgrows_refl|]. intros s1 s2 s3 H12 H23 id g Hg.
  destruct (H12 id g Hg) as (g2 & t2 & Hg2 & E2 & ?).
  destruct (H23 id g2 Hg2) as (g3 & t3 & Hg3 & E3 & ?).
  exists g3, (t2 ++ t3). rewrite E3, E2, <-app_assoc. split_and!; [done..|lia].
Qed.

#[global] Instance evolves_preorder : PreOrder evolves.
Proof.
  split.
  - intros s Hok. by split_and!.
  - intros s1 s2 s3 H12 H23 Hok. destruct (H12 Hok) as (Hok2 & G2 & C2).
    destruct (H23 Hok2) as (Hok3 & G3 & C3). split_and!; [done|by etrans|auto].
Qed.

Lemma sgrows_same s s' : ss_segments s' = ss_segments s -> sgrows s s'.
Proof. intros E id g Hg. exists g, []. by rewrite E, app_nil_r. Qed.

Lemma sgrows_set_seg s id g g' t :
  ss_segments s !! id = Some g -> fl_data (sg_file g') = fl_data (sg_file g) ++ t ->
  fl_synced (sg_file g) <= fl_synced (sg_file g') -> sgrows s (set_seg id g' s).
Proof.
  intros Hg Hd Hs id' g0 Hg0. cbn. destruct (decide (id' = id)) as [->|Hne].
  - exists g', t. rewrite lookup_insert_eq. by replace g0 with g by congruence.
  - exists g0, []. by rewrite lookup_insert_ne, app_nil_r by done.
Qed.

Lemma sgrows_install s id file a :
  file_of s id = Some file -> sgrows s (with_active a (install id (fresh_segment id file) s)).
Proof.
  intros Hf id' g Hg. cbn. destruct (decide (id' = id)) as [->|Hne].
  - unfold file_of in Hf. rewrite Hg in Hf. injection Hf as <-.
    eexists _, []. rewrite lookup_insert_eq, app_nil_r. by split_and!.
  - exists g, []. by rewrite lookup_insert_ne, app_nil_r by done.
Qed.

Lemma evolves_nextID s : evolves s (with_nextID (ss_nextID s + 1) s).
Proof.
  intros Hok. split_and!; [apply ok_nextID; [done|]|by apply sgrows_same|apply clean_nextID].
  destruct Hok as (_ & _ & _ & ? & _). lia.
Qed.

Lemma evolves_durable s : evolves s (with_durable (ss_names s) s).
Proof. intros Hok. split_and!; [done|by apply sgrows_same|by apply clean_durable]. Qed.

Lemma created_segments s id : ss_segments (created s id) = ss_segments s.
Proof.
  unfold created. by destruct (ss_segments s !! id), (ss_dir s !! segFileName id).
Qed.

Lemma evolves_created s id : in_u32 id -> id < ss_nextID s -> evolves s (created s id).
Proof.
  intros Hu Hid Hok. split_and!; [by apply ok_created| |by apply clean_created].
  apply sgrows_same, created_segments.
Qed.

Lemma evolves_sync s id g :
  ss_segments s !! id = Some g -> evolves s (set_seg id (on_file file_sync g) s).
Proof.
  intros Hg Hok. pose proof (proj1 Hok id g Hg) as Hso. split_and!.
  - apply ok_set_seg; [done|eauto|by apply seg_ok_sync].
  - apply (sgrows_set_seg _ _ g _ []); [done|by rewrite app_nil_r|cbn].
    destruct Hso as (_ & _ & ?). lia.
  - intros Hc. destruct (proj1 Hc id g Hg). apply (clean_set_seg _ _ g); [done..| | |].
    + by apply seg_clean_sync.
    + done.
    + cbn. intros Hw _. by rewrite slice_all.
Qed.

Lemma set_seg_id s id g : ss_segments s !! id = Some g -> set_seg id g s = s.
Proof. intros Hg. unfold set_seg, with_segments. rewrite insert_id by done. by destruct s. Qed.

Lemma wp_sync id g s (Q : outcome unit -> SetSt -> Prop) io :
  ss_segments s !! id = Some g -> sg_open g = true ->
  (forall io', Q (Ok tt) (set_seg id (on_file file_sync g) s, io')) ->
  (forall e io', Q (Err e) (s, io')) ->
  (forall e io', Q (Err e) (set_seg id (on_file file_sync g) s, io')) ->
  wp (on_seg id Sync) Q (s, io).
Proof.
  intros Hg Hop HO HE HD. eapply wp_on_seg; [done|].
  eapply wp_mono; [apply Sync_spec|]. intros r [g' io'] (Hst & Hp & Hok). cbn in *.
  destruct r as [[]|e|]; [|destruct Hst as [->| ->]|done].
  - rewrite Hok by done. apply HO.
  - fold (set_seg id g s). rewrite set_seg_id by done. apply HE.
  - apply HD.
Qed.

(** *** [ActiveCtx] *)

Definition active_post (s : SegSet) (r : outcome Z) (st : SetSt) : Prop :=
  evolves s st.1 /\
  match r with
  | Ok id => is_Some (ss_segments st.1 !! id)
  | Err _ => True
  | Panic => False
  end.

Lemma file_of_same s s' id :
  ss_segments s' = ss_segments s -> ss_dir s' = ss_dir s -> file_of s' id = file_of s id.
Proof. intros E1 E2. unfold file_of. by rewrite E1, E2. Qed.

Lemma file_of_created s id file :
  file_of s id = Some file -> file_of (created s id) id = Some file.
Proof.
  unfold file_of, created. destruct (ss_segments s !! id) eqn:E1; [by rewrite E1|].
  destruct (ss_dir s !! segFileName id) as [[]|] eqn:E2; cbn; rewrite E1; rewrite ?E2; try done.
  by rewrite lookup_insert_eq.
Qed.

Lemma created_names s id file :
  file_of s id = Some file -> segFileName id ∈ ss_names (created s id).
Proof.
  intros Hf. apply elem_of_ss_names. rewrite created_segments. revert Hf.
  unfold file_of, created. destruct (ss_segments s !! id) eqn:E1; [right; eauto|].
  destruct (ss_dir s !! segFileName id) as [[]|] eqn:E2; intros [= <-]; left; cbn.
  - by rewrite E2.
  - by rewrite lookup_insert_eq.
Qed.

(** While the counter has not wrapped, the next id names no file. *)
Lemma next_is_fresh s file :
  set_clean s -> ss_nextID s < 2^32 -> in_u32 (ss_nextID s) ->
  file_of s (ss_nextID s) = Some file ->
  (forall id', is_Some (ss_segments s !! id') -> id' < ss_nextID s) /\ file = ([], 0).
Proof.
  intros (_ & _ & H3) Hn Hu Hf. destruct (H3 Hn) as (G1 & G2 & _).
  split; [intros id' Hid; by apply G2|]. revert Hf. unfold file_of.
  destruct (ss_segments s !! ss_nextID s) eqn:E1.
  { destruct (G2 (ss_nextID s) ltac:(eauto)). lia. }
  destruct (ss_dir s !! segFileName (ss_nextID s)) as [[|d sy]|] eqn:E2; [done| |congruence].
  destruct (G1 (segFileName (ss_nextID s)) (ss_nextID s)); [|lia].
  split; [by apply seg_name_id_segFileName|]. left. eauto.
Qed.

(** The end of a rotation: everything but the swap itself has happened. *)
Lemma evolves_rotate s file :
  let id := u32 (ss_nextID s) in
  let s2 := created (with_nextID (ss_nextID s + 1) s) id in
  file_of s id = Some file ->
  evolves s (with_active (Some id) (install id (fresh_segment id file)
               (with_durable (ss_names s2) s2))).
Proof.
  intros id s2 Hf Hok. set (s3 := with_durable (ss_names s2) s2).
  assert (in_u32 id) as Hu by apply u32_range.
  pose proof Hok as (_ & _ & _ & Hn0 & _).
  assert (id <= ss_nextID s) as Hle by (unfold id, u32; apply Z.mod_le; lia).
  assert (evolves s s3) as Hev.
  { unfold s3, s2. etrans; [apply evolves_nextID|].
    etrans; [apply (evolves_created _ id Hu); cbn; lia|apply evolves_durable]. }
  destruct (Hev Hok) as (Hok3 & Hgr & Hcl).
  assert (file_of s3 id = Some file) as Hf3.
  { unfold s3. rewrite (file_of_same s2) by done. apply file_of_created.
    by rewrite (file_of_same s) by done. }
  assert (forall x, ss_segments s3 !! x = ss_segments s !! x) as Hseg.
  { intros x. unfold s3, s2. cbn. by rewrite created_segments. }
  assert (ss_nextID s3 = ss_nextID s + 1) as Hnx.
  { unfold s3, s2, created. cbn. by repeat case_match. }
  split_and!.
  - apply ok_active; [by apply ok_install|]. cbn. rewrite lookup_insert_eq. eauto.
  - etrans; [exact Hgr|by apply sgrows_install].
  - intros Hc. apply clean_rotate; [done|by apply Hcl|done..|lia| | |].
    + intros id' Hid'. apply elem_of_ss_names. right. unfold s3 in Hid'. cbn in Hid'. eauto.
    + apply (created_names _ id file). by rewrite (file_of_same s) by done.
    + rewrite Hnx. intros Hlt. assert (id = ss_nextID s) as Hid by (apply u32_id; unfold in_u32; lia).
      destruct (next_is_fresh s file) as [Hids ->]; try done; [lia|by rewrite <-Hid..|].
      split; [|done]. intros id'. rewrite Hseg, Hid. apply Hids.
Qed.

Lemma rotate_spec s io : set_ok s -> wp rotate (active_post s) (s, io).
Proof.
  intros Hok. unfold rotate. wp_step. apply wp_ss_get. wp_step. apply wp_ss_modify. wp_step.
  set (id := u32 (ss_nextID s)). set (s1 := with_nextID _ _).
  assert (in_u32 id) as Hu by apply u32_range.
  pose proof Hok as (_ & _ & _ & Hn0 & Hopen).
  assert (id <= ss_nextID s) as Hle by (unfold id, u32; apply Z.mod_le; lia).
  assert (evolves s s1) as H1 by apply evolves_nextID.
  assert (evolves s (created s1 id)) as H2
    by (etrans; [exact H1|apply (evolves_created s1 id Hu); cbn; lia]).
  apply wp_openSegment; [|done..]. intros file io1 Hf. wp_step. wp_step.
  assert (forall e st, evolves s st.1 ->
    wp (let* _ := try sys in throw (ErrWrap "segment: fsync rotation dir" e)) (active_post s) st) as Herr.
  { intros e [s' io'] Hev. wp_step. wp_step. apply wp_sys; intros io2; by wp_step. }
  apply wp_fsyncDir; intros; [|apply Herr..].
  - rewrite Hopen. cbn [negb]. wp_step. apply wp_ss_modify. wp_step. split.
    + cbn [fst]. apply evolves_rotate. by rewrite (file_of_same s1 s).
    + cbn. rewrite lookup_insert_eq. eauto.
  - done.
  - etrans; [exact H2|apply evolves_durable].
Qed.

Lemma active_post_trans s s' r st :
  evolves s s' -> active_post s' r st -> active_post s r st.
Proof. intros He [He' Hr]. split; [by etrans|done]. Qed.

Lemma ActiveCtx_spec n s io : set_ok s -> wp (ActiveCtx n) (active_post s) (s, io).
Proof.
  intros Hok. unfold ActiveCtx. wp_step. apply wp_ss_get.
  destruct (ss_active s) as [a|] eqn:Ea; [|by apply rotate_spec].
  pose proof Hok as (H1 & H2 & H3 & H4 & H5). destruct (H3 a Ea) as [g Hg]. rewrite Hg.
  z_case; [wp_step; split; [done|cbn; rewrite Hg; eauto]|]. wp_step.
  pose proof (evolves_sync s a g Hg) as Hs.
  apply (wp_sync a g); [done|by apply (H1 a g)|..]; try (by intros e io').
  intros io'. eapply wp_mono; [apply rotate_spec; by apply Hs|].
  intros r st. by apply active_post_trans.
Qed.

(** *** Appending, reading, syncing *)

Lemma frame_ok h p : bytes_ok p -> bytes_ok (frame h p).
Proof.
  intros Hp. unfold frame, bytes_ok. rewrite !Forall_app.
  split_and!; [apply put_le_ok|by apply frame_body_ok|apply put_le_ok].
Qed.

Lemma evolves_append s id g h p :
  ss_segments s !! id = Some g -> record_ok (h, p) ->
  sg_size g + FramedSize (blen p) <= max_file_size ->
  evolves s (set_seg id (with_record h p g) s).
Proof.
  intros Hg Hr Hm Hok. destruct (proj1 Hok id g Hg) as (Ho & Hu & Hsy).
  pose proof (blen_nonneg (frame h p)). split_and!.
  - apply ok_set_seg; [done|eauto|]. split; [done|]. split; [done|]. cbn. rewrite blen_app. lia.
  - by apply (sgrows_set_seg _ _ g _ (frame h p)).
  - intros Hc. destruct (proj1 Hc id g Hg) as [Hcg Hb].
    apply (clean_set_seg _ _ g); [done..| | |].
    + by apply with_record_clean.
    + cbn. apply Forall_app. split; [done|]. apply frame_ok. by destruct Hr as (_ & _ & ?).
    + intros Hw Hws. cbn. split; [apply whole_app; [done|by apply whole_frame]|].
      by rewrite slice_app_l by lia.
Qed.

Definition append_seg (id : Z) (h : RecordHeader) (p : bytes) : M SetSt Z :=
  on_seg id (AppendCtx h p).

Lemma append_seg_spec id h p s io :
  set_ok s -> set_clean s -> is_Some (ss_segments s !! id) -> header_ok h -> bytes_ok p ->
  wp (append_seg id h p) (fun r st =>
    set_ok st.1 /\ sgrows s st.1 /\
    match r with
    | Ok off => set_clean st.1 /\ rh_Length h = blen p /\ 0 <= off /\ off + blen p < 2^63 /\
        exists g, ss_segments st.1 !! id = Some g /\ off + blen p <= blen (fl_data (sg_file g)) /\
                  slice (fl_data (sg_file g)) off (off + blen p) = p
    | Err _ => True
    | Panic => False
    end) (s, io).
Proof.
  intros Hok Hc [g Hg] Hh Hp. eapply wp_on_seg; [done|].
  destruct (proj1 Hc id g Hg) as [Hcg Hb]. pose proof Hcg as (Ho & Hpos & Hsz & Hsy & Hmax).
  destruct (decide (rh_Length h = blen p)) as [Hl|Hl]; cycle 1.
  { unfold wp, AppendCtx. rewrite (proj2 (Z.eqb_neq _ _) Hl). cbn [negb throw fst snd].
    fold (set_seg id g s). rewrite set_seg_id by done. by split. }
  eapply wp_mono; [by apply AppendCtx_spec|]. intros r [g' io']. cbn [fst snd].
  fold (set_seg id g' s). pose proof (blen_nonneg p).
  destruct r as [off|e|]; [intros (-> & Hm & ->)|intros (k & Hk & ->)|done].
  - destruct (evolves_append s id g h p Hg ltac:(by split) Hm Hok) as (Hok' & Hgr & Hcl).
    split_and!; [exact Hok'|exact Hgr|by apply Hcl|done| |..].
    + unfold headerSize. lia.
    + unfold FramedSize, headerSize, trailerSize, max_file_size in *. lia.
    + exists (with_record h p g). cbn. rewrite lookup_insert_eq, blen_app, blen_frame.
      unfold FramedSize, headerSize, trailerSize. split_and!; [done|lia|].
      rewrite Hsz, <-Z.add_assoc, slice_app_pre by lia.
      destruct (frame_payload h p []) as (Hpl & _). by rewrite app_nil_r in Hpl.
  - destruct (proj1 Hok id g Hg) as (_ & Hu & Hsy').
    pose proof (blen_nonneg (slice (frame h p) 0 k)). split_and!; [| |done].
    + apply ok_set_seg; [done|eauto|]. split; [done|]. split; [done|]. cbn. rewrite blen_app. lia.
    + by apply (sgrows_set_seg _ _ g _ (slice (frame h p) 0 k)).
Qed.

Definition quiet_post {A} (s : SegSet) (r : outcome A) (st : SetSt) : Prop :=
  evolves s st.1 /\ set_data st = (fun g => fl_data (sg_file g)) <$> ss_segments s /\ r <> Panic.

Lemma set_seg_data s id g g' io :
  ss_segments s !! id = Some g -> fl_data (sg_file g') = fl_data (sg_file g) ->
  set_data (set_seg id g' s, io) = (fun g => fl_data (sg_file g)) <$> ss_segments s.
Proof.
  intros Hg He. unfold set_data. cbn. rewrite fmap_insert, He, insert_id; [done|].
  by rewrite lookup_fmap, Hg.
Qed.

Lemma quiet_refl {A} s (r : outcome A) io : r <> Panic -> quiet_post s r (s, io).
Proof. intros Hr. by split. Qed.

Lemma sync_seg_spec id s io :
  set_ok s -> is_Some (ss_segments s !! id) ->
  wp (on_seg id Sync) (fun r st =>
    quiet_post s r st /\
    (r = Ok tt -> forall g, ss_segments st.1 !! id = Some g ->
       fl_synced (sg_file g) = blen (fl_data (sg_file g)))) (s, io).
Proof.
  intros Hok [g Hg]. pose proof (evolves_sync s id g Hg) as Hev.
  assert (forall io', set_data (set_seg id (on_file file_sync g) s, io') =
    (fun g => fl_data (sg_file g)) <$> ss_segments s) as Hd
    by (intros io'; by eapply set_seg_data).
  apply (wp_sync id g); [done|by apply (proj1 Hok id g)|..].
  - intros io'. split; [by split|]. intros _ g'. cbn. rewrite lookup_insert_eq. by intros [= <-].
  - intros e io'. split; [by apply quiet_refl|done].
  - intros e io'. split; [by split|done].
Qed.

Definition read_seg (id n off : Z) : M SetSt bytes := on_seg id (Segment_ReadAt n off).

Lemma read_seg_spec id n off s io g :
  set_ok s -> ss_segments s !! id = Some g -> 0 <= n ->
  wp (read_seg id n off) (fun r st =>
    st.1 = s /\ (io = [] -> st.2 = []) /\
    match r with
    | Ok b => blen b = n /\ (0 <= off -> off + n <= blen (fl_data (sg_file g)) ->
                             b = slice (fl_data (sg_file g)) off (off + n))
    | Err _ => io = [] -> 0 <= off -> off + n <= blen (fl_data (sg_file g)) -> False
    | Panic => False
    end) (s, io).
Proof.
  intros Hok Hg Hn. eapply wp_on_seg; [done|]. destruct (proj1 Hok id g Hg) as (Ho & _ & _).
  unfold wp, Segment_ReadAt, bind, seg_get, next_io, of_outcome, throw. cbn [fst snd].
  rewrite Ho. cbn [negb]. fold (set_seg id g s).
  assert (match file_read_at n off (sg_file g) with
          | Ok b => blen b = n /\ (0 <= off -> off + n <= blen (fl_data (sg_file g)) ->
                             b = slice (fl_data (sg_file g)) off (off + n))
          | Err _ => 0 <= off -> off + n <= blen (fl_data (sg_file g)) -> False
          | Panic => False end) as Hr.
  { unfold file_read_at. z_case; [lia|]. z_case.
    { assert (n = 0) as -> by lia. split; [done|]. intros. by rewrite slice_empty by lia. }
    z_case; [|lia]. split; [|done]. rewrite blen_slice; lia. }
  destruct io as [|[x|] io]; cbn [fst snd]; fold (set_seg id g s); rewrite set_seg_id by done;
    (split; [done|]; split; [done|]).
  - destruct (file_read_at n off (sg_file g)); naive_solver.
  - done.
  - destruct (file_read_at n off (sg_file g)); naive_solver.
Qed.

(** *** [SyncAll] *)

Lemma elem_of_ids s id : id ∈ (map_to_list (ss_segments s)).*1 <-> is_Some (ss_segments s !! id).
Proof.
  rewrite list_elem_of_fmap. split.
  - intros ([id' g] & -> & Hin). apply elem_of_map_to_list in Hin. eauto.
  - intros [g Hg]. exists (id, g). split; [done|]. by apply elem_of_map_to_list.
Qed.

Lemma set_data_live st id : is_Some (set_data st !! id) <-> is_Some (ss_segments st.1 !! id).
Proof. unfold set_data. by rewrite lookup_fmap, fmap_is_Some. Qed.

Lemma quiet_live {A} s (r : outcome A) st id :
  quiet_post s r st -> is_Some (ss_segments s !! id) -> is_Some (ss_segments st.1 !! id).
Proof.
  intros (_ & Hd & _) Hid. apply set_data_live. rewrite Hd, lookup_fmap. by apply fmap_is_Some.
Qed.

Lemma quiet_trans {A B} s1 (r1 : outcome A) st2 (r2 : outcome B) st3 :
  quiet_post s1 r1 st2 -> quiet_post st2.1 r2 st3 -> quiet_post s1 r2 st3.
Proof.
  intros (E1 & D1 & _) (E2 & D2 & R2). split_and!; [by etrans| |done]. rewrite D2. exact D1.
Qed.

Lemma SyncAll_spec `{MapRange} s io :
  set_ok s ->
  wp SyncAll (fun r st =>
    quiet_post s r st /\
    (r = Ok tt -> forall id g, ss_segments st.1 !! id = Some g ->
       fl_synced (sg_file g) = blen (fl_data (sg_file g)))) (s, io).
Proof.
  intros Hok. unfold SyncAll. wp_step. apply wp_ss_get.
  set (ids := range_order _).
  assert (forall id, id ∈ ids <-> is_Some (ss_segments s !! id)) as Hids.
  { intros id. unfold ids. rewrite range_perm. apply elem_of_ids. }
  apply wp_mfor with (I := fun p st =>
    quiet_post s (Ok tt) st /\ forall id g, id ∈ p -> ss_segments st.1 !! id = Some g ->
      fl_synced (sg_file g) = blen (fl_data (sg_file g))).
  - split; [by apply quiet_refl|]. by intros id g ?%elem_of_nil.
  - intros p x q [s' io'] Hl [Hq Hp]. destruct (proj1 Hq Hok) as (Hok' & _ & _).
    assert (is_Some (ss_segments s !! x)) as Hx by (apply Hids; rewrite Hl; set_solver).
    eapply wp_mono; [apply sync_seg_spec; [done|by apply (quiet_live _ _ _ _ Hq)]|].
    intros r st [Hq' Hs]. pose proof (quiet_trans _ _ _ _ _ Hq Hq') as Hqq.
    destruct r as [[]|e|]; [|by split|by destruct Hq' as (_ & _ & ?)].
    split; [done|]. intros id g Hin Hg. apply elem_of_app in Hin as [Hin|Hin%list_elem_of_singleton].
    + destruct (proj1 Hq' Hok') as (_ & Hgr & _).
      destruct Hq' as (_ & Hd & _). unfold set_data in Hd.
      apply (f_equal (lookup id)) in Hd. rewrite !lookup_fmap, Hg in Hd. cbn [fst] in Hd.
      destruct (ss_segments s' !! id) as [g0|] eqn:E0; [|done]. injection Hd as Hd.
      destruct (Hgr id g0 E0) as (g1 & t1 & Hg1 & _ & Hle). assert (g1 = g) as -> by congruence.
      pose proof (Hp id g0 Hin E0) as H0. rewrite <-Hd in H0.
      destruct (proj1 (proj1 (proj1 Hqq Hok)) id g Hg) as (_ & _ & ?). lia.
    + subst id. by apply Hs.
  - intros st [Hq Hp]. split; [done|]. intros _ id g Hg. apply (Hp id g); [|done].
    apply Hids. apply (set_data_live (s, io)). destruct Hq as (_ & Hd & _).
    assert (is_Some (set_data st !! id)) as Hl by (apply set_data_live; eauto).
    rewrite Hd in Hl. unfold set_data. exact Hl.
Qed.

Lemma CloseAll_spec `{MapRange} s io : wp CloseAll (fun r _ => r <> Panic) (s, io).
Proof.
  unfold CloseAll. wp_step. apply wp_ss_get. wp_step.
  apply wp_mfold with (I := fun _ acc st =>
    acc <> Panic /\ forall id, is_Some (ss_segments st.1 !! id) <-> is_Some (ss_segments s !! id)).
  - by split.
  - intros p x q acc [s' io'] Hl [Ha Hd]. cbn [fst] in *.
    assert (is_Some (ss_segments s' !! x)) as [g Hg].
    { apply Hd, elem_of_ids. rewrite <-(range_perm _), Hl. set_solver. }
    assert (forall g' id, is_Some (<[x := g']> (ss_segments s') !! id) <-> is_Some (ss_segments s !! id)) as Hins.
    { intros g' id. rewrite <-Hd, lookup_insert_is_Some. destruct (decide (x = id)) as [->|]; naive_solver. }
    wp_step. wp_step. apply (wp_on_seg _ _ _ _ _ g); [done|].
    unfold wp, Segment_Close, bind, seg_get, next_io, seg_modify, ret, throw. cbn [fst snd].
    destruct (sg_open g), io' as [|[n|] io']; cbn; (split; [by destruct acc|apply Hins]).
  - intros acc st [Ha _]. wp_step. destruct st as [s' io']. apply wp_ss_modify. by apply wp_of_outcome.
Qed.

(** *** [Remove], the directory walk of [GC] *)

Lemma set_data_remove st id f :
  ss_segments st.1 = delete id f ->
  set_data st = delete id ((fun g => fl_data (sg_file g)) <$> f).
Proof. intros E. unfold set_data. by rewrite E, fmap_delete. Qed.

(** The file goes back to the directory until it is unlinked. *)
Definition put_back (id : Z) (g : Segment) (s : SegSet) : SegSet :=
  with_dir (<[segFileName id := DReg (fl_data (sg_file g)) (fl_synced (sg_file g))]> (ss_dir s))
    (with_segments (delete id (ss_segments s)) s).

Definition drop_name (id : Z) (s : SegSet) : SegSet :=
  with_dir (delete (segFileName id) (ss_dir s)) s.

Lemma put_back_ok s id g :
  set_ok s -> set_clean s -> ss_active s <> Some id -> ss_segments s !! id = Some g ->
  set_ok (put_back id g s) /\ set_clean (put_back id g s).
Proof.
  intros Hok (C1 & C2 & C3) Ha Hg. pose proof Hok as (H1 & H2 & H3 & H4 & H5).
  destruct (H1 id g Hg) as (_ & Hu & Hsy). destruct (C1 id g Hg) as [(_ & _ & Hsz & _ & Hm) Hb].
  split; [unfold set_ok|]; split_and!; try done.
  - intros id' g'. cbn. intros [_ Hl]%lookup_delete_Some. by apply H1.
  - intros name d sy. cbn. destruct (decide (name = segFileName id)) as [->|Hne];
      rewrite ?lookup_insert_eq, ?lookup_insert_ne by done; [by intros [= <- <-]|apply H2].
  - intros a Hac. cbn in *. rewrite lookup_delete_ne by congruence. by apply H3.
  - intros id' g'. cbn. intros [_ Hl]%lookup_delete_Some. by apply (C1 id').
  - intros name d sy. cbn. destruct (decide (name = segFileName id)) as [->|Hne];
      rewrite ?lookup_insert_eq, ?lookup_insert_ne by done; [|apply C2].
    intros [= <- <-]. split; [done|]. by rewrite <-Hsz.
  - cbn. intros Hn. destruct (C3 Hn) as (G1 & G2 & G3).
    destruct (G2 id ltac:(eauto)) as (Hid & _ & _). split_and!.
    + intros name id' [Hp Hk]. cbn in *. destruct (decide (name = segFileName id)) as [->|Hne].
      { rewrite seg_name_id_segFileName in Hp by done. by injection Hp as <-. }
      rewrite lookup_insert_ne in Hk by done. apply G1. by split.
    + intros id' [g' Hl]. cbn in Hl. apply lookup_delete_Some in Hl as [_ Hl]. apply G2. eauto.
    + intros a g' Hac. cbn in *. intros [_ Hl]%lookup_delete_Some. by apply G3 with a.
Qed.

Lemma drop_name_ok s id :
  in_u32 id -> (ss_nextID s < 2^32 -> id < ss_nextID s) ->
  set_ok s -> set_clean s -> set_ok (drop_name id s) /\ set_clean (drop_name id s).
Proof.
  intros Hu Hid (H1 & H2 & H3 & H4 & H5) (C1 & C2 & C3).
  split; [unfold set_ok|]; split_and!; try done.
  - intros name d sy. cbn. intros [_ Hl]%lookup_delete_Some. by apply (H2 name).
  - intros name d sy. cbn. intros [_ Hl]%lookup_delete_Some. by apply (C2 name d sy).
  - cbn. intros Hn. destruct (C3 Hn) as (G1 & G2 & G3). split_and!; [|exact G2|exact G3].
    intros name id' [Hp Hk]. cbn in *. destruct (decide (name = segFileName id)) as [->|Hne].
    { rewrite seg_name_id_segFileName in Hp by done. injection Hp as <-. split; [done|by apply Hid]. }
    rewrite lookup_delete_ne in Hk by done. apply G1. by split.
Qed.

Definition remove_post (id : Z) (s : SegSet) (r : outcome unit) (st : SetSt) : Prop :=
  set_ok st.1 /\ set_clean st.1 /\ ss_segments st.1 = delete id (ss_segments s) /\
  ss_active st.1 = ss_active s /\ r <> Panic.

Lemma remove_post_durable id s r st d :
  remove_post id s r st -> (forall n, n = ss_names st.1 -> d = with_durable n st.1) ->
  forall io', remove_post id s r (d, io').
Proof.
  intros (Hok & Hc & Hs & Ha & Hr) Hd io'. rewrite (Hd _ eq_refl).
  split_and!; [by apply ok_durable|by apply clean_durable|done..].
Qed.

Lemma Remove_spec id s io :
  set_ok s -> set_clean s -> ss_active s <> Some id -> wp (Remove id) (remove_post id s) (s, io).
Proof.
  intros Hok Hc Ha. unfold Remove. wp_step. apply wp_ss_get.
  destruct (ss_segments s !! id) as [g|] eqn:Hg; cycle 1.
  { wp_step. split_and!; try done. cbn. by rewrite delete_id. }
  destruct (put_back_ok s id g Hok Hc Ha Hg) as [Hok1 Hc1].
  destruct (proj1 Hok id g Hg) as (Hop & Hu & _).
  assert (ss_nextID s < 2^32 -> id < ss_nextID s) as Hid
    by (intros Hn; destruct Hc as (_ & _ & C3); apply (C3 Hn); eauto).
  destruct (drop_name_ok (put_back id g s) id Hu Hid Hok1 Hc1) as [Hok2 Hc2].
  wp_step. apply wp_ss_modify. wp_step. apply wp_ss_modify.
  rewrite bool_decide_eq_false_2 by done. wp_step. apply wp_ss_modify.
  fold (put_back id g s). rewrite Hop. wp_step.
  assert (forall io', wp (let* _ := sys in
      let* _ := ss_modify (fun s => with_dir (delete (segFileName id) (ss_dir s)) s) in fsyncDir)
      (remove_post id s) (put_back id g s, io')) as Hrest.
  { intros io'. wp_step. apply wp_sys; intros io1; [|by split_and!].
    wp_step. apply wp_ss_modify. fold (drop_name id (put_back id g s)).
    apply wp_fsyncDir; intros; [|by split_and!|];
      (eapply (remove_post_durable _ _ _ (drop_name id (put_back id g s), io'));
         [by split_and!|by intros ? ->]). }
  wp_step. wp_step. apply wp_sys; intros io1; wp_step; apply Hrest.
Qed.

Lemma known_drop s name name' id :
  known (with_dir (delete name (ss_dir s)) s) name' id ->
  ss_dir s !! name' <> Some DSub -> known s name' id.
Proof.
  intros [Hp Hk] Hs. split; [done|]. cbn in Hk. destruct Hk as [(d & sy & Hl)|[Hd _]]; [|by right].
  apply lookup_delete_Some in Hl as [_ Hl]. left. eauto.
Qed.

Lemma Unlink_evolves s name :
  ss_dir s !! name <> Some DSub -> evolves s (with_dir (delete name (ss_dir s)) s).
Proof.
  intros Hsub (H1 & H2 & H3 & H4 & H5). split_and!; [unfold set_ok; split_and!; try done| |].
  - intros n d sy. cbn. intros [_ Hl]%lookup_delete_Some. by apply (H2 n).
  - by apply sgrows_same.
  - intros (C1 & C2 & C3). split_and!; [done| |].
    + intros n d sy. cbn. intros [_ Hl]%lookup_delete_Some. by apply (C2 n d sy).
    + cbn. intros Hn. destruct (C3 Hn) as (G1 & G2 & G3). split_and!; [|exact G2|exact G3].
      intros n id Hk. apply G1. destruct (decide (n = name)) as [->|Hne].
      * by eapply known_drop.
      * destruct Hk as [Hp Hk]. cbn in Hk. rewrite lookup_delete_ne in Hk by done. by split.
Qed.

(** *** Recovery *)

Lemma wp_fd_call ok partial (Q : outcome unit -> SegSt -> Prop) g io :
  sg_open g = true ->
  (forall io', Q (Ok tt) (on_file ok g, io')) ->
  (forall n io', Q (Err ErrIO) (on_file (partial n) g, io')) ->
  wp (fd_call ok partial) Q (g, io).
Proof.
  intros Ho HO HE. unfold wp, fd_call, bind, seg_get, next_io, seg_modify, throw. cbn [fst snd].
  rewrite Ho. destruct io as [|[n|] io]; cbn; auto.
Qed.

Lemma wp_seg_get Q (g : Segment) io : Q (Ok g) (g, io) -> wp seg_get Q (g, io).
Proof. done. Qed.

Lemma wp_seg_modify f Q (g : Segment) io : Q (Ok tt) (f g, io) -> wp (seg_modify f) Q (g, io).
Proof. done. Qed.

Lemma truncate_spec size g io :
  seg_clean g -> 0 <= size < sg_size g ->
  wp (truncate size) (fun r st => r <> Panic /\
    (r = Ok tt -> st.1 =
       mkSegment (sg_id g) (mkFile (slice (fl_data (sg_file g)) 0 size) size size) true size))
    (g, io).
Proof.
  intros (Ho & Hpos & Hsz & Hsy & Hm) Hs. unfold truncate. wp_step. apply wp_seg_get.
  rewrite (proj2 (Z.eqb_neq _ _)), (proj2 (Z.ltb_ge _ _)) by lia.
  wp_step. apply wp_fd_call; [done| |done]. intros io1.
  wp_step. apply wp_fd_call; [done| |done]. intros io2.
  wp_step. apply wp_seg_modify. apply wp_fd_call; [done| |done]. intros io3.
  split; [done|intros _]. destruct g as [id [d pos sy] op sz]. cbn in *.
  unfold on_file, set_size, file_sync, file_seek, file_truncate. cbn.
  rewrite blen_slice, Z.sub_0_r by lia. by subst.
Qed.

(** The invariant of a set between [OpenSet] and [RepairTail]: the tail of the
    active segment is not yet known to be whole. *)
Definition set_opened (s : SegSet) : Prop :=
  set_ok s /\
  (forall id g, ss_segments s !! id = Some g -> seg_clean g /\ bytes_ok (fl_data (sg_file g)) /\
     fl_synced (sg_file g) = blen (fl_data (sg_file g))) /\
  (forall name d sy, ss_dir s !! name = Some (DReg d sy) ->
     bytes_ok d /\ blen d <= max_file_size) /\
  (forall name id, known s name id -> name = segFileName id /\ id < ss_nextID s) /\
  (forall id, is_Some (ss_segments s !! id) ->
     id < ss_nextID s /\ segFileName id ∈ ss_durable s /\
     exists a, ss_active s = Some a /\ id <= a).

(** A durable prefix survives the repair. *)
Definition keeps_whole_prefixes (s s' : SegSet) : Prop :=
  forall id g k, ss_segments s !! id = Some g -> 0 <= k <= blen (fl_data (sg_file g)) ->
    (ss_active s = Some id -> whole (slice (fl_data (sg_file g)) 0 k)) ->
    exists g', ss_segments s' !! id = Some g' /\
      slice (fl_data (sg_file g')) 0 k = slice (fl_data (sg_file g)) 0 k /\
      k <= blen (fl_data (sg_file g')) /\
      fl_synced (sg_file g') = blen (fl_data (sg_file g')).

(** The segment after the repair: cut at [e], and all durable. *)
Definition repaired (g : Segment) (e : Z) : Segment :=
  mkSegment (sg_id g) (mkFile (slice (fl_data (sg_file g)) 0 e) e e) true e.

Lemma repaired_ok s a g e :
  set_opened s -> ss_active s = Some a -> ss_segments s !! a = Some g ->
  0 <= e <= sg_size g -> whole (slice (fl_data (sg_file g)) 0 e) ->
  (forall k, 0 <= k <= sg_size g -> whole (slice (fl_data (sg_file g)) 0 k) -> k <= e) ->
  let s' := set_seg a (repaired g e) s in
  set_ok s' /\ set_clean s' /\ keeps_whole_prefixes s s'.
Proof.
  intros (Hok & O1 & O2 & O3 & O4) Ea Hg He Hw Hmax. cbn zeta.
  destruct (O1 a g Hg) as ((Ho & Hpos & Hsz & _ & Hm) & Hb & Hsy).
  assert (blen (slice (fl_data (sg_file g)) 0 e) = e) as Hle by (rewrite blen_slice; lia).
  assert (seg_clean (repaired g e)) as Hc'.
  { unfold seg_clean. cbn. rewrite Hle. split_and!; (done || lia). }
  split; [|split; [unfold set_clean; split_and!|]].
  - apply ok_set_seg; [done|eauto|]. destruct (proj1 Hok a g Hg) as (_ & Hu & _).
    split; [done|]. split; [done|]. cbn. lia.
  - intros id g'. cbn. destruct (decide (id = a)) as [->|Hne];
      rewrite ?lookup_insert_eq, ?lookup_insert_ne by done.
    + intros [= <-]. split; [done|]. cbn. by apply Forall_take, Forall_drop.
    + intros Hl. by destruct (O1 id g' Hl) as (? & ? & _).
  - exact O2.
  - intros _. split_and!; [exact O3| |].
    + intros id Hid. apply O4. cbn in Hid. destruct (decide (id = a)) as [->|Hne]; [eauto|].
      by rewrite lookup_insert_ne in Hid.
    + cbn. intros a' g' Ha'. assert (a' = a) as -> by congruence. rewrite lookup_insert_eq.
      intros [= <-]. cbn. by rewrite (slice_all (slice _ _ _)).
  - intros id g0 k Hg0 Hk Hwk. cbn. destruct (decide (id = a)) as [->|Hne];
      rewrite ?lookup_insert_eq, ?lookup_insert_ne by done.
    + assert (g0 = g) as -> by congruence. specialize (Hmax k ltac:(lia) (Hwk Ea)).
      exists (repaired g e). cbn. rewrite Hle, slice_slice by lia.
      rewrite Z.add_0_l. split_and!; (done || lia).
    + exists g0. split_and!; [done..|lia|by apply (O1 id)].
Qed.

Lemma RepairTail_spec s io :
  set_opened s ->
  wp RepairTail (fun r st => r <> Panic /\
    (r = Ok tt -> set_ok st.1 /\ set_clean st.1 /\ keeps_whole_prefixes s st.1)) (s, io).
Proof.
  intros Hop. pose proof Hop as (Hok & O1 & O2 & O3 & O4). pose proof Hok as (H1 & H2 & H3 & H4 & H5).
  unfold RepairTail. wp_step. apply wp_ss_get.
  destruct (ss_active s) as [a|] eqn:Ea; cycle 1.
  { wp_step. split; [done|]. intros _. cbn. split; [done|]. split.
    - split_and!; [intros id g Hg; by destruct (O1 id g Hg) as (? & ? & ?)|done|].
      intros _. unfold set_good. rewrite Ea. by split_and!.
    - intros id g k Hg Hk _. exists g. split_and!; [done..|lia|by apply (O1 id)]. }
  destruct (H3 a eq_refl) as [g Hg]. destruct (O1 a g Hg) as (Hcg & Hb & Hsy).
  wp_step. unfold wp at 1, scan_seg. rewrite Hg.
  pose proof (Scan_nop g io Hcg Hb) as Hscan. unfold wp in Hscan.
  destruct (Scan nop (g, io, ())) as [r [[g' io'] []]]. cbn [fst snd] in Hscan |- *.
  destruct Hscan as [-> Hscan]. fold (set_seg a g s). rewrite set_seg_id by done.
  destruct r as [e|e|]; [|by split|done]. destruct Hscan as (He & Hwe & Hmax).
  unfold trim. wp_step. eapply wp_on_seg; [done|]. unfold wp at 1. cbn. fold (set_seg a g s).
  rewrite set_seg_id by done.
  pose proof (repaired_ok s a g e Hop Ea Hg He Hwe Hmax) as Hfin.
  z_case.
  - eapply wp_on_seg; [done|]. eapply wp_mono; [apply truncate_spec; [done|lia]|].
    intros r [g' io2] [Hp Hr]. split; [done|]. intros ->. cbn in Hr. by rewrite (Hr eq_refl).
  - wp_step. split; [done|]. intros _. cbn.
    destruct Hcg as (Ho & Hpos & Hsz & _). assert (e = sg_size g) as -> by lia.
    assert (repaired g (sg_size g) = g) as E.
    { unfold repaired. rewrite slice_all by done. destruct g as [? [] ? ?]. cbn in *. by subst. }
    rewrite E, set_seg_id in Hfin by done. exact Hfin.
Qed.

Lemma elem_of_dir_ids d id :
  id ∈ dir_ids d <->
  exists name data sy, d !! name = Some (DReg data sy) /\ seg_name_id name = Some id.
Proof.
  unfold dir_ids. rewrite list_elem_of_omap. split.
  - intros ([name [|data sy]] & Hin & Hs); [done|]. apply elem_of_map_to_list in Hin. eauto.
  - intros (name & data & sy & Hl & Hs). exists (name, DReg data sy). split; [|done].
    by apply elem_of_map_to_list.
Qed.

Lemma seg_name_id_range name id : seg_name_id name = Some id -> in_u32 id.
Proof. unfold seg_name_id. destruct (has_suffix _ _); [apply parse_uint_range|done]. Qed.

(** What the directory left by a power loss looks like to [OpenSet]. *)
Definition bootable (s0 : SegSet) (bound : Z) : Prop :=
  ss_segments s0 = ∅ /\ ss_durable s0 = dom (ss_dir s0) /\ bound < 2^32 /\
  (forall name d sy, ss_dir s0 !! name = Some (DReg d sy) ->
     sy = blen d /\ bytes_ok d /\ blen d <= max_file_size) /\
  (forall name d sy id, ss_dir s0 !! name = Some (DReg d sy) -> seg_name_id name = Some id ->
     name = segFileName id /\ id < bound).

(** The state of the loop of [OpenSet] after the ids [p]. *)
Definition opening (s0 : SegSet) (p : list Z) (s : SegSet) : Prop :=
  (forall id, id ∈ p -> exists d, ss_dir s0 !! segFileName id = Some (DReg d (blen d)) /\
     ss_segments s !! id = Some (fresh_segment id (d, blen d))) /\
  (forall id, id ∉ p -> ss_segments s !! id = None /\
     (in_u32 id -> ss_dir s !! segFileName id = ss_dir s0 !! segFileName id)) /\
  (forall name e, ss_dir s !! name = Some e -> ss_dir s0 !! name = Some e /\
     forall id, id ∈ p -> name <> segFileName id) /\
  0 <= ss_nextID s < 2^32 /\ (forall id, id ∈ p -> id < ss_nextID s) /\
  ss_durable s = ss_durable s0 /\ ss_active s = None /\ ss_open s = true /\
  (forall name, ss_dir s0 !! name = Some DSub -> ss_dir s !! name = Some DSub).

Lemma open_one_spec s0 bound p id s io :
  bootable s0 bound -> id ∈ dir_ids (ss_dir s0) -> opening s0 p s ->
  (forall id', id' ∈ p -> id' ∈ dir_ids (ss_dir s0)) ->
  wp (open_one id) (fun r st => r <> Panic /\ (r = Ok tt -> opening s0 (p ++ [id]) st.1)) (s, io).
Proof.
  intros (B1 & B2 & B3 & B4 & B5) Hid (P1 & P2 & P3 & P4 & P5 & P6 & P7 & P8 & P9) Hpids.
  apply elem_of_dir_ids in Hid as (name & d & sy & Hl & Hs).
  destruct (B5 name d sy id Hl Hs) as [-> Hb]. destruct (B4 _ d sy Hl) as (-> & Hbd & Hm).
  assert (in_u32 id) as Hu by by eapply seg_name_id_range.
  assert (forall id', id' ∈ p -> in_u32 id') as Hup.
  { intros id' Hin. specialize (Hpids id' Hin). apply elem_of_dir_ids in Hpids as (?&?&?&_&Hn).
    by eapply seg_name_id_range. }
  assert (file_of s id = Some (d, blen d) /\ created s id = s) as [Hf Hcr].
  { unfold file_of, created. destruct (decide (id ∈ p)) as [Hin|Hin].
    - destruct (P1 id Hin) as (d' & Hl' & ->). rewrite Hl in Hl'. injection Hl' as <-. done.
    - destruct (P2 id Hin) as [-> ->]; [|done]. by rewrite Hl. }
  unfold open_one. wp_step. apply wp_openSegment; [|done..]. rewrite Hcr, Hf.
  intros file io' [= <-]. apply wp_ss_modify. split; [done|intros _]. cbn [fst].
  assert (u32 (id + 1) = id + 1) as Hw by (apply u32_id; unfold in_u32 in *; lia).
  rewrite Hw, (u32_id (ss_nextID _)) by (cbn; unfold in_u32; lia).
  set (s' := install id (fresh_segment id (d, blen d)) s).
  assert (forall n, 0 <= n < 2^32 -> ss_nextID s <= n -> id < n -> opening s0 (p ++ [id]) (with_nextID n s')) as Hgo.
  { intros n Hn Hn1 Hn2. split_and!; cbn; try done; try lia.
    - intros id' Hin. destruct (decide (id' = id)) as [->|Hne].
      + exists d. by rewrite lookup_insert_eq.
      + apply elem_of_app in Hin as [Hin|Hin]; [|set_solver].
        rewrite lookup_insert_ne by done. by apply P1.
    - intros id' Hnin. rewrite not_elem_of_app, list_elem_of_singleton in Hnin. destruct Hnin as [Hnin Hne].
      rewrite lookup_insert_ne by done. destruct (P2 id' Hnin) as [E1 E2]. split; [done|].
      intros Hu'. rewrite lookup_delete_ne; [by apply E2|].
      intros E. by apply segFileName_inj in E.
    - intros nm e [Hne Hle]%lookup_delete_Some. destruct (P3 nm e Hle) as [? Hx]. split; [done|].
      intros id' [Hin| ->%list_elem_of_singleton]%elem_of_app; [by apply Hx|done].
    - intros id' [Hin| ->%list_elem_of_singleton]%elem_of_app; [|done].
      specialize (P5 id' Hin). lia.
    - intros nm Hnm. rewrite lookup_delete_ne; [by apply P9|congruence]. }
  z_case.
  - apply Hgo; cbn in *; unfold in_u32 in *; lia.
  - replace s' with (with_nextID (ss_nextID s) s') by done. apply Hgo; cbn in *; lia.
Qed.

Lemma sorted_last l a : StronglySorted Z.le l -> last l = Some a -> forall x, x ∈ l -> x <= a.
Proof.
  induction 1 as [|y l Hs IH Hf]; [done|]. intros Hl x Hx. rewrite last_cons in Hl.
  destruct (last l) as [z|] eqn:E.
  - injection Hl as ->. apply elem_of_cons in Hx as [->|Hx]; [|by apply IH].
    rewrite Forall_forall in Hf. apply Hf. by apply last_Some_elem_of.
  - injection Hl as ->. apply last_None in E as ->. apply elem_of_cons in Hx as [->|Hx%elem_of_nil]; [lia|done].
Qed.

Lemma OpenSet_spec s0 bound io :
  bootable s0 bound ->
  wp OpenSet (fun r st => r <> Panic /\ (r = Ok tt -> set_opened st.1 /\
    forall id d, in_u32 id -> ss_dir s0 !! segFileName id = Some (DReg d (blen d)) ->
      ss_segments st.1 !! id = Some (fresh_segment id (d, blen d)))) (s0, io).
Proof.
  intros HB. pose proof HB as (B1 & B2 & B3 & B4 & B5). unfold OpenSet.
  wp_step. apply wp_sys; intros io1; [|done]. wp_step. apply wp_sys; intros io2; [|done].
  wp_step. apply wp_ss_get. wp_step. apply wp_ss_modify.
  set (ids := merge_sort Z.le (dir_ids (ss_dir s0))).
  assert (forall id, id ∈ ids <-> id ∈ dir_ids (ss_dir s0)) as Hids.
  { intros id. unfold ids. by rewrite merge_sort_Permutation. }
  wp_step. apply wp_mfor with (I := fun p st => opening s0 p st.1).
  - cbn. unfold opening. cbn. split_and!; try done; try lia; try set_solver.
  - intros p x q [s io'] Hl Hp. eapply wp_mono.
    + eapply open_one_spec; [done| |exact Hp|].
      * apply Hids. rewrite Hl. set_solver.
      * intros id Hin. apply Hids. rewrite Hl. set_solver.
    + cbn. intros [[]|e|] st [Hn Hr]; [by apply Hr|done|done].
  - intros [s io'] (P1 & P2 & P3 & P4 & P5 & P6 & P7 & P8 & P9). cbn in *. split; [done|intros _].
    assert (forall id, is_Some (ss_segments s !! id) -> id ∈ ids) as Hin.
    { intros id Hid. destruct (decide (id ∈ ids)) as [|Hn]; [done|].
      destruct (P2 id Hn) as [E _]. rewrite E in Hid. by destruct Hid. }
    assert (forall id, id ∈ ids -> in_u32 id) as Hu.
    { intros id Hi. apply Hids, elem_of_dir_ids in Hi as (?&?&?&_&?). by eapply seg_name_id_range. }
    assert (forall id g, ss_segments s !! id = Some g -> exists d, in_u32 id /\
      ss_dir s0 !! segFileName id = Some (DReg d (blen d)) /\ g = fresh_segment id (d, blen d)) as Hseg.
    { intros id g Hg. specialize (Hin id ltac:(eauto)). destruct (P1 id Hin) as (d & Hd & Hg').
      exists d. split_and!; [by apply Hu|done|congruence]. }
    split.
    + split_and!.
      * unfold set_ok. cbn. split_and!; try done; try lia.
        -- intros id g Hg. destruct (Hseg id g Hg) as (d & Hui & _ & ->).
           split; [done|]. split; [done|]. cbn. pose proof (blen_nonneg d). lia.
        -- intros name d sy Hl. destruct (P3 _ _ Hl) as [Hl0 _]. destruct (B4 _ _ _ Hl0) as (-> & _).
           pose proof (blen_nonneg d). lia.
        -- intros a Ha. apply last_Some_elem_of in Ha. destruct (P1 a Ha) as (d & _ & ->). eauto.
      * cbn. intros id g Hg. destruct (Hseg id g Hg) as (d & Hui & Hd & ->).
        destruct (B4 _ _ _ Hd) as (_ & Hb & Hm). pose proof (blen_nonneg d).
        split_and!; [apply fresh_segment_clean; [lia|done]|done|done].
      * cbn. intros name d sy Hl. destruct (P3 _ _ Hl) as [Hl0 _]. by destruct (B4 _ _ _ Hl0) as (_ & ? & ?).
      * intros name id [Hs Hk]. cbn in *.
        assert (exists d sy, ss_dir s0 !! name = Some (DReg d sy)) as (d & sy & Hl).
        { destruct Hk as [(d & sy & Hl)|[Hd Hn]]; [exists d, sy; by apply P3|].
          rewrite P6, B2 in Hd. apply elem_of_dom in Hd as [[|d sy] Hd]; [|eauto].
          by apply P9 in Hd. }
        destruct (B5 _ _ _ _ Hl Hs) as [-> Hb]. split; [done|]. apply P5, Hids, elem_of_dir_ids. eauto.
      * cbn. intros id Hid. specialize (Hin id Hid). split_and!; [by apply P5| |].
        -- rewrite P6, B2. apply elem_of_dom. destruct (P1 id Hin) as (d & -> & _). eauto.
        -- destruct (last ids) as [a|] eqn:Ea.
           ++ exists a. split; [done|]. eapply sorted_last; [|done..].
              apply StronglySorted_merge_sort; [apply _|]. intros x y. lia.
           ++ apply last_None in Ea. rewrite Ea in Hin. by apply elem_of_nil in Hin.
    + intros id d Hui Hd. assert (id ∈ ids) as Hi.
      { apply Hids, elem_of_dir_ids. exists (segFileName id), d, (blen d). split; [done|].
        by apply seg_name_id_segFileName. }
      destruct (P1 id Hi) as (d' & Hd' & Hg'). cbn. rewrite Hg'. by replace d' with d by congruence.
Qed.

Lemma crashed_bootable s s0 :
  set_clean s -> set_ok s -> ss_nextID s < 2^32 -> set_crashed s s0 ->
  bootable s0 (ss_nextID s).
Proof.
  intros (_ & _ & C3) Hok Hn (K1 & K2 & K3 & K4). destruct (C3 Hn) as (G1 & G2 & _).
  split_and!; try done.
  - intros name d sy Hl. by destruct (K3 _ _ _ Hl) as (? & ? & ? & _).
  - intros name d sy id Hl Hs. destruct (K3 _ _ _ Hl) as (_ & _ & _ & Hk).
    destruct (Hk id Hs) as [[Hid ->]|Hkn]; [|by apply G1]. split; [done|by apply G2].
Qed.

Lemma recover_spec s s0 io :
  set_ok s -> set_clean s -> ss_nextID s < 2^32 -> set_crashed s s0 ->
  wp (let* _ := OpenSet in RepairTail) (fun r st => r <> Panic /\
    (r = Ok tt -> set_ok st.1 /\ set_clean st.1 /\
      forall id g, ss_segments s !! id = Some g -> exists g',
        ss_segments st.1 !! id = Some g' /\
        slice (fl_data (sg_file g')) 0 (fl_synced (sg_file g)) =
          slice (fl_data (sg_file g)) 0 (fl_synced (sg_file g)) /\
        fl_synced (sg_file g) <= fl_synced (sg_file g'))) (s0, io).
Proof.
  intros Hok Hc Hn HK. pose proof (crashed_bootable _ _ Hc Hok Hn HK) as HB.
  pose proof HK as (K1 & K2 & K3 & K4). pose proof Hc as (_ & _ & C3).
  destruct (C3 Hn) as (G1 & G2 & G3).
  wp_step. eapply wp_mono; [by eapply OpenSet_spec|].
  intros [[]|e|] [s1 io1] [Hp Hr]; [|done..]. destruct (Hr eq_refl) as [Hop Hseg]. cbn in Hop, Hseg.
  eapply wp_mono; [by apply RepairTail_spec|].
  intros r [s2 io2] [Hp2 Hr2]. split; [done|]. intros ->. cbn in Hr2 |- *.
  destruct (Hr2 eq_refl) as (Hok2 & Hc2 & Hkeep). split_and!; [done..|].
  intros id g Hg. destruct (G2 id ltac:(eauto)) as (Hid & Hdur & a & Ha & Hia).
  destruct (proj1 Hok id g Hg) as (_ & Hu & Hsy).
  destruct (K4 id g Hg Hdur) as (t & sy & Hl). destruct (K3 _ _ _ Hl) as (-> & _).
  pose proof Hseg as Hsega. specialize (Hseg id _ Hu Hl). set (k := fl_synced (sg_file g)) in *.
  set (d := fl_data (sg_file g)) in *. pose proof (blen_nonneg t).
  assert (blen (slice d 0 k) = k) as Hbk by (rewrite blen_slice; lia).
  assert (slice (slice d 0 k ++ t) 0 k = slice d 0 k) as Hpre by (by apply slice_app_here).
  destruct (Hkeep id _ k Hseg) as (g' & Hg' & Hd' & Hk' & Hs').
  - cbn. rewrite blen_app, Hbk. lia.
  - cbn. intros Hact. rewrite Hpre.
    (* the new active segment is the old one, or a younger file *)
    destruct (proj1 (proj2 (proj2 Hok)) a Ha) as [ga Hga].
    destruct (G2 a ltac:(eauto)) as (_ & Hadur & _).
    destruct (proj1 Hok a ga Hga) as (_ & Hua & _).
    destruct (K4 a ga Hga Hadur) as (ta & sya & Hla). destruct (K3 _ _ _ Hla) as (-> & _).
    destruct Hop as (_ & _ & _ & _ & O4).
    destruct (O4 a) as (_ & _ & a' & Ha' & Hle); [rewrite (Hsega a _ Hua Hla); eauto|].
    assert (id = a) as -> by (rewrite Hact in Ha'; injection Ha' as <-; lia).
    by apply (G3 a g).
  - exists g'. cbn in Hd'. rewrite Hpre in Hd'. split_and!; [done|done|]. rewrite Hs'. exact Hk'.
Qed.

(** ** The interface *)

#[export] Instance SetSt_layer `{MapRange} : SegLayer SetSt := {
  sl_open := OpenSet;
  sl_repair := RepairTail;
  sl_active := ActiveCtx;
  sl_append := append_seg;
  sl_sync id := on_seg id Sync;
  sl_get st id := bool_decide (is_Some (ss_segments st.1 !! id));
  sl_read := read_seg;
  sl_size st id := match Get st.1 id with Some g => sg_size g | None => 0 end;
  sl_all st := All st.1;
  sl_active_id st := ActiveID st.1;
  sl_remove := Remove;
  sl_sync_all := SyncAll;
  sl_close_all := CloseAll;
  sl_readdir := ReadDir;
  sl_unlink := unlink_file;
}.

Lemma sgrows_grows s s' io io' :
  sgrows s s' -> grows set_data set_durable (s, io) (s', io').
Proof.
  intros Hg. split.
  - intros id d Hd. unfold set_data in *. cbn in *. rewrite lookup_fmap in Hd |- *.
    destruct (ss_segments s !! id) as [g|] eqn:E; [|done]. injection Hd as <-.
    destruct (Hg id g E) as (g' & t & -> & Hd' & _). exists t. cbn. by rewrite Hd'.
  - intros id Hid. apply set_data_live in Hid as [g E]. unfold set_durable. cbn in *.
    rewrite E. by destruct (Hg id g E) as (g' & t & -> & _ & ?).
Qed.

Lemma quiet_quiet {A} s (r : outcome A) st io :
  set_ok s -> quiet_post s r st -> quiet set_data set_durable (s, io) st.
Proof.
  intros Hok (Hev & Hd & _). split; [exact Hd|]. destruct st as [s' io'].
  apply sgrows_grows. by apply Hev.
Qed.

Lemma quiet_same s io io' : quiet set_data set_durable (s, io) (s, io').
Proof. split; [done|]. unfold set_durable. cbn. lia. Qed.

Lemma set_data_lookup st id d :
  set_data st !! id = Some d <-> exists g, ss_segments st.1 !! id = Some g /\ fl_data (sg_file g) = d.
Proof.
  unfold set_data. rewrite lookup_fmap. destruct (ss_segments st.1 !! id) as [g|]; cbn;
    naive_solver.
Qed.

Lemma ReadDir_spec s io :
  wp ReadDir (fun r st => st.1 = s /\ r <> Panic) (s, io).
Proof. unfold ReadDir. wp_step. by apply wp_sys. Qed.

Lemma Unlink_spec name s io :
  set_ok s -> (forall id, seg_name_id name = Some id -> ss_segments s !! id = None) ->
  wp (unlink_file name) (fun r st => quiet_post s r st /\ ss_active st.1 = ss_active s) (s, io).
Proof.
  intros Hok Hname. unfold unlink_file. wp_step. apply wp_sys; intros io1; [|by split; [apply quiet_refl|]].
  wp_step. apply wp_ss_get.
  rewrite bool_decide_eq_false_2.
  2: { intros (id & -> & Hid)%list_elem_of_fmap. apply elem_of_ids in Hid as [g Hg].
       destruct (proj1 Hok id g Hg) as (_ & Hu & _).
       rewrite Hname in Hg; [done|by apply seg_name_id_segFileName]. }
  destruct (ss_dir s !! name) as [[|d sy]|] eqn:E.
  - by split; [apply quiet_refl|].
  - apply wp_ss_modify. split; [|done]. split_and!; [|done|done].
    apply Unlink_evolves. congruence.
  - apply wp_ss_modify. split; [|done]. split_and!; [|done|done].
    apply Unlink_evolves. congruence.
Qed.

#[export] Instance SetSt_laws `{MapRange} : SegLayerLaws SetSt.
Proof.
  refine {| lv_data := set_data; lv_durable := set_durable;
            lv_ok st := set_ok st.1; lv_clean st := set_clean st.1;
            lv_crashed st st0 := set_crashed st.1 st0.1;
            lv_ordered st := ss_nextID st.1 < 2^32; lv_reliable st := st.2 = [] |}.
  - intros [s io] id d Hok Hd. apply set_data_lookup in Hd as (g & Hg & <-). cbn in *.
    unfold set_durable. cbn. rewrite Hg. by destruct (proj1 Hok id g Hg) as (_ & ? & ?).
  - intros [s io] id d Hok Hc Hd. apply set_data_lookup in Hd as (g & Hg & <-). cbn in *.
    by destruct (proj1 Hc id g Hg).
  - intros st id. cbn. unfold Get. apply bool_decide_ext. by rewrite set_data_live.
  - intros st id. cbn. unfold All. by rewrite merge_sort_Permutation, elem_of_ids, set_data_live.
  - intros [s io] id Hok Ha. apply set_data_live. by apply Hok.
  - intros n [s io] Hok. cbn. eapply wp_mono; [by apply ActiveCtx_spec|].
    intros r [s' io'] [Hev Hr]. destruct (Hev Hok) as (? & ? & ?). cbn in *.
    split_and!; [done|by apply sgrows_grows|done|].
    destruct r; [by apply set_data_live|done|done].
  - intros id h p [s io] Hok Hc Hid Hh Hp. cbn in *. apply set_data_live in Hid.
    eapply wp_mono; [by apply append_seg_spec|].
    intros r [s' io'] (Hok' & Hgr & Hr). cbn in *. split_and!; [done|by apply sgrows_grows|].
    destruct r as [off|e|]; [|done..]. destruct Hr as (? & ? & ? & ? & g & Hg & ? & ?).
    split_and!; [done..|]. exists (fl_data (sg_file g)). split; [|done].
    apply set_data_lookup. eauto.
  - intros id [s io] Hok Hid. cbn in *. apply set_data_live in Hid.
    eapply wp_mono; [by apply sync_seg_spec|].
    intros r st [Hq Hr]. pose proof Hq as (Hev & _ & Hp). destruct (Hev Hok) as (? & ? & ?).
    split_and!; [done|by eapply quiet_quiet|done|].
    destruct r as [[]|e|]; [|done..]. intros d Hd. apply set_data_lookup in Hd as (g & Hg & <-).
    unfold set_durable. rewrite Hg. by apply Hr.
  - intros id n off [s io] Hok Hid Hn. cbn in *. apply set_data_live in Hid as [g Hg].
    eapply wp_mono; [by apply read_seg_spec|].
    intros r [s' io'] (Hs & Hio & Hr). cbn in *. subst s'. split_and!; [done|apply quiet_same|done|done|].
    assert (forall d, set_data (s, io) !! id = Some d -> d = fl_data (sg_file g)) as Hd.
    { intros d Hd. apply set_data_lookup in Hd as (g' & Hg' & <-). cbn in *. congruence. }
    destruct r as [b|e|]; [|intros d ->%Hd ?? Hrel; by apply Hr|done].
    destruct Hr as [? Hr]. split; [done|]. by intros d ->%Hd.
  - intros id [s io] Hok Hc Ha. cbn in *.
    eapply wp_mono; [by apply Remove_spec|].
    intros r [s' io'] (? & ? & Hs & Hac & ?). cbn in *. split_and!; [done|done| |exact Hac| |done].
    + by apply set_data_remove.
    + intros id' Hne. unfold set_durable. cbn. by rewrite Hs, lookup_delete_ne.
  - intros [s io] Hok. cbn in *. eapply wp_mono; [by apply SyncAll_spec|].
    intros r st [Hq Hr]. pose proof Hq as (Hev & _ & Hp). destruct (Hev Hok) as (? & ? & ?).
    split_and!; [done|by eapply quiet_quiet|done|].
    destruct r as [[]|e|]; [|done..]. intros id d Hd. apply set_data_lookup in Hd as (g & Hg & <-).
    unfold set_durable. rewrite Hg. by apply Hr with id.
  - intros [s io]. apply CloseAll_spec.
  - intros [s io] Hok. cbn in *. eapply wp_mono; [by apply ReadDir_spec|].
    intros r [s' io'] [Hs Hr]. cbn in *. subst.
    split_and!; [done|apply quiet_same|done..].
  - intros name [s io] Hok Hname. cbn in *.
    eapply wp_mono; [apply Unlink_spec; [done|]|].
    { intros id Hid. specialize (Hname id Hid). unfold set_data in Hname. cbn in Hname.
      rewrite lookup_fmap in Hname. by destruct (ss_segments s !! id). }
    intros r st [Hq Ha]. pose proof Hq as (Hev & _ & Hp). destruct (Hev Hok) as (? & ? & ?).
    split_and!; [done|by eapply quiet_quiet|done|done|done].
  - intros [s io] [s0 io0] Hok Hc Hn HK. cbn in *. eapply wp_mono; [by apply recover_spec|].
    intros r [s' io'] [Hp Hr]. split; [done|]. intros ->. cbn in *.
    destruct (Hr eq_refl) as (Hok' & Hc' & Hk). split_and!; [done..|].
    intros id d Hd. apply set_data_lookup in Hd as (g & Hg & <-). cbn in *.
    destruct (Hk id g Hg) as (g' & Hg' & Hsl & Hle). unfold set_durable. cbn. rewrite Hg, Hg', <-Hsl.
    destruct (proj1 Hok id g Hg) as (_ & _ & ?).
    destruct (proj1 Hok' id g' Hg') as (_ & _ & ?).
    exists (slice (fl_data (sg_file g')) (fl_synced (sg_file g)) (blen (fl_data (sg_file g')))).
    split; [|done]. apply set_data_lookup. exists g'. split; [done|].
    rewrite <-slice_split by lia. by rewrite slice_all.
Defined.

(** ** Properties *)

(** A successful rotation: the new segment is the active one, its entry is
    durable, and the other segments are as they were. *)
Lemma rotate_result s io :
  set_ok s ->
  wp rotate (fun r st => forall id, r = Ok id ->
    ss_active st.1 = Some id /\ segFileName id ∈ ss_durable st.1 /\ is_Some (ss_segments st.1 !! id) /\
    forall x, x <> id -> ss_segments st.1 !! x = ss_segments s !! x) (s, io).
Proof.
  intros Hok. unfold rotate. wp_step. apply wp_ss_get. wp_step. apply wp_ss_modify. wp_step.
  set (id := u32 (ss_nextID s)). set (s1 := with_nextID _ _).
  apply wp_openSegment; [|done..]. intros file io1 Hf. wp_step. wp_step.
  pose proof Hok as (_ & _ & _ & _ & Hopen).
  assert (forall e st, wp (let* _ := try sys in throw (ErrWrap "segment: fsync rotation dir" e))
    (fun (r : outcome Z) st => forall id, r = Ok id ->
      ss_active st.1 = Some id /\ segFileName id ∈ ss_durable st.1 /\ is_Some (ss_segments st.1 !! id) /\
      forall x, x <> id -> ss_segments st.1 !! x = ss_segments s !! x) st) as Herr.
  { intros e [s' io']. wp_step. wp_step. apply wp_sys; intros io2; by wp_step. }
  apply wp_fsyncDir; intros; [|apply Herr..].
  rewrite Hopen. cbn [negb]. wp_step. apply wp_ss_modify. wp_step. intros _ [= <-].
  split_and!; [done| |cbn; rewrite lookup_insert_eq; eauto|].
  - cbn. by eapply created_names.
  - intros x Hx. cbn. rewrite lookup_insert_ne by done. by rewrite created_segments.
Qed.

(** [Active] hands out a segment with headroom.  Either the active segment
    has room and nothing changes, or a new one is installed: then the outgoing
    segment is durable to its last byte and the new file's entry is durable, so
    that a crash finds both.  On every path, errors included, no byte of any
    segment is lost, and there is no panic. *)
Theorem Active_rotates (n : Z) (s : SegSet) (io : io_stream) :
  set_ok s ->
  let '(r, (s', _)) := ActiveCtx n (s, io) in
  set_ok s' /\ sgrows s s' /\
  match r with
  | Ok id =>
      (s' = s /\ ss_active s = Some id /\
       exists g, ss_segments s !! id = Some g /\ i64 (sg_size g + n) <= ss_maxSize s) \/
      (ss_active s' = Some id /\ is_Some (ss_segments s' !! id) /\
       segFileName id ∈ ss_durable s' /\
       forall a g, ss_active s = Some a -> a <> id -> ss_segments s' !! a = Some g ->
         fl_synced (sg_file g) = blen (fl_data (sg_file g)))
  | Err _ => True
  | Panic => False
  end.
Proof.
  intros Hok. pose proof (ActiveCtx_spec n s io Hok) as H1.
  assert (wp (ActiveCtx n) (fun r st => forall id, r = Ok id ->
      (st.1 = s /\ ss_active s = Some id /\
       exists g, ss_segments s !! id = Some g /\ i64 (sg_size g + n) <= ss_maxSize s) \/
      (ss_active st.1 = Some id /\ is_Some (ss_segments st.1 !! id) /\
       segFileName id ∈ ss_durable st.1 /\
       forall a g, ss_active s = Some a -> a <> id -> ss_segments st.1 !! a = Some g ->
         fl_synced (sg_file g) = blen (fl_data (sg_file g)))) (s, io)) as H2.
  { unfold ActiveCtx. wp_step. apply wp_ss_get.
    destruct (ss_active s) as [a|] eqn:Ea; cycle 1.
    { eapply wp_mono; [by apply rotate_result|]. intros r st Hr id ->. right.
      destruct (Hr id eq_refl) as (? & ? & ? & _). by split_and!. }
    destruct (proj1 (proj2 (proj2 Hok)) a Ea) as [g Hg]. rewrite Hg.
    z_case; [wp_step; intros id [= <-]; left; eauto 6|]. wp_step.
    apply (wp_sync a g); [done|by apply (proj1 Hok a g)| |by intros..].
    intros io'. eapply wp_mono; [apply rotate_result; by apply (evolves_sync s a g)|].
    intros r st Hr id ->. right. destruct (Hr id eq_refl) as (? & ? & ? & Hx).
    split_and!; [done..|]. intros a' g' [= <-] Hne Hg'.
    rewrite Hx in Hg' by done. cbn in Hg'. rewrite lookup_insert_eq in Hg'. by injection Hg' as <-. }
  unfold wp in *. destruct (ActiveCtx n (s, io)) as [r [s' io']]. cbn in *.
  destruct H1 as [Hev Hr]. destruct (Hev Hok) as (? & ? & _). split_and!; [done..|].
  destruct r; [by apply H2|done|done].
Qed.

(** C22: crash recovery of a set.  Open the directory a power loss leaves of a
    set and repair its tail: when both succeed, every segment is back with all
    its durable bytes, in a state that accepts appends again; nothing panics. *)
Theorem recovery_keeps_durable (s s0 : SegSet) (io : io_stream) :
  set_ok s -> set_clean s -> ss_nextID s < 2^32 -> set_crashed s s0 ->
  let '(r, (s', _)) := (let* _ := OpenSet in RepairTail) (s0, io) in
  r <> Panic /\
  (r = Ok tt -> set_ok s' /\ set_clean s' /\
     forall id g, ss_segments s !! id = Some g ->
       exists g' t, ss_segments s' !! id = Some g' /\
         fl_data (sg_file g') = slice (fl_data (sg_file g)) 0 (fl_synced (sg_file g)) ++ t).
Proof.
  intros Hok Hc Hn HK. pose proof (recover_spec s s0 io Hok Hc Hn HK) as H. unfold wp in H.
  destruct ((let* _ := OpenSet in RepairTail) (s0, io)) as [r [s' io']]. cbn in H.
  destruct H as [Hp Hr]. split; [done|]. intros Hr'. destruct (Hr Hr') as (Hok' & Hc' & Hk).
  split_and!; [done..|]. intros id g Hg. destruct (Hk id g Hg) as (g' & Hg' & Hsl & Hle).
  destruct (proj1 Hok id g Hg) as (_ & _ & ?). destruct (proj1 Hok' id g' Hg') as (_ & _ & ?).
  exists g', (slice (fl_data (sg_file g')) (fl_synced (sg_file g)) (blen (fl_data (sg_file g')))).
  split; [done|]. rewrite <-Hsl, <-slice_split by lia. by rewrite slice_all.
Qed.

(** Segment file names and ids correspond one to one. *)
Theorem segFileName_roundtrip (id : Z) :
  in_u32 id ->
  seg_name_id (segFileName id) = Some id /\
  (forall id', in_u32 id' -> segFileName id' = segFileName id -> id' = id) /\
  10 + 4 <= blen (segFileName id).
Proof.
  intros Hid. split_and!; [by apply seg_name_id_segFileName|by intros; apply segFileName_inj|].
  unfold segFileName, format_padded. rewrite !blen_app. unfold blen. rewrite length_replicate.
  simpl (length seg_ext). lia.
Qed.

Lemma segFileName_roundtrip_witness :
  in_u32 4294967295 /\ seg_name_id (segFileName 4294967295) = Some 4294967295.
Proof.
  assert (in_u32 4294967295) as H by done. split; [exact H|].
  exact (proj1 (segFileName_roundtrip 4294967295 H)).
Defined.

(** ** The directory a power loss leaves when nothing survives by luck *)

Definition durable_file (kg : Z * Segment) : bytes * Dirent :=
  (segFileName kg.1,
   DReg (slice (fl_data (sg_file kg.2)) 0 (fl_synced (sg_file kg.2))) (fl_synced (sg_file kg.2))).

Definition power_off (s : SegSet) : SegSet :=
  let d := list_to_map (durable_file <$> map_to_list (ss_segments s)) in
  mkSet (ss_tier s) (ss_maxSize s) d ∅ None 0 (dom d) false.

Lemma power_off_crashed s :
  set_ok s -> set_clean s -> set_crashed s (power_off s).
Proof.
  intros Hok Hc.
  assert (forall id g, ss_segments s !! id = Some g -> seg_ok id g) as Hseg by apply Hok.
  assert (NoDup (durable_file <$> map_to_list (ss_segments s)).*1) as Hnd.
  { rewrite <-list_fmap_compose. apply NoDup_fmap_2_strong; [|apply NoDup_map_to_list].
    intros [i gi] [j gj] Hi%elem_of_map_to_list Hj%elem_of_map_to_list E. cbn in E.
    destruct (Hseg i gi Hi) as (_ & ? & _), (Hseg j gj Hj) as (_ & ? & _).
    apply segFileName_inj in E as ->; [|done..]. congruence. }
  unfold set_crashed. split_and!; [done|done| |].
  - intros name d sy Hl. apply elem_of_list_to_map_2, list_elem_of_fmap in Hl as ([id g] & E & Hg).
    apply elem_of_map_to_list in Hg. unfold durable_file in E. cbn [fst snd] in E.
    apply pair_eq in E as [-> [= -> ->]].
    destruct (Hseg id g Hg) as (_ & Hu & Hsy). destruct (proj1 Hc id g Hg) as [(Hs1 & Hs2) Hb].
    split_and!; [rewrite blen_slice; lia|by apply bytes_ok_slice|rewrite blen_slice; lia|].
    intros id' Hid'. left. rewrite seg_name_id_segFileName in Hid' by done. injection Hid' as <-.
    split; [by exists g|done].
  - intros id g Hg _. exists [], (fl_synced (sg_file g)). rewrite app_nil_r.
    apply elem_of_list_to_map_1; [done|]. apply list_elem_of_fmap. exists (id, g).
    split; [done|]. by apply elem_of_map_to_list.
Qed.

(** ** A set at work: one durable record, one that is torn by the crash *)

Definition ex_file : File :=
  mkFile (frame (fst ex_r1) (snd ex_r1) ++ frame (fst ex_r2) (snd ex_r2)) 93 47.
Definition ex_set : SegSet :=
  mkSet TierHot 1000 ∅ {[0 := mkSegment 0 ex_file true 93]} (Some 0) 1 {[segFileName 0]} true.
Definition ex_after_crash : SegSet :=
  let d := frame (fst ex_r1) (snd ex_r1) ++ [80; 76; 83; 69; 1; 0] in
  mkSet TierHot 1000 {[segFileName 0 := DReg d 53]} ∅ None 0 {[segFileName 0]} false.

Lemma ex_set_ok : set_ok ex_set.
Proof.
  unfold set_ok. split_and!; try done.
  - intros id g Hl. cbn in Hl. apply lookup_singleton_Some in Hl as [<- <-]. repeat split; vm_compute; congruence.
  - intros a [= <-]. cbn. rewrite lookup_singleton_eq. eauto.
Qed.

Lemma bytes_ok_dec b : forallb (fun x => (0 <=? x) && (x <? 256)) b = true -> bytes_ok b.
Proof.
  intros Hb. apply Forall_forall. intros x Hx. rewrite forallb_forall in Hb.
  specialize (Hb x ltac:(by apply list_elem_of_In)). unfold in_u8. lia.
Qed.

Lemma ex_set_clean : set_clean ex_set.
Proof.
  unfold set_clean. split_and!; [|done|intros _; unfold set_good; split_and!].
  - intros id g Hl. cbn in Hl. apply lookup_singleton_Some in Hl as [<- <-].
    split; [repeat split; vm_compute; congruence|by apply bytes_ok_dec].
  - intros name id [Hp [(d & sy & Hl)|[Hd _]]]; [done|]. cbn in Hd.
    apply elem_of_singleton in Hd as ->. rewrite seg_name_id_segFileName in Hp by done.
    by injection Hp as <-.
  - intros id [g Hl]. cbn in Hl. apply lookup_singleton_Some in Hl as [<- <-]. cbn. split_and!; [lia|set_solver|]. by exists 0.
  - intros a g [= <-]. cbn. rewrite lookup_singleton_eq. intros [= <-]. cbn.
    pose proof ex_records_ok as Hr. apply Forall_cons in Hr as [Hr1 Hr2].
    apply Forall_cons in Hr2 as [Hr2 _]. split.
    + apply whole_app; by apply whole_frame.
    + rewrite slice_app_here by done. by apply (whole_frame (fst ex_r1)).
Qed.

Lemma ex_crashed : set_crashed ex_set ex_after_crash.
Proof.
  unfold set_crashed. split_and!; [done| | |].
  - cbn. by rewrite dom_singleton_L.
  - intros name d sy. cbn. intros [<- [= <- <-]]%lookup_singleton_Some. split_and!.
    + done.
    + by apply bytes_ok_dec.
    + vm_compute. congruence.
    + intros id. rewrite seg_name_id_segFileName by done. intros [= <-]. left.
      rewrite lookup_singleton_eq. eauto.
  - intros id g Hl _. cbn in Hl. apply lookup_singleton_Some in Hl as [<- <-]. exists [80; 76; 83; 69; 1; 0], 53.
    cbn. rewrite lookup_singleton_eq. do 2 f_equal.
Qed.

Lemma recovery_keeps_durable_witness :
  set_crashed ex_set ex_after_crash /\
  let '(r, (s', _)) := (let* _ := OpenSet in RepairTail) (ex_after_crash, []) in
  r = Ok tt /\ exists g, ss_segments s' !! 0 = Some g /\
    exists t, fl_data (sg_file g) = frame (fst ex_r1) (snd ex_r1) ++ t.
Proof.
  split; [exact ex_crashed|].
  pose proof (recovery_keeps_durable ex_set ex_after_crash [] ex_set_ok ex_set_clean
                eq_refl ex_crashed) as H.
  destruct ((let* _ := OpenSet in RepairTail) (ex_after_crash, [])) as [r [s' io']] eqn:E.
  assert (r = Ok tt) as -> by (apply (f_equal fst) in E; vm_compute in E; congruence).
  split; [reflexivity|]. destruct H as [_ H]. destruct (H eq_refl) as (_ & _ & Hk).
  destruct (Hk 0 _ eq_refl) as (g & t & Hg & Hd). exists g. split; [exact Hg|].
  exists t. rewrite Hd. f_equal.
Defined.

Lemma Active_rotates_witness :
  set_ok ex_set /\
  (let '(r, (s', _)) := ActiveCtx 950 (ex_set, []) in r = Ok 1 /\ set_ok s').
Proof.
  split; [exact ex_set_ok|].
  pose proof (Active_rotates 950 ex_set [] ex_set_ok) as H.
  destruct (ActiveCtx 950 (ex_set, [])) as [r [s' io']] eqn:E.
  assert (r = Ok 1) as -> by (apply (f_equal fst) in E; vm_compute in E; congruence).
  split; [reflexivity|]. exact (proj1 H).
Defined.
