(* ===== verification/Index.v ===== *)
(** * The storage engine (src/index/index.go): state and operations

    [Index] holds the key/value handle, the two segment sets, the stripe size
    and the sequence counter.  Every operation is translated whole, in a state
    monad over [Index]; the engine and the segment sets are the interfaces of
    Kv.v and Layer.v.

    [writeMu] and the commit locks order the operations; an operation here is
    one critical section.  Spans are left out. *)

From S2P Require Import Prelude Keys Kv Fragment Plan Segment Layer Gostr.

Definition DefaultStripeSize : Z := 67108864.
Definition DefaultSegmentMaxSize : Z := 1073741824.

Definition is_cold (t : Z) : bool := t =? TierCold.

Record AppendExtent : Type := mkAppendExtent {
  ae_Seq : Z;
  ae_Off : Z;
  ae_Data : bytes;
  ae_Tier : Z;
}.

Record StripeInfo : Type := mkStripeInfo {
  si_Inode : Z;
  si_StripeID : Z;
  si_HotBytes : Z;
  si_ColdBytes : Z;
  si_LiveBytes : Z;
}.

Record pendingFrag : Type := mkPendingFrag {
  pf_stripeID : Z;
  pf_logicalOff : Z;
  pf_length : Z;
  pf_segmentID : Z;
  pf_segmentOffset : Z;
}.

(** A [BulkSession] without its back pointer to the index. *)
Record BulkSession : Type := mkBulkSession {
  bs_inode : Z;
  bs_tier : Z;
  bs_pending : list pendingFrag;
  bs_touched : list Z;   (* ids of the touched segments, a set *)
}.

(** Add to a list that stands for a set. *)
Definition add_once {A} `{EqDecision A} (x : A) (l : list A) : list A :=
  if decide (x ∈ l) then l else l ++ [x].

Section Index.
Context {P S : Type} `{Pebble P} `{SegLayer S} `{MapRange}.

Record Index : Type := mkIndex {
  ix_db : P;
  ix_hot : S;
  ix_cold : S;
  ix_stripeSize : Z;
  ix_seqGen : Z;
}.

Definition with_db (p : P) (ix : Index) : Index :=
  mkIndex p (ix_hot ix) (ix_cold ix) (ix_stripeSize ix) (ix_seqGen ix).
Definition with_seqGen (n : Z) (ix : Index) : Index :=
  mkIndex (ix_db ix) (ix_hot ix) (ix_cold ix) (ix_stripeSize ix) n.

Definition set_of (cold : bool) (ix : Index) : S := if cold then ix_cold ix else ix_hot ix.
Definition with_set (cold : bool) (s : S) (ix : Index) : Index :=
  if cold then mkIndex (ix_db ix) (ix_hot ix) s (ix_stripeSize ix) (ix_seqGen ix)
  else mkIndex (ix_db ix) s (ix_cold ix) (ix_stripeSize ix) (ix_seqGen ix).

Definition on_db {A} (m : M P A) : M Index A := zoom ix_db with_db m.

(** [idx.setFor(tier)] is the cold set for [TierCold], the hot one otherwise. *)
Definition on_set {A} (cold : bool) (m : M S A) : M Index A :=
  zoom (set_of cold) (with_set cold) m.
Definition setFor {A} (tier : Z) (m : M S A) : M Index A := on_set (is_cold tier) m.

(** [idx.nextSeq()]: [seqGen.Add(1)]. *)
Definition nextSeq : M Index Z := fun ix =>
  let n := u64 (ix_seqGen ix + 1) in (Ok n, with_seqGen n ix).

Definition NextSeq : M Index Z := nextSeq.

(** [uint32(off / stripeSize)]; Go's division truncates. *)
Definition stripeOf (stripeSize off : Z) : Z := u32 (Z.quot off stripeSize).

Definition stripe_end (stripeSize stripeID : Z) : Z :=
  i64 (i64 (stripeID + 1) * stripeSize).

(** ** Appending *)

(** The update a caller folds into the commit of its fragments. *)
Abbreviation tx_hook := (option (Batch -> M P Batch)).

Definition run_hook (txHook : tx_hook) (b : Batch) : M P Batch :=
  match txHook with None => ret b | Some h => h b end.

(** The empty-write path of both entry points: only the hook is committed. *)
Definition commit_hook (txHook : tx_hook) : M Index unit :=
  match txHook with
  | None => ret tt
  | Some h => on_db (let* b := h NewBatch in Batch_Commit b true)
  end.

(** Staging: what is pending, and the touched segments by tier and id. *)
Abbreviation staged := (list (Z * Fragment) * list (bool * Z))%type.

Definition stage_extent (inode : Z) (acc : staged) (e : AppendExtent) : M Index staged :=
  let* ix := get in
  let n := blen (ae_Data e) in
  let stripeID := stripeOf (ix_stripeSize ix) (ae_Off e) in
  let stripeEnd := stripe_end (ix_stripeSize ix) stripeID in
  if stripeEnd <? i64 (ae_Off e + n) then
    throw (ErrMsg "index: AppendBatchCtx: extent straddles stripe boundary")
  else
    let* seg := setFor (ae_Tier e) (sl_active (FramedSize n)) in
    let* payloadOff := setFor (ae_Tier e) (sl_append seg
      {| rh_Inode := inode; rh_StripeID := stripeID; rh_Seq := ae_Seq e;
         rh_LogicalOff := ae_Off e; rh_Length := u32 n |} (ae_Data e)) in
    let frag := {| fr_Seq := ae_Seq e; fr_LogicalOff := ae_Off e; fr_Length := n;
                   fr_Tier := ae_Tier e; fr_SegmentID := seg; fr_SegmentOffset := payloadOff |} in
    ret (acc.1 ++ [(stripeID, frag)], add_once (is_cold (ae_Tier e), seg) acc.2).

Definition set_frag (inode : Z) (b : Batch) (p : Z * Fragment) : M P Batch :=
  Batch_Set b (FragmentKey inode p.1 (fr_Seq p.2)) (encodeFragments [p.2]).

Definition sync_touched (touched : list (bool * Z)) : M Index unit :=
  mfor (range_order touched) (fun t => on_set t.1 (sl_sync t.2)).

Definition commit_frags (inode : Z) (pendings : list (Z * Fragment)) (txHook : tx_hook) : M P unit :=
  let* b := mfold (set_frag inode) NewBatch pendings in
  let* b := run_hook txHook b in
  Batch_Commit b true.

Definition AppendBatchCtx (inode : Z) (extents : list AppendExtent) (txHook : tx_hook)
    : M Index unit :=
  match extents with
  | [] => commit_hook txHook
  | _ =>
      let* st := mfold (stage_extent inode) ([], []) extents in
      let* _ := sync_touched st.2 in
      on_db (commit_frags inode st.1 txHook)
  end.

(** The split at stripe boundaries; [fuel] bounds the number of chunks. *)
Fixpoint split_extents (fuel : nat) (rem : bytes) (off tier : Z) : M Index (list AppendExtent) :=
  match rem with
  | [] => ret []
  | _ =>
      match fuel with
      | O => panic
      | Datatypes.S fuel =>
          let* ix := get in
          let stripeID := stripeOf (ix_stripeSize ix) off in
          let stripeEnd := stripe_end (ix_stripeSize ix) stripeID in
          let chunkLen := blen rem in
          let chunkLen := if stripeEnd <? i64 (off + chunkLen) then i64 (stripeEnd - off) else chunkLen in
          let* seq := nextSeq in
          if (chunkLen <? 0) || (blen rem <? chunkLen) then panic   (* rem[:chunkLen] *)
          else
            let e := {| ae_Seq := seq; ae_Off := off; ae_Data := slice rem 0 chunkLen;
                        ae_Tier := tier |} in
            let* rest := split_extents fuel (slice rem chunkLen (blen rem)) (i64 (off + chunkLen)) tier in
            ret (e :: rest)
      end
  end.

Definition AppendToWithTxCtx (inode logicalOff : Z) (payload : bytes) (tier : Z)
    (txHook : tx_hook) : M Index unit :=
  match payload with
  | [] => commit_hook txHook
  | _ =>
      let* extents := split_extents (length payload) payload logicalOff tier in
      AppendBatchCtx inode extents txHook
  end.

Definition AppendToCtx (inode logicalOff : Z) (payload : bytes) (tier : Z) : M Index unit :=
  AppendToWithTxCtx inode logicalOff payload tier None.

Definition AppendTo (inode logicalOff : Z) (payload : bytes) (tier : Z) : M Index unit :=
  AppendToCtx inode logicalOff payload tier.

Definition AppendIdx (inode logicalOff : Z) (payload : bytes) : M Index unit :=
  AppendToCtx inode logicalOff payload TierHot.

(** ** Reading *)

(** Every fragment of the pairs of a scan; keys of other lengths are skipped. *)
Definition frags_of_pairs (l : list (bytes * bytes)) : list Fragment :=
  concat ((fun kv => if IsFragmentKey kv.1 then decodeFragments kv.2 else []) <$> l).

Definition fragmentsInRange (inode first last : Z) : M Index (list Fragment) :=
  let lo := FragmentStripePrefix inode first in
  let hi := if last =? 4294967295 then PrefixUpperBound (StripePrefix inode)
            else Some (FragmentStripePrefix inode (u32 (last + 1))) in
  let* l := on_db (DB_walk_unchecked lo hi) in
  ret (frags_of_pairs l).

Definition PlanReadCtx (inode off length : Z) : M Index (list ReadSlice) :=
  if length <=? 0 then ret []
  else
    let* ix := get in
    let first := stripeOf (ix_stripeSize ix) off in
    let last := stripeOf (ix_stripeSize ix) (i64 (i64 (off + length) - 1)) in
    let* allFrags := fragmentsInRange inode first last in
    ret (planRead allFrags off length).

Definition FragmentsInRange (inode off length : Z) : M Index (list Fragment) :=
  if length <=? 0 then ret []
  else
    let* ix := get in
    let first := stripeOf (ix_stripeSize ix) off in
    let last := stripeOf (ix_stripeSize ix) (i64 (i64 (off + length) - 1)) in
    fragmentsInRange inode first last.

(** [ReadAtCtx(loc, p)] with [len(p) = n]: the bytes read. *)
Definition ReadAtCtx (loc : Locator) (n : Z) : M Index bytes :=
  let* ix := get in
  let cold := is_cold (loc_Tier loc) in
  if negb (sl_get (set_of cold ix) (loc_SegmentID loc)) then
    throw (ErrMsg "index: missing segment")
  else
    let n := if loc_Length loc <? n then loc_Length loc else n in
    if n <? 0 then panic   (* p[:loc.Length] *)
    else on_set cold (sl_read (loc_SegmentID loc) n (loc_Offset loc)).

(** [FragmentsOf]: the fragments of one stripe. *)
Definition FragmentsOf (inode stripeID : Z) : M Index (list Fragment) :=
  let prefix := FragmentStripePrefix inode stripeID in
  let* l := on_db (DB_walk_unchecked prefix (PrefixUpperBound prefix)) in
  ret (frags_of_pairs l).

(** [StripesOf]: the stripes of an inode that have fragments, ascending. *)
Definition StripesOf (inode : Z) : M Index (list Z) :=
  let prefix := StripePrefix inode in
  let* l := on_db (DB_walk_unchecked prefix (PrefixUpperBound prefix)) in
  let* seen := mfold (fun seen kv =>
      if negb (IsFragmentKey kv.1) then ret seen
      else
        let* sid := of_outcome (StripeIDFromFragmentKey kv.1) in
        ret (add_once sid seen)) [] l in
  ret (merge_sort Z.le seen).

(** ** Bulk sessions *)

Definition NewBulkSession (inode tier : Z) : BulkSession := mkBulkSession inode tier [] [].

Definition bs_get : M (Index * BulkSession) BulkSession := fun st => (Ok st.2, st).
Definition bs_put (s : BulkSession) : M (Index * BulkSession) unit := fun st => (Ok tt, (st.1, s)).
Definition on_index {A} (m : M Index A) : M (Index * BulkSession) A :=
  zoom fst (fun ix st => (ix, st.2)) m.

Fixpoint bulk_write (fuel : nat) (rem : bytes) (off : Z) : M (Index * BulkSession) unit :=
  match rem with
  | [] => ret tt
  | _ =>
      match fuel with
      | O => panic
      | Datatypes.S fuel =>
          let* ix := on_index get in
          let* s := bs_get in
          let stripeID := stripeOf (ix_stripeSize ix) off in
          let stripeEnd := stripe_end (ix_stripeSize ix) stripeID in
          let chunkLen := blen rem in
          let chunkLen := if stripeEnd <? i64 (off + chunkLen) then i64 (stripeEnd - off) else chunkLen in
          let* seg := on_index (setFor (bs_tier s) (sl_active (FramedSize chunkLen))) in
          if (chunkLen <? 0) || (blen rem <? chunkLen) then panic
          else
            let* payloadOff := on_index (setFor (bs_tier s) (sl_append seg
              {| rh_Inode := bs_inode s; rh_StripeID := stripeID; rh_Seq := 0;
                 rh_LogicalOff := off; rh_Length := u32 chunkLen |} (slice rem 0 chunkLen))) in
            let pf := {| pf_stripeID := stripeID; pf_logicalOff := off; pf_length := chunkLen;
                         pf_segmentID := seg; pf_segmentOffset := payloadOff |} in
            let* _ := bs_put (mkBulkSession (bs_inode s) (bs_tier s) (bs_pending s ++ [pf])
                                (add_once seg (bs_touched s))) in
            bulk_write fuel (slice rem chunkLen (blen rem)) (i64 (off + chunkLen))
      end
  end.

Definition Bulk_Write (logicalOff : Z) (payload : bytes) : M (Index * BulkSession) unit :=
  bulk_write (length payload) payload logicalOff.

(** The queueing loop of [Commit] draws a fresh sequence number per fragment. *)
Definition bulk_frag (s : BulkSession) (b : Batch) (pf : pendingFrag) : M Index Batch :=
  let* seq := nextSeq in
  let frag := {| fr_Seq := seq; fr_LogicalOff := pf_logicalOff pf; fr_Length := pf_length pf;
                 fr_Tier := bs_tier s; fr_SegmentID := pf_segmentID pf;
                 fr_SegmentOffset := pf_segmentOffset pf |} in
  on_db (set_frag (bs_inode s) b (pf_stripeID pf, frag)).

Definition Bulk_Commit : M (Index * BulkSession) unit :=
  let* s := bs_get in
  let* _ := on_index (mfor (range_order (bs_touched s)) (fun id => setFor (bs_tier s) (sl_sync id))) in
  let* b := on_index (mfold (bulk_frag s) NewBatch (bs_pending s)) in
  on_index (on_db (Batch_Commit b true)).

Definition Bulk_Abort : M (Index * BulkSession) unit :=
  let* s := bs_get in bs_put (mkBulkSession (bs_inode s) (bs_tier s) [] []).

(** ** Truncate and delete *)

(** What [Truncate] queues for one key: nothing, a delete, or the clipped
    fragment. *)
Definition trunc_op (stripeSize size : Z) (kv : bytes * bytes) : outcome (list wop) :=
  if negb (IsFragmentKey kv.1) then Ok []
  else
    let? stripeID := StripeIDFromFragmentKey kv.1 in
    let stripeStart := i64 (stripeID * stripeSize) in
    if size <=? stripeStart then Ok [WDelete kv.1]
    else
      let? frag := decodeFragments_0 kv.2 in
      if size <=? fr_LogicalOff frag then Ok [WDelete kv.1]
      else if size <? i64 (fr_LogicalOff frag + fr_Length frag) then
        Ok [WSet kv.1 (encodeFragments
          [{| fr_Seq := fr_Seq frag; fr_LogicalOff := fr_LogicalOff frag;
              fr_Length := i64 (size - fr_LogicalOff frag); fr_Tier := fr_Tier frag;
              fr_SegmentID := fr_SegmentID frag; fr_SegmentOffset := fr_SegmentOffset frag |}])]
      else Ok [].

Definition Truncate (inode size : Z) : M Index unit :=
  let* ix := get in
  let prefix := StripePrefix inode in
  let* l := on_db (DB_walk prefix (PrefixUpperBound prefix)) in
  let* ops := mfold (fun ops kv =>
      let* o := of_outcome (trunc_op (ix_stripeSize ix) size kv) in ret (ops ++ o)) [] l in
  on_db (let* b := queue_all ops in Batch_Commit b true).

Definition DeleteInode (inode : Z) : M Index unit :=
  let prefix := StripePrefix inode in
  let* l := on_db (DB_walk prefix (PrefixUpperBound prefix)) in
  match l with
  | [] => ret tt
  | _ => on_db (let* b := queue_all (WDelete <$> l.*1) in Batch_Commit b true)
  end.

(** ** Iterating over stripes *)

(** The accumulator of [IterStripes]: [None] before the first fragment. *)
Abbreviation iter_acc := (option (Z * Z * list Fragment * Z * Z)).

Definition stripe_info (acc : Z * Z * list Fragment * Z * Z) : StripeInfo :=
  let '(ino, sid, frags, hotBytes, coldBytes) := acc in
  {| si_Inode := ino; si_StripeID := sid; si_HotBytes := hotBytes; si_ColdBytes := coldBytes;
     si_LiveBytes := foldl (fun n f => i64 (n + fr_Length f)) 0 (canonicalView frags) |}.

(** [flush]: hand the finished stripe to [fn]; [false] stops the walk. *)
Definition iter_flush {T} (fn : StripeInfo -> T -> bool * T) (acc : iter_acc) (t : T) : bool * T :=
  match acc with None => (true, t) | Some a => fn (stripe_info a) t end.

Definition iter_add (acc : iter_acc) (ino sid : Z) (f : Fragment) : iter_acc :=
  let '(frags, hotBytes, coldBytes) :=
    match acc with Some (_, _, fs, h, c) => (fs, h, c) | None => ([], 0, 0) end in
  Some (ino, sid, frags ++ [f],
        if fr_Tier f =? TierHot then i64 (hotBytes + fr_Length f) else hotBytes,
        if fr_Tier f =? TierCold then i64 (coldBytes + fr_Length f) else coldBytes).

Definition same_stripe (acc : iter_acc) (ino sid : Z) : bool :=
  match acc with Some (i, s, _, _, _) => (ino =? i) && (sid =? s) | None => false end.

Fixpoint iter_loop {T} (fn : StripeInfo -> T -> bool * T) (l : list (bytes * bytes))
    (acc : iter_acc) (t : T) : outcome T :=
  match l with
  | [] => Ok (iter_flush fn acc t).2
  | (k, v) :: l =>
      if negb (IsFragmentKey k) then iter_loop fn l acc t
      else
        let? ino := StripeInodeFromFragmentKey k in
        let? sid := StripeIDFromFragmentKey k in
        if same_stripe acc ino sid then
          let? f := decodeFragments_0 v in
          iter_loop fn l (iter_add acc ino sid f) t
        else
          let '(go, t) := iter_flush fn acc t in
          if negb go then Ok t
          else
            let? f := decodeFragments_0 v in
            iter_loop fn l (iter_add None ino sid f) t
  end.

Definition IterStripes {T} (fn : StripeInfo -> T -> bool * T) (t : T) : M Index T :=
  let* l := on_db (DB_walk_unchecked StripeAllPrefix (PrefixUpperBound StripeAllPrefix)) in
  of_outcome (iter_loop fn l None t).

(** ** Move *)

(** One fragment of the canonical view, brought to the target tier. *)
Definition move_one (inode stripeID target : Z) (newFrags : list Fragment) (f : Fragment)
    : M Index (list Fragment) :=
  let* newSeq := nextSeq in
  if fr_Tier f =? target then
    ret (newFrags ++ [{| fr_Seq := newSeq; fr_LogicalOff := fr_LogicalOff f;
                         fr_Length := fr_Length f; fr_Tier := fr_Tier f;
                         fr_SegmentID := fr_SegmentID f;
                         fr_SegmentOffset := fr_SegmentOffset f |}])
  else if fr_Length f <? 0 then panic   (* make([]byte, f.Length) *)
  else
    let* ix := get in
    if negb (sl_get (set_of (is_cold (fr_Tier f)) ix) (fr_SegmentID f)) then
      throw (ErrMsg "index: Move: source segment missing")
    else
      let* buf := setFor (fr_Tier f) (sl_read (fr_SegmentID f) (fr_Length f) (fr_SegmentOffset f)) in
      let* seg := setFor target (sl_active (FramedSize (blen buf))) in
      let* payloadOff := setFor target (sl_append seg
        {| rh_Inode := inode; rh_StripeID := stripeID; rh_Seq := newSeq;
           rh_LogicalOff := fr_LogicalOff f; rh_Length := u32 (blen buf) |} buf) in
      let* _ := setFor target (sl_sync seg) in
      ret (newFrags ++ [{| fr_Seq := newSeq; fr_LogicalOff := fr_LogicalOff f;
                           fr_Length := fr_Length f; fr_Tier := target; fr_SegmentID := seg;
                           fr_SegmentOffset := payloadOff |}]).

(** The keys and fragments of the snapshot. *)
Definition move_snapshot (l : list (bytes * bytes)) : list bytes * list Fragment :=
  ((filter (fun kv => IsFragmentKey kv.1 = true) l).*1, frags_of_pairs l).

Definition swap_ops (inode stripeID : Z) (oldKeys : list bytes) (newFrags : list Fragment) : list wop :=
  (WDelete <$> oldKeys) ++
  ((fun f => WSet (FragmentKey inode stripeID (fr_Seq f)) (encodeFragments [f])) <$> newFrags).

Definition Move (inode stripeID target : Z) : M Index unit :=
  let prefix := FragmentStripePrefix inode stripeID in
  let* l := on_db (DB_walk prefix (PrefixUpperBound prefix)) in
  let '(oldKeys, frags) := move_snapshot l in
  match frags with
  | [] => ret tt
  | _ =>
      let* newFrags := mfold (move_one inode stripeID target) [] (canonicalView frags) in
      on_db (let* b := queue_all (swap_ops inode stripeID oldKeys newFrags) in Batch_Commit b true)
  end.

(** ** Garbage collection *)

(** [referenced[f.Tier][f.SegmentID] = true]: the inner map exists for the hot
    and the cold tier only. *)
Definition mark (refs : gset Z * gset Z) (f : Fragment) : outcome (gset Z * gset Z) :=
  if fr_Tier f =? TierHot then Ok ({[fr_SegmentID f]} ∪ refs.1, refs.2)
  else if fr_Tier f =? TierCold then Ok (refs.1, {[fr_SegmentID f]} ∪ refs.2)
  else Panic.

Fixpoint mark_all (refs : gset Z * gset Z) (fs : list Fragment) : outcome (gset Z * gset Z) :=
  match fs with
  | [] => Ok refs
  | f :: fs => let? refs := mark refs f in mark_all refs fs
  end.

Definition mark_active (a : option Z) (refs : gset Z) : gset Z :=
  match a with None => refs | Some id => {[id]} ∪ refs end.

(** The second pass: files of the directory that are not in the set. *)
Definition gc_stray (cold : bool) (refs : gset Z) (e : bytes * bool) : M Index unit :=
  let '(name, isDir) := e in
  if isDir || negb (has_suffix [46; 115; 101; 103] name) then ret tt
  else
    match parse_uint 32 (trim_suffix [46; 115; 101; 103] name) with
    | None => ret tt
    | Some id =>
        let* ix := get in
        if bool_decide (id ∈ refs) || sl_get (set_of cold ix) id then ret tt
        else on_set cold (sl_unlink name)
    end.

Definition gc_set (cold : bool) (refs : gset Z) : M Index unit :=
  let* ix := get in
  let* _ := mfor (sl_all (set_of cold ix)) (fun id =>
    if bool_decide (id ∈ refs) then ret tt else on_set cold (sl_remove id)) in
  let* entries := on_set cold sl_readdir in
  mfor entries (gc_stray cold refs).

Definition GC : M Index unit :=
  let* l := on_db (DB_walk StripeAllPrefix (PrefixUpperBound StripeAllPrefix)) in
  let* refs := of_outcome (mark_all (∅, ∅) (frags_of_pairs l)) in
  let* ix := get in
  let hotRefs := mark_active (sl_active_id (ix_hot ix)) refs.1 in
  let coldRefs := mark_active (sl_active_id (ix_cold ix)) refs.2 in
  let* _ := gc_set false hotRefs in
  gc_set true coldRefs.

(** ** The rest *)

Definition SegmentIDs (tier : Z) (ix : Index) : list Z := sl_all (set_of (is_cold tier) ix).

Definition HotUsedBytes (ix : Index) : Z :=
  foldl (fun n id => if sl_get (ix_hot ix) id then i64 (n + sl_size (ix_hot ix) id) else n)
    0 (sl_all (ix_hot ix)).

Definition SyncIdx : M Index unit :=
  let* _ := on_set false sl_sync_all in
  let* _ := on_set true sl_sync_all in
  on_db (Batch_Commit NewBatch true).

(** [Close]: everything is tried, the first error is reported. *)
Definition first_err (e : outcome unit) (m : M Index unit) : M Index (outcome unit) :=
  let* r := try m in
  ret match e, r with Ok _, Err x => Err x | _, _ => e end.

Definition CloseIdx : M Index unit :=
  let* e := first_err (Ok tt) (on_set false sl_sync_all) in
  let* e := first_err e (on_set true sl_sync_all) in
  let* e := first_err e (on_db DB_Close) in
  let* e := first_err e (on_set false sl_close_all) in
  let* e := first_err e (on_set true sl_close_all) in
  of_outcome e.

(** *** [migrateBlobsToFragments] *)

Record migration : Type := mkMigration {
  mg_legacyKeys : list bytes;
  mg_newSets : list (bytes * bytes);
  mg_maxSeq : Z;
}.

Definition migrate_blob (inode stripeID : Z) (m : migration) (f : Fragment) : migration :=
  {| mg_legacyKeys := mg_legacyKeys m;
     mg_newSets := mg_newSets m ++ [(FragmentKey inode stripeID (fr_Seq f), encodeFragments [f])];
     mg_maxSeq := if mg_maxSeq m <? fr_Seq f then fr_Seq f else mg_maxSeq m |}.

Definition migrate_pair (m : migration) (kv : bytes * bytes) : outcome migration :=
  if negb (IsLegacyStripeKey kv.1) then
    if IsFragmentKey kv.1 then
      let? s := SeqFromFragmentKey kv.1 in
      Ok {| mg_legacyKeys := mg_legacyKeys m; mg_newSets := mg_newSets m;
            mg_maxSeq := if mg_maxSeq m <? s then s else mg_maxSeq m |}
    else Ok m
  else
    let? inode := StripeInodeFromFragmentKey kv.1 in
    let? stripeID := StripeIDFromFragmentKey kv.1 in
    let m := {| mg_legacyKeys := mg_legacyKeys m ++ [kv.1]; mg_newSets := mg_newSets m;
                mg_maxSeq := mg_maxSeq m |} in
    Ok (foldl (migrate_blob inode stripeID) m (decodeFragments kv.2)).

(** The compare-and-swap loop, with no one else running. *)
Definition raise_seq (maxSeq : Z) : M Index unit :=
  modify (fun ix => if maxSeq <? ix_seqGen ix then ix else with_seqGen (u64 (maxSeq + 1)) ix).

Definition migrateBlobsToFragments : M Index unit :=
  let* l := on_db (DB_walk StripeAllPrefix (PrefixUpperBound StripeAllPrefix)) in
  let* m := mfold (fun m kv => of_outcome (migrate_pair m kv)) (mkMigration [] [] 0) l in
  if (blen (mg_legacyKeys m) =? 0) && (mg_maxSeq m =? 0) then ret tt
  else
    let* _ := raise_seq (mg_maxSeq m) in
    if blen (mg_legacyKeys m) =? 0 then ret tt
    else
      on_db (let* b := queue_all (set_ops (mg_newSets m) ++ (WDelete <$> mg_legacyKeys m)) in
             Batch_Commit b true).

(** *** [Open], once the database is open: [now] is [time.Now().UnixNano()].
    What is open is closed again when a later step fails. *)
Definition or_close (close : list (M Index unit)) (m : M Index unit) : M Index unit :=
  let* r := try m in
  match r with
  | Ok _ => ret tt
  | Err e => let* _ := mfor close (fun c => let* _ := try c in ret tt) in throw e
  | Panic => panic
  end.

Definition OpenSets (now : Z) : M Index unit :=
  let close_db := on_db DB_Close in
  let close_hot := on_set false sl_close_all in
  let close_cold := on_set true sl_close_all in
  let* _ := or_close [close_db] (on_set false sl_open) in
  let* _ := or_close [close_hot; close_db] (on_set true sl_open) in
  let* _ := or_close [close_cold; close_hot; close_db] (on_set false sl_repair) in
  let* _ := or_close [close_cold; close_hot; close_db] (on_set true sl_repair) in
  let* _ := modify (with_seqGen (u64 now)) in
  let* r := try migrateBlobsToFragments in
  match r with
  | Ok _ => ret tt
  | Err e => let* _ := try CloseIdx in throw (ErrWrap "index: blob->fragment migration" e)
  | Panic => panic
  end.
End Index.

(** *** The configuration checks of [Open] *)

Record Config : Type := mkConfig {
  cf_HotDir : bytes;
  cf_ColdDir : bytes;
  cf_DBPath : bytes;
  cf_StripeSize : Z;
  cf_SegmentMaxSize : Z;
  cf_Root : bytes;
}.

Section Config.
(** [filepath.Join] of two elements. *)
Context (join : bytes -> bytes -> bytes).

Definition is_empty (s : bytes) : bool := match s with [] => true | _ => false end.

Definition check_config (cfg : Config) : outcome Config :=
  let hot := if negb (is_empty (cf_Root cfg)) && is_empty (cf_HotDir cfg)
             then join (cf_Root cfg) (str "hot") else cf_HotDir cfg in
  let cold := if negb (is_empty (cf_Root cfg)) && is_empty (cf_ColdDir cfg)
              then join (cf_Root cfg) (str "cold") else cf_ColdDir cfg in
  if is_empty hot || is_empty cold then Err (ErrMsg "index: HotDir and ColdDir are required")
  else
    let ss := if cf_StripeSize cfg =? 0 then DefaultStripeSize else cf_StripeSize cfg in
    let ms := if cf_SegmentMaxSize cfg =? 0 then DefaultSegmentMaxSize else cf_SegmentMaxSize cfg in
    if (ss <=? 0) || negb (Z.land ss (i64 (ss - 1)) =? 0) then
      Err (ErrMsg "index: StripeSize must be a positive power of 2")
    else
      let db := if is_empty (cf_DBPath cfg) then join (join hot (str ".placefs")) (str "pebble")
                else cf_DBPath cfg in
      Ok (mkConfig hot cold db ss ms (cf_Root cfg)).
End Config.

Arguments Index : clear implicits.
