(* ===== verification/IndexSpec.v ===== *)
(** * The storage engine: invariant and abstract state

    The abstract state of the engine is [content]: for every inode the byte at
    each offset, or [None] in a hole.  [index_ok] is the invariant: every
    fragment key of the database decodes to one well-formed fragment of its
    stripe, whose bytes lie in a live segment and are durable. *)

From S2P Require Import Prelude Keys Kv Fragment Plan Segment Layer Index.

Section Spec.
Context {P : Type} {PB : Pebble P} {PL : PebbleLaws P}.
Context {S : Type} {SL : SegLayer S} {SLL : SegLayerLaws S} {MR : MapRange}.
Implicit Types ix : Index P S.
Implicit Types m : gmap bytes bytes.
Implicit Types l : list (bytes * bytes).

(** ** Fragments of the database *)

(** [f] is a live fragment of [inode]. *)
Definition frag_in (m : gmap bytes bytes) (inode : Z) (f : Fragment) : Prop :=
  fragment_typed f /\ exists stripe, in_u32 stripe /\
    m !! FragmentKey inode stripe (fr_Seq f) = Some (encodeFragments [f]).

(** [f] is a fragment as the engine writes them into [stripe]. *)
Definition frag_shape (stripeSize stripe : Z) (f : Fragment) : Prop :=
  fragment_ok f /\ stripe * stripeSize <= fr_LogicalOff f /\
  fr_LogicalOff f + fr_Length f <= (stripe + 1) * stripeSize /\
  (fr_Tier f = TierHot \/ fr_Tier f = TierCold).

Definition db_shape (stripeSize : Z) (m : gmap bytes bytes) : Prop :=
  (forall k v, m !! k = Some v -> bytes_ok k) /\
  forall k v, m !! k = Some v -> has_prefix StripeAllPrefix k ->
    exists inode stripe f, in_u64 inode /\ in_u32 stripe /\
      k = FragmentKey inode stripe (fr_Seq f) /\ v = encodeFragments [f] /\
      frag_shape stripeSize stripe f.

(** The pairs a prefix scan of the inode sees, in no particular order. *)
Definition inode_pairs (m : gmap bytes bytes) (inode : Z) : list (bytes * bytes) :=
  filter (fun kv => in_range (StripePrefix inode) (PrefixUpperBound (StripePrefix inode)) kv.1 = true)
    (map_to_list m).

Definition inode_frags (m : gmap bytes bytes) (inode : Z) : list Fragment :=
  frags_of_pairs (inode_pairs m inode).

(** ** Bytes of the segments *)

Definition tier_data (ix : Index P S) (tier : Z) : gmap Z bytes :=
  lv_data (set_of (is_cold tier) ix).
Definition tier_durable (ix : Index P S) (tier seg : Z) : Z :=
  lv_durable (set_of (is_cold tier) ix) seg.

Definition fetch (ix : Index P S) (src : source) : option Z :=
  let '(tier, seg, off) := src in
  match tier_data ix tier !! seg with Some d => byte_at d off | None => None end.

(** The abstract state. *)
Definition content (ix : Index P S) (inode x : Z) : option Z :=
  match source_of (inode_frags (contents (ix_db ix)) inode) x with
  | Some src => fetch ix src
  | None => None
  end.

(** The bytes of [f] are in a live segment, and durable. *)
Definition resident (ix : Index P S) (f : Fragment) : Prop :=
  exists d, tier_data ix (fr_Tier f) !! fr_SegmentID f = Some d /\
    fr_SegmentOffset f + fr_Length f <= tier_durable ix (fr_Tier f) (fr_SegmentID f).

(** ** The invariant *)

Definition sets_ok (ix : Index P S) : Prop := lv_ok (ix_hot ix) /\ lv_ok (ix_cold ix).
Definition sets_clean (ix : Index P S) : Prop := lv_clean (ix_hot ix) /\ lv_clean (ix_cold ix).

(** Stripes of at most 1 GiB keep every offset of the 2^32 stripes an [int64]. *)
Definition stripe_size_ok (ss : Z) : Prop := 0 < ss <= 2^30.

Definition index_ok (ix : Index P S) : Prop :=
  sets_ok ix /\ stripe_size_ok (ix_stripeSize ix) /\ in_u64 (ix_seqGen ix) /\
  db_shape (ix_stripeSize ix) (contents (ix_db ix)) /\
  forall inode f, in_u64 inode -> frag_in (contents (ix_db ix)) inode f ->
    resident ix f /\ fr_Seq f <= ix_seqGen ix.

(** ** Lemmas: scans *)

Lemma shape_typed ss stripe f : frag_shape ss stripe f -> fragment_typed f.
Proof. intros (Hok & _). by apply fragment_ok_typed. Qed.

Lemma shape_seq ss stripe f : frag_shape ss stripe f -> in_u64 (fr_Seq f).
Proof. by intros ((? & _) & _). Qed.

Lemma IsFragmentKey_true i s q : IsFragmentKey (FragmentKey i s q) = true.
Proof. unfold IsFragmentKey. by rewrite blen_FragmentKey. Qed.

(** A pair of the database under the stripe tag. *)
Lemma shape_pair ss m k v :
  db_shape ss m -> m !! k = Some v -> has_prefix StripeAllPrefix k ->
  exists inode stripe f, in_u64 inode /\ in_u32 stripe /\
    k = FragmentKey inode stripe (fr_Seq f) /\ v = encodeFragments [f] /\
    frag_shape ss stripe f /\ decodeFragments v = [f].
Proof.
  intros [_ Hs] Hl Hp. destruct (Hs k v Hl Hp) as (i & s & f & Hi & Hst & -> & -> & Hf).
  exists i, s, f. split_and!; try done. apply decode_single. by eapply shape_typed.
Qed.

Lemma encode_inj f g :
  fragment_typed f -> fragment_typed g -> encodeFragments [f] = encodeFragments [g] -> f = g.
Proof.
  intros Hf Hg E. apply (f_equal decodeFragments) in E.
  rewrite !decode_single in E by done. congruence.
Qed.

(** A live fragment has the shape of its stripe. *)
Lemma frag_in_shape ss m inode f :
  db_shape ss m -> in_u64 inode -> frag_in m inode f ->
  in_u64 (fr_Seq f) /\ exists stripe, in_u32 stripe /\ frag_shape ss stripe f /\
    m !! FragmentKey inode stripe (fr_Seq f) = Some (encodeFragments [f]).
Proof.
  intros Hs Hi (Ht & stripe & Hst & Hl). pose proof Ht as (Hq & _). split; [done|].
  exists stripe. destruct (shape_pair _ _ _ _ Hs Hl (prefix_StripeAll_FragmentKey _ _ _))
    as (i' & s' & g & Hi' & Hs' & Ek & Ev & Hg & _).
  apply encode_inj in Ev as <-; [|done|by eapply shape_typed].
  apply FragmentKey_inj in Ek as (_ & <- & _); [|done..]. done.
Qed.

(** What a scan decodes, when all it saw are pairs of the database. *)
Lemma elem_of_frags_of_pairs ss m l f :
  db_shape ss m ->
  (forall k v, (k, v) ∈ l -> m !! k = Some v /\ has_prefix StripeAllPrefix k) ->
  f ∈ frags_of_pairs l <->
  fragment_typed f /\ exists inode stripe, in_u64 inode /\ in_u32 stripe /\
    (FragmentKey inode stripe (fr_Seq f), encodeFragments [f]) ∈ l.
Proof.
  intros Hs Hl. unfold frags_of_pairs. rewrite list_elem_of_In, in_concat. split.
  - intros (fs & Hfs & Hf). apply list_elem_of_In, list_elem_of_fmap in Hfs as ([k v] & -> & Hin).
    destruct (Hl k v Hin) as [Hm Hp].
    destruct (shape_pair _ _ _ _ Hs Hm Hp) as (i & s & g & Hi & Hst & -> & -> & Hg & Hd).
    cbn [fst snd] in Hf. rewrite IsFragmentKey_true, Hd in Hf. apply list_elem_of_In in Hf.
    apply list_elem_of_singleton in Hf as ->. split; [by eapply shape_typed|eauto].
  - intros (Ht & i & s & Hi & Hst & Hin). exists [f]. split; [|by left].
    apply list_elem_of_In, list_elem_of_fmap. eexists. split; [|exact Hin]. cbn [fst snd].
    by rewrite IsFragmentKey_true, decode_single.
Qed.

(** A scan of the keys of one inode. *)
Lemma elem_of_inode_scan ss m inode l f :
  db_shape ss m -> in_u64 inode ->
  (forall k v, (k, v) ∈ l -> m !! k = Some v /\ has_prefix (StripePrefix inode) k) ->
  f ∈ frags_of_pairs l <->
  fragment_typed f /\ exists stripe, in_u32 stripe /\
    (FragmentKey inode stripe (fr_Seq f), encodeFragments [f]) ∈ l.
Proof.
  intros Hs Hi Hl. rewrite elem_of_frags_of_pairs; [|done|].
  - split; intros (Ht & Hx); (split; [done|]).
    + destruct Hx as (i & s & Hi' & Hst & Hin). exists s. split; [done|].
      destruct (Hl _ _ Hin) as [_ Hp].
      apply prefix_StripePrefix_FragmentKey in Hp as <-; [done..].
    + destruct Hx as (s & Hst & Hin). eauto.
  - intros k v Hin. destruct (Hl k v Hin) as [? Hp]. split; [done|].
    eapply has_prefix_trans; [apply prefix_StripePrefix_all|done].
Qed.

(** The scan of all the keys with a prefix, as [DB_walk] yields it. *)
Lemma prefix_pairs ss m p l :
  db_shape ss m -> bytes_ok p ->
  (forall k v, (k, v) ∈ l <-> m !! k = Some v /\ in_range p (PrefixUpperBound p) k = true) ->
  forall k v, (k, v) ∈ l <-> m !! k = Some v /\ has_prefix p k.
Proof.
  intros [Hb _] Hp Hl k v. rewrite Hl. split; intros [Hm Hk]; (split; [done|]);
    (eapply in_range_prefix; [done|by eapply Hb|done]).
Qed.

Lemma elem_of_full_scan ss m inode l f :
  db_shape ss m -> in_u64 inode ->
  (forall k v, (k, v) ∈ l <-> m !! k = Some v /\ has_prefix (StripePrefix inode) k) ->
  f ∈ frags_of_pairs l <-> frag_in m inode f.
Proof.
  intros Hs Hi Hl. rewrite elem_of_inode_scan; [|done|done|intros k v; by apply Hl].
  unfold frag_in. split; intros (Ht & s & Hst & Hx); (split; [done|]; exists s; split; [done|]).
  - by apply Hl in Hx as [? _].
  - apply Hl. split; [done|]. by apply prefix_StripePrefix_FragmentKey.
Qed.

Lemma inode_pairs_spec ss m inode k v :
  db_shape ss m -> in_u64 inode ->
  (k, v) ∈ inode_pairs m inode <-> m !! k = Some v /\ has_prefix (StripePrefix inode) k.
Proof.
  intros Hs Hi. apply (prefix_pairs ss m (StripePrefix inode)); [done|apply StripePrefix_ok|].
  intros k' v'. unfold inode_pairs. rewrite list_elem_of_filter, elem_of_map_to_list. cbn. tauto.
Qed.

Lemma elem_of_inode_frags ss m inode f :
  db_shape ss m -> in_u64 inode -> f ∈ inode_frags m inode <-> frag_in m inode f.
Proof.
  intros Hs Hi. apply (elem_of_full_scan ss); [done..|]. intros k v. by apply (inode_pairs_spec ss).
Qed.

(** ** Lemmas: sequence numbers and stripes *)

(** The stripe that holds offset [x]. *)
Lemma shape_stripe ss stripe f x :
  0 < ss -> frag_shape ss stripe f -> covers f x = true -> x / ss = stripe.
Proof.
  intros Hss (_ & Hlo & Hhi & _) Hc. apply covers_true in Hc.
  symmetry. apply (Z.div_unique x ss stripe (x - stripe * ss)); [left; lia|lia].
Qed.

(** Two live fragments of an inode that share a byte share a stripe, so equal
    sequence numbers mean equal keys. *)
Lemma frags_distinct ss m inode frags :
  0 < ss -> db_shape ss m -> in_u64 inode -> (forall f, f ∈ frags -> frag_in m inode f) ->
  seqs_distinct frags.
Proof.
  intros Hss Hs Hi Hin f g x Hf Hg Hcf Hcg E.
  destruct (frag_in_shape _ _ _ _ Hs Hi (Hin f Hf)) as (Hqf & sf & Hsf & Hshf & Hlf).
  destruct (frag_in_shape _ _ _ _ Hs Hi (Hin g Hg)) as (Hqg & sg & Hsg & Hshg & Hlg).
  assert (sf = sg) as ->.
  { rewrite <-(shape_stripe ss sf f x), <-(shape_stripe ss sg g x); done. }
  rewrite E, Hlg in Hlf. apply encode_inj; [by eapply shape_typed..|congruence].
Qed.

Lemma frags_ok ss m inode frags :
  db_shape ss m -> in_u64 inode -> (forall f, f ∈ frags -> frag_in m inode f) ->
  Forall fragment_ok frags.
Proof.
  intros Hs Hi Hin. apply Forall_forall. intros f Hf.
  by destruct (frag_in_shape _ _ _ _ Hs Hi (Hin f Hf)) as (_ & s & _ & (? & _) & _).
Qed.

(** ** Lemmas: content *)

(** [serves m inode x f]: [f] is the newest live fragment at byte [x]. *)
Definition serves (m : gmap bytes bytes) (inode x : Z) (f : Fragment) : Prop :=
  frag_in m inode f /\ covers f x = true /\
  forall g, frag_in m inode g -> covers g x = true -> fr_Seq g <= fr_Seq f.

Lemma newest_serves ss m inode x f :
  0 < ss -> db_shape ss m -> in_u64 inode ->
  newest (inode_frags m inode) x = Some f <-> serves m inode x f.
Proof.
  intros Hss Hs Hi. split.
  - intros (Hin & Hc & Hmax)%newest_Some. apply (elem_of_inode_frags ss) in Hin; [|done..].
    split_and!; [done..|]. intros g Hg. apply Hmax. by apply (elem_of_inode_frags ss).
  - intros (Hin & Hc & Hmax). apply newest_unique; [|by apply (elem_of_inode_frags ss)|done|].
    + apply (frags_distinct ss m inode); [done..|]. intros g. by apply (elem_of_inode_frags ss).
    + intros g Hg. apply Hmax. by apply (elem_of_inode_frags ss) in Hg.
Qed.

Lemma content_serves ix inode x f :
  index_ok ix -> in_u64 inode -> serves (contents (ix_db ix)) inode x f ->
  content ix inode x = fetch ix (fragment_source f x).
Proof.
  intros (_ & [Hss _] & _ & Hs & _) Hi Hf. unfold content, source_of.
  apply (newest_serves (ix_stripeSize ix)) in Hf; [|done..]. by rewrite Hf.
Qed.

Lemma content_hole ix inode x :
  index_ok ix -> in_u64 inode ->
  (forall f, frag_in (contents (ix_db ix)) inode f -> covers f x = false) ->
  content ix inode x = None.
Proof.
  intros (_ & _ & _ & Hs & _) Hi Hf. unfold content, source_of.
  assert (newest (inode_frags (contents (ix_db ix)) inode) x = None) as ->; [|done].
  apply newest_None. intros g Hg. by apply Hf, (elem_of_inode_frags (ix_stripeSize ix)).
Qed.

(** Every byte is served by a fragment or lies in a hole. *)
Lemma serves_or_hole ix inode x :
  index_ok ix -> in_u64 inode ->
  (exists f, serves (contents (ix_db ix)) inode x f) \/
  (forall f, frag_in (contents (ix_db ix)) inode f -> covers f x = false).
Proof.
  intros (_ & [Hss _] & _ & Hs & _) Hi.
  destruct (newest (inode_frags (contents (ix_db ix)) inode) x) as [f|] eqn:E.
  - left. exists f. by apply (newest_serves (ix_stripeSize ix)).
  - right. intros f Hf. rewrite newest_None in E. by apply E, (elem_of_inode_frags (ix_stripeSize ix)).
Qed.

(** A resident fragment has all its bytes. *)
Lemma resident_slice ix f :
  sets_ok ix -> fragment_ok f -> resident ix f ->
  exists d, tier_data ix (fr_Tier f) !! fr_SegmentID f = Some d /\
    0 <= fr_SegmentOffset f /\ fr_SegmentOffset f + fr_Length f <= blen d.
Proof.
  intros [Hh Hc] (_ & _ & _ & _ & _ & _ & Ho & _) (d & Hd & Hle). exists d. split_and!; [done..|].
  unfold tier_data, tier_durable in *.
  assert (lv_ok (set_of (is_cold (fr_Tier f)) ix)) as Hok by (by destruct (is_cold (fr_Tier f))).
  destruct (lv_bounds _ _ _ Hok Hd) as (_ & _ & ?). lia.
Qed.

(** ** Lemmas: steps that only add bytes *)

(** [ix'] has the database, the stripe size and at least the bytes of [ix]. *)
Definition ix_grows (ix ix' : Index P S) : Prop :=
  ix_stripeSize ix' = ix_stripeSize ix /\
  forall cold, grows lv_data lv_durable (set_of cold ix) (set_of cold ix').

#[global] Instance ix_grows_preorder : PreOrder ix_grows.
Proof.
  split.
  - intros ix. split; [done|]. intros cold. split; [|lia]. intros id d Hd. exists [].
    by rewrite app_nil_r.
  - intros ix1 ix2 ix3 [E1 H1] [E2 H2]. split; [congruence|]. intros cold.
    destruct (H1 cold) as [X1 D1], (H2 cold) as [X2 D2]. split.
    + intros id d Hd. destruct (X1 id d Hd) as (t1 & Ht1). destruct (X2 id _ Ht1) as (t2 & Ht2).
      exists (t1 ++ t2). by rewrite app_assoc.
    + intros id Hid. specialize (D1 id Hid). destruct Hid as [d Hd].
      destruct (X1 id d Hd) as (t1 & Ht1). specialize (D2 id ltac:(eauto)). lia.
Qed.

Lemma resident_grows ix ix' f : ix_grows ix ix' -> resident ix f -> resident ix' f.
Proof.
  intros [_ Hg] (d & Hd & Hle). unfold resident, tier_data, tier_durable in *.
  destruct (Hg (is_cold (fr_Tier f))) as [X D].
  destruct (X _ _ Hd) as (t & Ht). exists (d ++ t). split; [done|].
  specialize (D _ ltac:(eauto)). lia.
Qed.

Lemma fetch_grows ix ix' f x :
  sets_ok ix -> fragment_ok f -> resident ix f -> covers f x = true -> ix_grows ix ix' ->
  fetch ix' (fragment_source f x) = fetch ix (fragment_source f x).
Proof.
  intros Hok Hf Hr Hc [_ Hg]. apply covers_true in Hc.
  destruct (resident_slice ix f Hok Hf Hr) as (d & Hd & Ho & Hle).
  unfold fetch, fragment_source. rewrite Hd. unfold tier_data in *.
  destruct (Hg (is_cold (fr_Tier f))) as [X _]. destruct (X _ _ Hd) as (t & ->).
  apply byte_at_app_l. lia.
Qed.

(** The same fragments at a byte, with the same bytes: the same content. *)
Lemma content_same_fetch ix ix' inode x :
  index_ok ix -> index_ok ix' -> in_u64 inode ->
  (forall f, covers f x = true ->
     frag_in (contents (ix_db ix')) inode f <-> frag_in (contents (ix_db ix)) inode f) ->
  (forall f, frag_in (contents (ix_db ix)) inode f -> covers f x = true ->
     fetch ix' (fragment_source f x) = fetch ix (fragment_source f x)) ->
  content ix' inode x = content ix inode x.
Proof.
  intros Hok Hok' Hi Hdb Hfe.
  destruct (serves_or_hole ix inode x Hok Hi) as [[f Hf]|Hh].
  - rewrite (content_serves ix inode x f) by done. destruct Hf as (Hin & Hc & Hmax).
    rewrite (content_serves ix' inode x f); [by apply Hfe|done|done|].
    split_and!; [by apply Hdb|done|]. intros g Hg' Hc'. apply Hdb in Hg'; auto.
  - rewrite !content_hole; try done. intros f Hf. destruct (covers f x) eqn:E; [|done].
    apply Hdb in Hf; [|done]. rewrite Hh in E; done.
Qed.

(** The same fragments at a byte, over more bytes: the same content there. *)
Lemma content_same_at ix ix' inode x :
  index_ok ix -> index_ok ix' -> in_u64 inode -> ix_grows ix ix' ->
  (forall f, covers f x = true ->
     frag_in (contents (ix_db ix')) inode f <-> frag_in (contents (ix_db ix)) inode f) ->
  content ix' inode x = content ix inode x.
Proof.
  intros Hok Hok' Hi Hg Hdb. apply content_same_fetch; try done. intros f Hin Hc.
  pose proof Hok as (Hsets & _ & _ & Hs & Hres). destruct (Hres inode f Hi Hin) as [Hr _].
  destruct (frag_in_shape _ _ _ _ Hs Hi Hin) as (_ & s & _ & (Hfo & _) & _).
  by apply fetch_grows.
Qed.

(** A file with the same fragments over more bytes has the same content. *)
Lemma content_same_frags ix ix' inode x :
  index_ok ix -> index_ok ix' -> in_u64 inode -> ix_grows ix ix' ->
  (forall f, frag_in (contents (ix_db ix')) inode f <-> frag_in (contents (ix_db ix)) inode f) ->
  content ix' inode x = content ix inode x.
Proof. intros. apply content_same_at; auto. Qed.

(** Content does not change when only bytes are added. *)
Lemma content_grows ix ix' inode x :
  index_ok ix -> index_ok ix' -> in_u64 inode -> ix_grows ix ix' ->
  contents (ix_db ix') = contents (ix_db ix) -> content ix' inode x = content ix inode x.
Proof. intros. apply content_same_frags; try done. intros f. by f_equiv. Qed.

(** The invariant over a step of the sets and of the sequence counter. *)
Lemma index_ok_grows ix ix' :
  index_ok ix -> sets_ok ix' -> ix_grows ix ix' ->
  contents (ix_db ix') = contents (ix_db ix) ->
  ix_seqGen ix <= ix_seqGen ix' -> in_u64 (ix_seqGen ix') -> index_ok ix'.
Proof.
  intros (Hsets & Hss & _ & Hs & Hres) Hsets' Hg Hdb Hq Hu.
  pose proof Hg as [Ess _]. split_and!; [done|by rewrite Ess|done|by rewrite Ess, Hdb|].
  intros inode f Hi Hf. rewrite Hdb in Hf. destruct (Hres inode f Hi Hf) as [Hr Hle].
  split; [by eapply resident_grows|lia].
Qed.

(** ** Lemmas: the calls to the segment sets *)

(** [kept]: the database and the counter are as before, no byte is lost. *)
Definition kept (ix ix' : Index P S) : Prop :=
  sets_ok ix' /\ ix_grows ix ix' /\ ix_db ix' = ix_db ix /\ ix_seqGen ix' = ix_seqGen ix.

Definition kept_clean (ix ix' : Index P S) : Prop :=
  kept ix ix' /\ (sets_clean ix -> sets_clean ix').

#[global] Instance kept_trans : Transitive kept.
Proof.
  intros a b c (_ & G1 & D1 & Q1) (O2 & G2 & D2 & Q2).
  split_and!; [done|by etrans|congruence|congruence].
Qed.

#[global] Instance kept_clean_trans : Transitive kept_clean.
Proof. intros a b c [K1 C1] [K2 C2]. split; [by etrans|auto]. Qed.

Lemma kept_refl ix : sets_ok ix -> kept ix ix.
Proof. intros Hok. by split_and!. Qed.

Lemma kept_clean_refl ix : sets_ok ix -> kept_clean ix ix.
Proof. intros. split; [by apply kept_refl|done]. Qed.

Lemma kept_index_ok ix ix' : index_ok ix -> kept ix ix' -> index_ok ix'.
Proof.
  intros Hok (Ho & Hg & Hd & Hq). apply (index_ok_grows ix); [done..|by rewrite Hd|lia|].
  rewrite Hq. by destruct Hok as (_ & _ & ? & _).
Qed.

Lemma kept_content ix ix' inode x :
  index_ok ix -> in_u64 inode -> kept ix ix' -> content ix' inode x = content ix inode x.
Proof.
  intros Hok Hi Hk. pose proof (kept_index_ok _ _ Hok Hk). destruct Hk as (_ & Hg & Hd & _).
  apply content_grows; [done..|by rewrite Hd].
Qed.

Lemma set_of_with cold s ix : set_of cold (with_set cold s ix) = s.
Proof. by destruct cold. Qed.

Lemma set_of_with_ne c c' s ix : c' <> c -> set_of c' (with_set c s ix) = set_of c' ix.
Proof. by destruct c, c'. Qed.

Lemma sets_ok_of ix cold : sets_ok ix -> lv_ok (set_of cold ix).
Proof. intros [? ?]. by destruct cold. Qed.

Lemma sets_clean_of ix cold : sets_clean ix -> lv_clean (set_of cold ix).
Proof. intros [? ?]. by destruct cold. Qed.

Lemma kept_with_set cold s ix :
  sets_ok ix -> lv_ok s -> grows lv_data lv_durable (set_of cold ix) s ->
  kept ix (with_set cold s ix).
Proof.
  intros [Hh Hc] Hs Hg. split_and!; [by destruct cold| |by destruct cold..].
  split; [by destruct cold|]. intros c. destruct (decide (c = cold)) as [->|Hne].
  - by rewrite set_of_with.
  - rewrite set_of_with_ne by done. split; [|lia]. intros id d Hd. exists [].
    by rewrite app_nil_r.
Qed.

Lemma clean_with_set cold s ix :
  sets_clean ix -> lv_clean s -> sets_clean (with_set cold s ix).
Proof. intros [??] ?. by destruct cold. Qed.

Lemma quiet_grows (s s' : S) : quiet lv_data lv_durable s s' -> grows lv_data lv_durable s s'.
Proof.
  intros [Hd Hs]. split; [|done]. intros id d. rewrite Hd. exists []. by rewrite app_nil_r.
Qed.

Lemma kept_clean_with_set cold s ix :
  sets_ok ix -> lv_ok s -> grows lv_data lv_durable (set_of cold ix) s ->
  (lv_clean (set_of cold ix) -> lv_clean s) -> kept_clean ix (with_set cold s ix).
Proof.
  intros Hok Hs Hg Hc. split; [by apply kept_with_set|]. intros Hcl.
  apply clean_with_set; [done|]. by apply Hc, sets_clean_of.
Qed.

Lemma wp_active cold n ix (Q : outcome Z -> Index P S -> Prop) :
  sets_ok ix ->
  (forall id ix', kept_clean ix ix' -> is_Some (lv_data (set_of cold ix') !! id) -> Q (Ok id) ix') ->
  (forall e ix', kept_clean ix ix' -> Q (Err e) ix') ->
  wp (on_set cold (sl_active n)) Q ix.
Proof.
  intros Hok HO HE. apply wp_zoom. eapply wp_mono; [apply lv_active; by apply sets_ok_of|].
  intros r s (Hs & Hg & Hc & Hr).
  assert (kept_clean ix (with_set cold s ix)) as Hk by by apply kept_clean_with_set.
  destruct r as [id|e|]; [|by apply HE|done]. apply HO; [done|]. by rewrite set_of_with.
Qed.

(** The record is in the segment. *)
Definition holds_payload (ix : Index P S) (cold : bool) (seg off : Z) (p : bytes) : Prop :=
  0 <= off /\ off + blen p < 2^63 /\
  exists d, lv_data (set_of cold ix) !! seg = Some d /\ off + blen p <= blen d /\
            slice d off (off + blen p) = p.

Lemma wp_append cold id h p ix (Q : outcome Z -> Index P S -> Prop) :
  sets_ok ix -> sets_clean ix -> is_Some (lv_data (set_of cold ix) !! id) ->
  header_ok h -> bytes_ok p ->
  (forall off ix', kept_clean ix ix' -> rh_Length h = blen p -> holds_payload ix' cold id off p ->
     Q (Ok off) ix') ->
  (forall e ix', kept ix ix' -> Q (Err e) ix') ->
  wp (on_set cold (sl_append id h p)) Q ix.
Proof.
  intros Hok Hcl Hid Hh Hp HO HE. apply wp_zoom.
  eapply wp_mono; [apply lv_append; [by apply sets_ok_of|by apply sets_clean_of|done..]|].
  intros r s (Hs & Hg & Hr). destruct r as [off|e|]; [|by apply HE, kept_with_set|done].
  destruct Hr as (Hc & Hl & Ho & Hm & d & Hd & Hle & Hsl).
  apply HO; [|done|].
  - by apply kept_clean_with_set.
  - split_and!; [done..|]. exists d. by rewrite set_of_with.
Qed.

Definition all_durable (ix : Index P S) (cold : bool) (id : Z) : Prop :=
  forall d, lv_data (set_of cold ix) !! id = Some d -> lv_durable (set_of cold ix) id = blen d.

Lemma wp_sync_seg cold id ix (Q : outcome unit -> Index P S -> Prop) :
  sets_ok ix -> is_Some (lv_data (set_of cold ix) !! id) ->
  (forall ix', kept_clean ix ix' ->
     (forall c, quiet lv_data lv_durable (set_of c ix) (set_of c ix')) ->
     all_durable ix' cold id -> Q (Ok tt) ix') ->
  (forall e ix', kept_clean ix ix' -> Q (Err e) ix') ->
  wp (on_set cold (sl_sync id)) Q ix.
Proof.
  intros Hok Hid HO HE. apply wp_zoom. eapply wp_mono; [apply lv_sync; [by apply sets_ok_of|done]|].
  intros r s (Hs & Hq & Hc & Hr).
  assert (kept_clean ix (with_set cold s ix)) as Hk
    by (by apply kept_clean_with_set; [..|apply quiet_grows|]).
  destruct r as [[]|e|]; [|by apply HE|done]. apply HO; [done| |].
  - intros c. destruct (decide (c = cold)) as [->|Hne]; [by rewrite set_of_with|].
    rewrite set_of_with_ne by done. by split.
  - intros d. rewrite set_of_with. apply Hr.
Qed.

Lemma wp_read_seg cold id n off ix d (Q : outcome bytes -> Index P S -> Prop) :
  sets_ok ix -> lv_data (set_of cold ix) !! id = Some d -> 0 <= n ->
  (forall b ix', kept_clean ix ix' -> blen b = n ->
     (0 <= off -> off + n <= blen d -> b = slice d off (off + n)) -> Q (Ok b) ix') ->
  (forall e ix', kept_clean ix ix' ->
     (0 <= off -> off + n <= blen d -> ~ lv_reliable (set_of cold ix)) -> Q (Err e) ix') ->
  wp (on_set cold (sl_read id n off)) Q ix.
Proof.
  intros Hok Hid Hn HO HE. apply wp_zoom.
  eapply wp_mono; [apply lv_read; [by apply sets_ok_of|eauto|done]|].
  intros r s (Hs & Hq & Hc & Hrel & Hr).
  assert (kept_clean ix (with_set cold s ix)) as Hk
    by (by apply kept_clean_with_set; [..|apply quiet_grows|]).
  destruct r as [b|e|]; [|by apply HE; [|apply Hr]|done].
  destruct Hr as [Hb Hsl]. apply HO; [done..|]. by apply Hsl.
Qed.

(** The sequence counter. *)
Lemma wp_nextSeq ix (Q : outcome Z -> Index P S -> Prop) :
  ix_seqGen ix + 1 < 2^64 -> 0 <= ix_seqGen ix ->
  Q (Ok (ix_seqGen ix + 1)) (with_seqGen (ix_seqGen ix + 1) ix) -> wp nextSeq Q ix.
Proof.
  intros Hlt Hge HQ. unfold wp, nextSeq. rewrite u64_id by (unfold in_u64; lia). exact HQ.
Qed.
End Spec.
