(* ===== verification/IndexRead.v ===== *)
(** * The storage engine: reads

    A read plans its slices from the fragments of the stripes it touches; the
    plan agrees with [content] at every byte, and the bytes read for a slice
    are those of the content. *)

From S2P Require Import Prelude Keys Kv Fragment Plan Segment Layer Index IndexSpec.

Section Read.
Context {P : Type} {PB : Pebble P} {PL : PebbleLaws P}.
Context {S : Type} {SL : SegLayer S} {SLL : SegLayerLaws S} {MR : MapRange}.
Implicit Types ix : Index P S.

Lemma wp_on_db {A} (m : M P A) (Q : outcome A -> Index P S -> Prop) ix :
  wp m (fun r p => Q r (with_db p ix)) (ix_db ix) -> wp (on_db m) Q ix.
Proof. intros Hm. by apply wp_zoom. Qed.

Lemma with_db_id ix : with_db (ix_db ix) ix = ix.
Proof. by destruct ix. Qed.

(** [off] is an offset the 2^32 stripes can address. *)
Definition addressable (ss off : Z) : Prop := 0 <= off < 2^32 * ss.

Lemma stripeOf_div ss off :
  0 < ss -> addressable ss off -> stripeOf ss off = off / ss /\ in_u32 (off / ss).
Proof.
  intros Hss [Ho Hlt]. unfold stripeOf. rewrite Z.quot_div_nonneg by lia.
  assert (in_u32 (off / ss)) as Hu.
  { split; [by apply Z.div_pos|]. apply Z.div_lt_upper_bound; lia. }
  by rewrite u32_id.
Qed.

(** The keys of a stripe range: exactly those of its stripes. *)
Lemma range_key inode first last i s q :
  in_u64 inode -> in_u64 i -> in_u32 first -> in_u32 last -> in_u32 s -> in_u64 q ->
  in_range (FragmentStripePrefix inode first)
    (if last =? 4294967295 then PrefixUpperBound (StripePrefix inode)
     else Some (FragmentStripePrefix inode (u32 (last + 1)))) (FragmentKey i s q) = true <->
  i = inode /\ first <= s <= last.
Proof.
  intros Hi Hi' Hf Hl Hs Hq. unfold in_range. rewrite andb_true_iff, lex_le_FragmentStripePrefix by done.
  destruct (Z.eqb_spec last 4294967295) as [->|Hne].
  - pose proof (in_range_prefix (StripePrefix inode) (FragmentKey i s q) (StripePrefix_ok _)
      (FragmentKey_ok _ _ _)) as Hin.
    rewrite prefix_StripePrefix_FragmentKey in Hin by done. unfold in_range in Hin.
    rewrite andb_true_iff in Hin.
    assert (lex_le (FragmentStripePrefix inode first) (FragmentKey i s q) = true ->
            lex_le (StripePrefix inode) (FragmentKey i s q) = true) as Hle.
    { intros Hx. eapply lex_le_trans; [|exact Hx].
      destruct (prefix_FragmentStripePrefix_StripePrefix inode first) as [r ->]. apply lex_le_prefix. }
    rewrite lex_le_FragmentStripePrefix in Hle by done. unfold in_u32 in *.
    split; [intros [Hx Hlt]; assert (inode = i) by (apply Hin; auto); lia|].
    intros [-> ?]. split; [lia|]. by apply Hin.
  - assert (u32 (last + 1) = last + 1) as -> by (apply u32_id; unfold in_u32 in *; lia).
    rewrite lex_lt_FragmentStripePrefix by (done || (unfold in_u32 in *; lia)). lia.
Qed.

(** No key of another kind falls into the range. *)
Lemma range_tagged inode first last k :
  bytes_ok k ->
  in_range (FragmentStripePrefix inode first)
    (if last =? 4294967295 then PrefixUpperBound (StripePrefix inode)
     else Some (FragmentStripePrefix inode (u32 (last + 1)))) k = true ->
  has_prefix StripeAllPrefix k.
Proof.
  intros Hb. unfold in_range. rewrite andb_true_iff. intros [Hlo Hhi].
  destruct (last =? 4294967295).
  - apply (has_prefix_trans _ (StripePrefix inode)); [apply prefix_StripePrefix_all|].
    apply in_range_prefix; [apply StripePrefix_ok|done|]. unfold in_range. rewrite andb_true_iff.
    split; [|done]. eapply lex_le_trans; [|exact Hlo].
    destruct (prefix_FragmentStripePrefix_StripePrefix inode first) as [r ->]. apply lex_le_prefix.
  - destruct (prefix_FragmentStripePrefix_all inode first) as [a Ea].
    destruct (prefix_FragmentStripePrefix_all inode (u32 (last + 1))) as [b Eb].
    rewrite Ea in Hlo. rewrite Eb in Hhi.
    destruct (lex_between_prefix _ _ _ _ Hlo Hhi) as (r & -> & _). by exists r.
Qed.

(** [fragmentsInRange]: every fragment it returns is live; unless the scan
    ended early, it returns all those of the stripes asked for. *)
Lemma wp_fragmentsInRange inode first last (Q : outcome (list Fragment) -> Index P S -> Prop) ix :
  index_ok ix -> in_u64 inode -> in_u32 first -> in_u32 last ->
  (forall frags,
     (forall f, f ∈ frags -> frag_in (contents (ix_db ix)) inode f) ->
     (iter_complete (ix_db ix) -> forall f s, first <= s <= last -> fragment_typed f ->
        contents (ix_db ix) !! FragmentKey inode s (fr_Seq f) = Some (encodeFragments [f]) ->
        f ∈ frags) ->
     Q (Ok frags) ix) ->
  (forall e, Q (Err e) ix) ->
  wp (fragmentsInRange inode first last) Q ix.
Proof.
  intros Hok Hi Hf Hl HO HE. pose proof Hok as (_ & _ & _ & Hs & _).
  unfold fragmentsInRange. wp_step. apply wp_on_db.
  apply wp_DB_walk_unchecked; [|intros e; rewrite with_db_id; apply HE].
  intros l _ Hin Hall. rewrite with_db_id. wp_step.
  set (m := contents (ix_db ix)) in *.
  assert (forall k v, (k, v) ∈ l -> m !! k = Some v /\ has_prefix (StripePrefix inode) k) as Hpre.
  { intros k v Hkv. destruct (Hin k v Hkv) as [Hm Hr]. split; [done|].
    assert (has_prefix StripeAllPrefix k) as Hp.
    { revert Hr. apply range_tagged. by eapply (proj1 Hs). }
    destruct (shape_pair _ _ _ _ Hs Hm Hp) as (i & s & f & Hi' & Hst & -> & _ & Hsh & _).
    apply range_key in Hr as [-> _]; [|done..|by eapply shape_seq].
    by apply prefix_StripePrefix_FragmentKey. }
  apply HO.
  - intros f. rewrite (elem_of_inode_scan (ix_stripeSize ix) m inode l f) by done.
    intros (Ht & s & Hst & Hx). split; [done|]. exists s. split; [done|]. by apply Hpre.
  - intros Hc f s Hsr Ht Hm. apply (elem_of_inode_scan (ix_stripeSize ix) m inode l f); [done..|].
    split; [done|]. exists s. assert (in_u32 s) as Hst by (unfold in_u32 in *; lia). split; [done|].
    destruct Hall as [(e & l' & He)|Hall]; [by apply Hc in He|]. apply Hall; [done|].
    apply range_key; try done. by destruct Ht.
Qed.
(** The fragments of the touched stripes decide every byte of the range. *)
Lemma range_newest ix inode frags off len x :
  index_ok ix -> in_u64 inode -> addressable (ix_stripeSize ix) off -> 0 < len ->
  addressable (ix_stripeSize ix) (off + len - 1) ->
  (forall f, f ∈ frags -> frag_in (contents (ix_db ix)) inode f) ->
  (forall f s, off / ix_stripeSize ix <= s <= (off + len - 1) / ix_stripeSize ix -> fragment_typed f ->
     contents (ix_db ix) !! FragmentKey inode s (fr_Seq f) = Some (encodeFragments [f]) ->
     f ∈ frags) ->
  off <= x < off + len ->
  newest frags x = newest (inode_frags (contents (ix_db ix)) inode) x.
Proof.
  intros Hok Hi Ha Hl Ha' Hin Hall Hx. pose proof Hok as (_ & [Hss _] & _ & Hs & _).
  set (ss := ix_stripeSize ix) in *. set (m := contents (ix_db ix)) in *.
  assert (seqs_distinct frags) as Hd by by apply (frags_distinct ss m inode).
  destruct (newest (inode_frags m inode) x) as [f|] eqn:E.
  - apply (newest_serves ss) in E; [|done..]. destruct E as (Hf & Hc & Hmax).
    apply newest_unique; [done| |done|intros g Hg; by apply Hmax, Hin].
    destruct (frag_in_shape _ _ _ _ Hs Hi Hf) as (_ & s & Hst & Hsh & Hlk).
    apply (Hall f s); [|by eapply shape_typed|done].
    rewrite <-(shape_stripe ss s f x) by done. split; apply Z.div_le_mono; lia.
  - rewrite newest_None in E |- *. intros g Hg. by apply E, (elem_of_inode_frags ss), Hin.
Qed.

Lemma wp_PlanReadCtx inode off len (Q : outcome (list ReadSlice) -> Index P S -> Prop) ix :
  index_ok ix -> in_u64 inode -> iter_complete (ix_db ix) ->
  addressable (ix_stripeSize ix) off -> 0 < len -> addressable (ix_stripeSize ix) (off + len - 1) ->
  (forall plan, tiles plan off (off + len) ->
     (forall sl, sl ∈ plan -> 0 < rs_Length sl /\ off <= rs_LogicalOff sl /\
        rs_LogicalOff sl + rs_Length sl <= off + len /\
        if rs_Sparse sl then
          forall x, rs_LogicalOff sl <= x < rs_LogicalOff sl + rs_Length sl ->
            forall f, frag_in (contents (ix_db ix)) inode f -> covers f x = false
        else exists f,
          (forall x, rs_LogicalOff sl <= x < rs_LogicalOff sl + rs_Length sl ->
             serves (contents (ix_db ix)) inode x f) /\
          rs_Locator sl = mkLocator (fr_Tier f) (fr_SegmentID f)
            (fr_SegmentOffset f + (rs_LogicalOff sl - fr_LogicalOff f)) (rs_Length sl)) ->
     Q (Ok plan) ix) ->
  (forall e, Q (Err e) ix) ->
  wp (PlanReadCtx inode off len) Q ix.
Proof.
  intros Hok Hi Hcomp Ha Hl Ha' HO HE. pose proof Hok as (_ & [Hss Hss'] & _ & Hs & _).
  unfold PlanReadCtx. z_case; [lia|]. wp_step. apply wp_get.
  assert (off + len < 2^63) as Hlt.
  { unfold addressable in Ha'. nia. }
  pose proof Ha as [? _].
  assert (i64 (i64 (off + len) - 1) = off + len - 1) as -> by (i64_simpl; lia).
  destruct (stripeOf_div (ix_stripeSize ix) off Hss Ha) as [-> Hu].
  destruct (stripeOf_div (ix_stripeSize ix) (off + len - 1) Hss Ha') as [-> Hu'].
  wp_step. apply wp_fragmentsInRange; [done..| |done]. intros frags Hin Hall. wp_step.
  specialize (Hall Hcomp). unfold planRead. z_case; [lia|].
  assert (forall x, off <= x < off + len ->
    newest frags x = newest (inode_frags (contents (ix_db ix)) inode) x) as Hnew
    by (intros x Hx; by apply (range_newest ix inode frags off len)).
  assert (Forall fragment_ok frags) as Hfo by (by apply (frags_ok (ix_stripeSize ix) (contents (ix_db ix)) inode)).
  assert (seqs_distinct frags) as Hfd by (by apply (frags_distinct (ix_stripeSize ix) (contents (ix_db ix)) inode)).
  apply HO.
  - apply (plan_sorted_tiles frags); auto using sort_desc_perm, sort_desc_sorted.
  - intros sl Hsl.
    destruct (plan_sorted_slice frags (sort_desc frags) Hfo Hfd (sort_desc_perm _)
      (sort_desc_sorted _) off len sl) as (L1 & L2 & L3 & L4); [done..|].
    split_and!; [done..|]. destruct L4 as [[-> Hn]|(-> & f & Hf & Hn & _ & _ & Hloc)].
    + intros x Hx f Hf. specialize (Hn x Hx). rewrite Hnew, newest_None in Hn by lia.
      by apply Hn, (elem_of_inode_frags (ix_stripeSize ix)).
    + exists f. split; [|done]. intros x Hx. apply (newest_serves (ix_stripeSize ix)); [done..|].
      rewrite <-Hnew by lia. by apply Hn.
Qed.

(** ** Reading a slice *)

(** [ReadAtCtx] of a slice whose bytes one fragment serves. *)
Lemma wp_ReadAtCtx inode f loc o n (Q : outcome bytes -> Index P S -> Prop) ix :
  index_ok ix -> in_u64 inode -> 0 < n ->
  (forall x, o <= x < o + n -> serves (contents (ix_db ix)) inode x f) ->
  loc = mkLocator (fr_Tier f) (fr_SegmentID f) (fr_SegmentOffset f + (o - fr_LogicalOff f)) n ->
  (forall b ix', kept_clean ix ix' -> blen b = n ->
     (forall i, 0 <= i < n -> byte_at b i = content ix inode (o + i) /\ is_Some (byte_at b i)) ->
     Q (Ok b) ix') ->
  (forall e ix', kept_clean ix ix' -> ~ (lv_reliable (ix_hot ix) /\ lv_reliable (ix_cold ix)) ->
     Q (Err e) ix') ->
  wp (ReadAtCtx loc n) Q ix.
Proof.
  intros Hok Hi Hn Hsv -> HO HE. pose proof Hok as (Hsets & _ & _ & Hs & Hres).
  destruct (Hsv o ltac:(lia)) as (Hf & Hc0 & _).
  destruct (Hsv (o + n - 1) ltac:(lia)) as (_ & Hc1 & _).
  apply covers_true in Hc0, Hc1.
  destruct (frag_in_shape _ _ _ _ Hs Hi Hf) as (_ & s & _ & (Hfo & _) & _).
  destruct (Hres inode f Hi Hf) as [Hr _].
  destruct (resident_slice ix f Hsets Hfo Hr) as (d & Hd & Ho & Hle).
  unfold ReadAtCtx. wp_step. apply wp_get. cbn [loc_Tier loc_SegmentID loc_Length loc_Offset].
  unfold tier_data in Hd. rewrite lv_get, bool_decide_eq_true_2 by eauto. cbn [negb].
  rewrite Z.ltb_irrefl. z_case; [lia|].
  eapply wp_read_seg; [done|exact Hd|lia| |].
  - intros b ix' Hk Hb Hsl. apply HO; [done..|]. intros i Hi'.
    rewrite (content_serves ix inode (o + i) f) by (done || (apply Hsv; lia)).
    unfold fetch, fragment_source, tier_data. rewrite Hd.
    rewrite Hsl, byte_at_slice by lia.
    assert (fr_SegmentOffset f + (o - fr_LogicalOff f) + i =
            fr_SegmentOffset f + (o + i - fr_LogicalOff f)) as -> by lia.
    split; [done|]. unfold byte_at. rewrite decide_True by lia.
    apply lookup_lt_is_Some_2. unfold blen in Hle. lia.
  - intros e ix' Hk Hrel. apply HE; [done|]. intros [Rh Rc]. apply Hrel; [lia..|].
    by destruct (is_cold (fr_Tier f)).
Qed.

(** C16: a read sees the content.  The slices of [PlanReadCtx] tile the range
    asked for; a sparse slice lies in a hole of the file, and reading any other
    slice with [ReadAtCtx] yields byte for byte the content of the file there.
    Planning changes nothing and never panics; reading fails only when a
    system call does. *)
Theorem PlanRead_reads_content inode off len ix :
  index_ok ix -> in_u64 inode -> iter_complete (ix_db ix) ->
  addressable (ix_stripeSize ix) off -> 0 < len -> addressable (ix_stripeSize ix) (off + len - 1) ->
  let '(r, ix') := PlanReadCtx inode off len ix in
  ix' = ix /\
  match r with
  | Ok plan =>
      tiles plan off (off + len) /\
      forall sl, sl ∈ plan ->
        if rs_Sparse sl then
          forall x, rs_LogicalOff sl <= x < rs_LogicalOff sl + rs_Length sl ->
            content ix inode x = None
        else
          match ReadAtCtx (rs_Locator sl) (rs_Length sl) ix with
          | (Ok b, _) =>
              blen b = rs_Length sl /\
              forall i, 0 <= i < rs_Length sl ->
                is_Some (byte_at b i) /\ byte_at b i = content ix inode (rs_LogicalOff sl + i)
          | (Err _, _) => ~ (lv_reliable (ix_hot ix) /\ lv_reliable (ix_cold ix))
          | (Panic, _) => False
          end
  | Err _ => True
  | Panic => False
  end.
Proof.
  intros Hok Hi Hcomp Ha Hl Ha'.
  assert (wp (PlanReadCtx inode off len) (fun r ix' => ix' = ix /\
    match r with
    | Ok plan =>
      tiles plan off (off + len) /\
      forall sl, sl ∈ plan ->
        if rs_Sparse sl then
          forall x, rs_LogicalOff sl <= x < rs_LogicalOff sl + rs_Length sl ->
            content ix inode x = None
        else wp (ReadAtCtx (rs_Locator sl) (rs_Length sl)) (fun r _ =>
          match r with
          | Ok b => blen b = rs_Length sl /\
              forall i, 0 <= i < rs_Length sl ->
                is_Some (byte_at b i) /\ byte_at b i = content ix inode (rs_LogicalOff sl + i)
          | Err _ => ~ (lv_reliable (ix_hot ix) /\ lv_reliable (ix_cold ix))
          | Panic => False
          end) ix
    | Err _ => True
    | Panic => False
    end) ix) as H.
  { apply wp_PlanReadCtx; [done..| |done]. intros plan Ht Hsl. split_and!; [done..|].
    intros sl Hin. destruct (Hsl sl Hin) as (Hlen & _ & _ & Hc).
    destruct (rs_Sparse sl).
    - intros x Hx. apply content_hole; [done..|]. by apply Hc.
    - destruct Hc as (f & Hsv & Hloc). eapply wp_ReadAtCtx; [done|done|done|exact Hsv|done| |].
      + intros b ix' _ Hb Hby. split; [done|]. intros i Hi'. by destruct (Hby i Hi').
      + done. }
  unfold wp in H. destruct (PlanReadCtx inode off len ix) as [r ix']. cbn [fst snd] in H.
  destruct H as [-> H]. split; [done|]. destruct r as [plan|e|]; [|done..].
  destruct H as [Ht H]. split; [done|]. intros sl Hsl. specialize (H sl Hsl).
  destruct (rs_Sparse sl); [exact H|].
  destruct (ReadAtCtx (rs_Locator sl) (rs_Length sl) ix) as [[b|e|] ix'']; exact H.
Qed.
End Read.
