(* ===== verification/IndexAppend.v ===== *)
(** * The storage engine: appends

    An append stages its records in the segments, makes them durable, and only
    then commits the fragments, all in one batch: on success the payload is
    overlaid on the content of the file; on failure the content is as before
    or, when the commit itself fails, possibly already as after. *)

From S2P Require Import Prelude Keys Kv Fragment Plan Segment Layer Index IndexSpec IndexRead.

(** ** The abstract effect *)

(** [data] written at [off]. *)
Definition overlay (c : Z -> option Z) (off : Z) (data : bytes) (x : Z) : option Z :=
  if (off <=? x) && (x <? off + blen data) then byte_at data (x - off) else c x.

(** Extents written one after the other. *)
Definition overlay_all (c : Z -> option Z) (es : list AppendExtent) : Z -> option Z :=
  foldl (fun c e => overlay c (ae_Off e) (ae_Data e)) c es.

Definition ext_covers (e : AppendExtent) (x : Z) : bool :=
  (ae_Off e <=? x) && (x <? ae_Off e + blen (ae_Data e)).

(** The last extent that covers [x] decides. *)
Lemma overlay_all_app c es e x :
  overlay_all c (es ++ [e]) x =
    if ext_covers e x then byte_at (ae_Data e) (x - ae_Off e) else overlay_all c es x.
Proof. unfold overlay_all. rewrite foldl_app. done. Qed.

Lemma overlay_all_spec c es x :
  (overlay_all c es x = c x /\ forall e, e ∈ es -> ext_covers e x = false) \/
  exists es1 e es2, es = es1 ++ e :: es2 /\ ext_covers e x = true /\
    (forall e', e' ∈ es2 -> ext_covers e' x = false) /\
    overlay_all c es x = byte_at (ae_Data e) (x - ae_Off e).
Proof.
  induction es as [|e es IH] using rev_ind.
  { left. split; [done|]. by intros e ?%elem_of_nil. }
  rewrite overlay_all_app. destruct (ext_covers e x) eqn:E.
  - right. exists es, e, []. split_and!; [done..| |done]. by intros e' ?%elem_of_nil.
  - destruct IH as [[-> Hn]|(es1 & e1 & es2 & -> & Hc & Hn & ->)].
    + left. split; [done|]. intros e' [He| ->%list_elem_of_singleton]%elem_of_app; auto.
    + right. exists es1, e1, (es2 ++ [e]). split_and!; [by rewrite <-app_assoc|done| |done].
      intros e' [He| ->%list_elem_of_singleton]%elem_of_app; auto.
Qed.

Section Append.
Context {P : Type} {PB : Pebble P} {PL : PebbleLaws P}.
Context {S : Type} {SL : SegLayer S} {SLL : SegLayerLaws S} {MR : MapRange}.
Implicit Types ix : Index P S.

(** A non-empty extent inside one stripe, for one of the two tiers. *)
Definition extent_ok (ss : Z) (e : AppendExtent) : Prop :=
  in_u64 (ae_Seq e) /\ 0 <= ae_Off e /\ ae_Data e <> [] /\ bytes_ok (ae_Data e) /\
  (ae_Tier e = TierHot \/ ae_Tier e = TierCold) /\
  in_u32 (ae_Off e / ss) /\
  ae_Off e + blen (ae_Data e) <= (ae_Off e / ss + 1) * ss.

(** What staging makes of an extent. *)
Definition staged_as (ix : Index P S) (touched : list (bool * Z)) (e : AppendExtent) (p : Z * Fragment) : Prop :=
  p.1 = ae_Off e / ix_stripeSize ix /\
  fr_Seq p.2 = ae_Seq e /\ fr_LogicalOff p.2 = ae_Off e /\ fr_Length p.2 = blen (ae_Data e) /\
  fr_Tier p.2 = ae_Tier e /\ in_u32 (fr_SegmentID p.2) /\
  (is_cold (ae_Tier e), fr_SegmentID p.2) ∈ touched /\
  holds_payload ix (is_cold (ae_Tier e)) (fr_SegmentID p.2) (fr_SegmentOffset p.2) (ae_Data e).

Definition touched_live (ix : Index P S) (touched : list (bool * Z)) : Prop :=
  forall c id, (c, id) ∈ touched -> is_Some (lv_data (set_of c ix) !! id).

Lemma elem_of_add_once {A} `{EqDecision A} (x y : A) l : y ∈ add_once x l <-> y = x \/ y ∈ l.
Proof. unfold add_once. case_decide; set_solver. Qed.

Lemma live_grows ix ix' c id :
  ix_grows ix ix' -> is_Some (lv_data (set_of c ix) !! id) -> is_Some (lv_data (set_of c ix') !! id).
Proof. intros [_ Hg] [d Hd]. destruct (Hg c) as [X _]. destruct (X _ _ Hd) as (t & ->). eauto. Qed.

Lemma holds_grows ix ix' c id off p :
  ix_grows ix ix' -> holds_payload ix c id off p -> holds_payload ix' c id off p.
Proof.
  intros [_ Hg] (Ho & Hm & d & Hd & Hle & Hs). destruct (Hg c) as [X _]. destruct (X _ _ Hd) as (t & Ht).
  pose proof (blen_nonneg t).
  split_and!; [done..|]. exists (d ++ t). split_and!; [done|rewrite blen_app; lia|].
  by rewrite slice_app_l by lia.
Qed.

Lemma staged_grows ix ix' touched touched' e p :
  ix_grows ix ix' -> (forall x, x ∈ touched -> x ∈ touched') ->
  staged_as ix touched e p -> staged_as ix' touched' e p.
Proof.
  intros Hg Ht (H1 & H2 & H3 & H4 & H5 & H6 & H7 & H8). pose proof Hg as [Ess _].
  split_and!; try done; [by rewrite Ess|by apply Ht|by eapply holds_grows].
Qed.

Lemma stripe_end_ok ss s : stripe_size_ok ss -> in_u32 s -> stripe_end ss s = (s + 1) * ss.
Proof.
  intros [Hss Hss'] Hs. unfold stripe_end, in_u32 in *. rewrite (i64_id (_ + 1)) by (unfold in_i64; lia).
  apply i64_id. unfold in_i64. nia.
Qed.

Lemma stripe_lo ss x : 0 < ss -> x / ss * ss <= x.
Proof. intros. rewrite Z.mul_comm. by apply Z.mul_div_le. Qed.

Lemma stripe_hi ss x : 0 < ss -> x < (x / ss + 1) * ss.
Proof. intros. rewrite Z.mul_comm. rewrite Z.add_1_r. by apply Z.mul_succ_div_gt. Qed.

Lemma wp_stage inode es ix (Q : outcome (list (Z * Fragment) * list (bool * Z)) -> Index P S -> Prop) :
  index_ok ix -> sets_clean ix -> in_u64 inode -> Forall (extent_ok (ix_stripeSize ix)) es ->
  (forall acc ix', kept_clean ix ix' -> Forall2 (staged_as ix' acc.2) es acc.1 ->
     touched_live ix' acc.2 -> Q (Ok acc) ix') ->
  (forall e ix', kept ix ix' -> Q (Err e) ix') ->
  wp (mfold (stage_extent inode) ([], []) es) Q ix.
Proof.
  intros Hok Hcl Hi Hes HO HE. pose proof Hok as (Hsets & [Hss Hss'] & _).
  apply wp_mfold with (I := fun p acc ix' => kept_clean ix ix' /\
    Forall2 (staged_as ix' acc.2) p acc.1 /\ touched_live ix' acc.2).
  - split_and!; [by apply kept_clean_refl|constructor|]. by intros c id ?%elem_of_nil.
  - intros p e q [pend touched] ix1 Hl (Hk & Hst & Hlive). cbn [fst snd] in *.
    rewrite Hl in Hes. apply Forall_app in Hes as [_ Hes]. inversion_clear Hes as [|? ? He _].
    destruct He as (Hq & Ho & Hne & Hb & Ht & Hu & Hend).
    pose proof (blen_nonneg (ae_Data e)).
    pose proof Hk as [(Hsets1 & [Ess Hg1] & Hdb1 & Hsq1) Hc1].
    unfold stage_extent. wp_step. apply wp_get. rewrite Ess.
    assert (stripeOf (ix_stripeSize ix) (ae_Off e) = ae_Off e / ix_stripeSize ix) as ->.
    { unfold stripeOf. rewrite Z.quot_div_nonneg by lia. by apply u32_id. }
    rewrite stripe_end_ok by done.
    pose proof (stripe_lo _ (ae_Off e) Hss) as Hlo.
    set (sid := ae_Off e / ix_stripeSize ix) in *.
    assert (ae_Off e + blen (ae_Data e) <= 2^62) as Hbig by (unfold in_u32 in *; nia).
    assert (blen (ae_Data e) <= 2^30) as Hn by lia.
    rewrite (i64_id (ae_Off e + _)) by (unfold in_i64; lia). z_case; [lia|].
    unfold setFor. wp_step. apply wp_active; [done| |].
    2: { intros err ix2 Hk2. apply HE. etrans; [apply Hk|apply Hk2]. }
    intros id ix2 Hk2 Hid. pose proof Hk2 as [(Hsets2 & Hg2 & _) Hc2]. wp_step.
    apply wp_append; [done|auto|done| |done| |].
    { split_and!; cbn; [done|done|done|unfold in_i64; lia|apply u32_range]. }
    2: { intros err ix3 Hk3. apply HE. etrans; [apply Hk|]. etrans; [apply Hk2|done]. }
    intros off ix3 Hk3 _ Hp. pose proof Hk3 as [(Hsets3 & Hg3 & _) _]. wp_step. cbn [fst snd].
    assert (ix_grows ix1 ix3) as Hg13 by (by etrans).
    assert (in_u32 id) as Hidu.
    { destruct Hid as [d Hd]. by destruct (lv_bounds _ _ _ (sets_ok_of _ (is_cold (ae_Tier e)) Hsets2) Hd). }
    split_and!.
    + etrans; [exact Hk|]. by etrans.
    + apply Forall2_app.
      * eapply Forall2_impl; [exact Hst|]. intros e' p'. apply staged_grows; [done|].
        intros x Hx. apply elem_of_add_once. by right.
      * constructor; [|constructor]. destruct Hg13 as [Ess3 _].
        split_and!; cbn; try done; [by rewrite Ess3, Ess|]. apply elem_of_add_once. by left.
    + intros c id' [Hx|Hx]%elem_of_add_once.
      * injection Hx as -> ->. eapply live_grows; [exact Hg3|exact Hid].
      * eapply live_grows; [exact Hg13|]. by apply Hlive.
  - intros acc ix' (Hk & Hst & Hlive). by apply HO.
Qed.

(** Syncing every touched segment: no byte changes, and all are durable. *)
Lemma wp_sync_touched touched ix (Q : outcome unit -> Index P S -> Prop) :
  sets_ok ix -> touched_live ix touched ->
  (forall ix', kept_clean ix ix' -> (forall c, lv_data (set_of c ix') = lv_data (set_of c ix)) ->
     (forall c id, (c, id) ∈ touched -> all_durable ix' c id) -> Q (Ok tt) ix') ->
  (forall e ix', kept ix ix' -> Q (Err e) ix') ->
  wp (sync_touched touched) Q ix.
Proof.
  intros Hok Hlive HO HE. unfold sync_touched.
  apply wp_mfor with (I := fun p ix' => kept_clean ix ix' /\
    (forall c, lv_data (set_of c ix') = lv_data (set_of c ix)) /\
    forall c id, (c, id) ∈ p -> all_durable ix' c id).
  - split_and!; [by apply kept_clean_refl|done|]. by intros c id ?%elem_of_nil.
  - intros p [c id] q ix1 Hl (Hk & Hd & Hp). cbn [fst snd].
    assert ((c, id) ∈ touched) as Hin.
    { rewrite <-(range_perm touched), Hl. set_solver. }
    apply wp_sync_seg; [apply Hk|rewrite Hd; by apply Hlive| |].
    + intros ix2 Hk2 Hq Hdur. split_and!; [by etrans| |].
      * intros c'. destruct (Hq c') as [-> _]. apply Hd.
      * intros c' id' [Hx|Hx%list_elem_of_singleton]%elem_of_app; [|by injection Hx as -> ->].
        intros d Hd2. destruct (Hq c') as [E Hle]. rewrite E in Hd2.
        specialize (Hle id' ltac:(eauto)). rewrite (Hp c' id' Hx d Hd2) in Hle.
        assert (lv_ok (set_of c' ix2)) as Hok2 by (apply sets_ok_of, Hk2).
        rewrite <-E in Hd2. destruct (lv_bounds _ _ _ Hok2 Hd2) as (_ & _ & ?). lia.
    + intros e ix2 Hk2. apply HE. etrans; [apply Hk|apply Hk2].
  - intros ix' (Hk & Hd & Hp). apply HO; [done..|]. intros c id Hin. apply Hp.
    by rewrite range_perm.
Qed.

(** ** The commit *)

Definition frag_op (inode : Z) (p : Z * Fragment) : wop :=
  WSet (FragmentKey inode p.1 (fr_Seq p.2)) (encodeFragments [p.2]).

Lemma wp_queue_frags inode pend b (Q : outcome Batch -> P -> Prop) p :
  Q (Ok (b ++ (frag_op inode <$> pend))) p -> (forall e, Q (Err e) p) ->
  wp (mfold (set_frag inode) b pend) Q p.
Proof.
  revert b. induction pend as [|x pend IH]; intros b HO HE; cbn [mfold fmap list_fmap] in *.
  - apply wp_ret. by rewrite app_nil_r in HO.
  - wp_step. apply wp_Batch_op; [|done]. apply IH; [|done]. by rewrite <-app_assoc.
Qed.

(** An operation that leaves the fragments alone. *)
Definition foreign_op (o : wop) : Prop :=
  ~ has_prefix StripeAllPrefix (op_key o) /\ bytes_ok (op_key o).

(** A hook reads the database and queues operations of its own. *)
Definition hook_ok (h : option (Batch -> M P Batch)) : Prop :=
  match h with
  | None => True
  | Some h => forall b p, wp (h b) (fun r p' => p' = p /\
      match r with
      | Ok b' => exists ops, b' = b ++ ops /\ Forall foreign_op ops
      | Err _ => True
      | Panic => False
      end) p
  end.

(** The operations the hook queued, on a database in state [p]. *)
Definition hook_effect (h : option (Batch -> M P Batch)) (p : P) (ops : Batch) : Prop :=
  match h with
  | None => ops = []
  | Some h => exists b, h b p = (Ok (b ++ ops), p)
  end.

Lemma wp_run_hook h b (Q : outcome Batch -> P -> Prop) p :
  hook_ok h -> (forall ops, Forall foreign_op ops -> hook_effect h p ops -> Q (Ok (b ++ ops)) p) ->
  (forall e, Q (Err e) p) -> wp (run_hook h b) Q p.
Proof.
  intros Hh HO HE. unfold run_hook. destruct h as [h|].
  - specialize (Hh b p). unfold wp, hook_effect in *. destruct (h b p) as [r p'] eqn:E. cbn [fst snd] in *.
    destruct Hh as [-> Hr]. destruct r as [b'|e|]; [|apply HE|done].
    destruct Hr as (ops & -> & Hf). apply HO; [done|]. by exists b.
  - apply wp_ret. rewrite <-(app_nil_r b). by apply HO.
Qed.

Lemma wp_commit_frags inode pend h (Q : outcome unit -> P -> Prop) p :
  hook_ok h ->
  (forall p' hops, Forall foreign_op hops -> hook_effect h p hops ->
     contents p' = apply_ops ((frag_op inode <$> pend) ++ hops) (contents p) -> Q (Ok tt) p') ->
  (forall e p', contents p' = contents p -> Q (Err e) p') ->
  (forall e p' hops, Forall foreign_op hops -> hook_effect h p hops ->
     contents p' = apply_ops ((frag_op inode <$> pend) ++ hops) (contents p) -> Q (Err e) p') ->
  wp (commit_frags inode pend h) Q p.
Proof.
  intros Hh HO HE HA. unfold commit_frags. wp_step. apply wp_queue_frags; [|intros e; by apply HE]. cbn [app NewBatch]. wp_step.
  apply wp_run_hook; [done| |intros e; by apply HE]. intros hops Hf He.
  apply wp_Batch_Commit; [by intros p' Hp; apply (HO p' hops)|].
  intros e p' [Hp|Hp]; [by apply HE|by apply (HA e p' hops)].
Qed.

(** ** The fragments after a commit *)

(** The pending fragments have the shape of their stripe and distinct keys, all
    new to the database. *)
Definition pending_ok (ss : Z) (m : gmap bytes bytes) (inode : Z) (pend : list (Z * Fragment)) : Prop :=
  Forall (fun p => in_u32 p.1 /\ frag_shape ss p.1 p.2) pend /\
  NoDup ((fun p => fr_Seq p.2) <$> pend) /\
  forall p, p ∈ pend -> m !! FragmentKey inode p.1 (fr_Seq p.2) = None.

Lemma apply_foreign hops m k :
  Forall foreign_op hops -> has_prefix StripeAllPrefix k -> apply_ops hops m !! k = m !! k.
Proof.
  intros Hf Hk. apply apply_ops_other. eapply Forall_impl; [exact Hf|].
  intros o [Hn _] E. apply Hn. by rewrite E.
Qed.

Lemma frag_op_sets inode pend :
  frag_op inode <$> pend =
  set_ops ((fun p => (FragmentKey inode p.1 (fr_Seq p.2), encodeFragments [p.2])) <$> pend).
Proof. unfold set_ops. by rewrite <-list_fmap_compose. Qed.

Definition pend_keys (inode : Z) (pend : list (Z * Fragment)) : list bytes :=
  (fun p => FragmentKey inode p.1 (fr_Seq p.2)) <$> pend.

Lemma pend_keys_NoDup ss m inode pend :
  in_u64 inode -> pending_ok ss m inode pend -> NoDup (pend_keys inode pend).
Proof.
  intros Hi (Hp & Hnd & _). unfold pend_keys. induction pend as [|p pend IH]; [constructor|].
  apply Forall_cons in Hp as [[Hu Hs] Hp]. cbn in Hnd. apply NoDup_cons in Hnd as [Hn Hnd].
  cbn. constructor; [|by apply IH]. intros (p' & Ek & Hin)%list_elem_of_fmap. apply Hn.
  rewrite Forall_forall in Hp. destruct (Hp p' Hin) as [Hu' Hs'].
  apply FragmentKey_inj in Ek as (_ & _ & ->); try done; [|by eapply shape_seq..].
  apply list_elem_of_fmap. by exists p'.
Qed.

(** The stripe keys after the commit. *)
Lemma commit_lookup ss m inode pend hops k v :
  in_u64 inode -> pending_ok ss m inode pend -> Forall foreign_op hops -> has_prefix StripeAllPrefix k ->
  apply_ops ((frag_op inode <$> pend) ++ hops) m !! k = Some v <->
  (exists p, p ∈ pend /\ k = FragmentKey inode p.1 (fr_Seq p.2) /\ v = encodeFragments [p.2]) \/
  m !! k = Some v.
Proof.
  intros Hi Hp Hf Hk. rewrite apply_ops_app, apply_foreign, frag_op_sets by done.
  set (kvs := _ <$> pend).
  assert (kvs.*1 = pend_keys inode pend) as Ekeys by (unfold kvs, pend_keys; by rewrite <-list_fmap_compose).
  assert (NoDup kvs.*1) as Hnd by (rewrite Ekeys; by eapply pend_keys_NoDup).
  destruct (decide (k ∈ kvs.*1)) as [Hin|Hin].
  - rewrite Ekeys in Hin. apply list_elem_of_fmap in Hin as (p & -> & Hin).
    rewrite (apply_sets_in kvs m _ (encodeFragments [p.2])); [|done|].
    2: { apply list_elem_of_fmap. by exists p. }
    destruct Hp as (Hall & Hnds & Hfresh). rewrite Forall_forall in Hall. split.
    + intros [= <-]. left. by exists p.
    + intros [(p' & Hin' & Ek & ->)|Hm]; [|by rewrite Hfresh in Hm].
      destruct (Hall p Hin) as [? ?], (Hall p' Hin') as [? ?].
      apply FragmentKey_inj in Ek as (_ & _ & Eq); try done; [|by eapply shape_seq..].
      apply list_elem_of_lookup in Hin as [a Ha]. apply list_elem_of_lookup in Hin' as [b Hb].
      assert (a = b) as ->; [|congruence].
      eapply NoDup_lookup; [exact Hnds| |]; rewrite list_lookup_fmap;
        [rewrite Ha|rewrite Hb]; cbn; [done|by rewrite Eq].
  - rewrite apply_sets_notin by done. split; [auto|]. intros [(p & Hp' & -> & _)|Hm]; [|done].
    destruct Hin. rewrite Ekeys. apply list_elem_of_fmap. by exists p.
Qed.

Lemma commit_keys_ok m inode pend hops k v :
  (forall k v, m !! k = Some v -> bytes_ok k) -> Forall foreign_op hops ->
  apply_ops ((frag_op inode <$> pend) ++ hops) m !! k = Some v -> bytes_ok k.
Proof.
  intros Hm Hf. assert (Forall (fun o => bytes_ok (op_key o)) ((frag_op inode <$> pend) ++ hops)) as Hall.
  { apply Forall_app. split.
    - apply Forall_fmap, Forall_forall. intros p _. apply FragmentKey_ok.
    - eapply Forall_impl; [exact Hf|]. by intros o [_ ?]. }
  revert Hall. generalize ((frag_op inode <$> pend) ++ hops). clear -Hm.
  intros ops. revert m Hm. induction ops as [|o ops IH]; intros m Hm Hall; [apply Hm|].
  apply Forall_cons in Hall as [Ho Hall]. change (apply_ops (o :: ops) m) with (apply_ops ops (apply_op m o)).
  apply IH; [|done]. intros k' v'. destruct o as [k0 v0|k0]; cbn in *.
  - intros [[<- _]|[_ Hl]]%lookup_insert_Some; [done|by eapply Hm].
  - intros [_ Hl]%lookup_delete_Some. by eapply Hm.
Qed.

Lemma commit_shape ss m inode pend hops :
  in_u64 inode -> db_shape ss m -> pending_ok ss m inode pend -> Forall foreign_op hops ->
  db_shape ss (apply_ops ((frag_op inode <$> pend) ++ hops) m).
Proof.
  intros Hi [Hb Hs] Hp Hf. split; [intros k v; by apply commit_keys_ok|].
  intros k v Hl Hk. rewrite (commit_lookup ss) in Hl by done. destruct Hl as [(p & Hin & -> & ->)|Hl].
  - destruct Hp as (Hall & _). rewrite Forall_forall in Hall. destruct (Hall p Hin).
    by exists inode, p.1, p.2.
  - by apply Hs.
Qed.

Lemma commit_frag_in ss m inode pend hops i f :
  in_u64 inode -> in_u64 i -> pending_ok ss m inode pend -> Forall foreign_op hops ->
  frag_in (apply_ops ((frag_op inode <$> pend) ++ hops) m) i f <->
  (i = inode /\ f ∈ pend.*2) \/ frag_in m i f.
Proof.
  intros Hi Hi' Hp Hf. unfold frag_in. pose proof Hp as (Hall & _). rewrite Forall_forall in Hall. split.
  - intros (Ht & s & Hs & Hl). rewrite (commit_lookup ss) in Hl by (done || apply prefix_StripeAll_FragmentKey).
    destruct Hl as [(p & Hin & Ek & Ev)|Hl]; [|right; eauto].
    destruct (Hall p Hin) as [Hu Hsh].
    apply encode_inj in Ev as ->; [|done|by eapply shape_typed].
    apply FragmentKey_inj in Ek as (-> & _); try done; [|by eapply shape_seq..].
    left. split; [done|]. apply list_elem_of_fmap. by exists p.
  - intros [[-> (p & -> & Hin)%list_elem_of_fmap]|(Ht & s & Hs & Hl)].
    + destruct (Hall p Hin) as [Hu Hsh]. split; [by eapply shape_typed|]. exists p.1. split; [done|].
      apply (commit_lookup ss); [done..|apply prefix_StripeAll_FragmentKey|]. left. by exists p.
    + split; [done|]. exists s. split; [done|].
      apply (commit_lookup ss); [done..|apply prefix_StripeAll_FragmentKey|by right].
Qed.

(** ** Content after a commit *)

(** Sequence numbers that increase, and are newer than what is on disk. *)
Definition seqs_fresh (m : gmap bytes bytes) (inode : Z) (es : list AppendExtent) : Prop :=
  StronglySorted (fun a b => ae_Seq a < ae_Seq b) es /\
  forall g e, frag_in m inode g -> e ∈ es -> fr_Seq g < ae_Seq e.

Lemma staged_shape ix touched e p :
  stripe_size_ok (ix_stripeSize ix) ->
  extent_ok (ix_stripeSize ix) e -> staged_as ix touched e p ->
  in_u32 p.1 /\ frag_shape (ix_stripeSize ix) p.1 p.2.
Proof.
  intros [Hss Hss'] (Hq & Ho & Hne & Hb & Ht & Hu & Hend) (-> & Es & Eo & El & Et & Hsu & _ & Hp).
  destruct Hp as (Hoff & Hm & _). split; [done|].
  assert (0 < blen (ae_Data e)).
  { pose proof (blen_nonneg (ae_Data e)). destruct (decide (blen (ae_Data e) = 0)) as [E|]; [|lia].
    by apply blen_nil_inv in E. }
  assert (ae_Off e / ix_stripeSize ix * ix_stripeSize ix <= ae_Off e)
    by (rewrite Z.mul_comm; apply Z.mul_div_le; lia).
  assert (ae_Off e + blen (ae_Data e) <= 2^62) by (unfold in_u32 in *; nia).
  split; [|split_and!; rewrite ?Eo, ?El, ?Et; (done || lia)].
  unfold fragment_ok. rewrite Es, Eo, El, Et.
  split_and!; try done; try lia. by destruct Ht as [-> | ->].
Qed.

Lemma Forall2_elem_l {A B} (R : A -> B -> Prop) l k x :
  Forall2 R l k -> x ∈ l -> exists y, y ∈ k /\ R x y.
Proof.
  intros HF Hx. apply list_elem_of_lookup in Hx as [i Hi].
  destruct (Forall2_lookup_l _ _ _ _ _ HF Hi) as (y & Hy & HR).
  exists y. split; [by eapply list_elem_of_lookup_2|done].
Qed.

Lemma Forall2_elem_r {A B} (R : A -> B -> Prop) l k y :
  Forall2 R l k -> y ∈ k -> exists x, x ∈ l /\ R x y.
Proof.
  intros HF Hy. apply list_elem_of_lookup in Hy as [i Hi].
  destruct (Forall2_lookup_r _ _ _ _ _ HF Hi) as (x & Hx & HR).
  exists x. split; [by eapply list_elem_of_lookup_2|done].
Qed.

Lemma staged_seqs ix touched es pend :
  Forall2 (staged_as ix touched) es pend -> (fun p => fr_Seq p.2) <$> pend = ae_Seq <$> es.
Proof. induction 1 as [|e p es pend (_ & E & _) _ IH]; [done|]. cbn. by rewrite E, IH. Qed.

Lemma append_pending_ok ix m inode touched es pend :
  stripe_size_ok (ix_stripeSize ix) -> db_shape (ix_stripeSize ix) m -> in_u64 inode ->
  Forall (extent_ok (ix_stripeSize ix)) es -> seqs_fresh m inode es ->
  Forall2 (staged_as ix touched) es pend -> pending_ok (ix_stripeSize ix) m inode pend.
Proof.
  intros Hss Hs Hi Hes [Hsort Hnew] HF. rewrite Forall_forall in Hes.
  assert (forall p, p ∈ pend -> in_u32 p.1 /\ frag_shape (ix_stripeSize ix) p.1 p.2) as Hall.
  { intros p Hp. destruct (Forall2_elem_r _ _ _ _ HF Hp) as (e & He & Hst).
    eapply staged_shape; [done|by apply Hes|done]. }
  split_and!; [by apply Forall_forall| |].
  - rewrite (staged_seqs _ _ _ _ HF). clear -Hsort.
    induction Hsort as [|e es _ IH Hf]; cbn; constructor; [|done].
    intros (e' & E & He')%list_elem_of_fmap. rewrite Forall_forall in Hf. specialize (Hf e' He'). lia.
  - intros p Hp. destruct (Forall2_elem_r _ _ _ _ HF Hp) as (e & He & (_ & Es & _)).
    destruct (Hall p Hp) as [Hu Hsh].
    destruct (m !! FragmentKey inode p.1 (fr_Seq p.2)) as [v|] eqn:El; [|done]. exfalso.
    destruct (shape_pair _ _ _ _ Hs El (prefix_StripeAll_FragmentKey _ _ _))
      as (i' & s' & g & Hi' & Hs' & Ek & -> & Hg & _).
    apply FragmentKey_inj in Ek as (<- & <- & Eq); try done; [|by eapply shape_seq..].
    specialize (Hnew g e). rewrite <-Eq, Es in Hnew. enough (ae_Seq e < ae_Seq e) by lia.
    apply Hnew; [|done]. split; [by eapply shape_typed|]. exists p.1. split; [done|]. by rewrite <-Eq.
Qed.

Lemma staged_resident ix touched e p :
  sets_ok ix -> (forall c id, (c, id) ∈ touched -> all_durable ix c id) ->
  staged_as ix touched e p -> resident ix p.2.
Proof.
  intros Hok Hdur (_ & _ & _ & El & Et & _ & Hin & (_ & _ & d & Hd & Hle & _)).
  exists d. unfold tier_data, tier_durable. rewrite Et, El. split; [done|].
  by rewrite (Hdur _ _ Hin d Hd).
Qed.

Lemma staged_fetch ix touched e p x :
  staged_as ix touched e p -> ext_covers e x = true ->
  fetch ix (fragment_source p.2 x) = byte_at (ae_Data e) (x - ae_Off e).
Proof.
  intros (_ & _ & Eo & El & Et & _ & _ & (Ho & _ & d & Hd & Hle & Hs)) Hc.
  unfold ext_covers in Hc. apply andb_true_iff in Hc as [?%Z.leb_le ?%Z.ltb_lt].
  unfold fetch, fragment_source, tier_data. rewrite Et, Hd, Eo, <-Hs, byte_at_slice by lia. done.
Qed.

(** What the database holds after the commit of [pend] for [inode]. *)
Definition committed (m m' : gmap bytes bytes) (inode : Z) (pend : list (Z * Fragment)) : Prop :=
  forall i f, in_u64 i -> frag_in m' i f <-> (i = inode /\ f ∈ pend.*2) \/ frag_in m i f.

Lemma append_index_ok ix ix' inode touched es pend hops :
  index_ok ix -> sets_ok ix' -> ix_grows ix ix' -> in_u64 inode ->
  Forall (extent_ok (ix_stripeSize ix)) es ->
  (forall e, e ∈ es -> ae_Seq e <= ix_seqGen ix') -> ix_seqGen ix <= ix_seqGen ix' ->
  in_u64 (ix_seqGen ix') ->
  seqs_fresh (contents (ix_db ix)) inode es ->
  Forall2 (staged_as ix' touched) es pend ->
  (forall c id, (c, id) ∈ touched -> all_durable ix' c id) -> Forall foreign_op hops ->
  contents (ix_db ix') = apply_ops ((frag_op inode <$> pend) ++ hops) (contents (ix_db ix)) ->
  index_ok ix' /\ committed (contents (ix_db ix)) (contents (ix_db ix')) inode pend.
Proof.
  intros (Hsets & Hss & _ & Hs & Hres) Hsets' Hg Hi Hes Hseq Hgen Hu Hfr HF Hdur Hhops Hdb.
  pose proof Hg as [Ess _]. rewrite <-Ess in Hes, Hss, Hs.
  assert (pending_ok (ix_stripeSize ix') (contents (ix_db ix)) inode pend) as Hp
    by by eapply append_pending_ok.
  assert (committed (contents (ix_db ix)) (contents (ix_db ix')) inode pend) as Hcm.
  { intros i f Hi'. rewrite Hdb. by apply (commit_frag_in (ix_stripeSize ix')). }
  split; [|done]. split_and!; [done..| |].
  - rewrite Hdb. by apply commit_shape.
  - intros i f Hi' Hf. apply (Hcm i f Hi') in Hf as [[-> Hf]|Hf].
    + apply list_elem_of_fmap in Hf as (p & -> & Hin).
      destruct (Forall2_elem_r _ _ _ _ HF Hin) as (e & He & Hst).
      split; [by eapply staged_resident|]. destruct Hst as (_ & -> & _). by apply Hseq.
    + destruct (Hres i f Hi' Hf) as [Hr Hle]. split; [by eapply resident_grows|lia].
Qed.

Lemma append_content ix ix' inode touched es pend x :
  index_ok ix -> index_ok ix' -> ix_grows ix ix' -> in_u64 inode ->
  seqs_fresh (contents (ix_db ix)) inode es ->
  Forall2 (staged_as ix' touched) es pend ->
  committed (contents (ix_db ix)) (contents (ix_db ix')) inode pend ->
  content ix' inode x = overlay_all (content ix inode) es x.
Proof.
  intros Hok Hok' Hg Hi [Hsort Hnew] HF Hcm.
  assert (forall p, p ∈ pend -> exists e, e ∈ es /\ staged_as ix' touched e p) as Hback
    by (intros p Hp; by apply (Forall2_elem_r _ _ _ _ HF)).
  assert (forall e p, staged_as ix' touched e p -> covers p.2 x = ext_covers e x) as Hcov.
  { intros e p (_ & _ & Eo & El & _). unfold covers, ext_covers. by rewrite Eo, El. }
  destruct (overlay_all_spec (content ix inode) es x) as [[-> Hn]|(es1 & e & es2 & -> & Hc & Hn & ->)].
  - (* no extent covers the byte: the same fragment serves it *)
    assert (forall f, f ∈ pend.*2 -> covers f x = false) as Hno.
    { intros f (p & -> & Hp)%list_elem_of_fmap. destruct (Hback p Hp) as (e & He & Hst).
      rewrite (Hcov _ _ Hst). by apply Hn. }
    destruct (serves_or_hole ix inode x Hok Hi) as [[f Hf]|Hh].
    + rewrite (content_serves ix inode x f) by done. destruct Hf as (Hf & Hc & Hmax).
      rewrite (content_serves ix' inode x f); [|done|done|].
      * pose proof Hok as (Hsets & _ & _ & Hs & Hres).
        destruct (frag_in_shape _ _ _ _ Hs Hi Hf) as (_ & s & _ & (Hfo & _) & _).
        apply fetch_grows; try done. by apply (Hres inode).
      * split_and!; [by apply Hcm; [|right]|done|]. intros g [[_ Hg']|Hg']%Hcm Hgc; [|by apply Hmax|done].
        by rewrite (Hno g Hg') in Hgc.
    + rewrite !content_hole; try done. intros f [[_ Hf]|Hf]%Hcm; [by apply Hno|by apply Hh|done].
  - (* the last extent that covers it has the greatest sequence number *)
    apply Forall2_app_inv_l in HF as (p1 & p2' & HF1 & HF2 & ->).
    inversion HF2 as [|? p ? p2 Hst HF2' E1 E2]; subst.
    rewrite (content_serves ix' inode x p.2); [by eapply staged_fetch|done|done|].
    apply StronglySorted_app in Hsort as (Hs12 & _ & _).
    split_and!.
    + apply Hcm; [done|]. left. split; [done|]. rewrite fmap_app, fmap_cons. set_solver.
    + by rewrite (Hcov _ _ Hst).
    + intros g [[_ (q & -> & Hq)%list_elem_of_fmap]|Hg']%Hcm Hgc; [| |done].
      * pose proof Hst as (_ & -> & _).
        apply elem_of_app in Hq as [Hq|[-> |Hq]%elem_of_cons].
        -- destruct (Forall2_elem_r _ _ _ _ HF1 Hq) as (e' & He' & (_ & -> & _)).
           specialize (Hs12 e' e He' ltac:(left)). lia.
        -- destruct Hst as (_ & -> & _). lia.
        -- destruct (Forall2_elem_r _ _ _ _ HF2' Hq) as (e' & He' & Hst').
           rewrite (Hcov _ _ Hst') in Hgc. by rewrite (Hn e' He') in Hgc.
      * destruct Hst as (_ & -> & _). specialize (Hnew g e Hg' ltac:(set_solver)). lia.
Qed.

(** The other files of the engine are untouched. *)
Lemma append_other ix ix' inode pend i x :
  index_ok ix -> index_ok ix' -> ix_grows ix ix' -> in_u64 i -> i <> inode ->
  committed (contents (ix_db ix)) (contents (ix_db ix')) inode pend ->
  content ix' i x = content ix i x.
Proof.
  intros Hok Hok' Hg Hi Hne Hcm. apply content_same_frags; try done.
  intros f. rewrite (Hcm i f Hi). naive_solver.
Qed.

(** ** The operations *)

(** Nothing happened, as far as any reader can tell. *)
Definition unchanged (ix ix' : Index P S) : Prop :=
  index_ok ix' /\ contents (ix_db ix') = contents (ix_db ix) /\
  forall i x, in_u64 i -> content ix' i x = content ix i x.

(** The operations of the hook are in the database: of the keys outside the
    stripes, they are the only change. *)
Definition hooked (h : option (Batch -> M P Batch)) (p p' : P) : Prop :=
  exists hops, hook_effect h p hops /\
    forall k, ~ has_prefix StripeAllPrefix k -> contents p' !! k = apply_ops hops (contents p) !! k.

(** [c] is now the content of [inode], every other file is as before, and the
    hook is in effect. *)
Definition written (ix ix' : Index P S) (inode : Z) (h : option (Batch -> M P Batch))
    (c : Z -> option Z) : Prop :=
  index_ok ix' /\ hooked h (ix_db ix) (ix_db ix') /\
  (forall x, content ix' inode x = c x) /\
  (forall i x, in_u64 i -> i <> inode -> content ix' i x = content ix i x).

(** The new fragments are of [inode], with sequence numbers in [Ps]; the others
    have the numbers they had. *)
Definition numbered_in (ix ix' : Index P S) (inode : Z) (Ps : Z -> Prop) : Prop :=
  ix_stripeSize ix' = ix_stripeSize ix /\ ix_seqGen ix' = ix_seqGen ix /\
  forall i f, in_u64 i -> frag_in (contents (ix_db ix')) i f ->
    (exists g, frag_in (contents (ix_db ix)) i g /\ fr_Seq g = fr_Seq f) \/ (i = inode /\ Ps (fr_Seq f)).

Definition numbers (es : list AppendExtent) (q : Z) : Prop := exists e, e ∈ es /\ ae_Seq e = q.

(** [written] and [unchanged] with the numbers. *)
Definition wrote ix ix' inode h Ps c : Prop := written ix ix' inode h c /\ numbered_in ix ix' inode Ps.
Definition idled ix ix' inode Ps : Prop := unchanged ix ix' /\ numbered_in ix ix' inode Ps.

Lemma same_numbers ix ix' inode Ps :
  ix_stripeSize ix' = ix_stripeSize ix -> ix_seqGen ix' = ix_seqGen ix ->
  contents (ix_db ix') = contents (ix_db ix) -> numbered_in ix ix' inode Ps.
Proof. intros Hss Hq Hd. split_and!; [done..|]. intros i f Hi. rewrite Hd. eauto. Qed.

Lemma kept_numbered ix ix' inode Ps : kept ix ix' -> numbered_in ix ix' inode Ps.
Proof.
  intros (_ & [Hss _] & Hd & Hq). apply same_numbers; [done|by rewrite Hq|by rewrite Hd].
Qed.

Lemma kept_unchanged ix ix' : index_ok ix -> kept ix ix' -> unchanged ix ix'.
Proof.
  intros Hok Hk. split_and!; [by eapply kept_index_ok|by destruct Hk as (_ & _ & -> & _)|].
  intros i x Hi. by apply kept_content.
Qed.

(** The engine changed nothing but its own state. *)
Lemma with_db_same ix p :
  index_ok ix -> contents p = contents (ix_db ix) ->
  index_ok (with_db p ix) /\ forall i x, content (with_db p ix) i x = content ix i x.
Proof.
  intros Hok Hp. split.
  - unfold index_ok in *. cbn [with_db ix_db ix_stripeSize ix_seqGen]. by rewrite Hp.
  - intros i x. unfold content. cbn [with_db ix_db]. by rewrite Hp.
Qed.

Lemma with_db_sets p ix c : set_of c (with_db p ix) = set_of c ix.
Proof. by destruct c. Qed.

Lemma apply_ops_cong ops m m' k : m !! k = m' !! k -> apply_ops ops m !! k = apply_ops ops m' !! k.
Proof.
  revert m m'. induction ops as [|o ops IH]; intros m m' E; [done|]. apply IH. destruct o as [k' v|k']; cbn.
  - destruct (decide (k = k')) as [->|]; by rewrite ?lookup_insert_eq, ?lookup_insert_ne by done.
  - destruct (decide (k = k')) as [->|]; by rewrite ?lookup_delete_eq, ?lookup_delete_ne by done.
Qed.

Lemma commit_foreign m inode pend hops k :
  ~ has_prefix StripeAllPrefix k ->
  apply_ops ((frag_op inode <$> pend) ++ hops) m !! k = apply_ops hops m !! k.
Proof.
  intros Hk. rewrite apply_ops_app. apply apply_ops_cong, apply_ops_other.
  apply Forall_fmap, Forall_forall. intros p _ E. apply Hk. cbn in E. rewrite <-E.
  apply prefix_StripeAll_FragmentKey.
Qed.

(** The state after staging, sync and commit. *)
Lemma commit_written ix ix2 inode touched es pend h hops p' :
  index_ok ix -> kept ix ix2 -> in_u64 inode -> Forall (extent_ok (ix_stripeSize ix)) es ->
  (forall e, e ∈ es -> ae_Seq e <= ix_seqGen ix) -> seqs_fresh (contents (ix_db ix)) inode es ->
  Forall2 (staged_as ix2 touched) es pend ->
  (forall c id, (c, id) ∈ touched -> all_durable ix2 c id) -> Forall foreign_op hops ->
  hook_effect h (ix_db ix2) hops ->
  contents p' = apply_ops ((frag_op inode <$> pend) ++ hops) (contents (ix_db ix2)) ->
  wrote ix (with_db p' ix2) inode h (numbers es) (overlay_all (content ix inode) es).
Proof.
  intros Hok (Hs2 & Hg2 & Hd2 & Hq2) Hi Hes Hseq Hfr HF Hdur Hf Hh Hp. pose proof Hg2 as [Hss2 _].
  rewrite Hd2 in Hp, Hh. pose proof Hok as (_ & _ & Hu & _).
  assert (Forall2 (staged_as (with_db p' ix2) touched) es pend) as HF3 by exact HF.
  destruct (append_index_ok ix (with_db p' ix2) inode touched es pend hops) as [Hok' Hcm]; try done.
  - cbn. intros e He. rewrite Hq2. by apply Hseq.
  - cbn. rewrite Hq2. lia.
  - cbn. by rewrite Hq2.
  - split; [|split_and!; [done|cbn; lia|]].
    2: { intros i f Hi' Hf'. apply (Hcm i f Hi') in Hf' as [[-> Hf']|Hf']; [|eauto].
      right. split; [done|]. apply list_elem_of_fmap in Hf' as (q & -> & Hq).
      destruct (Forall2_elem_r _ _ _ _ HF Hq) as (e & He & (_ & -> & _)). by exists e. }
    split_and!; [done| | |].
    + exists hops. split; [done|]. intros k Hk. cbn [with_db ix_db]. rewrite Hp. by apply commit_foreign.
    + intros x. by apply (append_content ix (with_db p' ix2) inode touched es pend).
    + intros i x Hi' Hne'. by apply (append_other ix (with_db p' ix2) inode pend).
Qed.

Lemma wp_commit_hook inode h ix (Q : outcome unit -> Index P S -> Prop) :
  index_ok ix -> sets_clean ix -> in_u64 inode -> hook_ok h ->
  (forall ix', wrote ix ix' inode h (numbers []) (content ix inode) -> sets_clean ix' ->
     ix_seqGen ix' = ix_seqGen ix -> Q (Ok tt) ix') ->
  (forall e ix', idled ix ix' inode (numbers []) \/ wrote ix ix' inode h (numbers []) (content ix inode) ->
     Q (Err e) ix') ->
  wp (commit_hook h) Q ix.
Proof.
  intros Hok Hcl Hi Hh HO HE. pose proof Hok as (Hsets & _).
  assert (forall p' hops, Forall foreign_op hops -> hook_effect h (ix_db ix) hops ->
    contents p' = apply_ops hops (contents (ix_db ix)) ->
    wrote ix (with_db p' ix) inode h (numbers []) (content ix inode)) as Hw.
  { intros p' hops Hf He Hp.
    assert (kept ix ix) by by apply kept_refl.
    apply (commit_written ix ix inode [] [] [] h hops p'); try done;
      try (by intros ? ?%elem_of_nil); try (by intros ? ? ?%elem_of_nil).
    split; [constructor|]. by intros g e _ ?%elem_of_nil. }
  unfold commit_hook. destruct h as [h|].
  - apply wp_on_db. wp_step. apply (wp_run_hook (Some h)); [done| |].
    + intros hops Hf He. apply wp_Batch_Commit; [|intros e p' [Hp|Hp]].
      * intros p' Hp. apply HO; [by eapply Hw|done|done].
      * apply HE. left. destruct (with_db_same ix p') as [Hokp Hcp]; [done..|].
        split; [by split_and!|by apply same_numbers].
      * apply HE. right. by eapply Hw.
    + intros e. apply HE. left. rewrite with_db_id. split; [done|by apply same_numbers].
  - wp_step. apply HO; [|done|done]. rewrite <-(with_db_id ix) at 2. by apply (Hw _ []).
Qed.

Lemma wp_AppendBatchCtx inode es h ix (Q : outcome unit -> Index P S -> Prop) :
  index_ok ix -> sets_clean ix -> in_u64 inode ->
  Forall (extent_ok (ix_stripeSize ix)) es ->
  (forall e, e ∈ es -> ae_Seq e <= ix_seqGen ix) ->
  seqs_fresh (contents (ix_db ix)) inode es -> hook_ok h ->
  (forall ix', wrote ix ix' inode h (numbers es) (overlay_all (content ix inode) es) -> sets_clean ix' ->
     ix_seqGen ix' = ix_seqGen ix -> Q (Ok tt) ix') ->
  (forall e ix', idled ix ix' inode (numbers es) \/
     wrote ix ix' inode h (numbers es) (overlay_all (content ix inode) es) -> Q (Err e) ix') ->
  wp (AppendBatchCtx inode es h) Q ix.
Proof.
  intros Hok Hcl Hi Hes Hseq Hfr Hh HO HE. unfold AppendBatchCtx.
  destruct es as [|e0 es0]; [by apply (wp_commit_hook inode)|]. set (es := e0 :: es0) in *.
  assert (forall e ix', kept ix ix' -> Q (Err e) ix') as HK
    by (intros e ix' Hk; apply HE; left; split; [by apply kept_unchanged|by apply kept_numbered]).
  wp_step. apply wp_stage; [done..| |exact HK]. intros [pend touched] ix1 Hk1 HF Hlive.
  cbn [fst snd] in *. wp_step. apply wp_sync_touched; [by destruct Hk1 as [(? & _) _]|done| |].
  2: { intros e ix2 Hk2. apply HK. etrans; [apply Hk1|done]. }
  intros ix2 Hk2 _ Hdur. assert (kept_clean ix ix2) as [Hk12 Hc] by (etrans; [apply Hk1|apply Hk2]).
  assert (Forall2 (staged_as ix2 touched) es pend) as HF2.
  { eapply Forall2_impl; [exact HF|]. intros e p. apply staged_grows; [apply Hk2|done]. }
  apply wp_on_db, wp_commit_frags; [done| | |].
  - intros p' hops Hf He Hp. apply HO; [by eapply commit_written|apply (Hc Hcl)|].
    by destruct Hk12 as (_ & _ & _ & ?).
  - intros e p' Hp. apply HE. left.
    destruct (with_db_same ix2 p') as [Hokp Hcp]; [by eapply kept_index_ok|done|].
    destruct Hk12 as (K1 & K2 & K3 & K4). assert (kept ix ix2) as Hk12 by done. split.
    + split_and!; [done|cbn; by rewrite Hp, K3|]. intros i x Hi'. rewrite Hcp. by apply kept_content.
    + apply same_numbers; cbn; [by destruct K2|lia|by rewrite Hp, K3].
  - intros e p' hops Hf He Hp. apply HE. right. by eapply commit_written.
Qed.

(** *** Splitting at stripe boundaries *)

Lemma overlay_split c off (data : bytes) k x :
  0 <= k <= blen data ->
  overlay (overlay c off (slice data 0 k)) (off + k) (slice data k (blen data)) x =
  overlay c off data x.
Proof.
  intros Hk. unfold overlay. rewrite !blen_slice by lia.
  destruct (Z.leb_spec (off + k) x), (Z.ltb_spec x (off + k + (blen data - k))),
    (Z.leb_spec off x), (Z.ltb_spec x (off + (k - 0))), (Z.ltb_spec x (off + blen data));
    cbn; try lia; try done; rewrite byte_at_slice by lia; f_equal; lia.
Qed.

Lemma overlay_ext c c' off data x :
  (forall y, c y = c' y) -> overlay c off data x = overlay c' off data x.
Proof. intros E. unfold overlay. by rewrite E. Qed.

Lemma overlay_all_ext es : forall c c' x,
  (forall y, c y = c' y) -> overlay_all c es x = overlay_all c' es x.
Proof.
  induction es as [|e es IH]; intros c c' x E; [apply E|].
  unfold overlay_all in *. cbn [foldl]. apply IH. intros y. by apply overlay_ext.
Qed.

(** The extents of a write: stripe-bounded, numbered upwards from [g]. *)
Definition split_of (ss : Z) (rem : bytes) (off g : Z) (es : list AppendExtent) : Prop :=
  Forall (extent_ok ss) es /\
  StronglySorted (fun a b => ae_Seq a < ae_Seq b) es /\
  (forall e, e ∈ es -> g < ae_Seq e <= g + blen es) /\
  blen es <= blen rem /\
  forall c x, overlay_all c es x = overlay c off rem x.

Lemma with_seqGen_0 ix : with_seqGen (ix_seqGen ix + blen (@nil AppendExtent)) ix = ix.
Proof. change (blen (@nil AppendExtent)) with 0. rewrite Z.add_0_r. by destruct ix. Qed.

Lemma with_seqGen_twice a b ix : with_seqGen a (with_seqGen b ix) = with_seqGen a ix.
Proof. by destruct ix. Qed.

Lemma split_of_nil ss off g : split_of ss [] off g [].
Proof.
  split; [constructor|]. split; [constructor|]. split; [by intros e ?%elem_of_nil|]. split; [done|].
  intros c x. unfold overlay. change (blen (@nil Z)) with 0.
  destruct (Z.leb_spec off x), (Z.ltb_spec x (off + 0)); cbn; done || lia.
Qed.

Lemma split_of_cons ss rem off g k tier es :
  in_u64 (g + 1) -> 0 <= off -> (tier = TierHot \/ tier = TierCold) -> bytes_ok rem ->
  in_u32 (off / ss) -> off + k <= (off / ss + 1) * ss -> 0 < k <= blen rem ->
  split_of ss (slice rem k (blen rem)) (off + k) (g + 1) es ->
  split_of ss rem off g (mkAppendExtent (g + 1) off (slice rem 0 k) tier :: es).
Proof.
  intros Hg Ho Ht Hb Hu Hend Hk (Hes & Hsort & Hseq & Hlen & Hov).
  rewrite blen_slice in Hlen by lia.
  split_and!.
  - constructor; [|done]. split_and!; cbn; try done.
    + intros E. apply (f_equal blen) in E. rewrite blen_slice in E by lia. change (blen (@nil Z)) with 0 in E. lia.
    + by apply bytes_ok_slice.
    + rewrite blen_slice by lia. lia.
  - constructor; [done|]. apply Forall_forall. intros e He. cbn. specialize (Hseq e He). lia.
  - rewrite blen_cons. pose proof (blen_nonneg es). intros e [-> |He]%elem_of_cons; cbn; [lia|].
    specialize (Hseq e He). lia.
  - rewrite blen_cons. lia.
  - intros c x. unfold overlay_all. cbn [foldl]. fold (overlay_all (overlay c off (slice rem 0 k)) es).
    rewrite Hov. apply overlay_split. lia.
Qed.

(** One round of the loop. *)
Definition split_extents_step (fuel : nat) (rem : bytes) (off tier : Z) : M (Index P S) (list AppendExtent) :=
  let* ix := get in
  let stripeID := stripeOf (ix_stripeSize ix) off in
  let stripeEnd := stripe_end (ix_stripeSize ix) stripeID in
  let chunkLen := if stripeEnd <? i64 (off + blen rem) then i64 (stripeEnd - off) else blen rem in
  let* seq := nextSeq in
  if (chunkLen <? 0) || (blen rem <? chunkLen) then panic
  else
    let* rest := split_extents fuel (slice rem chunkLen (blen rem)) (i64 (off + chunkLen)) tier in
    ret (mkAppendExtent seq off (slice rem 0 chunkLen) tier :: rest).

Lemma wp_split_extents fuel : forall rem off tier ix (Q : outcome (list AppendExtent) -> Index P S -> Prop),
  stripe_size_ok (ix_stripeSize ix) -> 0 <= ix_seqGen ix -> ix_seqGen ix + blen rem < 2^64 ->
  bytes_ok rem -> (tier = TierHot \/ tier = TierCold) ->
  0 <= off -> off + blen rem <= 2^32 * ix_stripeSize ix -> (length rem <= fuel)%nat ->
  (forall es, split_of (ix_stripeSize ix) rem off (ix_seqGen ix) es ->
     Q (Ok es) (with_seqGen (ix_seqGen ix + blen es) ix)) ->
  wp (split_extents fuel rem off tier) Q ix.
Proof.
  induction fuel as [|fuel IH]; intros rem off tier ix Q Hss Hg Hgm Hb Ht Ho Hend Hfuel HQ.
  - assert (rem = []) as -> by (destruct rem; [done|cbn in Hfuel; lia]). { cbn [split_extents]. wp_step. rewrite <-(with_seqGen_0 ix). apply HQ, split_of_nil. }
  - destruct rem as [|b0 r0]; [cbn [split_extents]; wp_step; rewrite <-(with_seqGen_0 ix); apply HQ, split_of_nil|].
    assert (0 < blen (b0 :: r0)) as Hrem by (rewrite blen_cons; pose proof (blen_nonneg r0); lia).
    pose proof Hss as [Hss1 Hss2]. set (rem := b0 :: r0) in *.
    assert (addressable (ix_stripeSize ix) off) as Ha by (unfold addressable; lia).
    destruct (stripeOf_div _ _ Hss1 Ha) as [Es Hu].
    set (ss := ix_stripeSize ix) in *.
    pose proof (stripe_lo ss off Hss1) as Hlo. pose proof (stripe_hi ss off Hss1) as Hhi.
    assert (split_extents (Datatypes.S fuel) rem off tier = split_extents_step fuel rem off tier) as ->
      by done.
    unfold split_extents_step. wp_step. apply wp_get. fold ss. rewrite Es, stripe_end_ok by done.
    unfold in_u32 in Hu.
    rewrite (i64_id (off + blen rem)) by (unfold in_i64; nia).
    rewrite (i64_id ((off / ss + 1) * ss - off)) by (unfold in_i64; nia).
    set (k := if _ <? _ then _ else _).
    assert (0 < k <= blen rem /\ off + k <= (off / ss + 1) * ss) as [Hk Hke] by (unfold k; z_case; lia).
    wp_step. apply wp_nextSeq; [lia|lia|].
    rewrite (proj2 (Z.ltb_ge k 0)), (proj2 (Z.ltb_ge (blen rem) k)) by lia. cbn [orb].
    wp_step. rewrite (i64_id (off + k)) by (unfold in_i64; nia).
    assert (blen (slice rem k (blen rem)) = blen rem - k) as Hlen by (rewrite blen_slice; lia).
    apply IH; cbn [with_seqGen ix_seqGen ix_stripeSize]; rewrite ?Hlen; try done; try lia.
    + by apply bytes_ok_slice.
    + revert Hlen Hk. clearbody k. unfold blen. lia.
    + intros es He. wp_step. rewrite with_seqGen_twice, <-Z.add_assoc, <-(blen_cons (mkAppendExtent (ix_seqGen ix + 1) off (slice rem 0 k) tier)).
      apply HQ. apply split_of_cons; try done; (lia || (unfold in_u64; lia)).
Qed.
(** A higher counter disturbs nothing. *)
Lemma with_seqGen_ok ix n :
  index_ok ix -> ix_seqGen ix <= n < 2^64 ->
  index_ok (with_seqGen n ix) /\ forall i x, content (with_seqGen n ix) i x = content ix i x.
Proof.
  intros (Hs & Hss & Hu & Hsh & Hr) Hn. split; [|done].
  split_and!; [done..|unfold in_u64 in *; cbn; lia|done|].
  intros i f Hi Hf. destruct (Hr i f Hi Hf). split; [done|]. cbn. lia.
Qed.

Lemma written_from ix ix1 ix' inode h c c' :
  written ix1 ix' inode h c -> ix_db ix1 = ix_db ix ->
  (forall i x, content ix1 i x = content ix i x) -> (forall x, c x = c' x) ->
  written ix ix' inode h c'.
Proof.
  intros (Hok & Hh & Hc & Ho) Hd E1 E2. split_and!; [done|by rewrite <-Hd| |].
  - intros x. by rewrite Hc.
  - intros i x Hi Hne. by rewrite Ho.
Qed.

Lemma wp_AppendToWithTxCtx inode off payload tier h ix (Q : outcome unit -> Index P S -> Prop) :
  index_ok ix -> sets_clean ix -> in_u64 inode -> bytes_ok payload ->
  (tier = TierHot \/ tier = TierCold) -> hook_ok h ->
  0 <= off -> off + blen payload <= 2^32 * ix_stripeSize ix ->
  ix_seqGen ix + blen payload < 2^64 ->
  (forall ix', written ix ix' inode h (overlay (content ix inode) off payload) -> sets_clean ix' ->
     ix_seqGen ix' <= ix_seqGen ix + blen payload -> Q (Ok tt) ix') ->
  (forall e ix', unchanged ix ix' \/ written ix ix' inode h (overlay (content ix inode) off payload) ->
     Q (Err e) ix') ->
  wp (AppendToWithTxCtx inode off payload tier h) Q ix.
Proof.
  intros Hok Hcl Hi Hb Ht Hh Ho Hend Hseq HO HE. unfold AppendToWithTxCtx.
  pose proof Hok as (_ & Hss & Hu & _ & Hres).
  destruct payload as [|b0 r0].
  { assert (forall x, content ix inode x = overlay (content ix inode) off [] x) as E.
    { intros x. by destruct (split_of_nil (ix_stripeSize ix) off 0) as (_ & _ & _ & _ & <-). }
    apply (wp_commit_hook inode); [done..| |].
    - intros ix' [Hw _] Hc Hq. apply HO; [by eapply written_from|done|]. change (blen (@nil Z)) with 0. lia.
    - intros e ix' [[Hw _]|[Hw _]]; apply HE; [by left|right; by eapply written_from]. }
  set (payload := b0 :: r0) in *. wp_step. unfold in_u64 in Hu.
  apply wp_split_extents; [done..|lia|done|done|done|done|done|done|].
  intros es (Hes & Hsort & Hsq & Hlen & Hov). pose proof (blen_nonneg es).
  destruct (with_seqGen_ok ix (ix_seqGen ix + blen es)) as [Hok1 Hc1]; [done|lia|].
  assert (forall x, overlay_all (content (with_seqGen (ix_seqGen ix + blen es) ix) inode) es x =
                    overlay (content ix inode) off payload x) as E.
  { intros x. rewrite <-Hov. apply overlay_all_ext. intros y. apply Hc1. }
  apply wp_AppendBatchCtx; [done..| | |done| |].
  - intros e He. specialize (Hsq e He). cbn. lia.
  - split; [done|]. intros g e Hg He. specialize (Hsq e He). destruct (Hres inode g Hi Hg). lia.
  - intros ix' [Hw _] Hc Hq. apply HO; [by eapply written_from|done|]. rewrite Hq. cbn. lia.
  - intros e ix' [[(Hu1 & Hu2 & Hu3) _]|[Hw _]]; apply HE; [left|right; by eapply written_from].
    split_and!; [done|by rewrite Hu2|]. intros i x Hix. by rewrite Hu3.
Qed.

(** ** Properties *)

(** a batch append is atomic and lands where it should.  On success the
    bytes of the extents are laid over the content of the file in the order of
    the batch, every other file is as it was, and the operations of the hook
    are in the database; on an error the files are all as before, or all as
    after (the engine may fail after the batch took effect).  The invariant
    survives either way, and the append never panics. *)
Theorem AppendBatch_writes inode es h ix :
  index_ok ix -> sets_clean ix -> in_u64 inode ->
  Forall (extent_ok (ix_stripeSize ix)) es ->
  (forall e, e ∈ es -> ae_Seq e <= ix_seqGen ix) ->
  seqs_fresh (contents (ix_db ix)) inode es -> hook_ok h ->
  let '(r, ix') := AppendBatchCtx inode es h ix in
  match r with
  | Ok _ => written ix ix' inode h (overlay_all (content ix inode) es) /\ sets_clean ix'
  | Err _ => unchanged ix ix' \/ written ix ix' inode h (overlay_all (content ix inode) es)
  | Panic => False
  end.
Proof.
  intros Hok Hcl Hi Hes Hseq Hfr Hh.
  apply (wp_pair (AppendBatchCtx inode es h) (fun r ix' => match r with
    | Ok _ => written ix ix' inode h (overlay_all (content ix inode) es) /\ sets_clean ix'
    | Err _ => unchanged ix ix' \/ written ix ix' inode h (overlay_all (content ix inode) es)
    | Panic => False
    end)). apply wp_AppendBatchCtx; try done; [by intros ? [? _]|].
  intros e ix' [[? _]|[? _]]; auto.
Qed.

(** C13: a write of any length at any addressable offset, split at the stripe
    boundaries, overlays the content of the file with the payload; with the
    hook it is one atomic change, and an error leaves everything as before or
    everything as after. *)
Theorem AppendTo_overlays inode off payload tier h ix :
  index_ok ix -> sets_clean ix -> in_u64 inode -> bytes_ok payload ->
  (tier = TierHot \/ tier = TierCold) -> hook_ok h ->
  0 <= off -> off + blen payload <= 2^32 * ix_stripeSize ix ->
  ix_seqGen ix + blen payload < 2^64 ->
  let '(r, ix') := AppendToWithTxCtx inode off payload tier h ix in
  match r with
  | Ok _ => written ix ix' inode h (overlay (content ix inode) off payload) /\ sets_clean ix'
  | Err _ => unchanged ix ix' \/ written ix ix' inode h (overlay (content ix inode) off payload)
  | Panic => False
  end.
Proof.
  intros Hok Hcl Hi Hb Ht Hh Ho Hend Hseq.
  apply (wp_pair (AppendToWithTxCtx inode off payload tier h) (fun r ix' => match r with
    | Ok _ => written ix ix' inode h (overlay (content ix inode) off payload) /\ sets_clean ix'
    | Err _ => unchanged ix ix' \/ written ix ix' inode h (overlay (content ix inode) off payload)
    | Panic => False
    end)). by apply wp_AppendToWithTxCtx.
Qed.
End Append.
