(* ===== verification/IndexMaint.v ===== *)
(** * The storage engine: truncation and deletion

    [Truncate] clips the content of a file at the new size, [DeleteInode] makes
    it empty; neither touches another file or a segment. *)

From S2P Require Import Prelude Keys Kv Fragment Plan Segment Layer Index IndexSpec IndexRead IndexAppend.

(** ** Batches that treat each key by itself *)

Section Keyed.
Context (g : bytes * bytes -> list wop) (Hg : forall kv o, o ∈ g kv -> op_key o = kv.1).
Implicit Types m : gmap bytes bytes.

Lemma keyed_other l m k : k ∉ l.*1 -> apply_ops (concat (g <$> l)) m !! k = m !! k.
Proof.
  intros Hk. apply apply_ops_other, Forall_forall. intros o Ho E. apply Hk.
  apply list_elem_of_In, in_concat in Ho as (ops & Hops & Ho).
  apply list_elem_of_In, list_elem_of_fmap in Hops as (kv & -> & Hkv).
  apply list_elem_of_In, Hg in Ho. rewrite <-E, Ho. by apply list_elem_of_fmap_2.
Qed.

Lemma keyed_here l m k v :
  NoDup l.*1 -> (k, v) ∈ l -> apply_ops (concat (g <$> l)) m !! k = apply_ops (g (k, v)) m !! k.
Proof.
  revert m. induction l as [|kv l IH]; intros m Hnd Hin; [by apply elem_of_nil in Hin|].
  cbn [fmap list_fmap concat] in *. rewrite apply_ops_app. apply NoDup_cons in Hnd as [Hn Hnd].
  apply elem_of_cons in Hin as [<-|Hin].
  - by rewrite keyed_other.
  - rewrite IH by done. apply apply_ops_cong, apply_ops_other, Forall_forall. intros o Ho E.
    apply Hn. rewrite <-(Hg _ _ Ho), E. by apply (list_elem_of_fmap_2 fst _ (k, v)).
Qed.
End Keyed.

Lemma sorted_keys_NoDup l : StronglySorted key_before l -> NoDup l.*1.
Proof.
  induction 1 as [|kv l _ IH Hf]; constructor; [|done].
  intros (kv' & E & Hin)%list_elem_of_fmap. rewrite Forall_forall in Hf.
  specialize (Hf kv' Hin). unfold key_before in Hf. rewrite E, lex_lt_irrefl in Hf. done.
Qed.

(** ** Truncation *)

(** What is left of a fragment. *)
Definition clip (size : Z) (f : Fragment) : Fragment :=
  {| fr_Seq := fr_Seq f; fr_LogicalOff := fr_LogicalOff f;
     fr_Length := Z.min (fr_Length f) (size - fr_LogicalOff f); fr_Tier := fr_Tier f;
     fr_SegmentID := fr_SegmentID f; fr_SegmentOffset := fr_SegmentOffset f |}.

Definition trunc_ops (ss size : Z) (kv : bytes * bytes) : list wop :=
  match trunc_op ss size kv with Ok ops => ops | _ => [] end.

Section Maint.
Context {P : Type} {PB : Pebble P} {PL : PebbleLaws P}.
Context {S : Type} {SL : SegLayer S} {SLL : SegLayerLaws S} {MR : MapRange}.
Implicit Types ix : Index P S.
Implicit Types m : gmap bytes bytes.

Lemma clip_id size f : fr_LogicalOff f + fr_Length f <= size -> clip size f = f.
Proof. intros. unfold clip. destruct f; cbn in *. f_equal. lia. Qed.

Lemma clip_covers size f x :
  covers (clip size f) x = true <-> covers f x = true /\ x < size.
Proof. rewrite !covers_true. cbn. lia. Qed.

Lemma clip_shape ss stripe size f :
  frag_shape ss stripe f -> fr_LogicalOff f < size -> frag_shape ss stripe (clip size f).
Proof.
  intros (Hok & Hlo & Hhi & Ht) Hlt. split; [|split_and!; cbn; (done || lia)].
  destruct Hok as (? & ? & ? & ? & ? & ? & ? & ?). unfold fragment_ok. cbn. split_and!; (done || lia).
Qed.

(** On the pairs the engine writes, [trunc_op] clips or drops the fragment. *)
Lemma trunc_op_spec ss size inode stripe f :
  stripe_size_ok ss -> in_u64 inode -> in_u32 stripe -> in_i64 size -> frag_shape ss stripe f ->
  exists ops, trunc_op ss size (FragmentKey inode stripe (fr_Seq f), encodeFragments [f]) = Ok ops /\
    (forall o, o ∈ ops -> op_key o = FragmentKey inode stripe (fr_Seq f)) /\
    forall m, m !! FragmentKey inode stripe (fr_Seq f) = Some (encodeFragments [f]) ->
      apply_ops ops m !! FragmentKey inode stripe (fr_Seq f) =
      if size <=? fr_LogicalOff f then None else Some (encodeFragments [clip size f]).
Proof.
  intros [Hss Hss'] Hi Hst Hsz Hsh. pose proof Hsh as (Hok & Hlo & Hhi & _).
  assert (fragment_typed f) as Hty by by eapply shape_typed.
  unfold trunc_op. cbn [fst snd]. rewrite IsFragmentKey_true. cbn [negb].
  rewrite StripeID_FragmentKey by done. cbn [obind].
  unfold in_u32, in_i64 in *. rewrite i64_id by (unfold in_i64; nia).
  set (k := FragmentKey inode stripe (fr_Seq f)).
  assert (exists ops, Ok [WDelete k] = Ok ops /\ (forall o, o ∈ ops -> op_key o = k) /\
    forall m, m !! k = Some (encodeFragments [f]) -> apply_ops ops m !! k = None) as Hdel.
  { eexists. split_and!; [done| |].
    - by intros o ->%list_elem_of_singleton.
    - intros m _. cbn. by rewrite lookup_delete_eq. }
  destruct (Z.leb_spec size (stripe * ss)).
  { destruct (Z.leb_spec size (fr_LogicalOff f)); [exact Hdel|lia]. }
  rewrite decode_single_0 by done. cbn [obind].
  destruct (Z.leb_spec size (fr_LogicalOff f)); [exact Hdel|].
  assert (fragment_ok f) as (_ & Ho & Hl & Hend & _) by done.
  rewrite (i64_id (fr_LogicalOff f + _)) by (unfold in_i64; lia).
  destruct (Z.ltb_spec size (fr_LogicalOff f + fr_Length f)).
  - eexists. split_and!; [done|by intros o ->%list_elem_of_singleton|]. intros m _.
    unfold apply_ops. cbn [foldl apply_op]. rewrite lookup_insert_eq. do 3 f_equal. unfold clip. f_equal.
    rewrite i64_id by (unfold in_i64; lia). lia.
  - eexists. split_and!; [done|by intros o ?%elem_of_nil|]. intros m Hm. by rewrite clip_id.
Qed.

Lemma trunc_ops_key ss size kv o : o ∈ trunc_ops ss size kv -> op_key o = kv.1.
Proof.
  unfold trunc_ops. destruct (trunc_op ss size kv) as [ops|e|] eqn:E;
    [|by intros ?%elem_of_nil|by intros ?%elem_of_nil].
  revert E. unfold trunc_op. destruct (IsFragmentKey kv.1); cbn [negb].
  2: { intros [= <-] ?%elem_of_nil. done. }
  destruct (StripeIDFromFragmentKey kv.1) as [sid|e|]; cbn [obind]; [|done..].
  destruct (size <=? i64 (sid * ss)); [by intros [= <-] ->%list_elem_of_singleton|].
  destruct (decodeFragments_0 kv.2) as [f|e|]; cbn [obind]; [|done..].
  destruct (size <=? fr_LogicalOff f); [by intros [= <-] ->%list_elem_of_singleton|].
  destruct (size <? _); [by intros [= <-] ->%list_elem_of_singleton|].
  by intros [= <-] ?%elem_of_nil.
Qed.

(** The pairs of one inode. *)
Definition inode_scan m (inode : Z) (l : list (bytes * bytes)) : Prop :=
  NoDup l.*1 /\ forall k v, (k, v) ∈ l <-> m !! k = Some v /\ has_prefix (StripePrefix inode) k.

Lemma wp_inode_walk ss inode (Q : outcome (list (bytes * bytes)) -> Index P S -> Prop) ix :
  db_shape ss (contents (ix_db ix)) ->
  (forall l, inode_scan (contents (ix_db ix)) inode l -> Q (Ok l) ix) ->
  (forall e, Q (Err e) ix) ->
  wp (on_db (DB_walk (StripePrefix inode) (PrefixUpperBound (StripePrefix inode)))) Q ix.
Proof.
  intros Hs HO HE. apply wp_on_db, wp_DB_walk; [|intros e; rewrite with_db_id; apply HE].
  intros l Hsort Hl. rewrite with_db_id. apply HO. split; [by apply sorted_keys_NoDup|].
  by apply (prefix_pairs ss); [|apply StripePrefix_ok|].
Qed.

Lemma trunc_other ss size m inode l k :
  inode_scan m inode l -> ~ has_prefix (StripePrefix inode) k ->
  apply_ops (concat (trunc_ops ss size <$> l)) m !! k = m !! k.
Proof.
  intros [_ Hl] Hk. apply keyed_other; [apply trunc_ops_key|].
  intros ([k' v] & -> & Hin)%list_elem_of_fmap. by apply Hl in Hin as [_ ?].
Qed.

Lemma trunc_none ss size m inode l k :
  inode_scan m inode l -> m !! k = None ->
  apply_ops (concat (trunc_ops ss size <$> l)) m !! k = None.
Proof.
  intros [_ Hl] Hk. rewrite keyed_other; [done|apply trunc_ops_key|].
  intros ([k' v] & -> & Hin)%list_elem_of_fmap. apply Hl in Hin as [E _]. cbn in Hk. congruence.
Qed.

Lemma trunc_here ss size m inode l stripe f :
  stripe_size_ok ss -> in_i64 size -> in_u64 inode -> in_u32 stripe -> frag_shape ss stripe f ->
  inode_scan m inode l -> m !! FragmentKey inode stripe (fr_Seq f) = Some (encodeFragments [f]) ->
  apply_ops (concat (trunc_ops ss size <$> l)) m !! FragmentKey inode stripe (fr_Seq f) =
  if size <=? fr_LogicalOff f then None else Some (encodeFragments [clip size f]).
Proof.
  intros Hss Hsz Hi Hst Hsh [Hnd Hl] Hm.
  rewrite (keyed_here _ (trunc_ops_key ss size) l m _ (encodeFragments [f])); [|done|].
  - destruct (trunc_op_spec ss size inode stripe f) as (ops & E & _ & H); [done..|].
    unfold trunc_ops. rewrite E. by apply H.
  - apply Hl. split; [done|]. by apply prefix_StripePrefix_FragmentKey.
Qed.

(** The fragments after truncation. *)
Definition truncated m m' (inode size : Z) : Prop :=
  forall i f, in_u64 i -> frag_in m' i f <->
    (i <> inode /\ frag_in m i f) \/
    (i = inode /\ exists g, frag_in m inode g /\ fr_LogicalOff g < size /\ f = clip size g).

Lemma trunc_shape ss size m inode l :
  stripe_size_ok ss -> in_i64 size -> in_u64 inode -> db_shape ss m -> inode_scan m inode l ->
  db_shape ss (apply_ops (concat (trunc_ops ss size <$> l)) m).
Proof.
  intros Hss Hsz Hi Hs Hl. pose proof Hs as [Hb _]. split; intros k v Hk; destruct (m !! k) as [v0|] eqn:E.
  - by eapply Hb.
  - by rewrite (trunc_none _ _ _ inode) in Hk.
  - intros Hp. destruct (shape_pair _ _ _ _ Hs E Hp) as (i & s & f & Hi' & Hst & -> & -> & Hsh & _).
    destruct (decide (i = inode)) as [->|Hne].
    + rewrite (trunc_here ss size m inode l s f) in Hk by done.
      destruct (Z.leb_spec size (fr_LogicalOff f)); [done|]. injection Hk as <-.
      exists inode, s, (clip size f). split_and!; try done. by apply clip_shape.
    + rewrite (trunc_other _ _ m inode) in Hk; [|done|].
      * rewrite E in Hk. injection Hk as <-. by exists i, s, f.
      * by rewrite prefix_StripePrefix_FragmentKey.
  - by rewrite (trunc_none _ _ _ inode) in Hk.
Qed.

Lemma trunc_frag_in ss size m inode l :
  stripe_size_ok ss -> in_i64 size -> in_u64 inode -> db_shape ss m -> inode_scan m inode l ->
  truncated m (apply_ops (concat (trunc_ops ss size <$> l)) m) inode size.
Proof.
  intros Hss Hsz Hi Hs Hl i f Hi'. destruct (decide (i = inode)) as [->|Hne].
  - split.
    + intros (Ht & s & Hst & Hk). right. split; [done|].
      destruct (m !! FragmentKey inode s (fr_Seq f)) as [v0|] eqn:E;
        [|by rewrite (trunc_none _ _ _ inode) in Hk].
      destruct (shape_pair _ _ _ _ Hs E (prefix_StripeAll_FragmentKey _ _ _))
        as (i' & s' & g & Hi'' & Hs' & Ek & -> & Hsh & _).
      pose proof Ht as (Hq & _).
      pose proof Ek as Ek'. apply FragmentKey_inj in Ek' as (<- & <- & Eq); [|done..|by eapply shape_seq].
      rewrite Ek in Hk, E. rewrite (trunc_here ss size m inode l s g) in Hk by done.
      destruct (Z.leb_spec size (fr_LogicalOff g)); [done|]. apply (inj Some) in Hk.
      assert (frag_shape ss s (clip size g)) as Hsc by by apply clip_shape.
      apply encode_inj in Hk as <-; [|by eapply shape_typed|done].
      exists g. split_and!; [|done|done]. split; [by eapply shape_typed|]. by exists s.
    + intros [[? _]|(_ & g & Hg & Hlt & ->)]; [done|].
      destruct (frag_in_shape _ _ _ _ Hs Hi Hg) as (_ & s & Hst & Hsh & Hk).
      split; [eapply shape_typed; by apply clip_shape|]. exists s. split; [done|].
      cbn [clip fr_Seq]. rewrite (trunc_here ss size m inode l s g) by done. by z_case; [lia|].
  - assert (frag_in (apply_ops (concat (trunc_ops ss size <$> l)) m) i f <-> frag_in m i f) as ->.
    { unfold frag_in. do 2 f_equiv. intros s. f_equiv.
      split; intros Hk; [rewrite (trunc_other _ _ m inode) in Hk|rewrite (trunc_other _ _ m inode)];
        try done; by rewrite prefix_StripePrefix_FragmentKey by (done || apply Ht). }
    naive_solver.
Qed.

(** A change of the database alone. *)
Lemma with_db_index_ok ix p :
  index_ok ix -> db_shape (ix_stripeSize ix) (contents p) ->
  (forall i f, in_u64 i -> frag_in (contents p) i f -> resident ix f /\ fr_Seq f <= ix_seqGen ix) ->
  index_ok (with_db p ix).
Proof. intros (? & ? & ? & _ & _) Hs Hf. by split_and!. Qed.

Lemma with_db_grows ix p : ix_grows ix (with_db p ix).
Proof. change (ix_grows ix ix). reflexivity. Qed.

Lemma resident_clip ix size f : fr_LogicalOff f < size -> resident ix f -> resident ix (clip size f).
Proof. intros Hlt (d & Hd & Hle). exists d. split; [done|]. cbn. unfold tier_durable in *. lia. Qed.

Definition cut_at (size : Z) (c : Z -> option Z) (x : Z) : option Z := if x <? size then c x else None.

Lemma truncated_content ix p inode size x :
  index_ok ix -> index_ok (with_db p ix) -> in_u64 inode ->
  truncated (contents (ix_db ix)) (contents p) inode size ->
  content (with_db p ix) inode x = cut_at size (content ix inode) x.
Proof.
  intros Hok Hok' Hi Htr. unfold cut_at.
  assert (forall f, frag_in (contents p) inode f <->
    exists g, frag_in (contents (ix_db ix)) inode g /\ fr_LogicalOff g < size /\ f = clip size g) as Hin
    by (intros f; rewrite (Htr inode f Hi); naive_solver).
  destruct (Z.ltb_spec x size) as [Hx|Hx].
  - destruct (serves_or_hole ix inode x Hok Hi) as [[f Hf]|Hh].
    + rewrite (content_serves ix inode x f) by done. destruct Hf as (Hf & Hc & Hmax).
      rewrite (content_serves (with_db p ix) inode x (clip size f)); [reflexivity|done|done|].
      split_and!.
      * apply Hin. exists f. apply covers_true in Hc. split_and!; (done || lia).
      * by apply clip_covers.
      * intros g' (g & Hg & _ & ->)%Hin [Hc' _]%clip_covers. by apply (Hmax g).
    + rewrite !content_hole; try done.
      intros f' (g & Hg & _ & ->)%Hin. apply not_true_iff_false. intros [Hc _]%clip_covers.
      by rewrite Hh in Hc.
  - apply content_hole; [done..|]. intros f' (g & _ & _ & ->)%Hin.
    apply not_true_iff_false. intros [_ ?]%clip_covers. lia.
Qed.

Lemma trunc_written ix p inode size l :
  index_ok ix -> in_u64 inode -> in_i64 size -> inode_scan (contents (ix_db ix)) inode l ->
  contents p = apply_ops (concat (trunc_ops (ix_stripeSize ix) size <$> l)) (contents (ix_db ix)) ->
  wrote ix (with_db p ix) inode None (numbers []) (cut_at size (content ix inode)).
Proof.
  intros Hok Hi Hsz Hl Hp. pose proof Hok as (_ & Hss & _ & Hs & Hres).
  assert (truncated (contents (ix_db ix)) (contents p) inode size) as Htr
    by (rewrite Hp; by apply trunc_frag_in).
  assert (index_ok (with_db p ix)) as Hok'.
  { apply with_db_index_ok; [done|rewrite Hp; by eapply trunc_shape|].
    intros i f Hi' Hf. apply (Htr i f Hi') in Hf as [[_ Hf]|(-> & g & Hg & Hlt & ->)]; [by apply (Hres i)|].
    destruct (Hres inode g Hi Hg). split; [by apply resident_clip|done]. }
  split; [|split_and!; [done|cbn; lia|]].
  2: { intros i f Hi' Hf. left. apply (Htr i f Hi') in Hf as [[_ Hf]|(-> & g & Hg & _ & ->)]; [by exists f|].
    by exists g. }
  split_and!; [done| | |].
  - exists []. split; [done|]. intros k Hk. cbn [with_db ix_db]. rewrite Hp.
    apply (trunc_other _ _ _ inode); [done|]. intros Hpre. apply Hk.
    eapply has_prefix_trans; [apply prefix_StripePrefix_all|done].
  - intros x. by apply truncated_content.
  - intros i x Hi' Hne. apply content_same_frags; [done..|apply with_db_grows|].
    intros f. cbn [with_db ix_db]. rewrite (Htr i f Hi'). naive_solver.
Qed.

Lemma wp_on_db_commit ops ix (Q : outcome unit -> Index P S -> Prop) :
  index_ok ix ->
  (forall p, contents p = apply_ops ops (contents (ix_db ix)) -> Q (Ok tt) (with_db p ix)) ->
  (forall e p, contents p = apply_ops ops (contents (ix_db ix)) -> Q (Err e) (with_db p ix)) ->
  (forall e p, idled ix (with_db p ix) 0 (numbers []) -> Q (Err e) (with_db p ix)) ->
  wp (on_db (let* b := queue_all ops in Batch_Commit b true)) Q ix.
Proof.
  intros Hok HO HA HE. apply wp_on_db, wp_queue_commit; [done|].
  intros e p [Hp|Hp]; [|by apply HA]. apply HE.
  destruct (with_db_same ix p) as [Hokp Hcp]; [done..|].
  split; [split; [done|]; by split; [|intros]|by apply same_numbers].
Qed.

Lemma idled_at ix ix' i j Ps : idled ix ix' i (numbers []) -> idled ix ix' j Ps.
Proof.
  intros [Hu (H1 & H2 & H3)]. split; [done|]. split_and!; [done..|].
  intros k f Hk Hf. destruct (H3 k f Hk Hf) as [?|[_ (e & ?%elem_of_nil & _)]]; [by left|done].
Qed.

Lemma idled_refl ix i Ps : index_ok ix -> idled ix ix i Ps.
Proof. intros Hok. split; [done|by apply same_numbers]. Qed.

Lemma unchanged_refl ix : index_ok ix -> unchanged ix ix.
Proof. done. Qed.

Lemma wp_Truncate inode size ix (Q : outcome unit -> Index P S -> Prop) :
  index_ok ix -> in_u64 inode -> in_i64 size ->
  (forall p, wrote ix (with_db p ix) inode None (numbers []) (cut_at size (content ix inode)) ->
     Q (Ok tt) (with_db p ix)) ->
  (forall e p, idled ix (with_db p ix) inode (numbers []) \/
     wrote ix (with_db p ix) inode None (numbers []) (cut_at size (content ix inode)) ->
     Q (Err e) (with_db p ix)) ->
  wp (Truncate inode size) Q ix.
Proof.
  intros Hok Hi Hsz HO HE. pose proof Hok as (_ & Hss & _ & Hs & _). unfold Truncate.
  wp_step. apply wp_get. wp_step.
  apply (wp_inode_walk (ix_stripeSize ix)); [done| |].
  2: { intros e. rewrite <-(with_db_id ix). apply HE. left. rewrite with_db_id. by apply idled_refl. }
  intros l Hl. wp_step.
  apply wp_mfold with (I := fun p b ix' => ix' = ix /\ b = concat (trunc_ops (ix_stripeSize ix) size <$> p)).
  - done.
  - intros p [k v] q b ix' El [-> ->]. wp_step.
    assert ((k, v) ∈ l) as Hin by (rewrite El; set_solver). pose proof Hl as [_ Hl'].
    apply Hl' in Hin as [Hm Hp].
    destruct (shape_pair _ _ _ _ Hs Hm) as (i & s & f & Hi' & Hst & -> & -> & Hsh & _).
    { eapply has_prefix_trans; [apply prefix_StripePrefix_all|done]. }
    destruct (trunc_op_spec (ix_stripeSize ix) size i s f) as (ops & E & _); [done..|].
    rewrite E. apply wp_of_outcome. wp_step. split; [done|].
    rewrite fmap_app, concat_app. cbn [fmap list_fmap concat]. unfold trunc_ops at 3. by rewrite E, app_nil_r.
  - intros b ix' [-> ->]. apply wp_on_db_commit; [done|..].
    + intros p Hp. apply HO. by eapply trunc_written.
    + intros e p Hp. apply HE. right. by eapply trunc_written.
    + intros e p Hu. apply HE. left. by eapply idled_at.
Qed.

(** C17: truncation cuts the content of the file at the new size and nothing
    else: every byte below it is as before, every byte at or past it is gone,
    the other files, the other keys and the segments are untouched.  An error
    leaves everything as before or fully truncated, and there is no panic. *)
Theorem Truncate_cuts inode size ix :
  index_ok ix -> in_u64 inode -> in_i64 size ->
  let '(r, ix') := Truncate inode size ix in
  match r with
  | Ok _ => written ix ix' inode None (cut_at size (content ix inode)) /\
            ix_hot ix' = ix_hot ix /\ ix_cold ix' = ix_cold ix
  | Err _ => unchanged ix ix' \/ written ix ix' inode None (cut_at size (content ix inode))
  | Panic => False
  end.
Proof.
  intros Hok Hi Hsz. apply (wp_pair (Truncate inode size) (fun r ix' => match r with
    | Ok _ => written ix ix' inode None (cut_at size (content ix inode)) /\
              ix_hot ix' = ix_hot ix /\ ix_cold ix' = ix_cold ix
    | Err _ => unchanged ix ix' \/ written ix ix' inode None (cut_at size (content ix inode))
    | Panic => False
    end)). apply wp_Truncate; [done..|by intros p [? _]|].
  intros e p [[? _]|[? _]]; auto.
Qed.

(** ** Deletion *)

Lemma delete_lookup m inode l k :
  inode_scan m inode l ->
  (has_prefix (StripePrefix inode) k -> apply_ops (WDelete <$> l.*1) m !! k = None) /\
  (~ has_prefix (StripePrefix inode) k -> apply_ops (WDelete <$> l.*1) m !! k = m !! k).
Proof.
  intros [_ Hl]. rewrite apply_deletes. case_decide as Hin; split; intros Hp; try done.
  - apply list_elem_of_fmap in Hin as ([k' v] & -> & Hin). by apply Hl in Hin as [_ ?].
  - destruct (m !! k) as [v|] eqn:E; [|done]. destruct Hin.
    apply list_elem_of_fmap. exists (k, v). split; [done|]. by apply Hl.
Qed.

Lemma delete_frag_in m inode l i f :
  in_u64 inode -> in_u64 i -> inode_scan m inode l ->
  frag_in (apply_ops (WDelete <$> l.*1) m) i f <-> i <> inode /\ frag_in m i f.
Proof.
  intros Hi Hi' Hl. unfold frag_in. split.
  - intros (Ht & s & Hst & Hk).
    destruct (delete_lookup m inode l (FragmentKey i s (fr_Seq f)) Hl) as [Hn He].
    rewrite prefix_StripePrefix_FragmentKey in Hn, He by done.
    destruct (decide (i = inode)) as [->|Hne]; [by rewrite Hn in Hk|].
    split; [done|]. split; [done|]. exists s. rewrite <-He; [done|]. congruence.
  - intros (Hne & Ht & s & Hst & Hk).
    destruct (delete_lookup m inode l (FragmentKey i s (fr_Seq f)) Hl) as [_ He].
    rewrite prefix_StripePrefix_FragmentKey in He by done.
    split; [done|]. exists s. rewrite He by congruence. done.
Qed.

Lemma delete_written ix p inode l :
  index_ok ix -> in_u64 inode -> inode_scan (contents (ix_db ix)) inode l ->
  contents p = apply_ops (WDelete <$> l.*1) (contents (ix_db ix)) ->
  wrote ix (with_db p ix) inode None (numbers []) (fun _ => None).
Proof.
  intros Hok Hi Hl Hp. pose proof Hok as (_ & _ & _ & Hs & Hres).
  assert (forall k v, contents p !! k = Some v -> contents (ix_db ix) !! k = Some v) as Hsub.
  { intros k v. rewrite Hp, apply_deletes. by case_decide. }
  assert (index_ok (with_db p ix)) as Hok'.
  { apply with_db_index_ok; [done| |].
    - split; [intros k v Hk; by eapply (proj1 Hs), Hsub|]. intros k v Hk. by apply (proj2 Hs), Hsub.
    - intros i f Hi' (Ht & s & Hst & Hk). apply (Hres i); [done|]. split; [done|]. exists s. auto. }
  assert (forall i f, in_u64 i -> frag_in (contents p) i f <-> i <> inode /\ frag_in (contents (ix_db ix)) i f) as Hin
    by (intros i f Hi'; rewrite Hp; by apply delete_frag_in).
  split; [|split_and!; [done|cbn; lia|]].
  2: { intros i f Hi' Hf. left. exists f. split; [|done]. by apply (Hin i f Hi') in Hf as [_ ?]. }
  split_and!; [done| | |].
  - exists []. split; [done|]. intros k Hk. cbn [with_db ix_db]. rewrite Hp.
    apply (delete_lookup _ inode l k Hl). intros Hpre. apply Hk.
    eapply has_prefix_trans; [apply prefix_StripePrefix_all|done].
  - intros x. apply content_hole; [done..|]. intros f Hf. apply (Hin inode f Hi) in Hf. naive_solver.
  - intros i x Hi' Hne. apply content_same_frags; [done..|apply with_db_grows|].
    intros f. cbn [with_db ix_db]. rewrite (Hin i f Hi'). naive_solver.
Qed.

Lemma wp_DeleteInode inode ix (Q : outcome unit -> Index P S -> Prop) :
  index_ok ix -> in_u64 inode ->
  (forall p, wrote ix (with_db p ix) inode None (numbers []) (fun _ => None) -> Q (Ok tt) (with_db p ix)) ->
  (forall e p, idled ix (with_db p ix) inode (numbers []) \/
     wrote ix (with_db p ix) inode None (numbers []) (fun _ => None) -> Q (Err e) (with_db p ix)) ->
  wp (DeleteInode inode) Q ix.
Proof.
  intros Hok Hi HO HE. pose proof Hok as (_ & _ & _ & Hs & _). unfold DeleteInode. wp_step.
  apply (wp_inode_walk (ix_stripeSize ix)); [done| |].
  2: { intros e. rewrite <-(with_db_id ix). apply HE. left. rewrite with_db_id. by apply idled_refl. }
  intros l Hl. destruct l as [|kv l'] eqn:E.
  - wp_step. specialize (HO (ix_db ix)). rewrite with_db_id in HO. apply HO.
    rewrite <-(with_db_id ix) at 2. by apply (delete_written ix _ inode []).
  - rewrite <-E in *. apply wp_on_db_commit; [done|..].
    + intros p Hp. apply HO. by eapply delete_written.
    + intros e p Hp. apply HE. right. by eapply delete_written.
    + intros e p Hu. apply HE. left. by eapply idled_at.
Qed.

(** deleting an inode removes its whole content and nothing else.  An
    error leaves everything as before or fully deleted. *)
Theorem DeleteInode_empties inode ix :
  index_ok ix -> in_u64 inode ->
  let '(r, ix') := DeleteInode inode ix in
  match r with
  | Ok _ => written ix ix' inode None (fun _ => None)
  | Err _ => unchanged ix ix' \/ written ix ix' inode None (fun _ => None)
  | Panic => False
  end.
Proof.
  intros Hok Hi. apply (wp_pair (DeleteInode inode) (fun r ix' => match r with
    | Ok _ => written ix ix' inode None (fun _ => None)
    | Err _ => unchanged ix ix' \/ written ix ix' inode None (fun _ => None)
    | Panic => False
    end)). apply wp_DeleteInode; [done..|by intros p [? _]|].
  intros e p [[? _]|[? _]]; auto.
Qed.
End Maint.
