(* ===== verification/IndexMove.v ===== *)
(** * The storage engine: Move

    [Move] rewrites the fragment list of one stripe to its canonical view, in
    the target tier.  No byte of any file changes. *)

From S2P Require Import Prelude Keys Kv Fragment Plan Segment Layer Index IndexSpec IndexRead IndexAppend IndexMaint.

Lemma filter_all {A} (R : A -> Prop) `{!forall x, Decision (R x)} l : Forall R l -> filter R l = l.
Proof. induction 1; [done|]. rewrite filter_cons_True by done. by f_equal. Qed.

(** Runs of at least one byte in [lo, hi): no more than there are bytes. *)
Lemma runs_bound fs : forall lo hi,
  disjoint_runs fs -> (forall f, f ∈ fs -> 0 < fr_Length f /\ lo <= fr_LogicalOff f /\
    fr_LogicalOff f + fr_Length f <= hi) -> lo <= hi -> blen fs <= hi - lo.
Proof.
  induction fs as [|f fs IH]; intros lo hi Hd Hb Hle; [change (blen (@nil Fragment)) with 0; lia|].
  inversion_clear Hd as [|? ? Hd' Hf]. rewrite blen_cons. rewrite Forall_forall in Hf.
  destruct (Hb f) as (Hl & Ho & He); [left|].
  enough (blen fs <= hi - (fr_LogicalOff f + fr_Length f)) by lia.
  apply IH; [done| |lia]. intros g Hg. specialize (Hf g Hg).
  destruct (Hb g) as (? & ? & ?); [by right|]. lia.
Qed.

Section Move.
Context {P : Type} {PB : Pebble P} {PL : PebbleLaws P}.
Context {S : Type} {SL : SegLayer S} {SLL : SegLayerLaws S} {MR : MapRange}.
Implicit Types ix : Index P S.
Implicit Types m : gmap bytes bytes.
Implicit Types l : list (bytes * bytes).

(** ** Copying *)

(** The sets grew and the counter advanced; the database is as it was. *)
Definition advanced (ix ix' : Index P S) : Prop :=
  sets_ok ix' /\ ix_grows ix ix' /\ ix_db ix' = ix_db ix /\
  ix_seqGen ix <= ix_seqGen ix' < 2^64.

Lemma advanced_kept ix ix1 ix2 : advanced ix ix1 -> kept ix1 ix2 -> advanced ix ix2.
Proof.
  intros (_ & G1 & D1 & Q1) (O2 & G2 & D2 & Q2).
  split_and!; [done|by etrans|congruence|lia|lia].
Qed.

(** The same, with the counter at most [n]. *)
Definition advanced_upto (n : Z) (ix ix' : Index P S) : Prop := advanced ix ix' /\ ix_seqGen ix' <= n.

Lemma upto_kept n ix ix1 ix2 : advanced_upto n ix ix1 -> kept ix1 ix2 -> advanced_upto n ix ix2.
Proof. intros [Ha Hn] Hk. split; [by eapply advanced_kept|]. destruct Hk as (_ & _ & _ & ->). done. Qed.

Lemma advanced_unchanged ix ix' : index_ok ix -> advanced ix ix' -> unchanged ix ix'.
Proof.
  intros Hok (Ho & Hg & Hd & Hq). pose proof Hok as (_ & _ & Hu & _). unfold in_u64 in Hu.
  assert (index_ok ix') as Hok'
    by (apply (index_ok_grows ix); try done; [by rewrite Hd|lia|unfold in_u64; lia]).
  split; [done|]. split; [by rewrite Hd|]. intros i x Hi. apply content_grows; try done. by rewrite Hd.
Qed.

(** [h] is [g], its bytes in [target]. *)
Definition moved_as (ix ix' : Index P S) (target : Z) (g h : Fragment) : Prop :=
  fragment_ok h /\ resident ix' h /\ fr_Tier h = target /\
  fr_LogicalOff h = fr_LogicalOff g /\ fr_Length h = fr_Length g /\
  forall x, covers g x = true -> fetch ix' (fragment_source h x) = fetch ix (fragment_source g x).

Lemma moved_grows ix ix1 ix2 target g h :
  sets_ok ix1 -> ix_grows ix1 ix2 -> moved_as ix ix1 target g h -> moved_as ix ix2 target g h.
Proof.
  intros Hok Hg (Hf & Hr & Ht & Ho & Hl & Hx). split_and!; try done; [by eapply resident_grows|].
  intros x Hc. rewrite <-Hx by done. apply fetch_grows; try done.
  unfold covers in *. by rewrite Ho, Hl.
Qed.

Definition reseq (g : Fragment) (q : Z) : Fragment :=
  mkFragment q (fr_LogicalOff g) (fr_Length g) (fr_Tier g) (fr_SegmentID g) (fr_SegmentOffset g).

Lemma moved_reseq ix ix' g q :
  sets_ok ix -> fragment_ok g -> resident ix g -> in_u64 q -> ix_grows ix ix' ->
  moved_as ix ix' (fr_Tier g) g (reseq g q).
Proof.
  intros Hok Hg Hr Hq Hgr. split_and!; try done.
  - destruct Hg as (_ & ?). by split.
  - by apply (resident_grows ix ix' g).
  - intros x Hc. by apply (fetch_grows ix ix' g).
Qed.

(** A copied run. *)
Lemma moved_copy ix ix' target g q seg off d buf :
  fragment_ok g -> in_u64 q -> (target = TierHot \/ target = TierCold) -> in_u32 seg ->
  tier_data ix (fr_Tier g) !! fr_SegmentID g = Some d ->
  0 <= fr_SegmentOffset g -> fr_SegmentOffset g + fr_Length g <= blen d ->
  buf = slice d (fr_SegmentOffset g) (fr_SegmentOffset g + fr_Length g) -> blen buf = fr_Length g ->
  holds_payload ix' (is_cold target) seg off buf -> all_durable ix' (is_cold target) seg ->
  moved_as ix ix' target g (mkFragment q (fr_LogicalOff g) (fr_Length g) target seg off).
Proof.
  intros (Hq & Ho & Hl & He & _ & _ & _ & _) Hq' Ht Hs Hd Hso Hse Hb Hlen
    (Hoff & Hm & d' & Hd' & Hle & Hsl) Hdur. rewrite Hlen in *.
  split_and!; try done.
  - split_and!; cbn; try done. by destruct Ht as [-> | ->].
  - exists d'. unfold tier_data, tier_durable. cbn [fr_Tier fr_SegmentID fr_SegmentOffset fr_Length].
    rewrite (Hdur d' Hd'). done.
  - intros x Hc. apply covers_true in Hc. unfold fetch, fragment_source.
    cbn [fr_Tier fr_SegmentID fr_SegmentOffset fr_LogicalOff]. rewrite Hd.
    unfold tier_data. rewrite Hd'.
    rewrite <-(byte_at_slice d' off (off + fr_Length g)) by lia.
    rewrite Hsl, Hb, byte_at_slice by lia. done.
Qed.

Lemma wp_move_one inode stripe target acc g ix0 ix (Q : outcome (list Fragment) -> Index P S -> Prop) :
  sets_ok ix0 -> sets_clean ix -> advanced ix0 ix -> ix_seqGen ix + 1 < 2^64 -> 0 <= ix_seqGen ix ->
  in_u64 inode -> in_u32 stripe -> (target = TierHot \/ target = TierCold) ->
  fragment_ok g -> fr_Length g < 2^32 -> resident ix0 g ->
  (forall h ix', advanced ix0 ix' -> ix_grows ix ix' -> sets_clean ix' ->
     ix_seqGen ix' = ix_seqGen ix + 1 -> fr_Seq h = ix_seqGen ix' ->
     moved_as ix0 ix' target g h -> Q (Ok (acc ++ [h])) ix') ->
  (forall e ix', advanced_upto (ix_seqGen ix + 1) ix0 ix' -> Q (Err e) ix') ->
  wp (move_one inode stripe target acc g) Q ix.
Proof.
  intros Hok0 Hcl Hadv Hlt Hge Hi Hst Ht Hg Hlen Hr HO HE. unfold move_one.
  set (q := ix_seqGen ix + 1). set (ix1 := with_seqGen q ix).
  wp_step. apply wp_nextSeq; [done|done|]. fold q ix1.
  assert (advanced_upto q ix0 ix1) as Hadv1.
  { destruct Hadv as (? & ? & ? & ?). split; [|done]. split_and!; try done; cbn; lia. }
  assert (in_u64 q) as Hq by (unfold in_u64, q; lia).
  pose proof Hadv1 as ((Hok1 & Hg1 & _) & _).
  destruct (Z.eqb_spec (fr_Tier g) target) as [<-|Hne].
  { wp_step. apply (HO (reseq g q) ix1); [apply Hadv1|change (ix_grows ix ix); reflexivity|done..|].
    by apply moved_reseq. }
  assert (fragment_ok g) as (_ & Ho & Hl & He & _ & _ & _) by done.
  rewrite (proj2 (Z.ltb_ge (fr_Length g) 0)) by lia. wp_step. apply wp_get.
  destruct (resident_slice ix0 g Hok0 Hg Hr) as (d0 & Hd0 & Hso & Hse0).
  destruct (Hg1) as [_ Hgc]. destruct (Hgc (is_cold (fr_Tier g))) as [X _].
  destruct (X _ _ Hd0) as (t & Hd). pose proof (blen_nonneg t).
  rewrite lv_get, bool_decide_eq_true_2 by eauto. cbn [negb].
  wp_step. eapply wp_read_seg; [done|exact Hd|lia| |].
  2: { intros e ix2 Hk _. apply HE. eapply upto_kept; [done|apply Hk]. }
  intros buf ix2 Hk2 Hbl Hbuf. rewrite blen_app, slice_app_l in Hbuf by lia. specialize (Hbuf Hso ltac:(lia)).
  pose proof Hk2 as [(Hok2 & _) Hc2]. wp_step.
  apply wp_active; [done| |].
  2: { intros e ix3 Hk. apply HE. eapply upto_kept; [by eapply upto_kept; [|apply Hk2]|apply Hk]. }
  intros seg ix3 Hk3 Hlive. pose proof Hk3 as [(Hok3 & _) Hc3]. wp_step.
  assert (sets_clean ix3) as Hcl3 by auto.
  assert (advanced_upto q ix0 ix3) as Hadv3.
  { eapply upto_kept; [by eapply upto_kept; [|apply Hk2]|apply Hk3]. }
  assert (in_u32 seg) as Hseg.
  { destruct Hlive as [ds Hds]. by destruct (lv_bounds _ _ _ (sets_ok_of _ (is_cold target) Hok3) Hds). }
  assert (ix_grows ix1 ix3) as Hg13 by (etrans; [apply Hk2|apply Hk3]).
  apply wp_append; [done|done|done| | | |].
  { split_and!; cbn; [done|done|done|unfold in_i64; lia|apply u32_range]. }
  { rewrite Hbuf. apply bytes_ok_slice. apply (Forall_app in_u8 d0 t).
    eapply lv_bytes; [by apply (sets_ok_of ix1)|by apply (sets_clean_of ix1)|exact Hd]. }
  2: { intros e ix4 Hk. apply HE. by eapply upto_kept. }
  intros off ix4 Hk4 _ Hp. pose proof Hk4 as [(Hok4 & _) Hc4]. wp_step.
  apply wp_sync_seg; [done|destruct Hp as (_ & _ & ds & Hds & _); eauto| |].
  2: { intros e ix5 Hk. apply HE. eapply upto_kept; [by eapply upto_kept; [|apply Hk4]|apply Hk]. }
  intros ix5 Hk5 Hqt Hdur. pose proof Hk5 as [(Hok5 & Hg5 & _ & Hq5) Hc5].
  assert (advanced_upto q ix0 ix5) as Hadv5.
  { eapply upto_kept; [by eapply upto_kept; [|apply Hk4]|apply Hk5]. }
  assert (ix_seqGen ix5 = q) as Eq.
  { destruct Hk2 as [(_ & _ & _ & E2) _], Hk3 as [(_ & _ & _ & E3) _], Hk4 as [(_ & _ & _ & E4) _].
    rewrite Hq5, E4, E3, E2. done. }
  wp_step. apply HO; [apply Hadv5| |by auto|done|done|].
  - transitivity ix1; [change (ix_grows ix ix); reflexivity|]. etrans; [exact Hg13|].
    etrans; [apply Hk4|apply Hk5].
  - eapply (moved_copy ix0 ix5 target g q seg off d0 buf); try done.
    by eapply holds_grows.
Qed.

(** Numbered upwards from [q]. *)
Definition numbered (q q' : Z) (fs : list Fragment) : Prop :=
  StronglySorted (fun a b => fr_Seq a < fr_Seq b) fs /\ forall f, f ∈ fs -> q < fr_Seq f <= q'.

Lemma numbered_snoc q q' fs h : numbered q q' fs -> fr_Seq h = q' + 1 -> q <= q' -> numbered q (q' + 1) (fs ++ [h]).
Proof.
  intros [Hs Hb] Hh Hq. split.
  - apply StronglySorted_app_2; [|done|by repeat constructor].
    intros a b Ha ->%list_elem_of_singleton. specialize (Hb a Ha). lia.
  - intros f [Hf| ->%list_elem_of_singleton]%elem_of_app; [specialize (Hb f Hf)|]; lia.
Qed.

Lemma wp_move_all inode stripe target view ix (Q : outcome (list Fragment) -> Index P S -> Prop) :
  sets_ok ix -> sets_clean ix -> 0 <= ix_seqGen ix -> ix_seqGen ix + blen view < 2^64 ->
  in_u64 inode -> in_u32 stripe -> (target = TierHot \/ target = TierCold) ->
  (forall g, g ∈ view -> fragment_ok g /\ fr_Length g < 2^32 /\ resident ix g) ->
  (forall new ix', advanced ix ix' -> sets_clean ix' -> Forall2 (moved_as ix ix' target) view new ->
     numbered (ix_seqGen ix) (ix_seqGen ix') new -> ix_seqGen ix' <= ix_seqGen ix + blen view -> Q (Ok new) ix') ->
  (forall e ix', advanced_upto (ix_seqGen ix + blen view) ix ix' -> Q (Err e) ix') ->
  wp (mfold (move_one inode stripe target) [] view) Q ix.
Proof.
  intros Hok Hcl Hge Hlt Hi Hst Ht Hv HO HE.
  apply wp_mfold with (I := fun p acc ix' => advanced ix ix' /\ sets_clean ix' /\
    ix_seqGen ix' = ix_seqGen ix + blen p /\ Forall2 (moved_as ix ix' target) p acc /\
    numbered (ix_seqGen ix) (ix_seqGen ix') acc).
  - pose proof (blen_nonneg view). change (blen (@nil Fragment)) with 0.
    split_and!; [split_and!; [done|reflexivity|done|lia|lia]|done|lia|constructor|].
    split; [constructor|]. by intros f ?%elem_of_nil.
  - intros p g q acc ix' Hl (Hadv & Hc & Hq & HF & Hnum).
    assert (blen view = blen p + 1 + blen q) as Hlen by (rewrite Hl, blen_app, blen_cons; lia).
    pose proof (blen_nonneg p). pose proof (blen_nonneg q).
    destruct (Hv g) as (Hg & Hg32 & Hr); [rewrite Hl; set_solver|].
    apply (wp_move_one inode stripe target acc g ix); try done; try lia.
    2: { intros e ix2 [Hadv2 Hn]. apply HE. split; [done|lia]. }
    intros h ix2 Hadv2 Hg2 Hc2 Hq2 Hh Hm.
    assert (blen (p ++ [g]) = blen p + 1) as Hpg by (rewrite blen_app; change (blen [g]) with 1; lia).
    split_and!; [done|done|lia| |].
    + apply Forall2_app; [|constructor; [exact Hm|constructor]]. eapply Forall2_impl; [exact HF|].
      intros a b Hab. destruct Hadv as (Hok1 & _). by apply (moved_grows ix ix' ix2).
    + rewrite Hq2. apply numbered_snoc; [done|congruence|lia].
  - intros new ix' (Hadv & Hc & Hq & HF & Hnum). apply HO; try done; lia.
Qed.

(** ** The stripe and its view *)

(** The live fragments of one stripe. *)
Definition stripe_frag m (inode stripe : Z) (f : Fragment) : Prop :=
  fragment_typed f /\ m !! FragmentKey inode stripe (fr_Seq f) = Some (encodeFragments [f]).

Definition stripe_scan m (inode stripe : Z) (l : list (bytes * bytes)) : Prop :=
  forall k v, (k, v) ∈ l <-> m !! k = Some v /\ has_prefix (FragmentStripePrefix inode stripe) k.

Lemma frag_in_stripe m inode f :
  frag_in m inode f <-> exists stripe, in_u32 stripe /\ stripe_frag m inode stripe f.
Proof. unfold frag_in, stripe_frag. naive_solver. Qed.

Lemma stripe_frag_in m inode stripe f : in_u32 stripe -> stripe_frag m inode stripe f -> frag_in m inode f.
Proof. rewrite frag_in_stripe. eauto. Qed.

Lemma stripe_frag_shape ss m inode stripe f :
  db_shape ss m -> in_u64 inode -> in_u32 stripe -> stripe_frag m inode stripe f ->
  frag_shape ss stripe f.
Proof.
  intros Hs Hi Hst [Ht Hl]. pose proof Ht as (Hq & _).
  destruct (shape_pair _ _ _ _ Hs Hl (prefix_StripeAll_FragmentKey _ _ _))
    as (i' & s' & g & Hi' & Hs' & Ek & Ev & Hg & _).
  apply encode_inj in Ev as <-; [|done|by eapply shape_typed].
  apply FragmentKey_inj in Ek as (_ & <- & _); done.
Qed.

(** A pair of the scan of one stripe. *)
Lemma stripe_pair ss m inode stripe l k v :
  db_shape ss m -> in_u64 inode -> in_u32 stripe -> stripe_scan m inode stripe l -> (k, v) ∈ l ->
  exists f, stripe_frag m inode stripe f /\ k = FragmentKey inode stripe (fr_Seq f) /\
    v = encodeFragments [f].
Proof.
  intros Hs Hi Hst Hl Hin. apply Hl in Hin as [Hm Hp].
  destruct (shape_pair _ _ _ _ Hs Hm) as (i & s & f & Hi' & Hs' & -> & -> & Hsh & _).
  { eapply has_prefix_trans; [apply (has_prefix_trans _ (StripePrefix inode));
      [apply prefix_StripePrefix_all|apply prefix_FragmentStripePrefix_StripePrefix]|done]. }
  apply prefix_FragmentStripePrefix_FragmentKey in Hp as [-> ->]; try done.
  exists f. split_and!; try done. split; [by eapply shape_typed|done].
Qed.

Lemma elem_of_stripe_scan ss m inode stripe l f :
  db_shape ss m -> in_u64 inode -> in_u32 stripe -> stripe_scan m inode stripe l ->
  f ∈ frags_of_pairs l <-> stripe_frag m inode stripe f.
Proof.
  intros Hs Hi Hst Hl. rewrite (elem_of_frags_of_pairs ss m); [|done|].
  - split.
    + intros (Ht & i & s & Hi' & Hs' & Hin). split; [done|]. pose proof Ht as (Hq & _).
      pose proof Hin as Hin'. apply Hl in Hin' as [Hm Hp].
      by apply prefix_FragmentStripePrefix_FragmentKey in Hp as [-> ->].
    + intros [Ht Hm]. split; [done|]. exists inode, stripe. split_and!; [done..|]. apply Hl.
      split; [done|]. by apply prefix_FragmentStripePrefix_FragmentKey.
  - intros k v Hin. destruct (stripe_pair _ _ _ _ _ _ _ Hs Hi Hst Hl Hin) as (f' & [_ Hm] & -> & ->).
    split; [done|apply prefix_StripeAll_FragmentKey].
Qed.

Lemma move_snapshot_keys ss m inode stripe l :
  db_shape ss m -> in_u64 inode -> in_u32 stripe -> stripe_scan m inode stripe l ->
  move_snapshot l = (l.*1, frags_of_pairs l).
Proof.
  intros Hs Hi Hst Hl. unfold move_snapshot. f_equal. f_equal.
  apply filter_all. apply Forall_forall. intros [k v] Hin.
  destruct (stripe_pair _ _ _ _ _ _ _ Hs Hi Hst Hl Hin) as (f & _ & -> & _).
  apply IsFragmentKey_true.
Qed.

(** ** The swap *)

Definition new_pairs (inode stripe : Z) (new : list Fragment) : list (bytes * bytes) :=
  (fun f => (FragmentKey inode stripe (fr_Seq f), encodeFragments [f])) <$> new.

Lemma new_pairs_NoDup inode stripe q q' new :
  in_u64 inode -> in_u32 stripe -> (forall f, f ∈ new -> in_u64 (fr_Seq f)) -> numbered q q' new ->
  NoDup (new_pairs inode stripe new).*1.
Proof.
  intros Hi Hst Hu [Hs _]. unfold new_pairs. induction Hs as [|f fs _ IH Hf]; [constructor|].
  cbn. constructor; [|apply IH; intros g Hg; apply Hu; by right].
  rewrite <-list_fmap_compose. intros (g & E & Hg)%list_elem_of_fmap. rewrite Forall_forall in Hf.
  specialize (Hf g Hg). cbn in E. apply FragmentKey_inj in E as (_ & _ & E); try done;
    [lia|apply Hu; left|apply Hu; by right].
Qed.

Lemma swap_split m inode stripe l new :
  apply_ops (swap_ops inode stripe l.*1 new) m =
  apply_ops (set_ops (new_pairs inode stripe new)) (apply_ops (WDelete <$> l.*1) m).
Proof.
  unfold swap_ops. rewrite apply_ops_app. f_equal. unfold set_ops, new_pairs.
  by rewrite <-list_fmap_compose.
Qed.

Lemma swap_in m inode stripe l new q q' k v :
  in_u64 inode -> in_u32 stripe -> (forall f, f ∈ new -> in_u64 (fr_Seq f)) -> numbered q q' new ->
  stripe_scan m inode stripe l -> has_prefix (FragmentStripePrefix inode stripe) k ->
  apply_ops (swap_ops inode stripe l.*1 new) m !! k = Some v <-> (k, v) ∈ new_pairs inode stripe new.
Proof.
  intros Hi Hst Hu Hnum Hl Hk. rewrite swap_split.
  pose proof (new_pairs_NoDup inode stripe q q' new Hi Hst Hu Hnum) as Hnd.
  destruct (decide (k ∈ (new_pairs inode stripe new).*1)) as [Hin|Hin].
  - apply list_elem_of_fmap in Hin as ([k' v'] & -> & Hin). cbn [fst] in *.
    rewrite (apply_sets_in _ _ _ v') by done. split; [by intros [= <-]|].
    intros Hin'. f_equal. apply list_elem_of_lookup in Hin as [a Ha].
    apply list_elem_of_lookup in Hin' as [b Hb]. assert (a = b) as ->; [|congruence].
    eapply NoDup_lookup; [exact Hnd| |]; rewrite list_lookup_fmap; [by rewrite Ha|by rewrite Hb].
  - rewrite apply_sets_notin, apply_deletes by done. split.
    + case_decide as Hd; [done|]. intros Hm. destruct Hd. apply list_elem_of_fmap. exists (k, v).
      split; [done|]. by apply Hl.
    + intros Hv. destruct Hin. apply list_elem_of_fmap. by exists (k, v).
Qed.

Lemma swap_other m inode stripe l new k :
  in_u64 inode -> in_u32 stripe -> (forall f, f ∈ new -> in_u64 (fr_Seq f)) ->
  stripe_scan m inode stripe l -> ~ has_prefix (FragmentStripePrefix inode stripe) k ->
  apply_ops (swap_ops inode stripe l.*1 new) m !! k = m !! k.
Proof.
  intros Hi Hst Hu Hl Hk. rewrite swap_split, apply_sets_notin, apply_deletes.
  - rewrite decide_False; [done|]. intros ([k' v] & -> & Hin)%list_elem_of_fmap. by apply Hl in Hin as [_ ?].
  - unfold new_pairs. rewrite <-list_fmap_compose. intros (f & -> & Hf)%list_elem_of_fmap. apply Hk.
    apply prefix_FragmentStripePrefix_FragmentKey; try done; by apply Hu.
Qed.

(** The fragments after the swap. *)
Lemma swap_frag m inode stripe l new q q' i s f :
  in_u64 inode -> in_u32 stripe -> in_u64 i -> in_u32 s ->
  (forall f, f ∈ new -> fragment_typed f) -> numbered q q' new -> stripe_scan m inode stripe l ->
  stripe_frag (apply_ops (swap_ops inode stripe l.*1 new) m) i s f <->
  if decide (i = inode /\ s = stripe) then f ∈ new else stripe_frag m i s f.
Proof.
  intros Hi Hst Hi' Hs Hty Hnum Hl. unfold stripe_frag.
  assert (forall f, f ∈ new -> in_u64 (fr_Seq f)) as Hu by (intros g Hg; by destruct (Hty g Hg)).
  case_decide as Hd.
  - destruct Hd as [-> ->]. split.
    + intros [Ht Hm]. pose proof Ht as (Hq & _).
      rewrite (swap_in m inode stripe l new q q') in Hm; try done.
      * apply list_elem_of_fmap in Hm as (g & E & Hg). apply pair_eq in E as [Ek Ev].
        apply encode_inj in Ev as ->; [done|done|by apply Hty].
      * by apply prefix_FragmentStripePrefix_FragmentKey.
    + intros Hf. split; [by apply Hty|]. apply (swap_in m inode stripe l new q q'); try done.
      * apply prefix_FragmentStripePrefix_FragmentKey; try done; by apply Hu.
      * apply list_elem_of_fmap. by exists f.
  - split; intros [Ht Hm]; (split; [done|]); pose proof Ht as (Hq & _);
      [rewrite swap_other in Hm|rewrite swap_other]; try done;
      intros Hp; apply Hd; by apply prefix_FragmentStripePrefix_FragmentKey in Hp as [-> ->].
Qed.

(** ** Content after the swap *)

(** The stripe is rewritten: no byte of any file changed, no other key, and the
    stripe has one fragment per byte, in [target]. *)
Definition recanonicalised (ix ix' : Index P S) (inode stripe target : Z) : Prop :=
  index_ok ix' /\ hooked None (ix_db ix) (ix_db ix') /\
  (forall i x, in_u64 i -> content ix' i x = content ix i x) /\
  (forall f, stripe_frag (contents (ix_db ix')) inode stripe f -> fr_Tier f = target) /\
  (forall f g x, stripe_frag (contents (ix_db ix')) inode stripe f ->
     stripe_frag (contents (ix_db ix')) inode stripe g ->
     covers f x = true -> covers g x = true -> f = g).

Section Swap.
Context (ix ix1 : Index P S) (p : P) (inode stripe target : Z) (l : list (bytes * bytes)).
Context (view new : list Fragment).
Hypothesis Hok : index_ok ix.
Hypothesis Hi : in_u64 inode.
Hypothesis Hst : in_u32 stripe.
Hypothesis Ht : target = TierHot \/ target = TierCold.
Hypothesis Hl : stripe_scan (contents (ix_db ix)) inode stripe l.
Hypothesis Hview : view = canonicalView (frags_of_pairs l).
Hypothesis Hadv : advanced ix ix1.
Hypothesis HF : Forall2 (moved_as ix ix1 target) view new.
Hypothesis Hnum : numbered (ix_seqGen ix) (ix_seqGen ix1) new.
Hypothesis Hp : contents p = apply_ops (swap_ops inode stripe l.*1 new) (contents (ix_db ix)).

Let m := contents (ix_db ix).
Let ss := ix_stripeSize ix.
Let old := frags_of_pairs l.

Lemma mv_shape : db_shape ss m.
Proof using Hok. by destruct Hok as (_ & _ & _ & ? & _). Qed.

Lemma mv_old f : f ∈ old <-> stripe_frag m inode stripe f.
Proof using Hok Hi Hst Hl. apply (elem_of_stripe_scan ss); [apply mv_shape|done..]. Qed.

Lemma mv_old_in f : f ∈ old -> frag_in m inode f.
Proof using Hok Hi Hst Hl. intros Hf%mv_old. by eapply stripe_frag_in. Qed.

Lemma mv_old_ok : Forall fragment_ok old.
Proof using Hok Hi Hst Hl. apply (frags_ok ss m inode); [apply mv_shape|done|apply mv_old_in]. Qed.

Lemma mv_old_distinct : seqs_distinct old.
Proof using Hok Hi Hst Hl.
  pose proof Hok as (_ & [Hss _] & _).
  apply (frags_distinct ss m inode); [done|apply mv_shape|done|apply mv_old_in].
Qed.

Lemma mv_view : view = view_sorted (sort_desc old).
Proof using Hview. done. Qed.

Lemma mv_view_disjoint : disjoint_runs view.
Proof using Hok Hi Hst Hl Hview.
  rewrite mv_view. apply (view_sorted_disjoint old);
    [apply mv_old_ok|apply mv_old_distinct|apply sort_desc_perm|apply sort_desc_sorted].
Qed.

(** A run of the view is part of a live fragment of the stripe, the newest on
    all its bytes. *)
Lemma mv_run g :
  g ∈ view -> exists f, stripe_frag m inode stripe f /\ run_of f g /\
    forall x, covers g x = true -> newest old x = Some f.
Proof using Hok Hi Hst Hl Hview.
  rewrite mv_view. intros Hg.
  destruct (view_sorted_run old (sort_desc old) mv_old_ok mv_old_distinct (sort_desc_perm _)
    (sort_desc_sorted _) g Hg) as (f & Hf & Hr & Hn). exists f. split; [by apply mv_old|done].
Qed.

Lemma mv_run_shape g : g ∈ view -> frag_shape ss stripe g.
Proof using Hok Hi Hst Hl Hview.
  intros Hg. destruct (mv_run g Hg) as (f & Hf & (R1 & R2 & R3 & R4 & R5 & R6 & R7) & _).
  apply (stripe_frag_shape ss m inode stripe) in Hf as (Hfo & Hlo & Hhi & Htr); [|apply mv_shape|done..].
  split_and!; [|lia|lia|by rewrite R2].
  pose proof (view_sorted_ok old (sort_desc old) mv_old_ok mv_old_distinct (sort_desc_perm _)
    (sort_desc_sorted _)) as Hv. rewrite Forall_forall in Hv. apply Hv. by rewrite <-mv_view.
Qed.

Lemma mv_run_resident g : g ∈ view -> resident ix g.
Proof using Hok Hi Hst Hl Hview.
  intros Hg. destruct (mv_run g Hg) as (f & Hf & (R1 & R2 & R3 & R4 & R5 & R6 & R7) & _).
  pose proof Hok as (_ & _ & _ & _ & Hres).
  destruct (Hres inode f Hi) as [(d & Hd & Hle) _]; [by eapply stripe_frag_in|].
  exists d. rewrite R2, R3. split; [done|]. lia.
Qed.

Lemma mv_new h :
  h ∈ new -> exists g, g ∈ view /\ moved_as ix ix1 target g h.
Proof using HF. intros Hh. apply (Forall2_elem_r _ _ _ _ HF Hh). Qed.

Lemma mv_new_shape h : h ∈ new -> frag_shape ss stripe h.
Proof using Hok Hi Hst Hl Hview HF Ht.
  intros Hh. destruct (mv_new h Hh) as (g & Hg & Hf & _ & Hth & Ho & Hle & _).
  destruct (mv_run_shape g Hg) as (_ & Hlo & Hhi & _). split_and!; [done|lia|lia|by rewrite Hth].
Qed.

Lemma mv_frag i s f :
  in_u64 i -> in_u32 s ->
  stripe_frag (contents p) i s f <->
  if decide (i = inode /\ s = stripe) then f ∈ new else stripe_frag m i s f.
Proof using Hok Hi Hst Hl Hview HF Ht Hnum Hp.
  intros Hi' Hs. rewrite Hp. apply (swap_frag m inode stripe l new (ix_seqGen ix) (ix_seqGen ix1)); try done.
  intros h Hh. eapply shape_typed. by apply mv_new_shape.
Qed.

Lemma mv_new_unique f g x :
  f ∈ new -> g ∈ new -> covers f x = true -> covers g x = true -> f = g.
Proof using Hok Hi Hst Hl Hview HF.
  apply disjoint_runs_unique.
  pose proof mv_view_disjoint as Hv.
  clear -HF Hv. revert Hv. induction HF as [|g h view new (_ & _ & _ & Ho & Hl & _) HF' IH];
    intros Hv; [constructor|].
  inversion_clear Hv as [|? ? Hv' Hf]. constructor; [by apply IH|].
  rewrite Forall_forall in *. intros h' (g' & Hg' & (_ & _ & _ & Ho' & _))%(Forall2_elem_r _ _ _ _ HF').
  rewrite Ho, Hl, Ho'. by apply Hf.
Qed.

Lemma mv_frag_in i f :
  in_u64 i -> frag_in (contents p) i f <->
  (i = inode /\ f ∈ new) \/
  exists s, in_u32 s /\ ~ (i = inode /\ s = stripe) /\ stripe_frag m i s f.
Proof using Hok Hi Hst Hl Hview HF Ht Hnum Hp.
  intros Hi'. rewrite frag_in_stripe. split.
  - intros (s & Hs & Hf). apply mv_frag in Hf; [|done..]. case_decide as Hd; [left; naive_solver|].
    right. eauto.
  - intros [[-> Hf]|(s & Hs & Hne & Hf)].
    + exists stripe. split; [done|]. apply mv_frag; [done..|]. by rewrite decide_True.
    + exists s. split; [done|]. apply mv_frag; [done..|]. by rewrite decide_False.
Qed.

Lemma mv_frag_other i f : in_u64 i -> i <> inode -> frag_in (contents p) i f -> frag_in m i f.
Proof using Hok Hi Hst Hl Hview HF Ht Hnum Hp.
  intros Hi' Hne Hf. apply mv_frag_in in Hf as [[-> _]|(s & Hs & _ & Hf)]; [done| |done]. by eapply stripe_frag_in.
Qed.

Lemma mv_keys k :
  ~ has_prefix (FragmentStripePrefix inode stripe) k -> contents p !! k = m !! k.
Proof using Hok Hi Hst Hl Hview HF Ht Hp.
  intros Hk. rewrite Hp. apply swap_other; try done.
  intros h Hh. eapply shape_seq. by apply mv_new_shape.
Qed.

Lemma mv_db_shape : db_shape ss (contents p).
Proof using Hok Hi Hst Hl Hview HF Ht Hnum Hp.
  pose proof mv_shape as [Hb Hs].
  assert (forall f, f ∈ new -> in_u64 (fr_Seq f)) as Hu by (intros h Hh; eapply shape_seq; by apply mv_new_shape).
  split; intros k v Hk; destruct (decide (has_prefix (FragmentStripePrefix inode stripe) k)) as [Hpre|Hpre].
  - rewrite Hp in Hk. apply (swap_in _ _ _ _ _ (ix_seqGen ix) (ix_seqGen ix1)) in Hk; try done.
    apply list_elem_of_fmap in Hk as (h & [= -> ->] & _). apply FragmentKey_ok.
  - rewrite mv_keys in Hk by done. by eapply Hb.
  - intros _. rewrite Hp in Hk. apply (swap_in _ _ _ _ _ (ix_seqGen ix) (ix_seqGen ix1)) in Hk; try done.
    apply list_elem_of_fmap in Hk as (h & E & Hh). apply pair_eq in E as [-> ->].
    exists inode, stripe, h. split_and!; try done. by apply mv_new_shape.
  - rewrite mv_keys in Hk by done. by apply Hs.
Qed.

Lemma mv_index_ok : index_ok (with_db p ix1).
Proof using Hok Hi Hst Hl Hview HF Ht Hnum Hp Hadv.
  pose proof Hok as (_ & Hss & Hu & _ & Hres). destruct Hadv as (Hok1 & Hg & Hd & Hq).
  pose proof Hg as [Ess _]. unfold in_u64 in Hu. split_and!; cbn [with_db ix_stripeSize ix_seqGen ix_db].
  - exact Hok1.
  - by rewrite Ess.
  - unfold in_u64. lia.
  - rewrite Ess. apply mv_db_shape.
  - intros i f Hi' Hf. apply mv_frag_in in Hf as [[-> Hf]|(s & Hs & _ & Hf)]; [| |done].
    + destruct (mv_new f Hf) as (g & _ & _ & Hr & _). split; [done|].
      destruct Hnum as [_ Hb]. by apply Hb.
    + destruct (Hres i f Hi') as [Hr Hle]; [by eapply stripe_frag_in|].
      split; [|lia]. by apply (resident_grows ix ix1 f).
Qed.

(** A byte of the stripe that a new fragment covers. *)
Lemma mv_content_moved h x :
  h ∈ new -> covers h x = true -> content (with_db p ix1) inode x = content ix inode x.
Proof using Hok Hi Hst Hl Hview HF Ht Hnum Hp Hadv.
  intros Hh Hc. pose proof Hok as (_ & [Hss _] & _).
  assert (x / ss = stripe) as Hx by (eapply shape_stripe; [done|by apply mv_new_shape|done]).
  rewrite (content_serves (with_db p ix1) inode x h); [|apply mv_index_ok|done|].
  - destruct (mv_new h Hh) as (g & Hg & _ & _ & _ & Ho & Hle & Hfetch).
    assert (covers g x = true) as Hcg by (unfold covers in *; by rewrite <-Ho, <-Hle).
    destruct (mv_run g Hg) as (f & Hf & (R1 & R2 & R3 & R4 & R5 & R6 & R7) & Hn).
    specialize (Hn x Hcg). apply newest_Some in Hn as (_ & Hcf & Hmax).
    rewrite (content_serves ix inode x f); [|done|done|].
    + change (fetch (with_db p ix1) (fragment_source h x)) with (fetch ix1 (fragment_source h x)).
      rewrite Hfetch by done. unfold fragment_source. rewrite R2, R3. do 2 f_equal. lia.
    + split_and!; [by eapply stripe_frag_in|done|]. intros f' Hf' Hc'. apply Hmax; [|done].
      apply mv_old. apply frag_in_stripe in Hf' as (s & Hs & Hf').
      assert (s = stripe) as ->; [|done]. rewrite <-Hx. symmetry.
      eapply shape_stripe; [done|eapply stripe_frag_shape; [apply mv_shape|done..]|done].
  - split_and!; [apply mv_frag_in; [done|by left]|done|]. intros f Hf Hcf.
    apply mv_frag_in in Hf as [[_ Hf]|(s & Hs & Hne & Hf)]; [| |done].
    + by rewrite (mv_new_unique f h x).
    + destruct Hne. split; [done|]. rewrite <-Hx. symmetry.
      eapply shape_stripe; [done|eapply stripe_frag_shape; [apply mv_shape|done..]|done].
Qed.

Lemma mv_content i x : in_u64 i -> content (with_db p ix1) i x = content ix i x.
Proof using Hok Hi Hst Hl Hview HF Ht Hnum Hp Hadv.
  intros Hi'. destruct (newest new x) as [h|] eqn:En.
  - apply newest_Some in En as (Hh & Hc & _). destruct (decide (i = inode)) as [->|Hne].
    + by eapply mv_content_moved.
    + apply content_same_at; [done|apply mv_index_ok|done|by destruct Hadv as (_ & ? & _)|].
      intros f _. cbn [with_db ix_db]. rewrite mv_frag_in, frag_in_stripe by done. naive_solver.
  - rewrite newest_None in En.
    apply content_same_at; [done|apply mv_index_ok|done|by destruct Hadv as (_ & ? & _)|].
    intros f Hc. cbn [with_db ix_db]. rewrite mv_frag_in, frag_in_stripe by done. split.
    + intros [[_ Hf]|(s & Hs & _ & Hf)]; [by rewrite En in Hc|eauto].
    + intros (s & Hs & Hf). right. exists s. split_and!; [done| |done]. intros [-> ->].
      apply mv_old in Hf. destruct (newest old x) as [f'|] eqn:Eo.
      * destruct (view_sorted_complete old (sort_desc old) mv_old_ok mv_old_distinct (sort_desc_perm _)
          (sort_desc_sorted _) f' x Eo) as (g & Hg & Hcg). rewrite <-mv_view in Hg.
        destruct (Forall2_elem_l _ _ _ _ HF Hg) as (h & Hh & _ & _ & _ & Ho & Hle & _).
        specialize (En h Hh). unfold covers in En, Hcg. rewrite Ho, Hle, Hcg in En. done.
      * rewrite newest_None in Eo. by rewrite Eo in Hc.
Qed.

Lemma mv_recanonicalised : recanonicalised ix (with_db p ix1) inode stripe target.
Proof using Hok Hi Hst Hl Hview HF Ht Hnum Hp Hadv.
  assert (forall f, stripe_frag (contents p) inode stripe f -> f ∈ new) as Hnew.
  { intros f Hf. apply mv_frag in Hf; [|done..]. by rewrite decide_True in Hf. }
  split_and!; [apply mv_index_ok| |intros i x; apply mv_content| |].
  - exists []. split; [done|]. intros k Hk. apply mv_keys. intros Hpre. apply Hk.
    eapply has_prefix_trans; [apply (has_prefix_trans _ (StripePrefix inode));
      [apply prefix_StripePrefix_all|apply prefix_FragmentStripePrefix_StripePrefix]|done].
  - intros f Hf%Hnew. by destruct (mv_new f Hf) as (g & _ & _ & _ & ? & _).
  - intros f g x Hf%Hnew Hg%Hnew. by apply mv_new_unique.
Qed.
End Swap.

(** ** The operation *)

Lemma wp_stripe_walk ss inode stripe (Q : outcome (list (bytes * bytes)) -> Index P S -> Prop) ix :
  db_shape ss (contents (ix_db ix)) ->
  (forall l, stripe_scan (contents (ix_db ix)) inode stripe l -> Q (Ok l) ix) ->
  (forall e, Q (Err e) ix) ->
  wp (on_db (DB_walk (FragmentStripePrefix inode stripe)
                     (PrefixUpperBound (FragmentStripePrefix inode stripe)))) Q ix.
Proof.
  intros Hs HO HE. apply wp_on_db, wp_DB_walk; [|intros e; rewrite with_db_id; apply HE].
  intros l _ Hl. rewrite with_db_id. apply HO.
  intros k v. apply (prefix_pairs ss _ _ l Hs (FragmentStripePrefix_ok inode stripe) Hl).
Qed.

(** What moving changes of the numbers: the counter, by a stripe at most, and
    the fragments of the file. *)
Definition renumbered (ix ix' : Index P S) (inode : Z) : Prop :=
  ix_stripeSize ix' = ix_stripeSize ix /\ ix_seqGen ix <= ix_seqGen ix' <= ix_seqGen ix + ix_stripeSize ix /\
  forall i f, in_u64 i -> i <> inode -> frag_in (contents (ix_db ix')) i f -> frag_in (contents (ix_db ix)) i f.

Lemma renumbered_db n ix ix' ix2 inode :
  advanced_upto n ix ix' -> n <= ix_seqGen ix + ix_stripeSize ix ->
  ix_stripeSize ix2 = ix_stripeSize ix' -> ix_seqGen ix2 = ix_seqGen ix' ->
  (forall i f, in_u64 i -> i <> inode -> frag_in (contents (ix_db ix2)) i f -> frag_in (contents (ix_db ix)) i f) ->
  renumbered ix ix2 inode.
Proof.
  intros [(_ & [Hss _] & _ & Hq) Hn] Hle Es Eq Hf. split_and!; [congruence|lia|lia|done].
Qed.

Lemma wp_Move inode stripe target ix (Q : outcome unit -> Index P S -> Prop) :
  index_ok ix -> sets_clean ix -> in_u64 inode -> in_u32 stripe ->
  (target = TierHot \/ target = TierCold) -> ix_seqGen ix + ix_stripeSize ix < 2^64 ->
  (forall ix', recanonicalised ix ix' inode stripe target -> sets_clean ix' -> renumbered ix ix' inode -> Q (Ok tt) ix') ->
  (forall e ix', unchanged ix ix' \/ recanonicalised ix ix' inode stripe target -> renumbered ix ix' inode -> Q (Err e) ix') ->
  wp (Move inode stripe target) Q ix.
Proof.
  intros Hok Hcl Hi Hst Ht Hq HO HE. pose proof Hok as (Hsets & [Hss Hss'] & Hu & Hs & _).
  assert (renumbered ix ix inode) as Hid by (split_and!; [done|lia|lia|done]).
  unfold Move. wp_step. apply (wp_stripe_walk (ix_stripeSize ix)); [done| |].
  2: { intros e. apply HE; [left; by apply unchanged_refl|done]. }
  intros l Hl. rewrite (move_snapshot_keys (ix_stripeSize ix) (contents (ix_db ix)) inode stripe) by done.
  assert (forall f, f ∈ frags_of_pairs l <-> stripe_frag (contents (ix_db ix)) inode stripe f) as Hold
    by (intros f; by apply (elem_of_stripe_scan (ix_stripeSize ix))).
  destruct (frags_of_pairs l) as [|f0 fs0] eqn:El.
  { wp_step. apply HO; [|done|done]. split_and!; [done|by exists []|done| |].
    - intros f Hf. apply Hold, elem_of_nil in Hf. done.
    - intros f g x Hf. apply Hold, elem_of_nil in Hf. done. }
  rewrite <-El. wp_step. unfold in_u64 in Hu.
  assert (forall g, g ∈ canonicalView (frags_of_pairs l) -> frag_shape (ix_stripeSize ix) stripe g) as Hv
    by (intros g Hg; by apply (mv_run_shape ix inode stripe l (canonicalView (frags_of_pairs l)))).
  assert (blen (canonicalView (frags_of_pairs l)) <= ix_stripeSize ix) as Hlen.
  { replace (ix_stripeSize ix) with ((stripe + 1) * ix_stripeSize ix - stripe * ix_stripeSize ix) by lia.
    apply runs_bound; [| |nia].
    - by apply (mv_view_disjoint ix inode stripe l (canonicalView (frags_of_pairs l))).
    - intros g Hg. destruct (Hv g Hg) as ((_ & _ & ? & _) & ? & ? & _). done. }
  apply wp_move_all; [done|done|lia|lia|done..| | |].
  - intros g Hg. destruct (Hv g Hg) as (Hgo & Hlo & Hhi & _). split_and!; [done|nia|].
    by apply (mv_run_resident ix inode stripe l (canonicalView (frags_of_pairs l))).
  - intros new ix1 Hadv Hcl1 HF Hnum Hn.
    assert (forall p, contents p = apply_ops (swap_ops inode stripe l.*1 new) (contents (ix_db ix)) ->
      recanonicalised ix (with_db p ix1) inode stripe target /\ renumbered ix (with_db p ix1) inode) as Hr.
    { intros p Hp. split.
      - by apply (mv_recanonicalised ix ix1 p inode stripe target l (canonicalView (frags_of_pairs l)) new).
      - apply (renumbered_db _ ix ix1 _ inode (conj Hadv Hn)); [lia|done..|].
        intros i f. by apply (mv_frag_other ix ix1 p inode stripe target l (canonicalView (frags_of_pairs l)) new). }
    assert (ix_db ix1 = ix_db ix) as Ed by (by destruct Hadv as (_ & _ & ? & _)).
    assert (unchanged ix ix1) as Hun by by apply advanced_unchanged.
    apply wp_on_db_commit; [apply Hun|..].
    + intros p Hp. rewrite Ed in Hp. apply HO; [by apply Hr|done|by apply Hr].
    + intros e p Hp. rewrite Ed in Hp. apply HE; [right|]; by apply Hr.
    + intros e p [(U1 & U2 & U3) _]. destruct Hun as (_ & V2 & V3). apply HE.
      * left. split; [done|]. split; [by rewrite U2|]. intros i x Hi'. by rewrite U3, V3.
      * apply (renumbered_db _ ix ix1 _ inode (conj Hadv Hn)); [lia|done..|]. intros i f _ _. by rewrite U2, V2.
  - intros e ix1 Hadv. apply HE; [left; apply advanced_unchanged; [done|apply Hadv]|].
    apply (renumbered_db _ ix ix1 ix1 inode Hadv); [lia|done..|].
    intros i f _ _. destruct Hadv as [(_ & _ & -> & _) _]. done.
Qed.

(** C14: moving a stripe changes no byte of any file.  On success every
    fragment of the stripe is in the target tier and no two overlap; whatever
    fails on the way (a read, a rotation, an append, a sync, the commit), every
    file still has its content, and the stripe is as before or moved whole. *)
Theorem Move_preserves inode stripe target ix :
  index_ok ix -> sets_clean ix -> in_u64 inode -> in_u32 stripe ->
  (target = TierHot \/ target = TierCold) -> ix_seqGen ix + ix_stripeSize ix < 2^64 ->
  let '(r, ix') := Move inode stripe target ix in
  match r with
  | Ok _ => recanonicalised ix ix' inode stripe target /\ sets_clean ix'
  | Err _ => unchanged ix ix' \/ recanonicalised ix ix' inode stripe target
  | Panic => False
  end.
Proof.
  intros Hok Hcl Hi Hst Ht Hq. apply (wp_pair (Move inode stripe target) (fun r ix' => match r with
    | Ok _ => recanonicalised ix ix' inode stripe target /\ sets_clean ix'
    | Err _ => unchanged ix ix' \/ recanonicalised ix ix' inode stripe target
    | Panic => False
    end)).
  apply wp_Move; try done; intros; by split || done.
Qed.
End Move.
