(* ===== verification/IndexIter.v ===== *)
(** * Iterating over the stripes (src/index/index.go, [IterStripes])

    The walk groups adjacent fragment keys of one stripe and hands each group
    to the callback until it stops.  On a complete scan the callback sees every
    stripe that has a fragment once, in the order of the keys, with all its
    fragments. *)

From S2P Require Import Prelude Keys Kv Fragment Plan Segment Layer Index IndexSpec IndexRead IndexAppend IndexMaint IndexMove.

Abbreviation entry := (Z * Z * Fragment)%type.
Abbreviation group := (Z * Z * list Fragment)%type.

(** ** Groups *)

Definition sum_tier (tier : Z) (fs : list Fragment) : Z :=
  foldl (fun n f => if fr_Tier f =? tier then i64 (n + fr_Length f) else n) 0 fs.

Definition group_acc (g : group) : Z * Z * list Fragment * Z * Z :=
  (g.1.1, g.1.2, g.2, sum_tier TierHot g.2, sum_tier TierCold g.2).

(** What the callback is told of a stripe. *)
Definition group_info (g : group) : StripeInfo := stripe_info (group_acc g).

(** The calls of [fn], until one says stop. *)
Fixpoint visit {T} (fn : StripeInfo -> T -> bool * T) (l : list StripeInfo) (t : T) : T :=
  match l with
  | [] => t
  | s :: l => let '(go, t) := fn s t in if go then visit fn l t else t
  end.

Fixpoint group_entries (cur : option group) (es : list entry) : list group :=
  match es with
  | [] => match cur with Some g => [g] | None => [] end
  | (i, s, f) :: es =>
      match cur with
      | Some (i', s', fs) =>
          if (i =? i') && (s =? s') then group_entries (Some (i', s', fs ++ [f])) es
          else (i', s', fs) :: group_entries (Some (i, s, [f])) es
      | None => group_entries (Some (i, s, [f])) es
      end
  end.

Definition flat (gs : list group) : list entry :=
  mjoin ((fun g : group => (fun f => (g.1.1, g.1.2, f)) <$> g.2) <$> gs).

Definition stripe_before (a b : Z * Z) : Prop := a.1 < b.1 \/ a.1 = b.1 /\ a.2 < b.2.
Definition entry_before (a b : entry) : Prop :=
  stripe_before a.1 b.1 \/ a.1 = b.1 /\ fr_Seq a.2 < fr_Seq b.2.

Definition opt_group (cur : option group) : list group := match cur with Some g => [g] | None => [] end.

Lemma flat_group_entries es : forall cur,
  flat (group_entries cur es) = flat (opt_group cur) ++ es.
Proof.
  induction es as [|[[i s] f] es IH]; intros cur; cbn [group_entries].
  { destruct cur; by rewrite app_nil_r. }
  destruct cur as [[[i' s'] fs]|]; [|rewrite IH; done].
  destruct (Z.eqb_spec i i') as [->|]; [destruct (Z.eqb_spec s s') as [->|]|]; cbn [andb].
  - rewrite IH. unfold flat, opt_group. cbn. rewrite !app_nil_r, fmap_app, <-app_assoc. done.
  - change (flat ((i', s', fs) :: group_entries (Some (i', s, [f])) es)) with
      (((fun f => (i', s', f)) <$> fs) ++ flat (group_entries (Some (i', s, [f])) es)).
    rewrite IH. unfold flat, opt_group. cbn. by rewrite app_nil_r.
  - change (flat ((i', s', fs) :: group_entries (Some (i, s, [f])) es)) with
      (((fun f => (i', s', f)) <$> fs) ++ flat (group_entries (Some (i, s, [f])) es)).
    rewrite IH. unfold flat, opt_group. cbn. by rewrite app_nil_r.
Qed.

(** Sorted entries give sorted groups, none of them empty. *)
Lemma group_entries_sorted es : forall cur,
  (forall g, cur = Some g -> g.2 <> []) ->
  StronglySorted entry_before (flat (opt_group cur) ++ es) ->
  StronglySorted (fun a b : group => stripe_before a.1 b.1) (group_entries cur es) /\
  Forall (fun g : group => g.2 <> []) (group_entries cur es) /\
  forall g, cur = Some g -> Forall (fun h : group => h.1 = g.1 \/ stripe_before g.1 h.1) (group_entries cur es).
Proof.
  induction es as [|[[i s] f] es IH]; intros cur Hne Hs; cbn [group_entries].
  { destruct cur as [g|]; [|split_and!; [constructor..|done]].
    split_and!; [by repeat constructor|by apply Forall_singleton, Hne|]. intros h [= <-]. apply Forall_singleton. by left. }
  destruct cur as [[[i' s'] fs]|].
  2: { destruct (IH (Some (i, s, [f]))) as (H1 & H2 & _); [by intros g [= <-]|done|]. by split_and!. }
  destruct (decide (i = i' /\ s = s')) as [[-> ->]|Hd].
  - rewrite !Z.eqb_refl. cbn [andb].
    destruct (IH (Some (i', s', fs ++ [f]))) as (H1 & H2 & H3).
    { intros g [= <-]. cbn. by destruct fs. }
    { revert Hs. unfold flat, opt_group. cbn. rewrite !app_nil_r, fmap_app, <-app_assoc. done. }
    split_and!; [done..|]. intros g [= <-]. by apply (H3 (i', s', fs ++ [f])).
  - assert ((i =? i') && (s =? s') = false) as ->.
    { destruct (Z.eqb_spec i i'), (Z.eqb_spec s s'); try done. naive_solver. }
    unfold flat, opt_group in Hs. cbn in Hs. rewrite app_nil_r in Hs.
    apply StronglySorted_app in Hs as (Hab & Hs1 & Hs2).
    destruct (IH (Some (i, s, [f]))) as (H1 & H2 & H3); [by intros g [= <-]|done|].
    specialize (H3 (i, s, [f]) eq_refl).
    assert (stripe_before (i', s') (i, s)) as Hb.
    { specialize (Hne (i', s', fs) eq_refl). destruct fs as [|g fs]; [done|].
      destruct (Hab (i', s', g) (i, s, f)) as [?|[[= -> ->] _]]; [left|left|done|by destruct Hd]. }
    assert (Forall (fun h : group => stripe_before (i', s') h.1) (group_entries (Some (i, s, [f])) es)) as Hall.
    { eapply Forall_impl; [exact H3|]. intros h [->|Hh]; [done|]. unfold stripe_before in *. cbn in *. lia. }
    split_and!.
    + constructor; [done|exact Hall].
    + constructor; [by apply (Hne (i', s', fs))|done].
    + intros g [= <-]. constructor; [by left|]. eapply Forall_impl; [exact Hall|]. by right.
Qed.

Lemma flat_elem gs i s f : (i, s, f) ∈ flat gs <-> exists fs, (i, s, fs) ∈ gs /\ f ∈ fs.
Proof.
  unfold flat. rewrite list_elem_of_join. split.
  - intros (l & Hin & Hl). apply list_elem_of_fmap in Hl as ([[i' s'] fs] & -> & Hg).
    apply list_elem_of_fmap in Hin as (f' & [= <- <- <-] & Hf). eauto.
  - intros (fs & Hg & Hf). eexists. split; [|apply list_elem_of_fmap; eexists; split; [done|exact Hg]].
    apply list_elem_of_fmap. eauto.
Qed.

Lemma StronglySorted_irrefl_eq {A} (R : A -> A -> Prop) l x y :
  StronglySorted R l -> x ∈ l -> y ∈ l -> R x y \/ x = y \/ R y x.
Proof.
  induction 1 as [|a l Hs IH Hf]; [by intros ?%elem_of_nil|]. rewrite Forall_forall in Hf.
  intros [->|Hx]%elem_of_cons [->|Hy]%elem_of_cons; auto.
Qed.

(** A group holds exactly the entries of its stripe, in their order. *)
Lemma group_exact es i s fs :
  StronglySorted entry_before es -> (i, s, fs) ∈ group_entries None es ->
  forall f, f ∈ fs <-> (i, s, f) ∈ es.
Proof.
  intros Hs Hg f. destruct (group_entries_sorted es None) as (H1 & _); [done|done|].
  pose proof (flat_group_entries es None) as E. cbn [opt_group flat app] in E. cbn in E.
  assert (forall f, (i, s, f) ∈ flat (group_entries None es) <-> (i, s, f) ∈ es) as Hf by by rewrite E.
  rewrite <-Hf, flat_elem. split; [eauto|]. intros (fs' & Hg' & Hf').
  destruct (StronglySorted_irrefl_eq _ _ _ _ H1 Hg Hg') as [Hb|[[= <-]|Hb]]; [|done|];
    unfold stripe_before in Hb; cbn in Hb; lia.
Qed.

(** ** The walk *)

Definition pair_entry (kv : bytes * bytes) : option entry :=
  match StripeInodeFromFragmentKey kv.1, StripeIDFromFragmentKey kv.1, decodeFragments_0 kv.2 with
  | Ok i, Ok s, Ok f => Some (i, s, f)
  | _, _, _ => None
  end.

(** A key and a value of one fragment. *)
Definition fragment_pair (kv : bytes * bytes) : Prop :=
  exists i s f, in_u64 i /\ in_u32 s /\ fragment_typed f /\ kv = (FragmentKey i s (fr_Seq f), encodeFragments [f]).

Lemma pair_entry_Some i s f :
  in_u64 i -> in_u32 s -> fragment_typed f ->
  pair_entry (FragmentKey i s (fr_Seq f), encodeFragments [f]) = Some (i, s, f).
Proof.
  intros Hi Hs Hf. pose proof Hf as (Hq & _). unfold pair_entry. cbn [fst snd].
  rewrite StripeInode_FragmentKey, StripeID_FragmentKey by done. by rewrite decode_single_0.
Qed.

Lemma sum_tier_snoc tier fs f :
  sum_tier tier (fs ++ [f]) = if fr_Tier f =? tier then i64 (sum_tier tier fs + fr_Length f) else sum_tier tier fs.
Proof. unfold sum_tier. by rewrite foldl_app. Qed.

Lemma iter_loop_visit {T} (fn : StripeInfo -> T -> bool * T) l : forall cur t,
  Forall fragment_pair l ->
  iter_loop fn l (group_acc <$> cur) t = Ok (visit fn (group_info <$> group_entries cur (omap pair_entry l)) t).
Proof.
  induction l as [|[k v] l IH]; intros cur t Hl.
  { destruct cur as [g|]; [|done]. cbn [iter_loop iter_flush group_entries fmap option_fmap option_map list_fmap visit omap list_omap].
    change (stripe_info (group_acc g)) with (group_info g). destruct (fn (group_info g) t) as [[] t']; done. }
  apply Forall_cons in Hl as [(i & s & f & Hi & Hs & Hf & [= -> ->]) Hl]. pose proof Hf as (Hq & _).
  assert (omap pair_entry ((FragmentKey i s (fr_Seq f), encodeFragments [f]) :: l) = (i, s, f) :: omap pair_entry l) as ->
    by (cbn [omap list_omap]; by rewrite pair_entry_Some).
  cbn [iter_loop group_entries]. rewrite IsFragmentKey_true, StripeInode_FragmentKey, StripeID_FragmentKey by done.
  cbn [negb obind]. rewrite decode_single_0 by done.
  destruct cur as [[[i' s'] fs]|]; cbn [fmap option_fmap option_map group_acc fst snd same_stripe].
  - destruct ((i =? i') && (s =? s')) eqn:E.
    + apply andb_true_iff in E as [->%Z.eqb_eq ->%Z.eqb_eq]. cbn [obind].
      rewrite <-IH by done. cbn [fmap option_fmap option_map group_acc fst snd iter_add].
      unfold group_acc. cbn [fst snd]. by rewrite !sum_tier_snoc.
    + cbn [iter_flush]. rewrite fmap_cons. cbn [visit].
      change (stripe_info (group_acc (i', s', fs))) with (group_info (i', s', fs)).
      destruct (fn (group_info (i', s', fs)) t) as [[] t']; cbn [negb obind]; [|done].
      rewrite <-IH by done. done.
  - cbn [iter_flush negb obind]. rewrite <-IH by done. done.
Qed.

(** What the callback is handed: each stripe once, in the order of the keys,
    with its fragments and nothing else. *)
Definition stripe_groups (m : gmap bytes bytes) (gs : list group) : Prop :=
  StronglySorted (fun a b : group => stripe_before a.1 b.1) gs /\
  (forall g, g ∈ gs -> in_u64 g.1.1 /\ in_u32 g.1.2 /\ g.2 <> [] /\
     forall f, f ∈ g.2 -> stripe_frag m g.1.1 g.1.2 f) /\
  (length gs <= size m)%nat.

Definition all_groups (m : gmap bytes bytes) (gs : list group) : Prop :=
  forall i s f, in_u64 i -> in_u32 s -> stripe_frag m i s f -> exists fs, (i, s, fs) ∈ gs /\ f ∈ fs.

Lemma entries_sorted l :
  Forall fragment_pair l -> StronglySorted key_before l -> StronglySorted entry_before (omap pair_entry l).
Proof.
  induction l as [|[k v] l IH]; intros Hl Hs; [constructor|].
  apply Forall_cons in Hl as [(i & s & f & Hi & Hst & Hf & [= -> ->]) Hl].
  apply StronglySorted_cons in Hs as [Hall Hs]. cbn [omap list_omap]. rewrite pair_entry_Some by done.
  constructor; [by apply IH|]. apply Forall_forall. intros e He. apply list_elem_of_omap in He as ([k' v'] & Hin & He).
  rewrite Forall_forall in Hl, Hall. destruct (Hl _ Hin) as (i' & s' & f' & Hi' & Hst' & Hf' & [= -> ->]).
  rewrite pair_entry_Some in He by done. injection He as <-. specialize (Hall _ Hin). unfold key_before in Hall. cbn [fst] in Hall.
  pose proof Hf as (Hq & _). pose proof Hf' as (Hq' & _). apply FragmentKey_lt in Hall; [|done..].
  unfold entry_before, stripe_before. cbn. destruct Hall as [?|(-> & [?|(-> & ?)])]; [by left; left|by left; right|by right].
Qed.

Lemma elem_of_entries l i s f :
  Forall fragment_pair l -> in_u64 i -> in_u32 s -> fragment_typed f ->
  (i, s, f) ∈ omap pair_entry l <-> (FragmentKey i s (fr_Seq f), encodeFragments [f]) ∈ l.
Proof.
  intros Hl Hi Hs Hf. rewrite list_elem_of_omap. split.
  - intros ([k v] & Hin & He). rewrite Forall_forall in Hl. destruct (Hl _ Hin) as (i' & s' & f' & ? & ? & ? & [= -> ->]).
    rewrite pair_entry_Some in He by done. by injection He as -> -> ->.
  - intros Hin. eexists. split; [exact Hin|]. by apply pair_entry_Some.
Qed.

Lemma length_group_entries es : forall cur, (length (group_entries cur es) <= length (opt_group cur) + length es)%nat.
Proof.
  induction es as [|[[i s] f] es IH]; intros cur; cbn [group_entries]; [destruct cur; cbn; lia|].
  destruct cur as [[[i' s'] fs]|]; [destruct (_ && _)|]; cbn [length].
  - pose proof (IH (Some (i', s', fs ++ [f]))). cbn [opt_group length] in *. lia.
  - pose proof (IH (Some (i, s, [f]))). cbn [opt_group length] in *. lia.
  - pose proof (IH (Some (i, s, [f]))). cbn [opt_group length] in *. lia.
Qed.

Lemma length_omap_le {A B} (h : A -> option B) l : (length (omap h l) <= length l)%nat.
Proof. induction l as [|a l IH]; cbn; [done|]. destruct (h a); cbn; lia. Qed.

Section Iter.
Context {P : Type} {PB : Pebble P} {PL : PebbleLaws P}.
Context {S : Type} {SL : SegLayer S} {SLL : SegLayerLaws S} {MR : MapRange}.
Implicit Types ix : Index P S.

Lemma scan_pairs (ss : Z) (m : gmap bytes bytes) (l : list (bytes * bytes)) :
  db_shape ss m -> StronglySorted key_before l ->
  (forall k v, (k, v) ∈ l -> m !! k = Some v /\ in_range StripeAllPrefix (PrefixUpperBound StripeAllPrefix) k = true) ->
  Forall fragment_pair l /\ (length l <= size m)%nat.
Proof.
  intros Hs Hsort Hl. split.
  - apply Forall_forall. intros [k v] Hin. destruct (Hl k v Hin) as [Hm Hr].
    apply in_range_prefix in Hr; [|by apply Forall_singleton|by eapply (proj1 Hs)].
    destruct (shape_pair _ _ _ _ Hs Hm Hr) as (i & s & f & Hi & Hst & -> & -> & Hf & _).
    exists i, s, f. split_and!; [done|done|by eapply shape_typed|done].
  - rewrite <-length_map_to_list. apply submseteq_length, NoDup_submseteq.
    + clear Hl. induction Hsort as [|a l Hsort IH Hall]; [constructor|]. constructor; [|done].
      intros Hin. rewrite Forall_forall in Hall. specialize (Hall _ Hin). unfold key_before in Hall.
      by rewrite lex_lt_irrefl in Hall.
    + intros [k v] Hin. apply elem_of_map_to_list. by apply Hl.
Qed.

Lemma wp_IterStripes {T} (fn : StripeInfo -> T -> bool * T) t ix (Q : outcome T -> Index P S -> Prop) :
  index_ok ix ->
  (forall gs, stripe_groups (contents (ix_db ix)) gs ->
     (iter_complete (ix_db ix) -> all_groups (contents (ix_db ix)) gs) -> Q (Ok (visit fn (group_info <$> gs) t)) ix) ->
  (forall e, Q (Err e) ix) -> wp (IterStripes fn t) Q ix.
Proof.
  intros Hok HO HE. pose proof Hok as (_ & _ & _ & Hs & _). unfold IterStripes. wp_step.
  apply wp_on_db, wp_DB_walk_unchecked; [|intros e; rewrite with_db_id; apply HE].
  intros l Hsort Hin Hall. rewrite with_db_id.
  destruct (scan_pairs _ _ l Hs Hsort Hin) as [Hl Hlen]. pose proof (iter_loop_visit fn l None t Hl) as E.
  cbn [fmap option_fmap option_map] in E. rewrite E. wp_step. pose proof (entries_sorted l Hl Hsort) as Hes.
  apply HO.
  - destruct (group_entries_sorted (omap pair_entry l) None) as (H1 & H2 & _); [done|done|]. split_and!; [done| |].
    + intros [[i s] fs] Hg. cbn [fst snd]. rewrite Forall_forall in H2. specialize (H2 _ Hg). cbn [snd] in H2.
      assert (forall f, f ∈ fs -> in_u64 i /\ in_u32 s /\ stripe_frag (contents (ix_db ix)) i s f) as Hf.
      { intros f Hf. apply (group_exact _ _ _ _ Hes Hg) in Hf. apply list_elem_of_omap in Hf as ([k v] & Hk & He).
        pose proof Hl as Hl'. rewrite Forall_forall in Hl'. destruct (Hl' _ Hk) as (i' & s' & f' & Hi & Hst & Hty & [= -> ->]).
        rewrite pair_entry_Some in He by done. injection He as -> -> ->. split_and!; [done..|]. by destruct (Hin _ _ Hk). }
      destruct fs as [|f0 fs]; [done|]. destruct (Hf f0) as (? & ? & _); [left|].
      split_and!; [done..|]. intros f Hf'. by apply Hf.
    + etrans; [apply length_group_entries|]. cbn. etrans; [apply length_omap_le|done].
  - intros Hcomp i s f Hi Hst [Hf Hm]. destruct Hall as [(e & l' & He)|Hall]; [by destruct (Hcomp _ _ _ _ He)|].
    apply flat_elem. rewrite flat_group_entries. cbn. apply elem_of_entries; [done..|]. apply Hall; [done|].
    apply in_range_prefix; [by apply Forall_singleton|by apply FragmentKey_ok; destruct Hf|apply prefix_StripeAll_FragmentKey].
Qed.

(** [IterStripes] hands its callback every stripe that has fragments, once,
    in the order of inode and stripe, with the byte counts of its fragments,
    until the callback stops it.  The index is untouched and the walk never
    panics.  Without a complete scan it may miss stripes but invents none. *)
Theorem IterStripes_visits {T} (fn : StripeInfo -> T -> bool * T) t ix :
  index_ok ix ->
  let '(r, ix') := IterStripes fn t ix in
  ix' = ix /\
  match r with
  | Ok t' => exists gs, stripe_groups (contents (ix_db ix)) gs /\ t' = visit fn (group_info <$> gs) t /\
      (iter_complete (ix_db ix) -> all_groups (contents (ix_db ix)) gs)
  | Err _ => True
  | Panic => False
  end.
Proof.
  intros Hok. apply (wp_pair (IterStripes fn t) (fun r ix' => ix' = ix /\
    match r with
    | Ok t' => exists gs, stripe_groups (contents (ix_db ix)) gs /\ t' = visit fn (group_info <$> gs) t /\
        (iter_complete (ix_db ix) -> all_groups (contents (ix_db ix)) gs)
    | Err _ => True
    | Panic => False
    end)). apply wp_IterStripes; [done| |done]. intros gs Hg Hc. split; [done|]. by exists gs.
Qed.
End Iter.
