(* ===== verification/IndexGC.v ===== *)
(** * The storage engine: garbage collection

    [GC] removes the segments no fragment refers to.  No byte of any file
    changes, and after a success only referenced and active segments are left. *)

From S2P Require Import Prelude Keys Kv Fragment Plan Gostr Segment Layer Index IndexSpec IndexRead IndexAppend IndexMaint.

Section GC.
Context {P : Type} {PB : Pebble P} {PL : PebbleLaws P}.
Context {S : Type} {SL : SegLayer S} {SLL : SegLayerLaws S} {MR : MapRange}.
Implicit Types ix : Index P S.
Implicit Types m : gmap bytes bytes.

(** ** Marking *)

(** Segment [id] of a tier holds bytes of a live fragment. *)
Definition referenced m (cold : bool) (id : Z) : Prop :=
  exists inode f, in_u64 inode /\ frag_in m inode f /\ is_cold (fr_Tier f) = cold /\ fr_SegmentID f = id.

Definition refs_of (cold : bool) (refs : gset Z * gset Z) : gset Z := if cold then refs.2 else refs.1.

Lemma mark_all_spec fs : forall refs,
  (forall f, f ∈ fs -> fr_Tier f = TierHot \/ fr_Tier f = TierCold) ->
  exists refs', mark_all refs fs = Ok refs' /\
    forall cold id, id ∈ refs_of cold refs' <->
      id ∈ refs_of cold refs \/ exists f, f ∈ fs /\ is_cold (fr_Tier f) = cold /\ fr_SegmentID f = id.
Proof.
  induction fs as [|f fs IH]; intros refs Ht.
  { exists refs. split; [done|]. intros cold id. split; [by left|]. intros [?|(f & ?%elem_of_nil & _)]; done. }
  assert (exists r, mark refs f = Ok r /\ forall cold id, id ∈ refs_of cold r <->
    id ∈ refs_of cold refs \/ (is_cold (fr_Tier f) = cold /\ fr_SegmentID f = id)) as (r & Er & Hr).
  { unfold mark. destruct (Ht f) as [-> | ->]; [left|..]; cbn; eexists; (split; [done|]);
      intros [] id; unfold refs_of, is_cold; cbn; set_solver. }
  destruct (IH r) as (r' & E' & H'); [intros g Hg; apply Ht; by right|].
  exists r'. split; [cbn; by rewrite Er|]. intros cold id. rewrite H', Hr. set_solver.
Qed.

Lemma elem_of_all_scan ss m l f :
  db_shape ss m ->
  (forall k v, (k, v) ∈ l <-> m !! k = Some v /\ has_prefix StripeAllPrefix k) ->
  f ∈ frags_of_pairs l <-> exists inode, in_u64 inode /\ frag_in m inode f.
Proof.
  intros Hs Hl. rewrite (elem_of_frags_of_pairs ss m); [|done|by intros k v ?%Hl].
  unfold frag_in. split.
  - intros (Ht & i & s & Hi & Hst & Hin). apply Hl in Hin as [Hm _]. exists i. naive_solver.
  - intros (i & Hi & Ht & s & Hst & Hm). split; [done|]. exists i, s. split_and!; [done..|].
    apply Hl. split; [done|apply prefix_StripeAll_FragmentKey].
Qed.

(** ** Sweeping *)

(** Nothing [keep] names is lost, and nothing new appears. *)
Definition swept (keep : bool -> Z -> Prop) (ix ix' : Index P S) : Prop :=
  sets_ok ix' /\ sets_clean ix' /\ ix_db ix' = ix_db ix /\ ix_stripeSize ix' = ix_stripeSize ix /\
  ix_seqGen ix' = ix_seqGen ix /\
  forall c, sl_active_id (set_of c ix') = sl_active_id (set_of c ix) /\
    forall id, (keep c id -> lv_data (set_of c ix') !! id = lv_data (set_of c ix) !! id) /\
      (is_Some (lv_data (set_of c ix') !! id) -> is_Some (lv_data (set_of c ix) !! id)) /\
      (is_Some (lv_data (set_of c ix') !! id) ->
         lv_durable (set_of c ix) id <= lv_durable (set_of c ix') id).

Lemma swept_refl keep ix : sets_ok ix -> sets_clean ix -> swept keep ix ix.
Proof. intros. by split_and!. Qed.

Lemma swept_trans keep ix1 ix2 ix3 : swept keep ix1 ix2 -> swept keep ix2 ix3 -> swept keep ix1 ix3.
Proof.
  intros (_ & _ & D1 & S1 & Q1 & H1) (O2 & C2 & D2 & S2 & Q2 & H2).
  split_and!; [done|done|congruence..|]. intros c. destruct (H1 c) as [A1 I1], (H2 c) as [A2 I2].
  split; [congruence|]. intros id. destruct (I1 id) as (K1 & L1 & U1), (I2 id) as (K2 & L2 & U2).
  split_and!; [|by auto|].
  - intros Hk. rewrite K2 by done. by apply K1.
  - intros Hl. specialize (U2 Hl). specialize (U1 (L2 Hl)). lia.
Qed.

Lemma swept_with_set keep cold s ix :
  sets_ok ix -> sets_clean ix -> lv_ok s -> lv_clean s ->
  sl_active_id s = sl_active_id (set_of cold ix) ->
  (forall id, (keep cold id -> lv_data s !! id = lv_data (set_of cold ix) !! id) /\
      (is_Some (lv_data s !! id) -> is_Some (lv_data (set_of cold ix) !! id)) /\
      (is_Some (lv_data s !! id) -> lv_durable (set_of cold ix) id <= lv_durable s id)) ->
  swept keep ix (with_set cold s ix).
Proof.
  intros [Oh Oc] Hcl Hs Hc Ha Hid.
  split_and!; [by destruct cold|by apply clean_with_set|by destruct cold..|].
  intros c. destruct (decide (c = cold)) as [->|Hne].
  - rewrite set_of_with. by split.
  - by rewrite set_of_with_ne.
Qed.

Lemma swept_unchanged ix ix' :
  index_ok ix -> swept (referenced (contents (ix_db ix))) ix ix' -> unchanged ix ix'.
Proof.
  intros Hok (Ho & _ & Hd & Hss & Hq & Hsw). pose proof Hok as (Hsets & Hsso & Hu & Hs & Hres).
  assert (forall i f, in_u64 i -> frag_in (contents (ix_db ix)) i f ->
    tier_data ix' (fr_Tier f) !! fr_SegmentID f = tier_data ix (fr_Tier f) !! fr_SegmentID f) as Hdata.
  { intros i f Hi Hf. destruct (Hsw (is_cold (fr_Tier f))) as [_ H].
    destruct (H (fr_SegmentID f)) as (K & _). apply K. by exists i, f. }
  assert (index_ok ix') as Hok'.
  { split_and!; rewrite ?Hss, ?Hq, ?Hd; try done.
    intros i f Hi Hf. destruct (Hres i f Hi Hf) as [(d & Hdd & Hle) Hqf]. split; [|done].
    exists d. split; [by rewrite (Hdata i f)|].
    destruct (Hsw (is_cold (fr_Tier f))) as [_ H]. destruct (H (fr_SegmentID f)) as (K & _ & U).
    unfold tier_durable in *. etrans; [exact Hle|]. apply U. rewrite K by (by exists i, f).
    unfold tier_data in Hdd. eauto. }
  split; [done|]. split; [by rewrite Hd|]. intros i x Hi.
  apply content_same_fetch; [done..|intros f _; by rewrite Hd|]. intros f Hf _.
  unfold fetch, fragment_source. by rewrite (Hdata i f).
Qed.

Lemma wp_gc_remove keep cold id ix (Q : outcome unit -> Index P S -> Prop) :
  sets_ok ix -> sets_clean ix -> sl_active_id (set_of cold ix) <> Some id -> ~ keep cold id ->
  (forall ix', swept keep ix ix' ->
     lv_data (set_of cold ix') = delete id (lv_data (set_of cold ix)) ->
     (forall c, c <> cold -> set_of c ix' = set_of c ix) -> Q (Ok tt) ix') ->
  (forall e ix', swept keep ix ix' -> Q (Err e) ix') ->
  wp (on_set cold (sl_remove id)) Q ix.
Proof.
  intros Hok Hcl Ha Hk HO HE. apply wp_zoom.
  eapply wp_mono; [apply lv_remove; [by apply sets_ok_of|by apply sets_clean_of|done]|].
  intros r s (Hs & Hc & Hd & Hact & Hdur & Hr).
  assert (swept keep ix (with_set cold s ix)) as Hsw.
  { apply swept_with_set; try done. intros id'. rewrite Hd. split_and!.
    - intros Hk'. apply lookup_delete_ne. by intros ->.
    - intros [d [_ ?]%lookup_delete_Some]. eauto.
    - intros [d [Hne ?]%lookup_delete_Some]. by rewrite Hdur. }
  destruct r as [[]|e|]; [|by apply HE|done]. apply HO; [done|by rewrite set_of_with|].
  intros c Hne. by apply set_of_with_ne.
Qed.

(** The calls that change no byte. *)
Lemma quiet_swept keep cold s ix :
  sets_ok ix -> sets_clean ix -> lv_ok s -> (lv_clean (set_of cold ix) -> lv_clean s) ->
  quiet lv_data lv_durable (set_of cold ix) s -> sl_active_id s = sl_active_id (set_of cold ix) ->
  swept keep ix (with_set cold s ix) /\
  forall c, lv_data (set_of c (with_set cold s ix)) = lv_data (set_of c ix).
Proof.
  intros Hok Hcl Hs Hc [Hd Hdur] Ha. split.
  - apply swept_with_set; try done; [by apply Hc, sets_clean_of|]. intros id. rewrite Hd.
    split_and!; [done|done|apply Hdur].
  - intros c. destruct (decide (c = cold)) as [->|Hne]; [by rewrite set_of_with|].
    by rewrite set_of_with_ne.
Qed.

Lemma wp_gc_stray keep cold refs e ix (Q : outcome unit -> Index P S -> Prop) :
  sets_ok ix -> sets_clean ix ->
  (forall ix', swept keep ix ix' -> (forall c, lv_data (set_of c ix') = lv_data (set_of c ix)) ->
     Q (Ok tt) ix') ->
  (forall e ix', swept keep ix ix' -> Q (Err e) ix') ->
  wp (gc_stray cold refs e) Q ix.
Proof.
  intros Hok Hcl HO HE. assert (Q (Ok tt) ix) as Hsame by (apply HO; [by apply swept_refl|done]).
  unfold gc_stray. destruct e as [name isDir].
  destruct (isDir || negb (has_suffix [46; 115; 101; 103] name)) eqn:En; [by wp_step|].
  apply orb_false_iff in En as [_ Hsuf%negb_false_iff].
  destruct (parse_uint 32 _) as [id|] eqn:Ep; [|by wp_step]. wp_step. apply wp_get.
  destruct (bool_decide (id ∈ refs) || sl_get (set_of cold ix) id) eqn:Eb; [by wp_step|].
  apply orb_false_iff in Eb as [_ Hget]. rewrite lv_get in Hget. apply bool_decide_eq_false in Hget.
  apply wp_zoom. eapply wp_mono; [apply lv_unlink; [by apply sets_ok_of|]|].
  { intros id' Hid'. unfold seg_name_id, seg_ext in Hid'. rewrite Hsuf, Ep in Hid'.
    injection Hid' as <-. by apply eq_None_not_Some. }
  intros r s (Hs & Hq & Hc & Ha & Hr).
  destruct (quiet_swept keep cold s ix) as [Hsw Hd]; [done..|].
  destruct r as [[]|err|]; [by apply HO|by apply HE|done].
Qed.

Lemma wp_gc_set keep cold refs ix (Q : outcome unit -> Index P S -> Prop) :
  sets_ok ix -> sets_clean ix ->
  (forall id, keep cold id -> id ∈ refs) ->
  (forall id, sl_active_id (set_of cold ix) = Some id -> id ∈ refs) ->
  (forall ix', swept keep ix ix' ->
     (forall id, is_Some (lv_data (set_of cold ix') !! id) -> id ∈ refs) ->
     (forall c, c <> cold -> lv_data (set_of c ix') = lv_data (set_of c ix)) -> Q (Ok tt) ix') ->
  (forall e ix', swept keep ix ix' -> Q (Err e) ix') ->
  wp (gc_set cold refs) Q ix.
Proof.
  intros Hok Hcl Hkeep Hact HO HE. unfold gc_set. wp_step. apply wp_get. wp_step.
  apply wp_mfor with (I := fun p ix' => swept keep ix ix' /\
    (forall id, is_Some (lv_data (set_of cold ix') !! id) -> id ∈ p -> id ∈ refs) /\
    forall c, c <> cold -> lv_data (set_of c ix') = lv_data (set_of c ix)).
  - split_and!; [by apply swept_refl|by intros id _ ?%elem_of_nil|done].
  - intros p id q ix1 _ (Hsw & Hp & Ho). pose proof Hsw as (Hok1 & Hcl1 & _ & _ & _ & H1).
    case_bool_decide as Hin.
    + wp_step. split_and!; [done| |done]. intros id' Hl [?| ->%list_elem_of_singleton]%elem_of_app; auto.
    + apply (wp_gc_remove keep); [done|done| |by intros ?%Hkeep| |].
      * destruct (H1 cold) as [-> _]. by intros ?%Hact.
      * intros ix2 Hsw2 Hd Hne2. split_and!; [by eapply swept_trans| |].
        -- intros id' Hl Hin'. rewrite Hd in Hl. destruct Hl as [d [Hne Hl]%lookup_delete_Some].
           apply elem_of_app in Hin' as [?| ->%list_elem_of_singleton]; [eauto|done].
        -- intros c Hc. rewrite Hne2 by done. by apply Ho.
      * intros e ix2 Hsw2. apply HE. by eapply swept_trans.
  - intros ix1 (Hsw & Hp & Ho). pose proof Hsw as (Hok1 & Hcl1 & _ & _ & _ & H1). wp_step.
    apply wp_zoom. eapply wp_mono; [apply lv_dir; by apply sets_ok_of|].
    intros r s (Hs & Hq & Hc & Ha & Hr).
    destruct (quiet_swept keep cold s ix1) as [Hsw2 Hd2]; [done..|].
    assert (swept keep ix (with_set cold s ix1)) as Hsw12 by by eapply swept_trans.
    destruct r as [entries|e|]; [|by apply HE|done].
    apply wp_mfor with (I := fun _ ix' => swept keep ix ix' /\
      forall c, lv_data (set_of c ix') = lv_data (set_of c ix1)); [done| |].
    + intros p e q ix2 _ [Hswx Hd]. pose proof Hswx as (Hokx & Hclx & _).
      apply (wp_gc_stray keep); [done|done| |].
      * intros ix3 Hsw3 Hd3. split; [by eapply swept_trans|]. intros c. by rewrite Hd3.
      * intros err ix3 Hsw3. apply HE. by eapply swept_trans.
    + intros ix2 [Hswx Hd]. apply HO; [done| |].
      * intros id Hl. rewrite Hd in Hl. apply Hp; [done|]. apply lv_all.
        destruct (H1 cold) as [_ Hi]. destruct (Hi id) as (_ & L & _). auto.
      * intros c Hne. rewrite Hd. by apply Ho.
Qed.

(** ** The operation *)

(** What is left after a success is referenced or active. *)
Definition collected ix ix' (r : outcome unit) : Prop :=
  match r with
  | Ok _ => forall cold id, is_Some (lv_data (set_of cold ix') !! id) ->
      referenced (contents (ix_db ix)) cold id \/ sl_active_id (set_of cold ix) = Some id
  | Err _ => True
  | Panic => False
  end.

Lemma wp_GC ix :
  index_ok ix -> sets_clean ix ->
  wp GC (fun r ix' => swept (referenced (contents (ix_db ix))) ix ix' /\ collected ix ix' r) ix.
Proof.
  intros Hok Hcl. set (m := contents (ix_db ix)). pose proof Hok as (Hsets & _ & _ & Hs & _).
  assert (swept (referenced m) ix ix) as Hrefl by by apply swept_refl.
  unfold GC. wp_step. apply wp_on_db, wp_DB_walk; rewrite with_db_id; [|done].
  intros l _ Hl. wp_step.
  assert (forall k v, (k, v) ∈ l <-> m !! k = Some v /\ has_prefix StripeAllPrefix k) as Hl'.
  { intros k v. apply (prefix_pairs (ix_stripeSize ix) m StripeAllPrefix l Hs); [|exact Hl]. by apply Forall_singleton. }
  destruct (mark_all_spec (frags_of_pairs l) (∅, ∅)) as (refs & Er & Hrefs).
  { intros f Hf. apply (elem_of_all_scan _ m _ _ Hs Hl') in Hf as (i & Hi & Hf).
    by destruct (frag_in_shape _ _ _ _ Hs Hi Hf) as (_ & s & _ & (_ & _ & _ & ?) & _). }
  rewrite Er. apply wp_of_outcome. wp_step. apply wp_get. wp_step.
  assert (forall cold id, id ∈ refs_of cold refs <-> referenced m cold id) as Href.
  { intros cold id. rewrite Hrefs. unfold referenced. split.
    - intros [Hx|(f & Hf & ? & ?)]; [by destruct cold; apply elem_of_empty in Hx|].
      apply (elem_of_all_scan _ m _ _ Hs Hl') in Hf as (i & Hi & Hf). by exists i, f.
    - intros (i & f & Hi & Hf & ? & ?). right. exists f. split; [|done].
      apply (elem_of_all_scan _ m _ _ Hs Hl'). by exists i. }
  assert (forall cold id, id ∈ mark_active (sl_active_id (set_of cold ix)) (refs_of cold refs) <->
    referenced m cold id \/ sl_active_id (set_of cold ix) = Some id) as Hma.
  { intros cold id. rewrite <-Href. unfold mark_active. destruct (sl_active_id _); set_solver. }
  apply (wp_gc_set (referenced m) false); [done|done| | | |].
  - intros id Hk. apply (Hma false). by left.
  - intros id Ha. apply (Hma false). by right.
  - intros ix1 Hsw1 Hhot Hne1. pose proof Hsw1 as (Hok1 & Hcl1 & _ & _ & _ & H1).
    apply (wp_gc_set (referenced m) true); [done|done| | | |].
    + intros id Hk. apply (Hma true). by left.
    + intros id Ha. apply (Hma true). right. rewrite <-Ha. symmetry. apply (H1 true).
    + intros ix2 Hsw2 Hcold Hne2. assert (swept (referenced m) ix ix2) as Hsw by by eapply swept_trans.
      split; [done|]. intros [] id Hlive.
      * by apply (Hma true), Hcold.
      * apply (Hma false), Hhot. by rewrite Hne2 in Hlive.
    + intros e ix2 Hsw2. split; [by eapply swept_trans|done].
  - intros e ix1 Hsw1. by split.
Qed.

(** C15: garbage collection loses nothing and keeps nothing dead.  No byte of
    any file changes and the database is untouched, whether it succeeds or
    fails half way; after a success every segment left holds bytes of a live
    fragment or is the active segment of its tier. *)
Theorem GC_collects ix :
  index_ok ix -> sets_clean ix ->
  let '(r, ix') := GC ix in
  unchanged ix ix' /\ sets_clean ix' /\
  collected ix ix' r.
Proof.
  intros Hok Hcl. apply (wp_pair GC (fun r ix' => unchanged ix ix' /\ sets_clean ix' /\ collected ix ix' r)).
  eapply wp_mono; [by apply wp_GC|]. intros r ix' [Hsw Hc]. split_and!; [by apply swept_unchanged|apply Hsw|done].
Qed.
End GC.
