(* ===== verification/IndexRecover.v ===== *)
(** * The storage engine: recovery

    After a power loss [Open] finds the database as the last synced commit left
    it and, in each tier, the durable part of every segment.  Because an append
    makes its bytes durable before it commits their fragments, every file has
    its content back. *)

From S2P Require Import Prelude Keys Kv Fragment Plan Segment Layer Index IndexSpec IndexRead IndexAppend IndexMaint IndexGC.

Section Recover.
Context {P : Type} {PB : Pebble P} {PL : PebbleLaws P}.
Context {S : Type} {SL : SegLayer S} {SLL : SegLayerLaws S} {MR : MapRange}.
Implicit Types ix : Index P S.
Implicit Types m : gmap bytes bytes.
Implicit Types l : list (bytes * bytes).

(** ** The blob migration, on a database without blobs *)

Lemma migrate_pair_fragment ss mx inode stripe f :
  in_u64 inode -> frag_shape ss stripe f ->
  migrate_pair (mkMigration [] [] mx) (FragmentKey inode stripe (fr_Seq f), encodeFragments [f]) =
  Ok (mkMigration [] [] (Z.max mx (fr_Seq f))).
Proof.
  intros Hi Hsh. unfold migrate_pair. cbn [fst].
  assert (IsLegacyStripeKey (FragmentKey inode stripe (fr_Seq f)) = false) as ->
    by (unfold IsLegacyStripeKey; by rewrite blen_FragmentKey).
  rewrite IsFragmentKey_true, Seq_FragmentKey by by eapply shape_seq.
  cbn [negb obind mg_legacyKeys mg_newSets mg_maxSeq]. do 2 f_equal.
  destruct (Z.ltb_spec mx (fr_Seq f)); lia.
Qed.

Lemma wp_migrateBlobsToFragments top ix (Q : outcome unit -> Index P S -> Prop) :
  stripe_size_ok (ix_stripeSize ix) -> db_shape (ix_stripeSize ix) (contents (ix_db ix)) ->
  in_u64 (ix_seqGen ix) ->
  0 <= top -> top + 1 < 2^64 -> (forall i f, in_u64 i -> frag_in (contents (ix_db ix)) i f -> fr_Seq f <= top) ->
  (forall n, in_u64 n -> n <= Z.max (ix_seqGen ix) (top + 1) ->
     (forall i f, in_u64 i -> frag_in (contents (ix_db ix)) i f -> fr_Seq f <= n) ->
     Q (Ok tt) (with_seqGen n ix)) ->
  (forall e, Q (Err e) ix) ->
  wp migrateBlobsToFragments Q ix.
Proof.
  intros Hss Hs Hu Ht0 Ht1 Hmax HO HE. set (m := contents (ix_db ix)) in *.
  unfold migrateBlobsToFragments. wp_step. apply wp_on_db, wp_DB_walk; rewrite with_db_id; [|done].
  intros l _ Hl0.
  assert (forall k v, (k, v) ∈ l <-> m !! k = Some v /\ has_prefix StripeAllPrefix k) as Hl.
  { intros k v. apply (prefix_pairs (ix_stripeSize ix) m StripeAllPrefix l Hs); [|exact Hl0].
    by apply Forall_singleton. }
  wp_step. apply wp_mfold with (I := fun p mg ix' => ix' = ix /\ exists mx,
    mg = mkMigration [] [] mx /\ 0 <= mx /\ mx <= top /\
    forall i s f, in_u64 i -> in_u32 s -> fragment_typed f ->
      (FragmentKey i s (fr_Seq f), encodeFragments [f]) ∈ p -> fr_Seq f <= mx).
  - split; [done|]. exists 0. split_and!; try done. by intros i s f _ _ _ ?%elem_of_nil.
  - intros p [k v] q mg ix' El [-> (mx & -> & Hge & Hlt & Hp)].
    assert ((k, v) ∈ l) as Hin by (rewrite El; set_solver). apply Hl in Hin as [Hm Hpre].
    destruct (shape_pair _ _ _ _ Hs Hm Hpre) as (i & s & f & Hi & Hst & -> & -> & Hsh & _).
    rewrite (migrate_pair_fragment (ix_stripeSize ix)) by done. apply wp_of_outcome.
    assert (fragment_typed f) as Hty by by eapply shape_typed.
    assert (fr_Seq f <= top) by (apply (Hmax i); [done|]; split; [done|]; by exists s).
    split; [done|]. exists (Z.max mx (fr_Seq f)). split_and!; [done|lia|lia|].
    intros i' s' f' Hi' Hs' Hty' [Hin|E%list_elem_of_singleton]%elem_of_app.
    + specialize (Hp i' s' f' Hi' Hs' Hty' Hin). lia.
    + apply pair_eq in E as [Ek _]. pose proof Hty as (? & _). pose proof Hty' as (? & _).
      apply FragmentKey_inj in Ek as (_ & _ & ->); try done. lia.
  - intros mg ix' [-> (mx & -> & Hge & Hlt & Hp)]. cbn [mg_legacyKeys mg_newSets mg_maxSeq].
    assert (forall i f, in_u64 i -> frag_in m i f -> fr_Seq f <= mx) as Hb.
    { intros i f Hi (Ht & s & Hst & Hm). apply (Hp i s f); try done. apply Hl.
      split; [done|apply prefix_StripeAll_FragmentKey]. }
    assert (with_seqGen (ix_seqGen ix) ix = ix) as Eid by by destruct ix.
    change (blen (@nil bytes) =? 0) with true. cbn [andb].
    unfold in_u64 in Hu. destruct (Z.eqb_spec mx 0) as [->|Hne].
    + wp_step. rewrite <-Eid. apply HO; [done|lia|]. intros i f Hi Hf. specialize (Hb i f Hi Hf). lia.
    + wp_step. unfold raise_seq. wp_step. wp_step.
      destruct (Z.ltb_spec mx (ix_seqGen ix)).
      * rewrite <-Eid. apply HO; [done|lia|]. intros i f Hi Hf. specialize (Hb i f Hi Hf). lia.
      * rewrite u64_id by (unfold in_u64; lia). apply HO; [unfold in_u64; lia|lia|].
        intros i f Hi Hf. specialize (Hb i f Hi Hf). lia.
Qed.

(** ** What recovery brings back *)

(** The state a power loss leaves: every commit of the database was synced,
    the segments have lost what was not. *)
Definition index_crashed ix ix0 : Prop :=
  contents (ix_db ix0) = contents (ix_db ix) /\ ix_stripeSize ix0 = ix_stripeSize ix /\
  forall cold, lv_crashed (set_of cold ix) (set_of cold ix0).

Definition recovered_set (s s' : S) : Prop :=
  lv_ok s' /\ lv_clean s' /\
  forall id d, lv_data s !! id = Some d ->
    exists t, lv_data s' !! id = Some (slice d 0 (lv_durable s id) ++ t) /\
              lv_durable s id <= lv_durable s' id.

Lemma recovered_index ix ix' :
  index_ok ix -> (forall cold, recovered_set (set_of cold ix) (set_of cold ix')) ->
  contents (ix_db ix') = contents (ix_db ix) -> ix_stripeSize ix' = ix_stripeSize ix ->
  in_u64 (ix_seqGen ix') ->
  (forall i f, in_u64 i -> frag_in (contents (ix_db ix)) i f -> fr_Seq f <= ix_seqGen ix') ->
  index_ok ix' /\ forall i x, in_u64 i -> content ix' i x = content ix i x.
Proof.
  intros Hok Hrec Hdb Hss Hu Hseq. pose proof Hok as (Hsets & Hsso & _ & Hs & Hres).
  assert (index_ok ix') as Hok'.
  { split_and!; rewrite ?Hss, ?Hdb; try done.
    - split; [apply (Hrec false)|apply (Hrec true)].
    - intros i f Hi Hf. split; [|by apply (Hseq i)]. destruct (Hres i f Hi Hf) as [(d & Hd & Hle) _].
      destruct (Hrec (is_cold (fr_Tier f))) as (_ & _ & Hk). destruct (Hk _ _ Hd) as (t & Ht & Hle').
      eexists. split; [exact Ht|]. unfold tier_durable in *. lia. }
  split; [done|]. intros i x Hi. apply content_same_fetch; [done..|intros f _; by rewrite Hdb|].
  intros f Hf Hc. apply covers_true in Hc.
  destruct (frag_in_shape _ _ _ _ Hs Hi Hf) as (_ & s & _ & (Hfo & _) & _).
  destruct Hfo as (_ & _ & _ & _ & _ & _ & Ho & _).
  destruct (Hres i f Hi Hf) as [(d & Hd & Hle) _]. unfold tier_data, tier_durable in *.
  destruct (Hrec (is_cold (fr_Tier f))) as (_ & _ & Hk). destruct (Hk _ _ Hd) as (t & Ht & _).
  destruct (lv_bounds _ _ _ (sets_ok_of _ (is_cold (fr_Tier f)) Hsets) Hd) as (_ & Hdu).
  unfold fetch, fragment_source, tier_data. rewrite Ht, Hd.
  rewrite byte_at_app_l by (rewrite blen_slice by lia; lia). by rewrite byte_at_slice by lia.
Qed.

(** ** The operation *)

Lemma wp_or_close cs (m : M (Index P S) unit) ix (Q : outcome unit -> Index P S -> Prop) :
  Forall (fun c => forall ix', wp c (fun r _ => r <> Panic) ix') cs ->
  (forall e ix', Q (Err e) ix') ->
  wp m (fun r ix' => match r with Ok _ => Q (Ok tt) ix' | Err _ => True | Panic => False end) ix ->
  wp (or_close cs m) Q ix.
Proof.
  intros Hcs HE Hm. unfold or_close. wp_step. wp_step. eapply wp_mono; [exact Hm|].
  intros [[]|e|] ix1 H1; [by wp_step| |done]. wp_step.
  apply wp_mfor with (I := fun _ _ => True); [done| |].
  - intros p c q ix2 -> _. apply Forall_app in Hcs as [_ Hc]. apply Forall_cons in Hc as [Hc _].
    wp_step. wp_step. eapply wp_mono; [apply Hc|]. by intros [[]|?|] ix3 H3.
  - intros ix2 _. wp_step. apply HE.
Qed.

Lemma wp_close_db ix : wp (on_db DB_Close) (fun r (_ : Index P S) => r <> Panic) ix.
Proof. apply wp_on_db. unfold wp. apply (peb_close_law (ix_db ix)). Qed.

Lemma wp_close_set cold ix : wp (on_set cold sl_close_all) (fun r (_ : Index P S) => r <> Panic) ix.
Proof. apply wp_zoom. eapply wp_mono; [apply lv_close_all|]. done. Qed.

(** Opening one set, and later repairing it. *)
Definition opened (s0 : S) (R : S -> Prop) : Prop :=
  wp sl_open (fun r s => match r with
    | Ok _ => wp sl_repair (fun r s' => match r with Ok _ => R s' | Err _ => True | Panic => False end) s
    | Err _ => True
    | Panic => False
    end) s0.

Lemma crashed_opened s s0 :
  lv_ok s -> lv_clean s -> lv_ordered s -> lv_crashed s s0 -> opened s0 (recovered_set s).
Proof.
  intros Hok Hc Ho Hk. pose proof (lv_recover s s0 Hok Hc Ho Hk) as H. apply wp_bind_inv in H.
  eapply wp_mono; [exact H|]. intros [[]|e|] s1 H1; [|done|by destruct H1].
  eapply wp_mono; [exact H1|]. intros [[]|e|] s2 [Hp Hr]; [by apply Hr|done|done].
Qed.

Lemma first_err_ok (e : outcome unit) (m : M (Index P S) unit) ix (Q : outcome (outcome unit) -> Index P S -> Prop) :
  e <> Panic -> wp m (fun r ix' => r <> Panic /\ forall e', e' <> Panic -> Q (Ok e') ix') ix ->
  wp (first_err e m) Q ix.
Proof.
  intros He Hm. unfold first_err. wp_step. wp_step. eapply wp_mono; [exact Hm|].
  intros r ix' [Hr HQ]. destruct r as [[]|x|]; [|  |done]; wp_step; apply HQ; by destruct e.
Qed.

Lemma wp_CloseIdx ix : sets_ok ix -> wp CloseIdx (fun r (_ : Index P S) => r <> Panic) ix.
Proof.
  intros Hok. unfold CloseIdx. wp_step.
  apply first_err_ok; [done|]. apply wp_zoom. eapply wp_mono; [apply lv_sync_all; by apply (sets_ok_of _ false)|].
  intros r s (Hs & _ & _ & Hr). split; [by destruct r|]. intros e He. wp_step.
  apply first_err_ok; [done|]. apply wp_zoom. eapply wp_mono; [apply lv_sync_all; by apply Hok|].
  intros r2 s2 (_ & _ & _ & Hr2). split; [by destruct r2|]. intros e2 He2. wp_step.
  apply first_err_ok; [done|]. eapply wp_mono; [apply wp_close_db|]. intros r3 ix3 Hr3. split; [done|].
  intros e3 He3. wp_step.
  apply first_err_ok; [done|]. eapply wp_mono; [apply wp_close_set|]. intros r4 ix4 Hr4. split; [done|].
  intros e4 He4. wp_step.
  apply first_err_ok; [done|]. eapply wp_mono; [apply wp_close_set|]. intros r5 ix5 Hr5. split; [done|].
  intros e5 He5. by apply wp_of_outcome.
Qed.

(** What [Open] comes back with. *)
Definition recovers now ix (r : outcome unit) (ix' : Index P S) : Prop :=
  match r with
  | Ok _ =>
      index_ok ix' /\ sets_clean ix' /\ contents (ix_db ix') = contents (ix_db ix) /\
      (forall i x, in_u64 i -> content ix' i x = content ix i x) /\
      (forall i f, in_u64 i -> frag_in (contents (ix_db ix)) i f -> fr_Seq f <= ix_seqGen ix') /\
      ix_seqGen ix' <= Z.max (u64 now) (ix_seqGen ix + 1)
  | Err _ => True
  | Panic => False
  end.

Lemma wp_OpenSets now ix ix0 :
  index_ok ix -> sets_clean ix -> (forall cold, lv_ordered (set_of cold ix)) ->
  ix_seqGen ix + 1 < 2^64 -> index_crashed ix ix0 -> wp (OpenSets now) (recovers now ix) ix0.
Proof.
  intros Hok Hcl Hord Hseq (Hdb & Hss & Hcr). pose proof Hok as (Hsets & Hsso & Hu & Hs & Hres).
  assert (forall cold, opened (set_of cold ix0) (recovered_set (set_of cold ix))) as Hop.
  { intros cold. apply crashed_opened; [by apply sets_ok_of|by apply sets_clean_of|done|done]. }
  pose proof (Hop false) as Hhot. pose proof (Hop true) as Hcold. unfold opened in Hhot, Hcold.
  pose proof wp_close_db as Cdb. pose proof wp_close_set as Cset.
  unfold OpenSets. wp_step. apply wp_or_close; [by repeat constructor|done|].
  apply wp_zoom. eapply wp_mono; [exact Hhot|]. intros [[]|e|] h1 Hh1; [|done|done]. wp_step.
  apply wp_or_close; [by repeat constructor|done|].
  apply wp_zoom. eapply wp_mono; [exact Hcold|]. intros [[]|e|] c1 Hc1; [|done|done]. wp_step.
  apply wp_or_close; [by repeat constructor|done|].
  apply wp_zoom. eapply wp_mono; [exact Hh1|]. intros [[]|e|] h2 Hh2; [|done|done]. wp_step.
  apply wp_or_close; [by repeat constructor|done|].
  apply wp_zoom. eapply wp_mono; [exact Hc1|]. intros [[]|e|] c2 Hc2; [|done|done]. wp_step. wp_step.
  set (ix1 := with_seqGen _ _).
  assert (forall cold, recovered_set (set_of cold ix) (set_of cold ix1)) as Hrec by (by intros []).
  assert (contents (ix_db ix1) = contents (ix_db ix)) as Hdb1 by exact Hdb.
  assert (ix_stripeSize ix1 = ix_stripeSize ix) as Hss1 by exact Hss.
  wp_step. wp_step. apply (wp_migrateBlobsToFragments (ix_seqGen ix)); rewrite ?Hdb1, ?Hss1; try done.
  - apply u64_range.
  - unfold in_u64 in Hu. lia.
  - intros i f Hi Hf. by destruct (Hres i f Hi Hf).
  - intros n Hn Hle Hb. wp_step.
    destruct (recovered_index ix (with_seqGen n ix1)) as [Hok' Hc']; try done.
    split_and!; try done. split; [apply (Hrec false)|apply (Hrec true)].
  - intros e. wp_step. wp_step. eapply wp_mono; [apply wp_CloseIdx|].
    { split; [apply (Hrec false)|apply (Hrec true)]. }
    by intros [[]|?|] ix2 H2.
Qed.

(** C12: no acknowledged byte is lost in a crash.  Reopened on what a power
    loss leaves of a healthy engine, [Open] gives every file exactly its
    content back, re-establishes the invariant, and starts its sequence
    numbers above every fragment of the database, but no further than the clock
    or one past the old ones.  It may fail, but does not panic. *)
Theorem recovery_keeps_content now ix ix0 :
  index_ok ix -> sets_clean ix -> (forall cold, lv_ordered (set_of cold ix)) ->
  ix_seqGen ix + 1 < 2^64 -> index_crashed ix ix0 ->
  let '(r, ix') := OpenSets now ix0 in
  match r with
  | Ok _ =>
      index_ok ix' /\ sets_clean ix' /\ contents (ix_db ix') = contents (ix_db ix) /\
      (forall i x, in_u64 i -> content ix' i x = content ix i x) /\
      (forall i f, in_u64 i -> frag_in (contents (ix_db ix)) i f -> fr_Seq f <= ix_seqGen ix') /\
      ix_seqGen ix' <= Z.max (u64 now) (ix_seqGen ix + 1)
  | Err _ => True
  | Panic => False
  end.
Proof. intros. apply (wp_pair (OpenSets now) (recovers now ix)). by apply wp_OpenSets. Qed.
End Recover.
