(* ===== verification/IndexExamples.v ===== *)
(** * The storage engine at work

    A small engine on the in-memory database and the modelled segment sets:
    stripes of 8 bytes, and a file of 10 bytes written at offset 2, in two
    stripes.  It instantiates every hypothesis of the engine's theorems. *)

From S2P Require Import Prelude Keys Kv Fragment Plan Segment Layer SegmentSet Index IndexSpec IndexRead IndexAppend IndexMaint IndexMove IndexGC IndexRecover.

#[local] Existing Instance insertion_order.

Abbreviation Ix := (Index MemDB SetSt).

Definition ex_tier (t : Z) : SetSt := (mkSet t 200 ∅ ∅ None 0 ∅ true, []).
Definition ex_ix0 : Ix := mkIndex ∅ (ex_tier TierHot) (ex_tier TierCold) 8 100.

Definition ex_payload : bytes := [1; 2; 3; 4; 5; 6; 7; 8; 9; 10].
Definition ex_ix1 : Ix := (AppendToWithTxCtx 7 2 ex_payload TierHot None ex_ix0).2.

Lemma ex_tier_ok t : lv_ok (ex_tier t) /\ lv_clean (ex_tier t).
Proof.
  split; [change (set_ok (ex_tier t).1)|change (set_clean (ex_tier t).1)].
  - split; [done|]. split; [done|]. by split.
  - split; [done|]. split; [done|]. intros _. split; [|split; [by intros id [g ?]|done]].
    intros name id [_ [(d & sy & Hl)|[Hd _]]]; [done|]. by apply elem_of_empty in Hd.
Qed.

Lemma ex_ix0_ok : index_ok ex_ix0 /\ sets_clean ex_ix0.
Proof.
  pose proof ex_tier_ok as Ht. split; [|split; apply Ht].
  unfold index_ok. split_and!; try done; try (split; apply Ht).
  - intros i f _ (_ & s & _ & Hl). done.
Qed.

(** What the engine shows of inode 7. *)
Definition ex_view (ix : Ix) (inode : Z) : list (option Z) :=
  (fun i : nat => content ix inode (Z.of_nat i)) <$> seq 0 14.

Example ex_ix1_view : ex_view ex_ix1 7 =
  [None; None; Some 1; Some 2; Some 3; Some 4; Some 5; Some 6; Some 7; Some 8; Some 9; Some 10;
   None; None].
Proof. by vm_compute. Qed.

(** The outcome of a concrete run. *)
Ltac run_to_ok E :=
  match type of E with _ = (?r, _) =>
    assert (r = Ok tt) by (apply (f_equal fst) in E; vm_compute in E; congruence); subst r
  end.

(** The state after the write, by the specification of the write. *)
Lemma ex_ix1_ok : index_ok ex_ix1 /\ sets_clean ex_ix1.
Proof.
  destruct ex_ix0_ok as [Hok Hcl]. unfold ex_ix1.
  assert (wp (AppendToWithTxCtx 7 2 ex_payload TierHot None)
    (fun r ix' => match r with Ok _ => index_ok ix' /\ sets_clean ix' | Err _ => True | Panic => False end)
    ex_ix0) as H.
  { apply wp_AppendToWithTxCtx; try done; [by apply bytes_ok_dec|by left|].
    intros ix' (Hok' & _) Hc' _. by split. }
  unfold wp in H. destruct (AppendToWithTxCtx 7 2 ex_payload TierHot None ex_ix0) as [r ix'] eqn:E.
  cbn [fst snd] in *. by run_to_ok E.
Qed.

(** ** Witnesses *)

Lemma AppendTo_overlays_witness :
  ix_stripeSize ex_ix0 = 8 /\ (AppendToWithTxCtx 7 2 ex_payload TierHot None ex_ix0).1 = Ok tt /\
  written ex_ix0 ex_ix1 7 None (overlay (content ex_ix0 7) 2 ex_payload).
Proof.
  pose proof (AppendTo_overlays 7 2 ex_payload TierHot None ex_ix0 (proj1 ex_ix0_ok) (proj2 ex_ix0_ok)
    ltac:(done) ltac:(by apply bytes_ok_dec) ltac:(by left) I ltac:(done) ltac:(done) ltac:(done)) as H.
  unfold ex_ix1. destruct (AppendToWithTxCtx 7 2 ex_payload TierHot None ex_ix0) as [r ix'] eqn:E.
  run_to_ok E. split; [reflexivity|]. split; [reflexivity|]. exact (proj1 H).
Defined.

Definition ex_extents : list AppendExtent :=
  [mkAppendExtent 101 2 [1; 2; 3] TierHot; mkAppendExtent 102 3 [9; 9; 9] TierCold].
Definition ex_ix0' : Ix := with_seqGen 102 ex_ix0.

Lemma ex_extents_ok :
  Forall (extent_ok 8) ex_extents /\ seqs_fresh (contents (ix_db ex_ix0')) 7 ex_extents.
Proof.
  split.
  - apply Forall_cons; split; [|apply Forall_singleton]; unfold extent_ok; cbn;
      (split_and!; [done|done|done|by apply bytes_ok_dec|auto|done|done]).
  - split; [repeat constructor; cbn; lia|]. intros g e (_ & s & _ & Hl). done.
Qed.

Lemma AppendBatch_writes_witness :
  let '(r, ix') := AppendBatchCtx 7 ex_extents None ex_ix0' in
  r = Ok tt /\ written ex_ix0' ix' 7 None (overlay_all (content ex_ix0' 7) ex_extents).
Proof.
  destruct (with_seqGen_ok ex_ix0 102 (proj1 ex_ix0_ok) ltac:(done)) as [Hok _].
  pose proof (AppendBatch_writes 7 ex_extents None ex_ix0' Hok (proj2 ex_ix0_ok) ltac:(done)
    (proj1 ex_extents_ok) ltac:(intros e [-> |[-> |?%elem_of_nil]%elem_of_cons]%elem_of_cons; done)
    (proj2 ex_extents_ok) I) as H.
  destruct (AppendBatchCtx 7 ex_extents None ex_ix0') as [r ix'] eqn:E.
  run_to_ok E. split; [reflexivity|]. exact (proj1 H).
Defined.

Lemma PlanRead_reads_content_witness :
  exists plan, (PlanReadCtx 7 0 14 ex_ix1).1 = Ok plan /\ length plan = 4%nat /\ tiles plan 0 14.
Proof.
  pose proof (PlanRead_reads_content 7 0 14 ex_ix1 (proj1 ex_ix1_ok) ltac:(done)
    (reliable_iter_complete _) ltac:(done) ltac:(done) ltac:(done)) as H.
  destruct (PlanReadCtx 7 0 14 ex_ix1) as [r ix'] eqn:E.
  assert (exists plan, r = Ok plan /\ length plan = 4%nat) as (plan & -> & Hlen).
  { apply (f_equal fst) in E. vm_compute in E. cbn in E. subst r. eexists. by split. }
  exists plan. split; [reflexivity|]. split; [exact Hlen|]. exact (proj1 (proj2 H)).
Defined.

Lemma Truncate_cuts_witness :
  let '(r, ix') := Truncate 7 5 ex_ix1 in
  r = Ok tt /\ forall x, content ix' 7 x = cut_at 5 (content ex_ix1 7) x.
Proof.
  pose proof (Truncate_cuts 7 5 ex_ix1 (proj1 ex_ix1_ok) ltac:(done) ltac:(done)) as H.
  destruct (Truncate 7 5 ex_ix1) as [r ix'] eqn:E.
  run_to_ok E. split; [reflexivity|]. exact (proj1 (proj2 (proj2 (proj1 H)))).
Defined.

Lemma DeleteInode_empties_witness :
  let '(r, ix') := DeleteInode 7 ex_ix1 in
  r = Ok tt /\ forall x, content ix' 7 x = None.
Proof.
  pose proof (DeleteInode_empties 7 ex_ix1 (proj1 ex_ix1_ok) ltac:(done)) as H.
  destruct (DeleteInode 7 ex_ix1) as [r ix'] eqn:E.
  run_to_ok E. split; [reflexivity|]. exact (proj1 (proj2 (proj2 H))).
Defined.

Lemma Move_preserves_witness :
  let '(r, ix') := Move 7 0 TierCold ex_ix1 in
  r = Ok tt /\ recanonicalised ex_ix1 ix' 7 0 TierCold.
Proof.
  pose proof (Move_preserves 7 0 TierCold ex_ix1 (proj1 ex_ix1_ok) (proj2 ex_ix1_ok) ltac:(done)
    ltac:(done) ltac:(by right) ltac:(done)) as H.
  destruct (Move 7 0 TierCold ex_ix1) as [r ix'] eqn:E.
  run_to_ok E. split; [reflexivity|]. exact (proj1 H).
Defined.

Lemma GC_collects_witness :
  let '(r, ix') := GC ex_ix1 in
  r = Ok tt /\ forall i x, in_u64 i -> content ix' i x = content ex_ix1 i x.
Proof.
  pose proof (GC_collects ex_ix1 (proj1 ex_ix1_ok) (proj2 ex_ix1_ok)) as H.
  destruct (GC ex_ix1) as [r ix'] eqn:E.
  run_to_ok E. split; [reflexivity|]. exact (proj2 (proj2 (proj1 H))).
Defined.

(** The engine after a power loss. *)
Definition ex_off : Ix :=
  mkIndex (ix_db ex_ix1) (power_off (ix_hot ex_ix1).1, []) (power_off (ix_cold ex_ix1).1, []) 8 0.

Lemma ex_off_crashed : index_crashed ex_ix1 ex_off.
Proof.
  destruct ex_ix1_ok as [((Hh & Hc) & _) [Ch Cc]].
  split; [done|]. split; [by vm_compute|]. intros []; by apply power_off_crashed.
Qed.

Lemma recovery_keeps_content_witness :
  let '(r, ix') := OpenSets 50 ex_off in
  r = Ok tt /\ index_ok ix' /\ forall i x, in_u64 i -> content ix' i x = content ex_ix1 i x.
Proof.
  pose proof (recovery_keeps_content 50 ex_ix1 ex_off (proj1 ex_ix1_ok) (proj2 ex_ix1_ok)
    ltac:(by intros []) ltac:(by vm_compute) ex_off_crashed) as H.
  destruct (OpenSets 50 ex_off) as [r ix'] eqn:E.
  run_to_ok E. split; [reflexivity|]. destruct H as (Hok & _ & _ & Hc & _). split; [exact Hok|exact Hc].
Defined.
