(* ===== verification/Node.v ===== *)
(** * Inode metadata (src/store/store.go): modes, nodes and their encoding,
      directory entries, names and paths *)

From S2P Require Import Prelude Keys Gostr.

(** ** Modes *)

Definition ModeRegular : Z := 32768.   (* 0o100000 *)
Definition ModeDir : Z := 16384.       (* 0o040000 *)
Definition ModeSymlink : Z := 40960.   (* 0o120000 *)
Definition ModeMask : Z := 61440.      (* 0o170000 *)
Definition PermMask : Z := 4095.       (* 0o7777 *)

Definition IsDir (m : Z) : bool := Z.land m ModeMask =? ModeDir.
Definition IsRegular (m : Z) : bool := Z.land m ModeMask =? ModeRegular.
Definition IsSymlink (m : Z) : bool := Z.land m ModeMask =? ModeSymlink.

Definition RootInode : Z := 1.

(** ** Errors: [syscall.Errno] values *)

Definition ErrNotExist : error := Errno 2.    (* ENOENT *)
Definition ErrExist : error := Errno 17.      (* EEXIST *)
Definition ErrNotDir : error := Errno 20.     (* ENOTDIR *)
Definition ErrIsDir : error := Errno 21.      (* EISDIR *)
Definition ErrNotEmpty : error := Errno 39.   (* ENOTEMPTY *)
Definition ErrInvalid : error := Errno 22.    (* EINVAL *)
Definition EPERM : error := Errno 1.
Definition dangling : error := ErrMsg "store: dangling dirent".

(** ** Nodes *)

Record Node : Type := mkNode {
  nd_Inode : Z;
  nd_Mode : Z;
  nd_Nlink : Z;
  nd_UID : Z;
  nd_GID : Z;
  nd_Size : Z;
  nd_Mtime : Z;
  nd_Ctime : Z;
  nd_Atime : Z;
  nd_SymlinkTarget : bytes;
}.

Definition nodeFixedSize : Z := 58.

Definition encodeNode (n : Node) : bytes :=
  put_le 8 (nd_Inode n) ++ put_le 4 (nd_Mode n) ++ put_le 4 (nd_Nlink n) ++
  put_le 4 (nd_UID n) ++ put_le 4 (nd_GID n) ++ put_le 8 (u64 (nd_Size n)) ++
  put_le 8 (u64 (nd_Mtime n)) ++ put_le 8 (u64 (nd_Ctime n)) ++ put_le 8 (u64 (nd_Atime n)) ++
  put_le 2 (u16 (blen (nd_SymlinkTarget n))) ++ nd_SymlinkTarget n.

Definition decodeNode (buf : bytes) : outcome Node :=
  if blen buf <? nodeFixedSize then Err (ErrMsg "store: node blob too short")
  else
    let sl := get_le (slice buf 56 58) in
    if blen buf - nodeFixedSize <? sl then Err (ErrMsg "store: node symlink len > available")
    else Ok {|
      nd_Inode := get_le (slice buf 0 8);
      nd_Mode := get_le (slice buf 8 12);
      nd_Nlink := get_le (slice buf 12 16);
      nd_UID := get_le (slice buf 16 20);
      nd_GID := get_le (slice buf 20 24);
      nd_Size := i64 (get_le (slice buf 24 32));
      nd_Mtime := i64 (get_le (slice buf 32 40));
      nd_Ctime := i64 (get_le (slice buf 40 48));
      nd_Atime := i64 (get_le (slice buf 48 56));
      nd_SymlinkTarget := slice buf nodeFixedSize (nodeFixedSize + sl);
    |}.

(** A node as the Go types bound it, with a target that fits its length field. *)
Definition node_typed (n : Node) : Prop :=
  in_u64 (nd_Inode n) /\ in_u32 (nd_Mode n) /\ in_u32 (nd_Nlink n) /\ in_u32 (nd_UID n) /\
  in_u32 (nd_GID n) /\ in_i64 (nd_Size n) /\ in_i64 (nd_Mtime n) /\ in_i64 (nd_Ctime n) /\
  in_i64 (nd_Atime n) /\ blen (nd_SymlinkTarget n) < 2^16.

(** ** Field updates *)

Definition set_Mode (x : Z) (n : Node) : Node :=
  mkNode (nd_Inode n) x (nd_Nlink n) (nd_UID n) (nd_GID n) (nd_Size n) (nd_Mtime n) (nd_Ctime n) (nd_Atime n) (nd_SymlinkTarget n).
Definition set_Nlink (x : Z) (n : Node) : Node :=
  mkNode (nd_Inode n) (nd_Mode n) x (nd_UID n) (nd_GID n) (nd_Size n) (nd_Mtime n) (nd_Ctime n) (nd_Atime n) (nd_SymlinkTarget n).
Definition set_UID (x : Z) (n : Node) : Node :=
  mkNode (nd_Inode n) (nd_Mode n) (nd_Nlink n) x (nd_GID n) (nd_Size n) (nd_Mtime n) (nd_Ctime n) (nd_Atime n) (nd_SymlinkTarget n).
Definition set_GID (x : Z) (n : Node) : Node :=
  mkNode (nd_Inode n) (nd_Mode n) (nd_Nlink n) (nd_UID n) x (nd_Size n) (nd_Mtime n) (nd_Ctime n) (nd_Atime n) (nd_SymlinkTarget n).
Definition set_Size (x : Z) (n : Node) : Node :=
  mkNode (nd_Inode n) (nd_Mode n) (nd_Nlink n) (nd_UID n) (nd_GID n) x (nd_Mtime n) (nd_Ctime n) (nd_Atime n) (nd_SymlinkTarget n).
Definition set_Mtime (x : Z) (n : Node) : Node :=
  mkNode (nd_Inode n) (nd_Mode n) (nd_Nlink n) (nd_UID n) (nd_GID n) (nd_Size n) x (nd_Ctime n) (nd_Atime n) (nd_SymlinkTarget n).
Definition set_Ctime (x : Z) (n : Node) : Node :=
  mkNode (nd_Inode n) (nd_Mode n) (nd_Nlink n) (nd_UID n) (nd_GID n) (nd_Size n) (nd_Mtime n) x (nd_Atime n) (nd_SymlinkTarget n).
Definition set_Atime (x : Z) (n : Node) : Node :=
  mkNode (nd_Inode n) (nd_Mode n) (nd_Nlink n) (nd_UID n) (nd_GID n) (nd_Size n) (nd_Mtime n) (nd_Ctime n) x (nd_SymlinkTarget n).

(** What the buffer adds to the node on disk. *)
Definition merge_live (live : option (Z * Z)) (n : Node) : Node :=
  match live with
  | None => n
  | Some (size, mtime) =>
      let n := if nd_Size n <? size then set_Size size n else n in
      if nd_Mtime n <? mtime then set_Ctime mtime (set_Mtime mtime n) else n
  end.

(** ** Attribute updates *)

(** [SetAttr]: a nil pointer is [None]. *)
Record SetAttr : Type := mkSetAttr {
  sa_Mode : option Z;
  sa_UID : option Z;
  sa_GID : option Z;
  sa_Size : option Z;
  sa_Mtime : option Z;
  sa_Atime : option Z;
}.

Definition opt_set {A} (x : option A) (f : A -> Node -> Node) (n : Node) : Node :=
  match x with Some a => f a n | None => n end.

Definition apply_attr (sa : SetAttr) (now : Z) (nn : Node) : Node :=
  let nn := opt_set (sa_Mode sa)
    (fun m n => set_Mode (Z.lor (Z.land (nd_Mode n) ModeMask) (Z.land m PermMask)) n) nn in
  let nn := opt_set (sa_UID sa) set_UID nn in
  let nn := opt_set (sa_GID sa) set_GID nn in
  let nn := opt_set (sa_Mtime sa) set_Mtime nn in
  let nn := opt_set (sa_Atime sa) set_Atime nn in
  let nn := opt_set (sa_Size sa) set_Size nn in
  set_Ctime now nn.

(** ** Directory entries *)

Definition direntValue (inode : Z) : bytes := put_be 8 inode.

Definition validName (name : bytes) : outcome unit :=
  if bool_decide (name = []) || bool_decide (name = [46]) || bool_decide (name = [46; 46]) ||
     bool_decide (47 ∈ name) || bool_decide (0 ∈ name) then Err ErrInvalid
  else Ok tt.

Definition equalBytes (a b : bytes) : bool := bool_decide (a = b).

(** ** Paths

    [strings.Split] on slashes; [path.Clean] of a rooted path drops empty and
    [.] elements and lets [..] remove the element before it. *)

Fixpoint split_slash (p : bytes) : list bytes :=
  match p with
  | [] => [[]]
  | c :: p =>
      if c =? 47 then [] :: split_slash p
      else match split_slash p with
           | e :: es => (c :: e) :: es
           | [] => [[c]]
           end
  end.

Definition clean_step (stack : list bytes) (e : bytes) : list bytes :=
  if bool_decide (e = []) || bool_decide (e = [46]) then stack
  else if bool_decide (e = [46; 46]) then removelast stack
  else stack ++ [e].

Definition splitPath (p : bytes) : list bytes := foldl clean_step [] (split_slash p).

(** ** Lemmas *)

Lemma blen_encodeNode n : blen (encodeNode n) = 58 + blen (nd_SymlinkTarget n).
Proof. unfold encodeNode. blen_tac. Qed.

Lemma decode_encodeNode n : node_typed n -> decodeNode (encodeNode n) = Ok n.
Proof.
  intros (H1 & H2 & H3 & H4 & H5 & H6 & H7 & H8 & H9 & H10).
  pose proof (blen_nonneg (nd_SymlinkTarget n)).
  unfold decodeNode. rewrite blen_encodeNode. unfold nodeFixedSize.
  rewrite (proj2 (Z.ltb_ge _ _)) by lia.
  assert (get_le (slice (encodeNode n) 56 58) = blen (nd_SymlinkTarget n)) as ->.
  { unfold encodeNode. slice_tac. rewrite get_put_le_u16 by apply u16_range. by apply u16_id. }
  rewrite (proj2 (Z.ltb_ge _ _)) by lia. f_equal.
  destruct n as [i md nl ui gi sz mt ct at' tg]. cbn [nd_Inode nd_Mode nd_Nlink nd_UID nd_GID nd_Size
    nd_Mtime nd_Ctime nd_Atime nd_SymlinkTarget] in *.
  unfold encodeNode. cbn [nd_Inode nd_Mode nd_Nlink nd_UID nd_GID nd_Size nd_Mtime nd_Ctime nd_Atime nd_SymlinkTarget].
  f_equal; slice_tac; by rewrite ?get_put_le_i64, ?get_put_le_u64, ?get_put_le_u32.
Qed.

(** The decoded target is a prefix: the length field keeps 16 bits. *)
Lemma decode_encodeNode_long n :
  node_typed (mkNode (nd_Inode n) (nd_Mode n) (nd_Nlink n) (nd_UID n) (nd_GID n) (nd_Size n)
    (nd_Mtime n) (nd_Ctime n) (nd_Atime n) []) ->
  exists n', decodeNode (encodeNode n) = Ok n' /\ nd_Inode n' = nd_Inode n /\
    nd_SymlinkTarget n' = slice (nd_SymlinkTarget n) 0 (blen (nd_SymlinkTarget n) mod 2^16).
Proof.
  intros (H1 & _). cbn [nd_Inode] in H1.
  set (tg := nd_SymlinkTarget n). pose proof (blen_nonneg tg).
  pose proof (Z.mod_pos_bound (blen tg) (2^16) ltac:(lia)).
  pose proof (Z.mod_le (blen tg) (2^16) ltac:(lia) ltac:(lia)).
  unfold decodeNode. rewrite blen_encodeNode. fold tg. unfold nodeFixedSize.
  rewrite (proj2 (Z.ltb_ge _ _)) by lia.
  assert (get_le (slice (encodeNode n) 56 58) = blen tg mod 2^16) as ->.
  { unfold encodeNode. slice_tac. by rewrite get_put_le_u16 by apply u16_range. }
  rewrite (proj2 (Z.ltb_ge _ _)) by lia.
  eexists. split; [done|]. cbn [nd_Inode nd_SymlinkTarget]. split.
  - unfold encodeNode. slice_tac. by rewrite get_put_le_u64.
  - unfold encodeNode. fold tg.
    do 10 (erewrite slice_app_skip; [|by rewrite blen_put_le|lia]; z_cbn).
    f_equal; lia.
Qed.

Lemma direntValue_inj a b : in_u64 a -> in_u64 b -> direntValue a = direntValue b -> a = b.
Proof.
  intros Ha Hb E. apply (f_equal get_be) in E. unfold direntValue in E.
  by rewrite !get_put_be_u64 in E.
Qed.

Lemma get_direntValue a : in_u64 a -> get_be (direntValue a) = a.
Proof. apply get_put_be_u64. Qed.

Lemma blen_direntValue a : blen (direntValue a) = 8.
Proof. unfold direntValue. by rewrite blen_put_be. Qed.

Lemma validName_ok name :
  validName name = Ok tt <->
  name <> [] /\ name <> [46] /\ name <> [46; 46] /\ 47 ∉ name /\ 0 ∉ name.
Proof. unfold validName. repeat case_bool_decide; cbn; naive_solver. Qed.

Lemma validName_err name e : validName name = Err e -> e = ErrInvalid.
Proof. unfold validName. destruct (_ || _); congruence. Qed.

Lemma validName_no_panic name : validName name <> Panic.
Proof. unfold validName. destruct (_ || _); congruence. Qed.

(** ** Mode arithmetic *)

Lemma mode_bits t perm :
  Z.land t PermMask = 0 -> Z.land t ModeMask = t ->
  Z.land (Z.lor t (Z.land perm PermMask)) ModeMask = t.
Proof.
  intros Ht Hm. rewrite Z.land_lor_distr_l, Hm, <-Z.land_assoc.
  change (Z.land PermMask ModeMask) with 0. by rewrite Z.land_0_r, Z.lor_0_r.
Qed.

Lemma lor_perm_u32 t perm : in_u32 t -> in_u32 (Z.lor t (Z.land perm PermMask)).
Proof.
  intros [Ht Ht']. change PermMask with (Z.ones 12). rewrite Z.land_ones by lia.
  pose proof (Z.mod_pos_bound perm (2^12) ltac:(lia)).
  assert (0 <= Z.lor t (perm mod 2^12)) by (apply Z.lor_nonneg; lia).
  split; [done|]. destruct (decide (Z.lor t (perm mod 2^12) = 0)) as [->|Hne]; [lia|].
  apply Z.log2_lt_pow2; [lia|]. rewrite Z.log2_lor by lia.
  apply Z.max_lub_lt.
  - destruct (decide (t = 0)) as [->|]; [done|]. apply Z.log2_lt_pow2; lia.
  - destruct (decide (perm mod 2^12 = 0)) as [->|]; [done|]. apply Z.log2_lt_pow2; lia.
Qed.

(** ** Paths: no name a walk uses is special *)

Lemma split_slash_ne p : split_slash p <> [].
Proof. destruct p as [|c p]; cbn; [done|]. destruct (c =? 47); [done|]. by destruct (split_slash p). Qed.

Lemma split_slash_no_slash p e : e ∈ split_slash p -> 47 ∉ e.
Proof.
  revert e. induction p as [|c p IH]; intros e; cbn.
  - intros ->%list_elem_of_singleton. by intros ?%elem_of_nil.
  - destruct (Z.eqb_spec c 47) as [->|Hne].
    + intros [->|He]%elem_of_cons; [by intros ?%elem_of_nil|by apply IH].
    + pose proof (split_slash_ne p) as Hs. destruct (split_slash p) as [|e0 es]; [done|].
      intros [->|He]%elem_of_cons; [|by apply IH; right].
      intros [?|Hin]%elem_of_cons; [congruence|]. by apply (IH e0 ltac:(left)).
Qed.

Lemma clean_stack_elem es : forall stack e,
  e ∈ foldl clean_step stack es -> e ∈ stack \/ (e ∈ es /\ e <> [] /\ e <> [46] /\ e <> [46; 46]).
Proof.
  induction es as [|x es IH]; intros stack e; cbn; [auto|].
  intros [Hin|(Hin & Hne)]%IH; [|right; split; [by right|done]].
  unfold clean_step in Hin. repeat case_bool_decide; cbn in Hin; try (by left).
  - left. revert Hin. clear. induction stack as [|a l IH]; [done|].
    destruct l as [|b l]; [by intros ?%elem_of_nil|]. cbn [removelast].
    intros [->|Hin]%elem_of_cons; [left|]. right. by apply IH.
  - apply elem_of_app in Hin as [Hin| ->%list_elem_of_singleton]; [by left|].
    right. split; [left|done].
Qed.
