(* ===== verification/Coalescer.v ===== *)
(** * The write-back buffer (src/store/coalescer.go): state and operations

    Per inode a [current] batch takes writes while a [flushing] batch is on its
    way to disk.  A flush is four critical sections: the swap of the batches,
    the building of the extents, the append, and the settling; they are
    separate definitions because other operations run in between, and
    [flushInode] is their composition.

    A [done] channel is an identifier; [co_closed] holds the closed ones.  The
    semaphore (golang.org/x/sync/semaphore) is a parameter.  The workers are
    the calls of [flushInode] on the requests of the queue; a call that blocks
    (on the semaphore, on a channel) ends with the error of its context. *)

From S2P Require Import Prelude Keys Kv Fragment Plan Segment Layer Index Node.

(** A weighted semaphore: an acquisition fails when its context ends first; a
    release of more than is held panics. *)
Class Semaphore (W : Type) := {
  sem_new : Z -> W;
  sem_acquire : Z -> W -> outcome unit * W;
  sem_release : Z -> W -> outcome unit * W;
}.

Class SemaphoreLaws (W : Type) `{Semaphore W} := {
  sem_cap : W -> Z;
  sem_held : W -> Z;
  sem_new_law : forall n, sem_cap (sem_new n) = n /\ sem_held (sem_new n) = 0;
  sem_acquire_law : forall n w,
    let '(r, w') := sem_acquire n w in
    sem_cap w' = sem_cap w /\
    match r with
    | Ok _ => sem_held w' = sem_held w + n /\ sem_held w' <= sem_cap w
    | Err _ => sem_held w' = sem_held w
    | Panic => False
    end;
  sem_release_law : forall n w, n <= sem_held w ->
    let '(r, w') := sem_release n w in
    r = Ok tt /\ sem_cap w' = sem_cap w /\ sem_held w' = sem_held w - n;
}.

Record coalescerOptions : Type := mkOptions {
  op_perInodeCap : Z;
  op_globalCap : Z;
  op_flushInterval : Z;
  op_workers : Z;
  op_queueSize : Z;
}.

Definition defaultCoalescerOptions : coalescerOptions :=
  mkOptions 67108864 4294967296 100000000 4 1024.

Record bufExtent : Type := mkBufExtent {
  be_seq : Z;
  be_off : Z;
  be_data : bytes;
}.

Record bufBatch : Type := mkBufBatch {
  bb_extents : list bufExtent;
  bb_bytes : Z;
  bb_maxEnd : Z;
  bb_mtime : Z;
  bb_done : nat;
  bb_err : option error;
}.

Record inodeBuf : Type := mkInodeBuf {
  ib_tier : Z;
  ib_current : option bufBatch;
  ib_flushing : option bufBatch;
  ib_onDiskSize : Z;
  ib_onDiskMtime : Z;
  ib_liveSize : Z;
  ib_liveMtime : Z;
  ib_poisoned : option error;
}.

Record coalescer (W : Type) : Type := mkCoalescer {
  co_opts : coalescerOptions;
  co_sem : W;
  co_buffers : gmap Z inodeBuf;
  co_queue : list Z;            (* [flushQ]: the inodes requested *)
  co_closing : bool;
  co_chans : nat;               (* channels made so far *)
  co_closed : gset nat;         (* channels closed *)
}.
Arguments mkCoalescer {W}.
Arguments co_opts {W}.
Arguments co_sem {W}.
Arguments co_buffers {W}.
Arguments co_queue {W}.
Arguments co_closing {W}.
Arguments co_chans {W}.
Arguments co_closed {W}.

(** What a flush took from the buffer before it appends. *)
Record flushJob : Type := mkFlushJob {
  fj_inode : Z;
  fj_ae : list AppendExtent;
  fj_end : Z;
  fj_mtime : Z;
}.

Definition opt_default (x d : Z) : Z := if x <=? 0 then d else x.

Definition complete_options (o : coalescerOptions) : coalescerOptions :=
  mkOptions (opt_default (op_perInodeCap o) 67108864) (opt_default (op_globalCap o) 4294967296)
    (opt_default (op_flushInterval o) 100000000) (opt_default (op_workers o) 4)
    (opt_default (op_queueSize o) 1024).

(** ** Pure parts *)

Definition with_extents (b : bufBatch) (es : list bufExtent) (n maxEnd : Z) : bufBatch :=
  mkBufBatch es n maxEnd (bb_mtime b) (bb_done b) (bb_err b).

(** One chunk of a write. *)
Definition add_extent (b : bufBatch) (e : bufExtent) : bufBatch :=
  let take := blen (be_data e) in
  with_extents b (bb_extents b ++ [e]) (i64 (bb_bytes b + take))
    (Z.max (bb_maxEnd b) (i64 (be_off e + take))).

Definition set_bb_mtime (t : Z) (b : bufBatch) : bufBatch :=
  mkBufBatch (bb_extents b) (bb_bytes b) (bb_maxEnd b) t (bb_done b) (bb_err b).

Definition ext_end (e : bufExtent) : Z := i64 (be_off e + blen (be_data e)).

(** A buffered extent as a fragment: [TierMem], the seq in the offset. *)
Definition mem_frag (e : bufExtent) : Fragment :=
  mkFragment (be_seq e) (be_off e) (blen (be_data e)) TierMem 0 (i64 (be_seq e)).

Definition collect (rangeStart rangeEnd : Z) (b : option bufBatch) : list Fragment :=
  match b with
  | None => []
  | Some b =>
      mem_frag <$> filter (fun e => negb ((ext_end e <=? rangeStart) || (rangeEnd <=? be_off e)) = true)
        (bb_extents b)
  end.

Definition find_extent (wantSeq : Z) (b : option bufBatch) : option bufExtent :=
  match b with
  | None => None
  | Some b => snd <$> list_find (fun e => be_seq e = wantSeq) (bb_extents b)
  end.

(** [InvalidatePastSize]: the extents kept, what they free, the new end. *)
Definition clip_extent (size : Z) (acc : list bufExtent * Z * Z) (e : bufExtent) : list bufExtent * Z * Z :=
  let '(kept, freed, newMax) := acc in
  if size <=? be_off e then (kept, i64 (freed + blen (be_data e)), newMax)
  else if size <? ext_end e then
    let keepLen := i64 (size - be_off e) in
    (kept ++ [mkBufExtent (be_seq e) (be_off e) (slice (be_data e) 0 keepLen)],
     i64 (freed + i64 (blen (be_data e) - keepLen)), Z.max newMax (i64 (be_off e + keepLen)))
  else (kept ++ [e], freed, Z.max newMax (ext_end e)).

(** [freed] runs on from one batch to the next. *)
Definition clip_batch (size freed : Z) (b : option bufBatch) : option bufBatch * Z :=
  match b with
  | None => (None, freed)
  | Some b =>
      let '(kept, freed, newMax) := foldl (clip_extent size) ([], freed, 0) (bb_extents b) in
      (Some (with_extents b kept (i64 (bb_bytes b - freed)) (Z.min (bb_maxEnd b) newMax)), freed)
  end.

Definition set_batches (cur fl : option bufBatch) (b : inodeBuf) : inodeBuf :=
  mkInodeBuf (ib_tier b) cur fl (ib_onDiskSize b) (ib_onDiskMtime b) (ib_liveSize b)
    (ib_liveMtime b) (ib_poisoned b).
Definition set_live (size mtime : Z) (b : inodeBuf) : inodeBuf :=
  mkInodeBuf (ib_tier b) (ib_current b) (ib_flushing b) (ib_onDiskSize b) (ib_onDiskMtime b) size
    mtime (ib_poisoned b).

Definition new_buf (tier : Z) : inodeBuf := mkInodeBuf tier None None 0 0 0 0 None.

Definition AppendExtent_of (tier : Z) (e : bufExtent) : AppendExtent :=
  mkAppendExtent (be_seq e) (be_off e) (be_data e) tier.

(** [current] may be absent or empty. *)
Definition has_bytes (b : option bufBatch) : bool :=
  match b with None => false | Some b => 0 <? bb_bytes b end.
Definition is_idle (b : option bufBatch) : bool :=
  match b with None => true | Some b => bb_bytes b =? 0 end.

(** ** The store: index, buffer and clock *)

Section Coalescer.
Context {P S W : Type} `{Pebble P} `{SegLayer S} `{MapRange} `{Semaphore W}.

Record Store : Type := mkStore {
  st_idx : Index P S;
  st_co : option (coalescer W);
  st_clock : nat -> Z;              (* the readings of the clock still to come *)
}.

Definition with_idx (ix : Index P S) (s : Store) : Store := mkStore ix (st_co s) (st_clock s).
Definition with_co (c : option (coalescer W)) (s : Store) : Store := mkStore (st_idx s) c (st_clock s).

Definition on_idx {A} (m : M (Index P S) A) : M Store A := zoom st_idx with_idx m.

(** [time.Now().UnixNano()] *)
Definition time_now : M Store Z := fun s =>
  (Ok (i64 (st_clock s 0)), mkStore (st_idx s) (st_co s) (fun n => st_clock s (Datatypes.S n))).

Definition with_sem (w : W) (c : coalescer W) : coalescer W :=
  mkCoalescer (co_opts c) w (co_buffers c) (co_queue c) (co_closing c) (co_chans c) (co_closed c).
Definition with_buffers (m : gmap Z inodeBuf) (c : coalescer W) : coalescer W :=
  mkCoalescer (co_opts c) (co_sem c) m (co_queue c) (co_closing c) (co_chans c) (co_closed c).
Definition with_queue (q : list Z) (c : coalescer W) : coalescer W :=
  mkCoalescer (co_opts c) (co_sem c) (co_buffers c) q (co_closing c) (co_chans c) (co_closed c).
Definition with_closing (b : bool) (c : coalescer W) : coalescer W :=
  mkCoalescer (co_opts c) (co_sem c) (co_buffers c) (co_queue c) b (co_chans c) (co_closed c).
Definition with_closed (ch : gset nat) (c : coalescer W) : coalescer W :=
  mkCoalescer (co_opts c) (co_sem c) (co_buffers c) (co_queue c) (co_closing c) (co_chans c) ch.
Definition put_buf (inode : Z) (b : inodeBuf) (c : coalescer W) : coalescer W :=
  with_buffers (<[inode := b]> (co_buffers c)) c.

(** Calls on a nil coalescer panic. *)
Definition co_get : M Store (coalescer W) := fun s =>
  match st_co s with Some c => (Ok c, s) | None => (Panic, s) end.
Definition co_put (c : coalescer W) : M Store unit := fun s => (Ok tt, with_co (Some c) s).

Definition acquire (n : Z) : M Store unit :=
  let* c := co_get in
  let '(r, w) := sem_acquire n (co_sem c) in
  let* _ := co_put (with_sem w c) in
  of_outcome r.

Definition release (n : Z) : M Store unit :=
  let* c := co_get in
  let '(r, w) := sem_release n (co_sem c) in
  let* _ := co_put (with_sem w c) in
  of_outcome r.

Definition newCoalescerWithOptions (o : coalescerOptions) : coalescer W :=
  let o := complete_options o in
  mkCoalescer o (sem_new (op_globalCap o)) ∅ [] false 0 ∅.

Definition newCoalescer : coalescer W := newCoalescerWithOptions defaultCoalescerOptions.

(** [newBufBatch], with its fresh channel. *)
Definition newBufBatch (c : coalescer W) : bufBatch * coalescer W :=
  (mkBufBatch [] 0 0 0 (co_chans c) None,
   mkCoalescer (co_opts c) (co_sem c) (co_buffers c) (co_queue c) (co_closing c)
     (Datatypes.S (co_chans c)) (co_closed c)).

Definition getOrCreateBuf (inode tier : Z) (c : coalescer W) : inodeBuf * coalescer W :=
  match co_buffers c !! inode with
  | Some b => (b, c)
  | None => (new_buf tier, put_buf inode (new_buf tier) c)
  end.

(** A send that does not block: dropped when the queue is full. *)
Definition try_enqueue (inode : Z) (c : coalescer W) : coalescer W :=
  if blen (co_queue c) <? op_queueSize (co_opts c) then with_queue (co_queue c ++ [inode]) c else c.

(** ** Write *)

(** The split of a write at stripe boundaries, [fuel] bounding the chunks. *)
Fixpoint write_chunks (fuel : nat) (rem : bytes) (curOff : Z) (b : bufBatch) : M Store bufBatch :=
  match rem with
  | [] => ret b
  | _ =>
      match fuel with
      | O => panic
      | Datatypes.S fuel =>
          let* ix := on_idx get in
          let stripeID := Z.quot curOff (ix_stripeSize ix) in
          let stripeEnd := i64 (i64 (stripeID + 1) * ix_stripeSize ix) in
          let take := blen rem in
          let take := if stripeEnd <? i64 (curOff + take) then i64 (stripeEnd - curOff) else take in
          if (take <? 0) || (blen rem <? take) then panic   (* make([]byte, take), rem[:take] *)
          else
            let* seq := on_idx NextSeq in
            let e := mkBufExtent seq curOff (slice rem 0 take) in
            write_chunks fuel (slice rem take (blen rem)) (i64 (curOff + take)) (add_extent b e)
      end
  end.

Definition co_Write (inode off : Z) (data : bytes) (tier : Z) : M Store unit :=
  let* c := co_get in
  if co_closing c then throw (ErrMsg "store: write to closing coalescer")
  else
    match data with
    | [] => ret tt
    | _ =>
        let* _ := acquire (blen data) in
        let* c := co_get in
        let '(buf, c) := getOrCreateBuf inode tier c in
        match ib_poisoned buf with
        | Some err =>
            let* _ := co_put c in
            let* _ := release (blen data) in
            throw err
        | None =>
            let '(b, c) := match ib_current buf with Some b => (b, c) | None => newBufBatch c end in
            let* _ := co_put c in
            let* b := write_chunks (length data) data off b in
            let* now := time_now in
            let b := set_bb_mtime now b in
            let liveSize := Z.max (ib_liveSize buf) (i64 (off + blen data)) in
            let buf := set_live liveSize now (set_batches (Some b) (ib_flushing buf) buf) in
            let c := put_buf inode buf c in
            co_put (if op_perInodeCap (co_opts c) <=? bb_bytes b then try_enqueue inode c else c)
        end
    end.

(** ** Reads *)

Definition LiveAttrs (inode : Z) (c : coalescer W) : option (Z * Z) :=
  match co_buffers c !! inode with
  | None => None
  | Some buf => Some (ib_liveSize buf, ib_liveMtime buf)
  end.

(** [Stat] asks the buffer, when there is one. *)
Definition live_attrs (inode : Z) (s : Store) : option (Z * Z) :=
  match st_co s with Some c => LiveAttrs inode c | None => None end.

Definition FragmentsFor (inode off length : Z) (c : coalescer W) : list Fragment :=
  if length <=? 0 then []
  else
    match co_buffers c !! inode with
    | None => []
    | Some buf =>
        collect off (i64 (off + length)) (ib_current buf) ++
        collect off (i64 (off + length)) (ib_flushing buf)
    end.

(** [CopyOut(loc, extentBaseOff, dst)] with [len(dst) = n]: the bytes copied. *)
Definition CopyOut (inode : Z) (loc : Locator) (extentBaseOff n : Z) (c : coalescer W) : outcome bytes :=
  match co_buffers c !! inode with
  | None => Err (ErrMsg "store: coalescer.CopyOut: no buffer for inode")
  | Some buf =>
      let wantSeq := u64 (loc_Offset loc) in
      let ext := match find_extent wantSeq (ib_current buf) with
                 | Some e => Some e
                 | None => find_extent wantSeq (ib_flushing buf)
                 end in
      match ext with
      | None => Err (ErrMsg "store: coalescer.CopyOut: extent gone")
      | Some e =>
          let delta := i64 (extentBaseOff - be_off e) in
          if (delta <? 0) || (blen (be_data e) <? i64 (delta + loc_Length loc)) then
            Err (ErrMsg "store: coalescer.CopyOut: bounds out of range")
          else if i64 (delta + loc_Length loc) <? delta then Panic
          else Ok (slice (slice (be_data e) delta (i64 (delta + loc_Length loc))) 0 n)
      end
  end.

(** ** Truncation and deletion *)

Definition InvalidatePastSize (inode size : Z) : M Store unit :=
  let* c := co_get in
  match co_buffers c !! inode with
  | None => ret tt
  | Some buf =>
      let '(cur, freed) := clip_batch size 0 (ib_current buf) in
      let '(fl, freed) := clip_batch size freed (ib_flushing buf) in
      let buf := set_live (Z.min (ib_liveSize buf) size) (ib_liveMtime buf) (set_batches cur fl buf) in
      let* _ := co_put (put_buf inode buf c) in
      if 0 <? freed then release freed else ret tt
  end.

(** The call waits for another goroutine. *)
Definition Blocked : error := ErrMsg "(blocked)".

(** [close(ch)] panics on a closed channel. *)
Definition close_chan (ch : nat) : M Store unit :=
  let* c := co_get in
  if bool_decide (ch ∈ co_closed c) then panic else co_put (with_closed ({[ch]} ∪ co_closed c) c).

Definition Drop (inode : Z) : M Store unit :=
  let* c := co_get in
  match co_buffers c !! inode with
  | None => ret tt
  | Some buf =>
      match ib_flushing buf with
      | Some _ => throw Blocked
      | None =>
          let freed := match ib_current buf with Some b => bb_bytes b | None => 0 end in
          let* _ := match ib_current buf with Some b => close_chan (bb_done b) | None => ret tt end in
          let* c := co_get in
          let* _ := co_put (put_buf inode (set_live 0 0 (set_batches None None buf)) c) in
          let* _ := if 0 <? freed then release freed else ret tt in
          let* c := co_get in
          co_put (with_buffers (delete inode (co_buffers c)) c)
      end
  end.

(** ** Flushing *)

(** Move [current] to [flushing]; [false] when there is nothing to do. *)
Definition flush_swap (inode : Z) : M Store bool :=
  let* c := co_get in
  match co_buffers c !! inode with
  | None => ret false
  | Some buf =>
      match ib_flushing buf with
      | Some _ => ret false
      | None =>
          if is_idle (ib_current buf) then ret false
          else
            let '(b, c) := newBufBatch c in
            let* _ := co_put (put_buf inode (set_batches (Some b) (ib_current buf) buf) c) in
            ret true
      end
  end.

(** The extents, the end and the time, read without the lock. *)
Definition flush_build (inode : Z) : M Store flushJob :=
  let* c := co_get in
  match co_buffers c !! inode with
  | Some buf =>
      match ib_flushing buf with
      | Some b => ret (mkFlushJob inode (AppendExtent_of (ib_tier buf) <$> bb_extents b) (bb_maxEnd b) (bb_mtime b))
      | None => panic
      end
  | None => panic
  end.

(** The node update folded into the commit. *)
Definition bump_node (n : Node) (fend mtime : Z) : Node :=
  set_Ctime mtime (set_Mtime mtime (if nd_Size n <? fend then set_Size fend n else n)).

Definition flush_hook (inode fend mtime : Z) (b : Batch) : M P Batch :=
  let* v := Batch_Get b (NodeKey inode) in
  match v with
  | None => throw (ErrMsg "store: coalescer flush: no node entry for inode")
  | Some v =>
      let* n := of_outcome (decodeNode v) in
      Batch_Set b (NodeKey inode) (encodeNode (bump_node n fend mtime))
  end.

Definition flush_append (j : flushJob) : M Store unit :=
  on_idx (AppendBatchCtx (fj_inode j) (fj_ae j) (Some (flush_hook (fj_inode j) (fj_end j) (fj_mtime j)))).

Definition settle_buf (j : flushJob) (r : outcome unit) (buf : inodeBuf) : inodeBuf :=
  match r with
  | Err e => mkInodeBuf (ib_tier buf) (ib_current buf) None (ib_onDiskSize buf) (ib_onDiskMtime buf)
               (ib_liveSize buf) (ib_liveMtime buf) (Some e)
  | _ => mkInodeBuf (ib_tier buf) (ib_current buf) None (Z.max (ib_onDiskSize buf) (fj_end j))
           (Z.max (ib_onDiskMtime buf) (fj_mtime j)) (ib_liveSize buf) (ib_liveMtime buf) (ib_poisoned buf)
  end.

Definition flush_settle (j : flushJob) (r : outcome unit) : M Store unit :=
  let* c := co_get in
  match co_buffers c !! fj_inode j with
  | Some buf =>
      match ib_flushing buf with
      | Some b =>
          let* _ := co_put (put_buf (fj_inode j) (settle_buf j r buf) c) in
          let* _ := close_chan (bb_done b) in
          release (bb_bytes b)
      | None => panic
      end
  | None => panic
  end.

(** A flush with nothing in between. *)
Definition flushInode (inode : Z) : M Store unit :=
  let* started := flush_swap inode in
  if started : bool then
    let* j := flush_build inode in
    let* r := try (flush_append j) in
    flush_settle j r
  else ret tt.

(** A worker that runs the queue dry. *)
Definition flusherLoop : M Store unit :=
  let* c := co_get in
  let* _ := co_put (with_queue [] c) in
  mfor (co_queue c) flushInode.

(** One tick: request every idle inode that has bytes. *)
Definition tick_victim (kb : Z * inodeBuf) : bool :=
  has_bytes (ib_current kb.2) && match ib_flushing kb.2 with None => true | Some _ => false end.

Definition tick : M Store unit :=
  let* c := co_get in
  let victims := (filter (fun kb => tick_victim kb = true) (range_order (map_to_list (co_buffers c)))).*1 in
  co_put (foldl (fun c ino => try_enqueue ino c) c victims).

(** ** Fsync *)

(** What [Fsync] waits for, and whether it asks for a flush. *)
Definition fsync_snapshot (buf : inodeBuf) : list nat * bool :=
  let needTrigger := has_bytes (ib_current buf) in
  (match ib_flushing buf with Some b => [bb_done b] | None => [] end ++
   match ib_current buf with Some b => if needTrigger then [bb_done b] else [] | None => [] end,
   needTrigger).

Definition poison_of (inode : Z) (c : coalescer W) : outcome unit :=
  match co_buffers c !! inode with
  | Some buf => match ib_poisoned buf with Some e => Err e | None => Ok tt end
  | None => Ok tt
  end.

Definition Fsync (inode : Z) : M Store unit :=
  let* c := co_get in
  match co_buffers c !! inode with
  | None => ret tt
  | Some buf =>
      match ib_poisoned buf with
      | Some e => throw e
      | None =>
          let '(waits, needTrigger) := fsync_snapshot buf in
          let* _ :=
            if needTrigger : bool then
              if op_queueSize (co_opts c) <=? blen (co_queue c) then throw Blocked
              else let* _ := co_put (with_queue (co_queue c ++ [inode]) c) in flusherLoop
            else ret tt in
          let* c := co_get in
          if forallb (fun ch => bool_decide (ch ∈ co_closed c)) waits then
            of_outcome (poison_of inode c)
          else throw Blocked
      end
  end.

Definition Drain : M Store unit :=
  let* c := co_get in
  let* _ := co_put (with_closing true c) in
  let* firstErr := mfold (fun firstErr ino =>
      let* r := try (Fsync ino) in
      ret match firstErr, r with Ok _, Err e => Err e | _, _ => firstErr end)
    (Ok tt) (range_order (map_to_list (co_buffers c)).*1) in
  of_outcome firstErr.

(** The workers finish what is queued before they exit. *)
Definition co_Close : M Store unit :=
  let* c := co_get in
  let* _ := co_put (with_closing true c) in
  flusherLoop.
End Coalescer.
Arguments Store : clear implicits.
