(* ===== verification/Store.v ===== *)
(** * The file API (src/store/store.go): directories, inodes and attributes

    Every operation reads the database, queues its changes in one batch and
    commits it.  An operation here runs alone; the race that the lack of a lock
    allows between two creations is in Race.v.  The
    batch is queued and then committed, so [queue_all] stands for the runs of
    [b.Set] and [b.Delete] with their error returns. *)

From S2P Require Import Prelude Keys Kv Gostr Segment Layer Index Node Coalescer.

Record DirEntry : Type := mkDirEntry {
  de_Name : bytes;
  de_Inode : Z;
  de_Mode : Z;
}.

Section Store.
Context {P S W : Type} `{Pebble P} `{SegLayer S} `{MapRange} `{Semaphore W}.

Abbreviation St := (Store P S W).

(** The code at the database of the index. *)
Definition db {A} (m : M P A) : M St A := on_idx (on_db m).

Definition commit (ops : list wop) : M St unit :=
  db (let* b := queue_all ops in Batch_Commit b true).

(** ** Opening and closing *)

Definition next_of (v : option bytes) : Z :=
  match v with
  | Some v => if blen v =? 8 then get_le v else RootInode + 1
  | None => RootInode + 1
  end.

Definition root_node (now : Z) : Node :=
  mkNode RootInode (Z.lor ModeDir 493) 2 0 0 0 now now now [].

Definition OpenStore : M St unit :=
  let* v := db (DB_Get StoreNextInodeKey) in
  let next := Z.max (next_of v) (RootInode + 1) in
  let* rv := db (DB_Get (NodeKey RootInode)) in
  let* root :=
    match rv with
    | Some _ => ret []
    | None => let* now := time_now in ret [WSet (NodeKey RootInode) (encodeNode (root_node now))]
    end in
  let* _ := commit (WSet StoreNextInodeKey (put_le 8 next) :: root) in
  modify (with_co (Some newCoalescer)).

Definition CloseStore : M St unit :=
  let* s := get in
  let* _ :=
    match st_co s with
    | None => ret tt
    | Some _ =>
        let* _ := try Drain in
        let* _ := co_Close in
        modify (with_co None)
    end in
  on_idx CloseIdx.

(** [allocInode]: the fresh id and the queued bump of the counter. *)
Definition allocInode : M St (Z * wop) :=
  let* v := db (DB_Get StoreNextInodeKey) in
  let next := match v with Some v => if blen v =? 8 then get_le v else RootInode + 1 | None => RootInode + 1 end in
  ret (next, WSet StoreNextInodeKey (put_le 8 (u64 (next + 1)))).

(** ** Reading *)

Definition Stat (inode : Z) : M St Node :=
  let* v := db (DB_Get (NodeKey inode)) in
  match v with
  | None => throw ErrNotExist
  | Some v =>
      let* n := of_outcome (decodeNode v) in
      let* s := get in
      ret (merge_live (live_attrs inode s) n)
  end.

Definition readNode (inode : Z) : M St Node := Stat inode.

Definition requireDir (inode : Z) : M St unit :=
  let* n := Stat inode in
  if negb (IsDir (nd_Mode n)) then throw ErrNotDir else ret tt.

Definition readDirent (parent : Z) (name : bytes) : M St (option Z) :=
  let* v := db (DB_Get (DirentKey parent name)) in
  match v with
  | None => ret None
  | Some v => if negb (blen v =? 8) then throw (ErrMsg "store: dirent blob (want 8 bytes)") else ret (Some (get_be v))
  end.

(** The error of [m] becomes [e]. *)
Definition on_error {A} (e : error) (m : M St A) : M St A :=
  let* r := try m in
  match r with Ok a => ret a | Err _ => throw e | Panic => panic end.

Definition Lookup (parent : Z) (name : bytes) : M St Node :=
  let* _ := of_outcome (validName name) in
  let* child := readDirent parent name in
  match child with
  | None => throw ErrNotExist
  | Some child => on_error dangling (Stat child)
  end.

Fixpoint walk (node : Node) (parts : list bytes) : M St Node :=
  match parts with
  | [] => ret node
  | name :: parts =>
      if negb (IsDir (nd_Mode node)) then throw ErrNotDir
      else let* child := Lookup (nd_Inode node) name in walk child parts
  end.

Definition LookupPath (p : bytes) : M St Node :=
  let* node := Stat RootInode in walk node (splitPath p).

(** ** Creating *)

(** The entry must not exist. *)
Definition absent (parent : Z) (name : bytes) : M St unit :=
  let* ok := readDirent parent name in
  match ok with Some _ => throw ErrExist | None => ret tt end.

(** [Create] up to its commit: the node and the batch. *)
Definition Create_prepare (parent : Z) (name : bytes) (mode uid gid : Z) : M St (Node * list wop) :=
  let* _ := of_outcome (validName name) in
  let* _ := requireDir parent in
  let* _ := absent parent name in
  let* a := allocInode in
  let '(id, bump) := a in
  let* now := time_now in
  let n := mkNode id (Z.lor ModeRegular (Z.land mode PermMask)) 1 uid gid 0 now now now [] in
  ret (n, [bump; WSet (NodeKey id) (encodeNode n); WSet (DirentKey parent name) (direntValue id)]).

Definition Create (parent : Z) (name : bytes) (mode uid gid : Z) : M St Node :=
  let* nb := Create_prepare parent name mode uid gid in
  let* _ := commit nb.2 in
  ret nb.1.

Definition Mkdir (parent : Z) (name : bytes) (mode uid gid : Z) : M St Node :=
  let* _ := of_outcome (validName name) in
  let* parentNode := Stat parent in
  if negb (IsDir (nd_Mode parentNode)) then throw ErrNotDir
  else
    let* _ := absent parent name in
    let* a := allocInode in
    let '(id, bump) := a in
    let* now := time_now in
    let n := mkNode id (Z.lor ModeDir (Z.land mode PermMask)) 2 uid gid 0 now now now [] in
    let parentNode := set_Ctime now (set_Nlink (u32 (nd_Nlink parentNode + 1)) parentNode) in
    let* _ := commit [bump; WSet (NodeKey id) (encodeNode n);
                      WSet (DirentKey parent name) (direntValue id);
                      WSet (NodeKey parent) (encodeNode parentNode)] in
    ret n.

Definition Symlink (parent : Z) (name target : bytes) (uid gid : Z) : M St Node :=
  let* _ := of_outcome (validName name) in
  let* _ := requireDir parent in
  let* _ := absent parent name in
  let* a := allocInode in
  let '(id, bump) := a in
  let* now := time_now in
  let n := mkNode id (Z.lor ModeSymlink 511) 1 uid gid (blen target) now now now target in
  let* _ := commit [bump; WSet (NodeKey id) (encodeNode n); WSet (DirentKey parent name) (direntValue id)] in
  ret n.

Definition Readlink (inode : Z) : M St bytes :=
  let* n := Stat inode in
  if negb (IsSymlink (nd_Mode n)) then throw ErrInvalid else ret (nd_SymlinkTarget n).

Definition Link (targetInode newParent : Z) (newName : bytes) : M St Node :=
  let* _ := of_outcome (validName newName) in
  let* tn := Stat targetInode in
  if IsDir (nd_Mode tn) then throw EPERM
  else
    let* _ := requireDir newParent in
    let* _ := absent newParent newName in
    let* now := time_now in
    let tn := set_Ctime now (set_Nlink (u32 (nd_Nlink tn + 1)) tn) in
    let* _ := commit [WSet (NodeKey targetInode) (encodeNode tn);
                      WSet (DirentKey newParent newName) (direntValue targetInode)] in
    ret tn.

(** ** Removing *)

(** The inode has lost its last link. *)
Definition free_inode (inode : Z) : M St unit :=
  let* s := get in
  let* _ := match st_co s with Some _ => Drop inode | None => ret tt end in
  on_idx (DeleteInode inode).

(** One link fewer: the queued update, and the inode to free if it was the last. *)
Definition drop_link (inode now : Z) (n : Node) : wop * option Z :=
  let n := set_Ctime now (set_Nlink (u32 (nd_Nlink n - 1)) n) in
  if nd_Nlink n =? 0 then (WDelete (NodeKey inode), Some inode)
  else (WSet (NodeKey inode) (encodeNode n), None).

(** [freeInode != 0]. *)
Definition free_if (free : option Z) : M St unit :=
  match free with
  | Some i => if i =? 0 then ret tt else free_inode i
  | None => ret tt
  end.

Definition Unlink (parent : Z) (name : bytes) : M St unit :=
  let* _ := of_outcome (validName name) in
  let* child := readDirent parent name in
  match child with
  | None => throw ErrNotExist
  | Some child =>
      let* n := on_error dangling (Stat child) in
      if IsDir (nd_Mode n) then throw ErrIsDir
      else
        let* now := time_now in
        let '(op, free) := drop_link child now n in
        let* _ := commit [WDelete (DirentKey parent name); op] in
        free_if free
  end.

Definition hasDirentChildren (parent : Z) : M St bool :=
  let prefix := DirentPrefix parent in
  let* l := db (DB_walk_unchecked prefix (PrefixUpperBound prefix)) in
  ret match l with [] => false | _ => true end.

Definition Rmdir (parent : Z) (name : bytes) : M St unit :=
  let* _ := of_outcome (validName name) in
  let* child := readDirent parent name in
  match child with
  | None => throw ErrNotExist
  | Some child =>
      let* n := on_error dangling (Stat child) in
      if negb (IsDir (nd_Mode n)) then throw ErrNotDir
      else
        let* hasChildren := hasDirentChildren child in
        if hasChildren : bool then throw ErrNotEmpty
        else
          let* parentNode := Stat parent in
          let* now := time_now in
          let parentNode := set_Ctime now (set_Nlink (u32 (nd_Nlink parentNode - 1)) parentNode) in
          commit [WDelete (DirentKey parent name); WDelete (NodeKey child);
                  WSet (NodeKey parent) (encodeNode parentNode)]
  end.

(** ** Renaming *)

(** The first entry, in key order, that points to [inode]. *)
Fixpoint find_entry (want : bytes) (l : list (bytes * bytes)) : outcome (option Z) :=
  match l with
  | [] => Ok None
  | (k, v) :: l =>
      if equalBytes v want then let? p := DirentParentFromKey k in Ok (Some p)
      else find_entry want l
  end.

Definition findParent (inode : Z) : M St (option Z) :=
  let* l := db (DB_walk_unchecked [tagDirent] (PrefixUpperBound [tagDirent])) in
  of_outcome (find_entry (direntValue inode) l).

(** The climb stops after [fuel] steps; the code allows 1000. *)
Fixpoint climb (fuel : nat) (cur root : Z) : M St bool :=
  match fuel with
  | O => ret false
  | Datatypes.S fuel =>
      if cur =? RootInode then ret false
      else
        let* p := findParent cur in
        match p with
        | None => ret false
        | Some parent => if parent =? root then ret true else climb fuel parent root
        end
  end.

Definition isDescendant (candidate root : Z) : M St bool := climb 1000 candidate root.

Definition bump_nlink (delta : Z) (inode : Z) : M St wop :=
  let* n := Stat inode in
  let* now := time_now in
  ret (WSet (NodeKey inode) (encodeNode (set_Ctime now (set_Nlink (u32 (nd_Nlink n + delta)) n)))).

(** What replacing the target queues, and the inode it frees. *)
Definition replace_target (srcNode : Node) (newParent dstInode : Z) : M St (list wop * option Z) :=
  let* dstNode := on_error dangling (Stat dstInode) in
  if negb (Bool.eqb (IsDir (nd_Mode srcNode)) (IsDir (nd_Mode dstNode))) then
    throw (if IsDir (nd_Mode srcNode) then ErrNotDir else ErrIsDir)
  else if IsDir (nd_Mode dstNode) then
    let* hasChildren := hasDirentChildren dstInode in
    if hasChildren : bool then throw ErrNotEmpty
    else
      let* np := bump_nlink (-1) newParent in
      ret ([WDelete (NodeKey dstInode); np], None)
  else
    let* now := time_now in
    let '(op, free) := drop_link dstInode now dstNode in
    ret ([op], free).

Definition Rename (oldParent : Z) (oldName : bytes) (newParent : Z) (newName : bytes) : M St unit :=
  let* _ := of_outcome (validName oldName) in
  let* _ := of_outcome (validName newName) in
  let* src := readDirent oldParent oldName in
  match src with
  | None => throw ErrNotExist
  | Some srcInode =>
      let* srcNode := on_error dangling (Stat srcInode) in
      let* _ := requireDir newParent in
      let* isDesc :=
        if IsDir (nd_Mode srcNode) then
          if newParent =? srcInode then ret true else isDescendant newParent srcInode
        else ret false in
      if isDesc : bool then throw ErrInvalid
      else
        let* dst := readDirent newParent newName in
        if bool_decide (dst = Some srcInode) then ret tt
        else
          let* rep := match dst with
                      | Some dstInode => replace_target srcNode newParent dstInode
                      | None => ret ([], None)
                      end in
          let* links :=
            if IsDir (nd_Mode srcNode) && negb (oldParent =? newParent) then
              let* op := bump_nlink (-1) oldParent in
              let* np := bump_nlink 1 newParent in
              ret [op; np]
            else ret [] in
          let* _ := commit (rep.1 ++ [WDelete (DirentKey oldParent oldName);
                                      WSet (DirentKey newParent newName) (direntValue srcInode)] ++ links) in
          free_if rep.2
  end.

(** ** Attributes *)

(** The shrinking half of [Setattr]. *)
Definition shrink (inode size : Z) : M St unit :=
  let* cur := Stat inode in
  if size <? nd_Size cur then
    let* s := get in
    let* _ := match st_co s with Some _ => InvalidatePastSize inode size | None => ret tt end in
    on_idx (Truncate inode size)
  else ret tt.

Definition Setattr (inode : Z) (sa : SetAttr) : M St Node :=
  let* _ := match sa_Size sa with Some size => shrink inode size | None => ret tt end in
  let* nn := Stat inode in
  let* now := time_now in
  let nn := apply_attr sa now nn in
  let* _ := commit [WSet (NodeKey inode) (encodeNode nn)] in
  ret nn.

(** ** Listing *)

(** One entry: skipped when its value or its node is unusable. *)
Definition readdir_entry (out : list DirEntry) (kv : bytes * bytes) : M St (list DirEntry) :=
  let* name := of_outcome (DirentNameFromKey kv.1) in
  if negb (blen kv.2 =? 8) then ret out
  else
    let child := get_be kv.2 in
    let* r := try (Stat child) in
    match r with
    | Ok cn => ret (out ++ [mkDirEntry name child (nd_Mode cn)])
    | Err _ => ret out
    | Panic => panic
    end.

Definition Readdir (inode : Z) : M St (list DirEntry) :=
  let* dn := Stat inode in
  if negb (IsDir (nd_Mode dn)) then throw ErrNotDir
  else
    let prefix := DirentPrefix inode in
    let* l := db (DB_walk_unchecked prefix (PrefixUpperBound prefix)) in
    mfold readdir_entry [] l.

(** [OpenInode]: a handle is its inode. *)
Definition OpenInode (inode : Z) : M St Z :=
  let* _ := Stat inode in ret inode.
End Store.
