(* ===== verification/Handle.v ===== *)
(** * Open files (src/store/handle.go)

    A [Handle] is the inode it points at.  A read merges the fragments on disk
    with the buffered extents and fills the caller's buffer slice by slice; a
    write goes to the buffer, or straight to the index when the store has
    none.  A bulk writer carries the session of the index. *)

From S2P Require Import Prelude Keys Kv Fragment Plan Segment Layer Index Node Coalescer Store.

(** [copy(p[lo:], data)], [data] fitting. *)
Definition put_at (p : bytes) (lo : Z) (data : bytes) : bytes :=
  slice p 0 lo ++ data ++ slice p (lo + blen data) (blen p).

Record BulkWriter : Type := mkBulkWriter {
  bw_inode : Z;
  bw_sess : BulkSession;
  bw_maxEnd : Z;
}.

Section Handle.
Context {P S W : Type} `{Pebble P} `{SegLayer S} `{MapRange} `{Semaphore W}.

Abbreviation St := (Store P S W).

(** ** Reading *)

(** One slice of the plan, into the buffer of a read at [off]. *)
Definition read_slice (inode off : Z) (p : bytes) (sl : ReadSlice) : M St bytes :=
  let lo := i64 (rs_LogicalOff sl - off) in
  let hi := i64 (lo + rs_Length sl) in
  if (lo <? 0) || (hi <? lo) || (blen p <? hi) then panic   (* p[lo:hi] *)
  else
    let n := hi - lo in
    if rs_Sparse sl then ret (put_at p lo (zreplicate n 0))
    else
      let* b :=
        if loc_Tier (rs_Locator sl) =? TierMem then
          let* c := co_get in of_outcome (CopyOut inode (rs_Locator sl) (rs_LogicalOff sl) n c)
        else on_idx (ReadAtCtx (rs_Locator sl) n) in
      ret (put_at p lo b).

Definition mem_frags (inode off n : Z) (s : St) : list Fragment :=
  match st_co s with Some c => FragmentsFor inode off n c | None => [] end.

(** [ReadAtCtx(p, off)]: the count and the buffer. *)
Definition Handle_ReadAtCtx (inode : Z) (p : bytes) (off : Z) : M St (Z * bytes) :=
  match p with
  | [] => ret (0, p)
  | _ =>
      let* node := Stat inode in
      if nd_Size node <=? off then ret (0, p)
      else
        let n := if nd_Size node <? i64 (off + blen p) then i64 (nd_Size node - off) else blen p in
        if (n <? 0) || (blen p <? n) then panic   (* p[:n] *)
        else
          let* diskFrags := on_idx (FragmentsInRange inode off n) in
          let* s := get in
          let combined := diskFrags ++ mem_frags inode off n s in
          let* p := mfold (read_slice inode off) p (PlanRead combined off n) in
          ret (n, p)
  end.

(** ** Writing *)

(** The node update of a synchronous write. *)
Definition write_hook (inode fend now : Z) (b : Batch) : M P Batch :=
  let* v := Batch_Get b (NodeKey inode) in
  match v with
  | None => throw (ErrMsg "store: write to inode with no node entry")
  | Some v =>
      let* n := of_outcome (decodeNode v) in
      Batch_Set b (NodeKey inode) (encodeNode (bump_node n fend now))
  end.

Definition writeAtTierSync (inode : Z) (p : bytes) (off tier : Z) : M St Z :=
  let fend := i64 (off + blen p) in
  let* now := time_now in
  let* _ := on_idx (AppendToWithTxCtx inode off p tier (Some (write_hook inode fend now))) in
  ret (blen p).

Definition WriteAtTierCtx (inode : Z) (p : bytes) (off tier : Z) : M St Z :=
  match p with
  | [] => ret 0
  | _ =>
      let* s := get in
      match st_co s with
      | None => writeAtTierSync inode p off tier
      | Some _ => let* _ := co_Write inode off p tier in ret (blen p)
      end
  end.

Definition WriteAtCtx (inode : Z) (p : bytes) (off : Z) : M St Z := WriteAtTierCtx inode p off TierHot.

(** ** Bulk writes *)

Definition NewBulkWriter (inode tier : Z) : BulkWriter :=
  mkBulkWriter inode (NewBulkSession inode tier) 0.

(** Code of the session of the index. *)
Definition on_sess {A} (m : M (Index P S * BulkSession) A) : M (St * BulkWriter) A := fun sb =>
  let '(r, (ix, bs)) := m (st_idx sb.1, bw_sess sb.2) in
  (r, (with_idx ix sb.1, mkBulkWriter (bw_inode sb.2) bs (bw_maxEnd sb.2))).
Definition on_store {A} (m : M St A) : M (St * BulkWriter) A := zoom fst (fun s sb => (s, sb.2)) m.

Definition BulkWriter_Write (off : Z) (payload : bytes) : M (St * BulkWriter) unit :=
  match payload with
  | [] => ret tt
  | _ =>
      let fend := i64 (off + blen payload) in
      let* _ := modify (fun sb : St * BulkWriter =>
        if bw_maxEnd sb.2 <? fend then (sb.1, mkBulkWriter (bw_inode sb.2) (bw_sess sb.2) fend) else sb) in
      on_sess (Bulk_Write off payload)
  end.

Definition BulkWriter_Commit : M (St * BulkWriter) unit :=
  let* _ := on_sess Bulk_Commit in
  let* sb := get in
  let inode := bw_inode sb.2 in
  let* now := on_store time_now in
  let* v := on_store (db (DB_Get (NodeKey inode))) in
  match v with
  | None => throw (ErrMsg "store: bulk commit on inode with no node entry")
  | Some v =>
      let* n := of_outcome (decodeNode v) in
      on_store (commit [WSet (NodeKey inode) (encodeNode (bump_node n (bw_maxEnd sb.2) now))])
  end.

Definition BulkWriter_Abort : M (St * BulkWriter) unit := on_sess Bulk_Abort.

(** ** Sync *)

Definition Handle_SyncCtx (inode : Z) : M St unit :=
  let* s := get in
  let* _ := match st_co s with Some _ => Fsync inode | None => ret tt end in
  on_idx SyncIdx.
End Handle.
