(* ===== verification/LiveFile.v ===== *)
(** * Files as readers see them: the buffer on top of the engine

    [live s inode x] is the byte at [x] of a file: the newest buffered extent
    that covers [x], and the content of the engine elsewhere.  [store_ok] is
    the invariant of the buffer: its extents are well formed, newer than every
    fragment on disk, and accounted for in the semaphore and in the channels.
    A flush is several critical sections, so the invariant carries the phase
    of each flush in flight. *)

From S2P Require Import Prelude Keys Kv Fragment Plan Segment Layer Index IndexSpec IndexRead IndexAppend IndexMaint Node Coalescer.

(** ** Buffered extents on top of a content *)

Definition ext_at (e : bufExtent) (x : Z) : bool :=
  (be_off e <=? x) && (x <? be_off e + blen (be_data e)).

Definition shadow (c : Z -> option Z) (es : list bufExtent) : Z -> option Z :=
  foldl (fun c e => overlay c (be_off e) (be_data e)) c es.

Lemma shadow_app c es es' x : shadow c (es ++ es') x = shadow (shadow c es) es' x.
Proof. unfold shadow. by rewrite foldl_app. Qed.

Lemma shadow_snoc c es e x :
  shadow c (es ++ [e]) x = if ext_at e x then byte_at (be_data e) (x - be_off e) else shadow c es x.
Proof. by rewrite shadow_app. Qed.

Lemma shadow_free c (es : list bufExtent) x : (forall e, e ∈ es -> ext_at e x = false) -> shadow c es x = c x.
Proof.
  induction es as [|e es IH] using rev_ind; intros Hn; [done|].
  rewrite shadow_snoc, (Hn e) by set_solver. apply IH. set_solver.
Qed.

(** Where an extent covers [x], what lies below does not matter. *)
Lemma shadow_covered c c' (es : list bufExtent) e x : e ∈ es -> ext_at e x = true -> shadow c es x = shadow c' es x.
Proof.
  induction es as [|e' es IH] using rev_ind; intros Hin He; [by apply elem_of_nil in Hin|].
  rewrite !shadow_snoc. destruct (ext_at e' x) eqn:E; [done|].
  apply elem_of_app in Hin as [Hin| ->%list_elem_of_singleton]; [by apply IH|congruence].
Qed.

Lemma shadow_dec (es : list bufExtent) x :
  (exists e, e ∈ es /\ ext_at e x = true) \/ forall e, e ∈ es -> ext_at e x = false.
Proof.
  induction es as [|e es IH]; [right; by intros e ?%elem_of_nil|].
  destruct (ext_at e x) eqn:E; [left; exists e; split; [left|done]|].
  destruct IH as [(e' & Hin & He)|Hn]; [left; exists e'; split; [by right|done]|].
  right. intros e' [->|Hin]%elem_of_cons; auto.
Qed.

Lemma shadow_ext c c' es x : c x = c' x -> shadow c es x = shadow c' es x.
Proof.
  intros E. destruct (shadow_dec es x) as [(e & Hin & He)|Hn]; [by eapply shadow_covered|].
  by rewrite !shadow_free.
Qed.

Lemma shadow_idem c es x : shadow (shadow c es) es x = shadow c es x.
Proof.
  destruct (shadow_dec es x) as [(e & Hin & He)|Hn]; [by eapply shadow_covered|].
  by rewrite shadow_free.
Qed.

Lemma shadow_overlay_all c tier es x :
  shadow c es x = overlay_all c (AppendExtent_of tier <$> es) x.
Proof. revert c. induction es as [|e es IH]; intros c; [done|]. apply IH. Qed.

(** ** Totals *)

Definition exts_total (es : list bufExtent) : Z := foldr (fun e n => blen (be_data e) + n) 0 es.

Lemma exts_total_app a b : exts_total (a ++ b) = exts_total a + exts_total b.
Proof. unfold exts_total. induction a as [|e a IH]; [done|]. cbn [app foldr]. lia. Qed.

Lemma exts_total_nonneg es : 0 <= exts_total es.
Proof. induction es as [|e es IH]; [done|]. cbn [exts_total foldr]. fold (exts_total es). pose proof (blen_nonneg (be_data e)). lia. Qed.

Definition batch_exts (b : option bufBatch) : list bufExtent :=
  match b with Some b => bb_extents b | None => [] end.

(** The extents of a buffer, oldest first. *)
Definition buf_exts (buf : inodeBuf) : list bufExtent :=
  batch_exts (ib_flushing buf) ++ batch_exts (ib_current buf).

Definition batch_chans (b : option bufBatch) : list nat :=
  match b with Some b => [bb_done b] | None => [] end.
Definition buf_chans (buf : inodeBuf) : list nat :=
  batch_chans (ib_flushing buf) ++ batch_chans (ib_current buf).

Definition buf_total (buf : inodeBuf) : Z := exts_total (buf_exts buf).

Definition mem_total (m : gmap Z inodeBuf) : Z := map_fold (fun _ b n => buf_total b + n) 0 m.

Lemma mem_total_insert m i b : m !! i = None -> mem_total (<[i := b]> m) = buf_total b + mem_total m.
Proof. intros Hi. unfold mem_total. rewrite map_fold_insert_L; [done|lia|done]. Qed.

Lemma mem_total_delete m i b : m !! i = Some b -> mem_total m = buf_total b + mem_total (delete i m).
Proof. intros Hi. unfold mem_total. rewrite (map_fold_delete_L _ _ i b); [done|lia|done]. Qed.

Lemma mem_total_replace m i b b' :
  m !! i = Some b -> mem_total (<[i := b']> m) = mem_total m - buf_total b + buf_total b'.
Proof.
  intros Hi. rewrite (mem_total_delete (<[i:=b']> m) i b') by apply lookup_insert_eq.
  rewrite delete_insert_eq, (mem_total_delete m i b) by done. lia.
Qed.

Lemma mem_total_nonneg m : 0 <= mem_total m.
Proof.
  induction m as [|i b m Hi _ IH] using map_first_key_ind; [done|].
  rewrite mem_total_insert by done. pose proof (exts_total_nonneg (buf_exts b)). unfold buf_total. lia.
Qed.

(** ** The invariant *)

(** How far the flush of an inode got: after the swap, after the extents were
    built, and after the append returned. *)
Inductive phase : Type :=
  | Swapped
  | Built (j : flushJob)
  | Appended (j : flushJob) (r : outcome unit).

(** A buffered extent lies in one stripe; its sequence number is far
    below [2^63], since a locator carries it as an [int64]. *)
Definition bext_ok (ss : Z) (e : bufExtent) : Prop :=
  0 <= be_seq e < 2^62 /\ 0 <= be_off e /\ be_data e <> [] /\ bytes_ok (be_data e) /\
  in_u32 (be_off e / ss) /\ be_off e + blen (be_data e) <= (be_off e / ss + 1) * ss.

Definition job_of (inode : Z) (buf : inodeBuf) (b : bufBatch) : flushJob :=
  mkFlushJob inode (AppendExtent_of (ib_tier buf) <$> bb_extents b) (bb_maxEnd b) (bb_mtime b).

Section Live.
Context {P : Type} {PB : Pebble P} {PL : PebbleLaws P}.
Context {S : Type} {SL : SegLayer S} {SLL : SegLayerLaws S} {MR : MapRange}.
Context {W : Type} {SW : Semaphore W} {SWL : SemaphoreLaws W}.
Implicit Types ix : Index P S.
Implicit Types s : Store P S W.
Implicit Types c : coalescer W.

Definition buffered s (inode : Z) : list bufExtent :=
  match st_co s with
  | Some c => match co_buffers c !! inode with Some buf => buf_exts buf | None => [] end
  | None => []
  end.

(** The abstract state of the store: every file, byte by byte. *)
Definition live s (inode : Z) : Z -> option Z :=
  shadow (content (st_idx s) inode) (buffered s inode).

(** The extents not yet on disk. *)
Definition unflushed (buf : inodeBuf) (ph : option phase) : list bufExtent :=
  match ph with
  | Some (Appended _ _) => batch_exts (ib_current buf)
  | _ => buf_exts buf
  end.

(** A batch and the engine do not disagree: its extents are newer than what is
    on disk, or the engine holds its bytes. *)
Definition landed ix (inode : Z) (b : bufBatch) : Prop :=
  (forall g e, frag_in (contents (ix_db ix)) inode g -> e ∈ bb_extents b -> fr_Seq g < be_seq e) \/
  forall x, shadow (content ix inode) (bb_extents b) x = content ix inode x.

(** The phase agrees with the buffer: a flush is in flight exactly when there
    is a [flushing] batch, its job is that batch, and once the append has
    succeeded the engine holds its bytes. *)
Definition phase_ok ix (inode : Z) (buf : inodeBuf) (ph : option phase) : Prop :=
  match ph with
  | None => ib_flushing buf = None
  | Some Swapped => is_Some (ib_flushing buf)
  | Some (Built j) => exists b, ib_flushing buf = Some b /\ j = job_of inode buf b
  | Some (Appended j r) => exists b, ib_flushing buf = Some b /\ j = job_of inode buf b /\ r <> Panic /\ landed ix inode b /\
      (r = Ok tt -> forall x, shadow (content ix inode) (bb_extents b) x = content ix inode x)
  end.

(** Sizes and times are [int64]s, and the live size covers the buffer. *)
Definition batch_typed (b : bufBatch) : Prop := in_i64 (bb_maxEnd b) /\ in_i64 (bb_mtime b).

Definition attrs_ok (buf : inodeBuf) : Prop :=
  in_i64 (ib_liveSize buf) /\ in_i64 (ib_liveMtime buf) /\
  (forall e, e ∈ buf_exts buf -> be_off e + blen (be_data e) <= ib_liveSize buf) /\
  forall b, ib_current buf = Some b \/ ib_flushing buf = Some b -> batch_typed b.

Record buf_ok ix (inode : Z) (buf : inodeBuf) (ph : option phase) : Prop := {
  bo_tier : ib_tier buf = TierHot \/ ib_tier buf = TierCold;
  bo_exts : Forall (bext_ok (ix_stripeSize ix)) (buf_exts buf);
  bo_sorted : StronglySorted (fun a b => be_seq a < be_seq b) (buf_exts buf);
  bo_seq : forall e, e ∈ buf_exts buf -> be_seq e <= ix_seqGen ix;
  bo_fresh : forall g e, frag_in (contents (ix_db ix)) inode g -> e ∈ unflushed buf ph ->
    fr_Seq g < be_seq e;
  bo_current : forall b, ib_current buf = Some b -> bb_bytes b = exts_total (bb_extents b);
  bo_flushing : forall b, ib_flushing buf = Some b -> bb_bytes b <= exts_total (bb_extents b);
  bo_phase : phase_ok ix inode buf ph;
  bo_end : forall b e, ib_current buf = Some b \/ ib_flushing buf = Some b -> e ∈ bb_extents b ->
    be_off e + blen (be_data e) <= bb_maxEnd b;
  bo_attrs : attrs_ok buf;
}.

Definition chans_ok c : Prop :=
  (forall i buf, co_buffers c !! i = Some buf -> NoDup (buf_chans buf) /\
     forall n, n ∈ buf_chans buf -> (n < co_chans c)%nat /\ n ∉ co_closed c) /\
  (forall i j bi bj n, i <> j -> co_buffers c !! i = Some bi -> co_buffers c !! j = Some bj ->
     n ∈ buf_chans bi -> n ∉ buf_chans bj) /\
  forall n, n ∈ co_closed c -> (n < co_chans c)%nat.

(** The buffered bytes, with the [extra] of a write under way, are held in the
    semaphore and within its capacity, which is the configured one. *)
Definition mem_ok c (extra : Z) : Prop :=
  mem_total (co_buffers c) + extra <= sem_held (co_sem c) /\
  mem_total (co_buffers c) + extra <= sem_cap (co_sem c) < 2^63 /\
  sem_cap (co_sem c) = op_globalCap (co_opts c).

Record co_ok ix c (ph : gmap Z phase) : Prop := {
  co_bufs : forall i buf, co_buffers c !! i = Some buf -> in_u64 i /\ buf_ok ix i buf (ph !! i);
  co_phases : forall i p, ph !! i = Some p -> is_Some (co_buffers c !! i);
  co_channels : chans_ok c;
}.

Definition store_ok s (ph : gmap Z phase) : Prop :=
  index_ok (st_idx s) /\ sets_clean (st_idx s) /\ ix_seqGen (st_idx s) < 2^62 /\
  exists c, st_co s = Some c /\ co_ok (st_idx s) c ph /\ mem_ok c 0.

(** The error that poisons an inode. *)
Definition poison s (inode : Z) : outcome unit :=
  match st_co s with Some c => poison_of inode c | None => Ok tt end.

Definition closed s : gset nat :=
  match st_co s with Some c => co_closed c | None => ∅ end.

Definition batch_current s (inode : Z) : option bufBatch :=
  match st_co s with Some c => co_buffers c !! inode ≫= ib_current | None => None end.
Definition batch_flushing s (inode : Z) : option bufBatch :=
  match st_co s with Some c => co_buffers c !! inode ≫= ib_flushing | None => None end.

(** ** Steps of the engine *)

(** Seen from one file, the engine is as it was. *)
Definition same_file ix ix' (i : Z) : Prop :=
  ix_stripeSize ix' = ix_stripeSize ix /\ ix_seqGen ix <= ix_seqGen ix' /\
  (forall f, frag_in (contents (ix_db ix')) i f ->
     exists g, frag_in (contents (ix_db ix)) i g /\ fr_Seq g = fr_Seq f) /\
  forall x, content ix' i x = content ix i x.

Lemma same_file_refl ix i : same_file ix ix i.
Proof. split_and!; [done|lia|eauto|done]. Qed.

Lemma wrote_other ix ix' inode h Ps fc i :
  wrote ix ix' inode h Ps fc -> in_u64 i -> i <> inode -> same_file ix ix' i.
Proof.
  intros [(_ & _ & _ & Hc) (Hss & Hq & Hn)] Hi Hne. split_and!; [done|lia| |by intros; apply Hc].
  intros f Hf. destruct (Hn i f Hi Hf) as [?|[? _]]; done.
Qed.

Lemma idled_same ix ix' inode Ps i : idled ix ix' inode Ps -> in_u64 i -> same_file ix ix' i.
Proof.
  intros [(_ & Hd & Hc) (Hss & Hq & _)] Hi. split_and!; [done|lia| |by intros; apply Hc].
  intros f. rewrite Hd. eauto.
Qed.

Lemma kept_same ix ix' i : index_ok ix -> in_u64 i -> kept ix ix' -> same_file ix ix' i.
Proof.
  intros Hok Hi Hk. apply (idled_same ix ix' 0 (numbers [])); [|done].
  split; [by apply kept_unchanged|by apply kept_numbered].
Qed.

Lemma buf_ok_same ix ix' i buf ph : same_file ix ix' i -> buf_ok ix i buf ph -> buf_ok ix' i buf ph.
Proof.
  intros (Hss & Hq & Hf & Hc) [H1 H2 H3 H4 H5 H6 H7 H8 H9 HA]. split; try done.
  - by rewrite Hss.
  - intros e He. specialize (H4 e He). lia.
  - intros g e (g' & Hg' & <-)%Hf He. by apply H5.
  - destruct ph as [[|j|j r]|]; try done. destruct H8 as (b & ? & ? & ? & Hl & Hs).
    exists b. split_and!; [done..| |].
    + destruct Hl as [Hl|Hl]; [left|right].
      * intros g e (g' & Hg' & <-)%Hf He. by apply Hl.
      * intros x. rewrite Hc, <-Hl. by apply shadow_ext.
    + intros Hr x. rewrite Hc, <-Hs by done. by apply shadow_ext.
Qed.

Lemma co_ok_same ix ix' c ph :
  (forall i, in_u64 i -> same_file ix ix' i) -> co_ok ix c ph -> co_ok ix' c ph.
Proof.
  intros Hs [H1 H2 H3]. split; [|done..]. intros i buf Hb. destruct (H1 i buf Hb) as [Hi Hbuf].
  split; [done|]. by eapply buf_ok_same; [apply Hs|].
Qed.

(** ** Steps of one buffer *)

(** A buffer without batches. *)
Lemma buf_ok_none ix inode buf :
  (ib_tier buf = TierHot \/ ib_tier buf = TierCold) -> in_i64 (ib_liveSize buf) -> in_i64 (ib_liveMtime buf) -> ib_current buf = None -> ib_flushing buf = None ->
  buf_ok ix inode buf None.
Proof.
  intros Ht Hsz Hmt Hc Hf. assert (buf_exts buf = []) as E by (unfold buf_exts; by rewrite Hc, Hf).
  split; cbn [unflushed]; rewrite ?E, ?Hc, ?Hf; try done; try (by constructor); try (by intros ? ?%elem_of_nil).
  - by intros g e _ ?%elem_of_nil.
  - by intros b e [?|?].
  - split_and!; [done..| |]; rewrite ?E, ?Hc, ?Hf; [by intros e ?%elem_of_nil|]. by intros b [?|?].
Qed.

Lemma chans_ok_put c inode buf :
  chans_ok c -> NoDup (buf_chans buf) ->
  (forall n, n ∈ buf_chans buf -> (n < co_chans c)%nat /\ n ∉ co_closed c /\
     forall j bj, j <> inode -> co_buffers c !! j = Some bj -> n ∉ buf_chans bj) ->
  chans_ok (put_buf inode buf c).
Proof.
  intros (H1 & H2 & H3) Hnd Hb. split_and!; [| |done].
  - intros i bi. cbn. destruct (decide (i = inode)) as [->|Hne].
    + rewrite lookup_insert_eq. intros [= <-]. split; [done|]. intros n Hn. by destruct (Hb n Hn) as (? & ? & _).
    + rewrite lookup_insert_ne by done. apply H1.
  - intros i j bi bj n Hij. cbn. destruct (decide (i = inode)) as [->|Hi].
    + rewrite lookup_insert_eq. intros [= <-]. rewrite lookup_insert_ne by done. intros Hj Hn.
      destruct (Hb n Hn) as (_ & _ & Ho). by apply (Ho j bj).
    + rewrite (lookup_insert_ne (co_buffers c)) by done. intros Hbi. destruct (decide (j = inode)) as [->|Hj].
      * rewrite lookup_insert_eq. intros [= <-] Hn Hn'. destruct (Hb n Hn') as (_ & _ & Ho). by apply (Ho i bi).
      * rewrite lookup_insert_ne by done. intros Hbj. by apply (H2 i j bi bj).
Qed.

(** A buffer that gives up channels at most. *)
Lemma chans_ok_sub c inode buf buf' :
  chans_ok c -> co_buffers c !! inode = Some buf -> NoDup (buf_chans buf') ->
  buf_chans buf' ⊆ buf_chans buf -> chans_ok (put_buf inode buf' c).
Proof.
  intros Hc Hb Hnd Hsub. pose proof Hc as (H1 & H2 & _). apply chans_ok_put; [done..|].
  intros n Hn. apply Hsub in Hn. destruct (H1 _ _ Hb) as [_ H]. destruct (H n Hn). split_and!; [done..|].
  intros j bj Hj Hl. by apply (H2 inode j buf bj).
Qed.

(** [newBufBatch] hands out a channel no one has. *)
Lemma chans_ok_new c : chans_ok c ->
  let '(b, c') := newBufBatch c in
  chans_ok c' /\ (bb_done b < co_chans c')%nat /\ bb_done b ∉ co_closed c' /\
  forall j bj, co_buffers c' !! j = Some bj -> bb_done b ∉ buf_chans bj.
Proof.
  intros (H1 & H2 & H3). cbn. split_and!; [|lia| |].
  - split_and!; [|done|].
    + intros i buf Hb. destruct (H1 i buf Hb) as [? H]. split; [done|]. intros n Hn.
      destruct (H n Hn). split; [cbn; lia|done].
    + intros n Hn. specialize (H3 n Hn). cbn. lia.
  - intros Hn. specialize (H3 _ Hn). lia.
  - intros j bj Hb Hn. destruct (H1 j bj Hb) as [_ H]. destruct (H _ Hn). lia.
Qed.

(** A buffer that gets one of them. *)
Lemma chans_ok_fresh c inode buf buf' :
  chans_ok c -> co_buffers c !! inode = Some buf -> buf_chans buf' = buf_chans buf ++ [co_chans c] ->
  chans_ok (put_buf inode buf' (newBufBatch c).2).
Proof.
  intros Hch Hb Eq. pose proof (chans_ok_new c Hch) as (Hc1 & Hlt & Hnc & Hfr). cbn [bb_done newBufBatch] in *.
  pose proof Hc1 as (C1 & C2 & _). destruct (C1 _ _ Hb) as [Hnd Hlive]. apply chans_ok_put; [done| |]; rewrite Eq.
  - apply NoDup_app. split_and!; [done| |apply NoDup_singleton].
    intros n Hn ->%list_elem_of_singleton. by apply (Hfr inode buf).
  - intros n [Hn| ->%list_elem_of_singleton]%elem_of_app.
    + destruct (Hlive n Hn). split_and!; [done..|]. intros j bj Hj Hl. by apply (C2 inode j buf bj).
    + split_and!; [done..|]. intros j bj _ Hl. by apply (Hfr j bj).
Qed.

Lemma co_ok_put ix c ph ph' inode buf :
  co_ok ix c ph -> in_u64 inode -> buf_ok ix inode buf (ph' !! inode) ->
  (forall j, j <> inode -> ph' !! j = ph !! j) -> chans_ok (put_buf inode buf c) ->
  co_ok ix (put_buf inode buf c) ph'.
Proof.
  intros [H1 H2 H3] Hi Hb Hph Hch. split; [| |done].
  - intros i bi. cbn. destruct (decide (i = inode)) as [->|Hne].
    + rewrite lookup_insert_eq. by intros [= <-].
    + rewrite lookup_insert_ne, Hph by done. apply H1.
  - intros i p. cbn. destruct (decide (i = inode)) as [->|Hne]; [by rewrite lookup_insert_eq|].
    rewrite lookup_insert_ne, Hph by done. apply H2.
Qed.

(** A buffer that keeps its channels and frees what the semaphore gets back. *)
Lemma store_ok_put s s' ph c w inode buf buf' :
  store_ok s ph -> st_co s = Some c -> co_buffers c !! inode = Some buf ->
  st_idx s' = st_idx s -> st_co s' = Some (with_sem w (put_buf inode buf' c)) ->
  buf_ok (st_idx s) inode buf' (ph !! inode) -> buf_chans buf' = buf_chans buf ->
  sem_cap w = sem_cap (co_sem c) -> buf_total buf' <= buf_total buf ->
  sem_held w = sem_held (co_sem c) - (buf_total buf - buf_total buf') -> store_ok s' ph.
Proof.
  intros (Hok & Hcl & Hq & c0 & Hc0 & Hco & Hm) Hc Hb Hix Hc' Hbuf Hch Hcap Hle Hh.
  rewrite Hc in Hc0. injection Hc0 as <-. unfold store_ok. rewrite Hix. split_and!; [done..|].
  eexists. split_and!; [done| |].
  - destruct (co_bufs _ _ _ Hco _ _ Hb) as [Hi _].
    destruct (co_ok_put (st_idx s) c ph ph inode buf') as [K1 K2 K3]; [done|done|done|done| |by split].
    apply (chans_ok_sub c inode buf); rewrite ?Hch; [apply Hco|done| |done].
    by apply (proj1 (co_channels _ _ _ Hco)) in Hb as [? _].
  - unfold mem_ok in *. cbn. rewrite (mem_total_replace _ _ _ _ Hb). lia.
Qed.

(** ** Calls *)

Lemma wp_co_get s c (Q : outcome (coalescer W) -> Store P S W -> Prop) :
  st_co s = Some c -> Q (Ok c) s -> wp co_get Q s.
Proof. unfold wp, co_get. by intros ->. Qed.

Lemma wp_co_put s c (Q : outcome unit -> Store P S W -> Prop) :
  Q (Ok tt) (with_co (Some c) s) -> wp (co_put c) Q s.
Proof. done. Qed.

Lemma wp_on_idx {A} (m : M (Index P S) A) (Q : outcome A -> Store P S W -> Prop) s :
  wp m (fun r ix => Q r (with_idx ix s)) (st_idx s) -> wp (on_idx m) Q s.
Proof. intros Hm. by apply wp_zoom. Qed.

Lemma wp_acquire n s c (Q : outcome unit -> Store P S W -> Prop) :
  st_co s = Some c ->
  (forall w, sem_cap w = sem_cap (co_sem c) -> sem_held w = sem_held (co_sem c) + n ->
     sem_held w <= sem_cap w -> Q (Ok tt) (with_co (Some (with_sem w c)) s)) ->
  (forall e w, sem_cap w = sem_cap (co_sem c) -> sem_held w = sem_held (co_sem c) ->
     Q (Err e) (with_co (Some (with_sem w c)) s)) ->
  wp (acquire n) Q s.
Proof.
  intros Hc HO HE. unfold acquire. wp_step. apply (wp_co_get s c); [done|].
  pose proof (sem_acquire_law n (co_sem c)) as HL. destruct (sem_acquire n (co_sem c)) as [r w].
  destruct HL as [Hcap HL]. wp_step. apply wp_co_put. wp_step.
  destruct r as [[]|e|].
  - destruct HL. apply HO; lia.
  - by apply HE.
  - done.
Qed.

Lemma wp_release n s c (Q : outcome unit -> Store P S W -> Prop) :
  st_co s = Some c -> n <= sem_held (co_sem c) ->
  (forall w, sem_cap w = sem_cap (co_sem c) -> sem_held w = sem_held (co_sem c) - n ->
     Q (Ok tt) (with_co (Some (with_sem w c)) s)) ->
  wp (release n) Q s.
Proof.
  intros Hc Hn HO. unfold release. wp_step. apply (wp_co_get s c); [done|].
  pose proof (sem_release_law n (co_sem c) Hn) as HL. destruct (sem_release n (co_sem c)) as [r w].
  destruct HL as (-> & Hcap & Hh). wp_step. apply wp_co_put. wp_step. by apply HO.
Qed.
End Live.
