(* ===== verification/LiveWrite.v ===== *)
(** * Buffered writes

    A write, cut at the stripe boundaries, lays its bytes over the file as its
    readers see it; nothing on disk moves. *)

From S2P Require Import Prelude Keys Kv Fragment Plan Segment Layer Index IndexSpec IndexRead IndexAppend Node Coalescer LiveFile.

Section Write.
Context {P : Type} {PB : Pebble P} {PL : PebbleLaws P}.
Context {S : Type} {SL : SegLayer S} {SLL : SegLayerLaws S} {MR : MapRange}.
Context {W : Type} {SW : Semaphore W} {SWL : SemaphoreLaws W}.
Implicit Types s : Store P S W.
Implicit Types c : coalescer W.

(** ** The chunks of a write *)

Abbreviation as_hot := (AppendExtent_of TierHot).

Lemma split_of_bext ss rem off g (es : list bufExtent) e :
  split_of ss rem off g (as_hot <$> es) -> 0 <= g -> g + blen rem < 2^62 -> e ∈ es ->
  bext_ok ss e /\ g < be_seq e <= g + blen rem.
Proof.
  intros (Hf & _ & Hq & Hlen & _) Hg Hb He.
  assert (as_hot e ∈ as_hot <$> es) as Hin by (apply list_elem_of_fmap; eauto).
  rewrite Forall_forall in Hf. destruct (Hf _ Hin) as (_ & H2 & H3 & H4 & _ & H6 & H7).
  specialize (Hq _ Hin). cbn in *. unfold bext_ok. split_and!; done || lia.
Qed.

Lemma split_of_sorted ss rem off g (es : list bufExtent) :
  split_of ss rem off g (as_hot <$> es) -> StronglySorted (fun a b => be_seq a < be_seq b) es.
Proof.
  intros (_ & Hs & _). induction es as [|e es IH]; [constructor|].
  cbn in Hs. apply StronglySorted_inv in Hs as [Hs He]. constructor; [by apply IH|].
  rewrite !Forall_fmap in He. exact He.
Qed.

Lemma split_of_shadow ss rem off g (es : list bufExtent) fc x :
  split_of ss rem off g (as_hot <$> es) -> shadow fc es x = overlay fc off rem x.
Proof. intros (_ & _ & _ & _ & H). by rewrite (shadow_overlay_all _ TierHot). Qed.

(** One round of the loop. *)
Definition write_chunks_step (fuel : nat) (rem : bytes) (curOff : Z) (b : bufBatch) : M (Store P S W) bufBatch :=
  let* ix := on_idx get in
  let stripeID := Z.quot curOff (ix_stripeSize ix) in
  let stripeEnd := i64 (i64 (stripeID + 1) * ix_stripeSize ix) in
  let take := if stripeEnd <? i64 (curOff + blen rem) then i64 (stripeEnd - curOff) else blen rem in
  if (take <? 0) || (blen rem <? take) then panic
  else
    let* seq := on_idx NextSeq in
    write_chunks fuel (slice rem take (blen rem)) (i64 (curOff + take))
      (add_extent b (mkBufExtent seq curOff (slice rem 0 take))).

(** What the loop makes of a batch. *)
Definition chunked (b b' : bufBatch) (rem : bytes) (off : Z) (es : list bufExtent) : Prop :=
  bb_extents b' = bb_extents b ++ es /\ bb_bytes b' = bb_bytes b + blen rem /\
  exts_total es = blen rem /\ bb_done b' = bb_done b /\ bb_err b' = bb_err b /\
  bb_maxEnd b' = (if blen rem =? 0 then bb_maxEnd b else Z.max (bb_maxEnd b) (off + blen rem)) /\
  forall e, e ∈ es -> be_off e + blen (be_data e) <= Z.min (bb_maxEnd b') (off + blen rem).

Lemma chunked_cons b b' rem off k e es :
  be_off e = off -> be_data e = slice rem 0 k -> 0 < k <= blen rem ->
  0 <= bb_bytes b -> bb_bytes b + blen rem < 2^63 -> 0 <= off -> off + blen rem < 2^63 ->
  chunked (add_extent b e) b' (slice rem k (blen rem)) (off + k) es ->
  chunked b b' rem off (e :: es).
Proof.
  intros Ho Hd Hk Hb Hbb Hoff Hmax (H1 & H2 & H3 & H4 & H5 & H6 & H7).
  assert (blen (be_data e) = k) as Hl by (rewrite Hd, blen_slice; lia).
  cbn [add_extent with_extents bb_extents bb_bytes bb_maxEnd bb_done bb_err] in *.
  rewrite Hl, Ho in *. rewrite blen_slice in * by lia.
  rewrite (i64_id (bb_bytes b + k)) in H2 by (unfold in_i64; lia).
  rewrite (i64_id (off + k)) in H6 by (unfold in_i64; lia).
  split_and!; [by rewrite H1, <-app_assoc|lia|cbn [exts_total foldr]; fold (exts_total es); lia|done..| |].
  - rewrite H6. destruct (Z.eqb_spec (blen rem) 0), (Z.eqb_spec (blen rem - k) 0); lia.
  - intros a [->|Ha]%elem_of_cons; [|specialize (H7 a Ha); lia].
    rewrite H6, Hl, Ho. destruct (Z.eqb_spec (blen rem - k) 0); lia.
Qed.

Lemma wp_NextSeq s (Q : outcome Z -> Store P S W -> Prop) :
  ix_seqGen (st_idx s) + 1 < 2^64 -> 0 <= ix_seqGen (st_idx s) ->
  Q (Ok (ix_seqGen (st_idx s) + 1)) (with_idx (with_seqGen (ix_seqGen (st_idx s) + 1) (st_idx s)) s) ->
  wp (on_idx NextSeq) Q s.
Proof. intros. apply wp_on_idx. unfold NextSeq. by apply wp_nextSeq. Qed.

Lemma wp_write_chunks fuel : forall rem off b s (Q : outcome bufBatch -> Store P S W -> Prop),
  stripe_size_ok (ix_stripeSize (st_idx s)) -> 0 <= ix_seqGen (st_idx s) ->
  ix_seqGen (st_idx s) + blen rem < 2^62 -> bytes_ok rem -> 0 <= off ->
  off + blen rem <= 2^32 * ix_stripeSize (st_idx s) -> (length rem <= fuel)%nat ->
  0 <= bb_bytes b -> bb_bytes b + blen rem < 2^63 ->
  (forall es b', split_of (ix_stripeSize (st_idx s)) rem off (ix_seqGen (st_idx s)) (as_hot <$> es) ->
     chunked b b' rem off es ->
     Q (Ok b') (with_idx (with_seqGen (ix_seqGen (st_idx s) + blen es) (st_idx s)) s)) ->
  wp (write_chunks fuel rem off b) Q s.
Proof.
  induction fuel as [|fuel IH]; intros rem off b s Q Hss Hg Hgm Hb Ho Hend Hfuel Hbb Hbm HQ.
  1: assert (rem = []) as -> by (destruct rem; [done|cbn in Hfuel; lia]).
  2: destruct rem as [|b0 r0] eqn:Erem.
  1,2: cbn [write_chunks]; wp_step; specialize (HQ [] b (split_of_nil _ _ _));
    change (blen (@nil bufExtent)) with 0 in HQ; rewrite Z.add_0_r in HQ;
    destruct s as [[] ? ?]; apply HQ; split_and!; try (by intros ? ?%elem_of_nil); by rewrite ?app_nil_r, ?Z.add_0_r.
  assert (0 < blen rem) as Hrem by (rewrite Erem, blen_cons; pose proof (blen_nonneg r0); lia).
  rewrite <-Erem in *. pose proof Hss as [Hss1 Hss2].
  set (ix := st_idx s) in *. set (ss := ix_stripeSize ix) in *.
  assert (addressable ss off) as Ha by (unfold addressable; lia).
  destruct (stripeOf_div _ _ Hss1 Ha) as [_ Hu]. unfold in_u32 in Hu.
  pose proof (stripe_lo ss off Hss1) as Hlo. pose proof (stripe_hi ss off Hss1) as Hhi.
  assert (write_chunks (Datatypes.S fuel) rem off b = write_chunks_step fuel rem off b) as ->
    by (rewrite Erem; done).
  unfold write_chunks_step. wp_step. apply wp_on_idx, wp_get. fold ix ss.
  rewrite Z.quot_div_nonneg by lia.
  rewrite (i64_id (off / ss + 1)) by (unfold in_i64; lia).
  rewrite (i64_id ((off / ss + 1) * ss)) by (unfold in_i64; nia).
  rewrite (i64_id (off + blen rem)) by (unfold in_i64; nia).
  rewrite (i64_id ((off / ss + 1) * ss - off)) by (unfold in_i64; nia).
  set (k := if _ <? _ then _ else _).
  assert (0 < k <= blen rem /\ off + k <= (off / ss + 1) * ss) as [Hk Hke] by (unfold k; z_case; lia).
  rewrite (proj2 (Z.ltb_ge k 0)), (proj2 (Z.ltb_ge (blen rem) k)) by lia. cbn [orb].
  wp_step. apply wp_NextSeq; cbn [with_idx st_idx]; fold ix; [lia|lia|].
  rewrite (i64_id (off + k)) by (unfold in_i64; nia).
  assert (blen (slice rem k (blen rem)) = blen rem - k) as Hlen by (rewrite blen_slice; lia).
  assert (blen (slice rem 0 k) = k) as Hlen0 by (rewrite blen_slice; lia).
  assert (bb_bytes (add_extent b (mkBufExtent (ix_seqGen ix + 1) off (slice rem 0 k))) = bb_bytes b + k) as Hbk.
  { cbn. rewrite Hlen0. apply i64_id. unfold in_i64. lia. }
  apply IH; rewrite ?Hlen, ?Hbk; cbn [with_idx with_seqGen st_idx ix_seqGen ix_stripeSize]; fold ix ss;
    try done; try lia.
  - by apply bytes_ok_slice.
  - revert Hlen Hk. clearbody k. unfold blen. lia.
  - intros es b' Hes Hch.
    assert (ix_seqGen ix + 1 + blen es = ix_seqGen ix + blen (mkBufExtent (ix_seqGen ix + 1) off (slice rem 0 k) :: es)) as ->
      by (rewrite blen_cons; lia).
    apply HQ.
    + rewrite fmap_cons. apply (split_of_cons ss rem off (ix_seqGen ix) k TierHot); auto; unfold in_u64; lia.
    + apply (chunked_cons _ _ rem off k); [done|done|lia..| |done]. nia.
Qed.

(** ** The buffer after a write *)

(** The current batch, or a fresh one. *)
Definition is_current (buf : inodeBuf) (b : bufBatch) : Prop :=
  bb_extents b = batch_exts (ib_current buf) /\ bb_bytes b = exts_total (bb_extents b) /\
  (ib_current buf = Some b \/ batch_exts (ib_current buf) = [] /\ bb_maxEnd b = 0).

Definition grown_buf (size t : Z) (b : bufBatch) (buf : inodeBuf) : inodeBuf :=
  set_live size t (set_batches (Some (set_bb_mtime t b)) (ib_flushing buf) buf).

Lemma grown_exts size t b b' rem off es buf :
  is_current buf b -> chunked b b' rem off es ->
  buf_exts (grown_buf size t b' buf) = buf_exts buf ++ es.
Proof.
  intros (He & _) (Hx & _). unfold buf_exts. cbn. by rewrite Hx, He, app_assoc.
Qed.

Lemma with_seqGen_same (ix : Index P S) i n : ix_seqGen ix <= n -> same_file ix (with_seqGen n ix) i.
Proof. intros Hn. split_and!; [done|cbn; lia|eauto|done]. Qed.

Lemma buf_ok_grow (ix : Index P S) inode buf ph b b' rem off es size t :
  index_ok ix -> in_u64 inode -> buf_ok ix inode buf ph -> is_current buf b ->
  ix_seqGen ix + blen rem < 2^62 -> in_i64 size -> in_i64 t -> in_i64 (off + blen rem) ->
  Z.max (ib_liveSize buf) (off + blen rem) <= size ->
  split_of (ix_stripeSize ix) rem off (ix_seqGen ix) (as_hot <$> es) -> chunked b b' rem off es ->
  buf_ok (with_seqGen (ix_seqGen ix + blen es) ix) inode (grown_buf size t b' buf) ph.
Proof.
  intros Hok Hi Hbuf Hcur Hg Hsz Htm Hoe Hmx Hsp Hch.
  pose proof Hok as (_ & _ & [Hg0 _] & _ & Hres). pose proof (blen_nonneg es).
  pose proof Hsp as (_ & _ & Hsq & _).
  assert (forall e, e ∈ es -> ix_seqGen ix < be_seq e <= ix_seqGen ix + blen es) as Hq.
  { intros e He. assert (as_hot e ∈ as_hot <$> es) as Hin by (apply list_elem_of_fmap; eauto).
    specialize (Hsq _ Hin). unfold blen in *. rewrite length_fmap in Hsq. done. }
  assert (buf_ok (with_seqGen (ix_seqGen ix + blen es) ix) inode buf ph) as [H1 H2 H3 H4 H5 H6 H7 H8 H9 HA].
  { eapply buf_ok_same; [|done]. apply with_seqGen_same. lia. }
  pose proof (grown_exts size t b b' rem off es buf Hcur Hch) as Hx.
  assert (forall e, e ∈ buf_exts buf -> be_seq e <= ix_seqGen ix) as Hold by apply Hbuf.
  split; rewrite ?Hx; [done| | | | | |done| | |].
  - apply Forall_app. split; [done|]. apply Forall_forall. intros e He.
    by apply (split_of_bext _ rem off (ix_seqGen ix) es).
  - apply StronglySorted_app. split_and!; [|done|by eapply split_of_sorted].
    intros a e Ha He. specialize (Hq e He). specialize (Hold a Ha). lia.
  - intros e [He|He]%elem_of_app; [by apply H4|]. specialize (Hq e He). cbn. lia.
  - intros g e Hf He.
    assert (e ∈ unflushed buf ph \/ e ∈ es) as [He'|He'].
    { destruct Hch as (Hx' & _), Hcur as (Hc & _).
      destruct ph as [[| |]|]; cbn [unflushed] in *; try (rewrite Hx in He); try (by apply elem_of_app).
      cbn in He |- *. rewrite Hx', Hc in He. by apply elem_of_app. }
    + by apply H5.
    + specialize (Hq e He'). destruct (Hres inode g Hi Hf). lia.
  - intros b1 [= <-]. cbn. destruct Hcur as (_ & Hb & _), Hch as (-> & -> & Ht & _).
    rewrite exts_total_app. lia.
  - destruct ph as [[| |]|]; exact H8.
  - intros b1 e Hb He. destruct Hch as (Hx' & _ & _ & _ & _ & Hm & Hend), Hcur as (Hce & _ & Hbend).
    destruct Hb as [[= <-]|Hb]; [|by apply (H9 b1 e); [right|]]. cbn in *. rewrite Hx' in He.
    apply elem_of_app in He as [He|He]; [|specialize (Hend _ He); lia].
    transitivity (bb_maxEnd b); [|rewrite Hm; destruct (blen rem =? 0); lia].
    destruct Hbend as [Hbe|Hbe]; [by apply (H9 b e); [left|]|]. rewrite Hce, (proj1 Hbe) in He. by apply elem_of_nil in He.
  - destruct HA as (_ & _ & Hends & Hty), Hch as (_ & _ & _ & _ & _ & Hm & Hend). split_and!; [done|done| |].
    + rewrite Hx. cbn [grown_buf set_live ib_liveSize]. intros e [He|He]%elem_of_app;
        [specialize (Hends e He)|specialize (Hend e He)]; lia.
    + intros b1 [[= <-]|Hb1]; [|by apply Hty; right]. split; [|done]. cbn. rewrite Hm.
      assert (in_i64 (bb_maxEnd b)) as Hbm.
      { destruct Hcur as (_ & _ & [Hc|[_ ->]]); [by apply Hty; left|by unfold in_i64; lia]. }
      unfold in_i64 in *. destruct (blen rem =? 0); lia.
Qed.

(** ** The operation *)

(** Nothing a reader sees has changed. *)
Definition same_view s s' : Prop := forall i x, in_u64 i -> live s' i x = live s i x.

(** [c] is what readers of [inode] now see; the other files are as before. *)
Definition view_becomes s s' (inode : Z) (f : Z -> option Z) : Prop :=
  (forall x, live s' inode x = f x) /\
  forall i x, in_u64 i -> i <> inode -> live s' i x = live s i x.

(** The extents of the other files stay where they are. *)
Definition others_buffered s s' (inode : Z) : Prop := forall i, i <> inode -> buffered s' i = buffered s i.

(** The engine is untouched, but for the counter, and no file is poisoned. *)
Definition disk_same s s' : Prop :=
  (exists n, ix_seqGen (st_idx s) <= n /\ st_idx s' = with_seqGen n (st_idx s)) /\
  forall i, poison s' i = poison s i.

Lemma getOrCreate_ok (ix : Index P S) c ph inode tier :
  co_ok ix c ph -> mem_ok c 0 -> in_u64 inode -> (tier = TierHot \/ tier = TierCold) ->
  let '(buf, c') := getOrCreateBuf inode tier c in
  co_buffers c' !! inode = Some buf /\ co_ok ix c' ph /\ co_sem c' = co_sem c /\
  mem_total (co_buffers c') = mem_total (co_buffers c) /\ co_opts c' = co_opts c /\
  (forall j, j <> inode -> co_buffers c' !! j = co_buffers c !! j) /\
  buf_exts buf = match co_buffers c !! inode with Some b => buf_exts b | None => [] end /\
  (is_Some (ib_poisoned buf) -> c' = c).
Proof.
  intros Hco Hm Hi Ht. unfold getOrCreateBuf. destruct (co_buffers c !! inode) as [buf|] eqn:E; [done|].
  cbn [put_buf with_buffers co_buffers co_sem co_opts]. rewrite mem_total_insert, lookup_insert_eq by done.
  split_and!; [done| |done|done|done| |done|by intros []].
  - apply (co_ok_put _ _ ph); [done..| |done|].
    + assert (ph !! inode = None) as ->.
      { destruct (ph !! inode) as [p|] eqn:Ep; [|done]. destruct (co_phases _ _ _ Hco _ _ Ep); congruence. }
      by apply buf_ok_none; try done; unfold in_i64; cbn; lia.
    + apply chans_ok_put; [apply Hco|constructor|by intros n ?%elem_of_nil].
  - intros j Hj. by rewrite lookup_insert_ne.
Qed.

Lemma getOrCreate_poison inode tier c i : poison_of i (getOrCreateBuf inode tier c).2 = poison_of i c.
Proof.
  unfold getOrCreateBuf. destruct (co_buffers c !! inode) as [buf|] eqn:E; [done|]. unfold poison_of. cbn.
  destruct (decide (i = inode)) as [->|]; [by rewrite lookup_insert_eq, E|by rewrite lookup_insert_ne].
Qed.

Lemma live_eq s s' i x :
  content (st_idx s') i x = content (st_idx s) i x -> buffered s' i = buffered s i -> live s' i x = live s i x.
Proof. intros E Eb. unfold live. rewrite Eb. by apply shadow_ext. Qed.

(** Only the semaphore and the queue differ. *)
Lemma same_buffers_ok s s' ph c c' :
  store_ok s ph -> st_co s = Some c -> st_co s' = Some c' -> st_idx s' = st_idx s ->
  co_buffers c' = co_buffers c -> co_chans c' = co_chans c -> co_closed c' = co_closed c ->
  mem_ok c' 0 -> store_ok s' ph /\ same_view s s' /\ disk_same s s' /\ forall i, buffered s' i = buffered s i.
Proof.
  intros (Hok & Hcl & Hq & c0 & Hc0 & [H1 H2 H3] & _) Hc Hc' Hix Hb Hn Hd Hm.
  rewrite Hc in Hc0. injection Hc0 as <-.
  assert (forall i, buffered s' i = buffered s i) as Hx by (intros i; unfold buffered; by rewrite Hc, Hc', Hb).
  split; [|split; [|split; [|exact Hx]]].
  - unfold store_ok. rewrite Hix. split_and!; [done..|]. exists c'. split_and!; [done| |done].
    split; rewrite ?Hb; [done..|]. unfold chans_ok in *. by rewrite Hb, Hn, Hd.
  - intros i x _. by apply live_eq; [rewrite Hix|].
  - split; [exists (ix_seqGen (st_idx s)); split; [lia|]; rewrite Hix; by destruct (st_idx s)|].
    intros i. unfold poison, poison_of. by rewrite Hc, Hc', Hb.
Qed.

Lemma buf_chans_current buf b : ib_current buf = Some b -> buf_chans buf = batch_chans (ib_flushing buf) ++ [bb_done b].
Proof. intros E. unfold buf_chans. by rewrite E. Qed.

(** The current batch of a buffer, made if there is none. *)
Definition current_or_new (buf : inodeBuf) c : bufBatch * coalescer W :=
  match ib_current buf with Some b => (b, c) | None => newBufBatch c end.

Lemma current_or_new_ok (ix : Index P S) c ph inode buf b1 c1 b' rem off es size t :
  co_ok ix c ph -> co_buffers c !! inode = Some buf -> current_or_new buf c = (b1, c1) ->
  chunked b1 b' rem off es ->
  is_current buf b1 /\ co_buffers c1 = co_buffers c /\ co_sem c1 = co_sem c /\ co_opts c1 = co_opts c /\
  chans_ok (put_buf inode (grown_buf size t b' buf) c1).
Proof.
  intros [H1 H2 H3] Hb E (_ & _ & _ & Hd & _). unfold current_or_new in E.
  destruct (H1 _ _ Hb) as [_ Hbuf]. destruct (ib_current buf) as [b|] eqn:Ec.
  - injection E as <- <-. split_and!; [|done..|].
    + split_and!; [by rewrite Ec|by apply (bo_current _ _ _ _ Hbuf)|by left].
    + assert (buf_chans (grown_buf size t b' buf) = buf_chans buf) as Eq
        by (rewrite (buf_chans_current buf b) by done; unfold buf_chans; cbn; by rewrite Hd).
      apply (chans_ok_sub c inode buf); rewrite ?Eq; [done..|by apply H3 in Hb as [? _]|done].
  - injection E as <- <-. split_and!; [by split_and!; rewrite ?Ec; auto|done..|].
    apply (chans_ok_fresh c inode buf); [done..|]. unfold buf_chans. cbn. by rewrite Hd, Ec, app_nil_r.
Qed.

(** The state a write ends in. *)
Lemma write_lands s s' ph c1 c2 inode buf b1 b' data off es size t :
  store_ok s ph -> in_u64 inode -> bytes_ok data -> ix_seqGen (st_idx s) + blen data < 2^62 ->
  in_i64 size -> in_i64 t -> in_i64 (off + blen data) -> Z.max (ib_liveSize buf) (off + blen data) <= size ->
  st_idx s' = with_seqGen (ix_seqGen (st_idx s) + blen es) (st_idx s) ->
  co_ok (st_idx s) c1 ph -> co_buffers c1 !! inode = Some buf -> buf_exts buf = buffered s inode ->
  (forall j, j <> inode -> buffered s j = match co_buffers c1 !! j with Some b => buf_exts b | None => [] end) ->
  current_or_new buf c1 = (b1, c2) -> chunked b1 b' data off es ->
  split_of (ix_stripeSize (st_idx s)) data off (ix_seqGen (st_idx s)) (as_hot <$> es) ->
  mem_ok c1 (blen data) ->
  (exists c', st_co s' = Some c' /\ co_buffers c' = <[inode := grown_buf size t b' buf]> (co_buffers c1) /\
     co_sem c' = co_sem c1 /\ co_chans c' = co_chans c2 /\ co_closed c' = co_closed c2 /\ co_opts c' = co_opts c1) ->
  (forall i, poison_of i c1 = poison s i) ->
  store_ok s' ph /\ view_becomes s s' inode (overlay (live s inode) off data) /\ disk_same s s' /\
    others_buffered s s' inode.
Proof.
  intros (Hok & Hcl & Hq & _) Hi Hb Hg Hsz Ht Hend Hmx Hix Hco Hl Hx Hoth Hcur Hch Hsp Hm (c' & Hc' & Hb' & Hs' & Hn' & Hd' & Ho') Hpo.
  pose proof (blen_nonneg es). destruct (current_or_new_ok _ _ _ _ _ _ _ _ _ _ _ size t Hco Hl Hcur Hch)
    as (Hic & Hb2 & Hs2 & _ & Hchans).
  assert (blen es <= blen data) as Hle.
  { destruct Hsp as (_ & _ & _ & Hle & _). unfold blen in *. by rewrite length_fmap in Hle. }
  pose proof Hok as (_ & _ & [Hg0 _] & _ & _).
  destruct (co_bufs _ _ _ Hco _ _ Hl) as [_ Hbuf].
  set (ix := st_idx s) in *. set (gb := grown_buf size t b' buf) in *.
  assert (buf_ok (st_idx s') inode gb (ph !! inode)) as Hgb
    by (rewrite Hix; by eapply buf_ok_grow).
  assert (buf_exts gb = buf_exts buf ++ es) as Hgx by by eapply grown_exts.
  destruct (with_seqGen_ok ix (ix_seqGen ix + blen es)) as [Hok' _]; [done|lia|].
  assert (others_buffered s s' inode) as Hob.
  { intros i Hne. rewrite Hoth by done. unfold buffered. by rewrite Hc', Hb', lookup_insert_ne. }
  split; [|split; [|split; [|exact Hob]]].
  - unfold store_ok. rewrite Hix. split_and!; [done|done|cbn; lia|]. exists c'. split_and!; [done| |].
    + assert (co_ok (st_idx s') c1 ph) as Hco1
        by (eapply co_ok_same; [|done]; intros i _; rewrite Hix; apply with_seqGen_same; lia).
      rewrite Hix in Hco1, Hgb.
      assert (co_ok (with_seqGen (ix_seqGen ix + blen es) ix) c2 ph) as Hco2.
      { destruct Hco1 as [K1 K2 K3]. split; rewrite ?Hb2; [done..|].
        revert Hcur. unfold current_or_new. destruct (ib_current buf); [by intros [= _ <-]|].
        intros E. pose proof (chans_ok_new c1 K3) as Hn. rewrite E in Hn. by destruct Hn. }
      destruct (co_ok_put _ c2 ph ph inode gb Hco2 Hi Hgb) as [K1 K2 K3]; [done|done|].
      cbn [put_buf with_buffers co_buffers] in K1, K2. rewrite Hb2, <-Hb' in K1, K2.
      split; [done..|]. unfold chans_ok in K3 |- *. cbn [put_buf with_buffers co_buffers co_chans co_closed] in K3.
      by rewrite Hn', Hd', Hb', <-Hb2.
    + unfold mem_ok in *. rewrite Hs', Hb', Ho', (mem_total_replace _ _ buf) by done.
      unfold buf_total. rewrite Hgx, exts_total_app. destruct Hch as (_ & _ & -> & _). lia.
  - split.
    + intros x. unfold live. rewrite Hix. change (content (with_seqGen _ ix) inode) with (content ix inode).
      unfold buffered at 1. rewrite Hc', Hb', lookup_insert_eq, Hgx, Hx, shadow_app.
      by rewrite (split_of_shadow _ _ _ _ _ _ _ Hsp).
    + intros i x _ Hne. by apply live_eq; [rewrite Hix|apply Hob].
  - split; [exists (ix_seqGen ix + blen es); split; [fold ix; lia|done]|]. intros i. rewrite <-Hpo.
    unfold poison, poison_of. rewrite Hc', Hb'. destruct (decide (i = inode)) as [->|Hne].
    + by rewrite lookup_insert_eq, Hl.
    + by rewrite lookup_insert_ne.
Qed.

Lemma wp_time_now s (Q : outcome Z -> Store P S W -> Prop) :
  (forall t clk, in_i64 t -> Q (Ok t) (mkStore (st_idx s) (st_co s) clk)) -> wp time_now Q s.
Proof. intros HQ. apply HQ. apply i64_range. Qed.

Lemma try_enqueue_same inode c :
  co_buffers (try_enqueue inode c) = co_buffers c /\ co_sem (try_enqueue inode c) = co_sem c /\
  co_chans (try_enqueue inode c) = co_chans c /\ co_closed (try_enqueue inode c) = co_closed c /\
  co_opts (try_enqueue inode c) = co_opts c.
Proof. unfold try_enqueue. by case_match. Qed.

Lemma wp_co_Write inode off data tier s ph (Q : outcome unit -> Store P S W -> Prop) :
  store_ok s ph -> in_u64 inode -> bytes_ok data -> (tier = TierHot \/ tier = TierCold) ->
  0 <= off -> off + blen data <= 2^32 * ix_stripeSize (st_idx s) ->
  ix_seqGen (st_idx s) + blen data < 2^62 ->
  (forall s', store_ok s' ph -> view_becomes s s' inode (overlay (live s inode) off data) ->
     disk_same s s' -> others_buffered s s' inode -> (data <> [] -> poison s inode = Ok tt) -> Q (Ok tt) s') ->
  (forall e s', store_ok s' ph -> same_view s s' -> disk_same s s' -> others_buffered s s' inode -> Q (Err e) s') ->
  wp (co_Write inode off data tier) Q s.
Proof.
  intros Hst Hi Hb Ht Ho Hend Hg HO HE. pose proof Hst as (Hok & _ & _ & c & Hc & Hco & Hm).
  assert (forall s' w, st_co s' = Some (with_sem w c) -> st_idx s' = st_idx s ->
    sem_cap w = sem_cap (co_sem c) -> sem_held w = sem_held (co_sem c) ->
    store_ok s' ph /\ same_view s s' /\ disk_same s s' /\ others_buffered s s' inode) as Hsame.
  { intros s' w Hc' Hix Hcap Hh. destruct (same_buffers_ok s s' ph c (with_sem w c)) as (? & ? & ? & ?); try done;
      [|by split_and!; [..|intros i _]].
    unfold mem_ok in *. cbn. by rewrite Hcap, Hh. }
  unfold co_Write. wp_step. apply (wp_co_get s c); [done|].
  destruct (co_closing c).
  { wp_step. destruct (Hsame s (co_sem c)) as (? & ? & ? & ?); try done; [by rewrite Hc; destruct c|]. by apply HE. }
  destruct data as [|b0 r0] eqn:Ed.
  { wp_step. destruct (Hsame s (co_sem c)) as (? & ? & ? & ?); try done; [by rewrite Hc; destruct c|].
    apply HO; [done| |done|done|done]. split; [|done]. intros x.
    destruct (split_of_nil (ix_stripeSize (st_idx s)) off 0) as (_ & _ & _ & _ & E). by rewrite <-E. }
  rewrite <-Ed in *. wp_step. apply (wp_acquire _ s c); [done| |].
  2: { intros e w Hcap Hh. destruct (Hsame (with_co (Some (with_sem w c)) s) w) as (? & ? & ? & ?); try done. by apply HE. }
  intros w Hcap Hh Hle. set (c1 := with_sem w c). wp_step. apply (wp_co_get _ c1); [done|].
  assert (co_ok (st_idx s) c1 ph) as Hco1 by by destruct Hco.
  assert (mem_ok c1 (blen data)) as Hm1 by (unfold mem_ok in *; cbn; lia).
  assert (mem_ok c1 0) as Hm0 by (unfold mem_ok in *; pose proof (blen_nonneg data); lia).
  pose proof (getOrCreate_ok (st_idx s) c1 ph inode tier Hco1 Hm0 Hi Ht) as Hgc.
  pose proof (getOrCreate_poison inode tier c1) as Hpoi.
  destruct (getOrCreateBuf inode tier c1) as [buf c2].
  destruct Hgc as (Hl & Hco2 & Hs2 & Ht2 & Ho2 & Hj2 & Hx2 & Hp2).
  destruct (ib_poisoned buf) as [err|] eqn:Ep.
  { specialize (Hp2 ltac:(eauto)). subst c2. wp_step. apply wp_co_put. wp_step.
    apply (wp_release _ _ c1); [done|cbn; pose proof (mem_total_nonneg (co_buffers c)); unfold mem_ok in Hm; cbn in Hm1; lia|].
    intros w' Hcap' Hh'. wp_step.
    destruct (Hsame (with_co (Some (with_sem w' c1)) (with_co (Some c1) (with_co (Some c1) s))) w') as (? & ? & ? & ?);
      cbn in *; try done; try lia. by apply HE. }
  change (match ib_current buf with Some b => (b, c2) | None => newBufBatch c2 end)
    with (current_or_new buf c2).
  destruct (current_or_new buf c2) as [b1 c3] eqn:Ecn. wp_step. apply wp_co_put. wp_step.
  destruct (co_bufs _ _ _ Hco2 _ _ Hl) as [_ Hbuf].
  assert (forall i, poison_of i c2 = poison s i) as Hpo.
  { intros i. unfold poison. rewrite Hc. change (poison_of i c) with (poison_of i c1). by eapply Hpoi. }
  assert (poison s inode = Ok tt) as Hnp by (rewrite <-Hpo; unfold poison_of; by rewrite Hl, Ep).
  assert (is_current buf b1) as Hic.
  { revert Ecn. unfold current_or_new. destruct (ib_current buf) as [b|] eqn:Ec.
    - intros [= <- _]. split_and!; [by rewrite Ec|by apply (bo_current _ _ _ _ Hbuf)|by left].
    - unfold newBufBatch. intros [= <- _]. split_and!; rewrite ?Ec; auto. }
  assert (0 <= bb_bytes b1 /\ bb_bytes b1 + blen data < 2^63) as [Hb1 Hb2].
  { destruct Hic as (Hx & Hbt & _). rewrite Hbt, Hx. split; [apply exts_total_nonneg|].
    assert (exts_total (batch_exts (ib_current buf)) <= mem_total (co_buffers c2)); [|unfold mem_ok in Hm1; rewrite Ht2 in *; lia].
    rewrite (mem_total_delete _ _ _ Hl). unfold buf_total, buf_exts. rewrite exts_total_app.
    pose proof (exts_total_nonneg (batch_exts (ib_flushing buf))).
    pose proof (mem_total_nonneg (delete inode (co_buffers c2))). lia. }
  pose proof Hok as (_ & Hss & [Hg0 _] & _ & _).
  apply wp_write_chunks; try done. intros es b' Hsp Hch. wp_step. apply wp_time_now. intros t clk Htm.
  assert (in_i64 (off + blen data)) as Hoe by (pose proof (blen_nonneg data); unfold stripe_size_ok in Hss; unfold in_i64; lia).
  destruct (bo_attrs _ _ _ _ Hbuf) as (Hls & _). rewrite (i64_id (off + blen data)) by done.
  apply wp_co_put.
  match goal with |- Q _ ?s1 =>
    destruct (write_lands s s1 ph c2 c3 inode buf b1 b' data off es
      (Z.max (ib_liveSize buf) (off + blen data)) t) as (? & ? & ? & ?)
  end; try done; [unfold in_i64 in *; lia| | | | |by apply HO].
  - rewrite Hx2. unfold buffered. by rewrite Hc.
  - intros j Hj. unfold buffered. by rewrite Hc, Hj2.
  - unfold mem_ok in *. by rewrite Ht2, Hs2, Ho2.
  - eexists. split; [done|].
    assert (co_buffers c3 = co_buffers c2 /\ co_sem c3 = co_sem c2 /\ co_opts c3 = co_opts c2) as (<- & <- & <-).
    { revert Ecn. unfold current_or_new. destruct (ib_current buf); by intros [= _ <-]. }
    destruct (_ <=? _); [|done].
    match goal with |- context [try_enqueue inode ?x] => destruct (try_enqueue_same inode x) as (-> & -> & -> & -> & ->) end.
    done.
Qed.
End Write.
