(* ===== verification/LiveFlush.v ===== *)
(** * Flushing the buffer

    The four critical sections of a flush, each on its own: readers see the
    same file before and after every one of them, whatever other steps run in
    between, and after the last one the engine holds what the flush took. *)

From S2P Require Import Prelude Keys Kv Fragment Plan Segment Layer Index IndexSpec IndexRead IndexAppend IndexMaint Node Coalescer LiveFile LiveWrite.

(** ** The node update *)

Section Hook.
Context {P : Type} {PB : Pebble P} {PL : PebbleLaws P}.

Lemma NodeKey_foreign i : ~ has_prefix StripeAllPrefix (NodeKey i).
Proof. by intros ?%has_prefix_tag. Qed.

Lemma decodeNode_no_panic v : decodeNode v <> Panic.
Proof. unfold decodeNode. by repeat case_match. Qed.

(** What the hook adds to the batch. *)
Lemma wp_flush_hook inode fend mtime b p (Q : outcome Batch -> P -> Prop) :
  (forall v n, contents p !! NodeKey inode = Some v -> decodeNode v = Ok n ->
     Q (Ok (b ++ [WSet (NodeKey inode) (encodeNode (bump_node n fend mtime))])) p) ->
  (forall e, Q (Err e) p) -> wp (flush_hook inode fend mtime b) Q p.
Proof.
  intros HO HE. unfold flush_hook, Batch_Get. wp_step. apply wp_DB_Get; [|done].
  destruct (contents p !! NodeKey inode) as [v|] eqn:E; [|by wp_step].
  wp_step. pose proof (decodeNode_no_panic v). destruct (decodeNode v) as [n|e|] eqn:En; [|by wp_step..].
  wp_step. unfold Batch_Set. apply wp_Batch_op; [by eapply HO|done].
Qed.

Lemma flush_hook_ok inode fend mtime : hook_ok (Some (flush_hook inode fend mtime)).
Proof.
  intros b p. apply wp_flush_hook; [|done]. intros v n _ _. split; [done|]. eexists. split; [done|].
  apply Forall_singleton. split; [apply NodeKey_foreign|apply NodeKey_ok].
Qed.

(** The size grows to the end of the batch; the times are those of the batch. *)
Definition node_bumped (inode fend mtime : Z) (m m' : gmap bytes bytes) : Prop :=
  (exists v n, m !! NodeKey inode = Some v /\ decodeNode v = Ok n /\
     m' !! NodeKey inode = Some (encodeNode (bump_node n fend mtime))) /\
  forall k, k <> NodeKey inode -> ~ has_prefix StripeAllPrefix k -> m' !! k = m !! k.

Lemma hooked_bump inode fend mtime p p' :
  hooked (Some (flush_hook inode fend mtime)) p p' -> node_bumped inode fend mtime (contents p) (contents p').
Proof.
  intros (ops & (b & E) & Hk).
  assert (wp (flush_hook inode fend mtime b) (fun r _ => forall b', r = Ok b' ->
    exists v n, contents p !! NodeKey inode = Some v /\ decodeNode v = Ok n /\
      b' = b ++ [WSet (NodeKey inode) (encodeNode (bump_node n fend mtime))]) p) as Hw.
  { apply wp_flush_hook; [|done]. intros v n Hv Hn b' [= <-]. eauto. }
  unfold wp in Hw. rewrite E in Hw. destruct (Hw _ eq_refl) as (v & n & Hv & Hn & ->%app_inv_head).
  split.
  - exists v, n. split_and!; [done..|]. rewrite Hk by apply NodeKey_foreign. cbn. apply lookup_insert_eq.
  - intros k Hne Hf. rewrite Hk by done. cbn. by apply lookup_insert_ne.
Qed.
End Hook.

Section Flush.
Context {P : Type} {PB : Pebble P} {PL : PebbleLaws P}.
Context {S : Type} {SL : SegLayer S} {SLL : SegLayerLaws S} {MR : MapRange}.
Context {W : Type} {SW : Semaphore W} {SWL : SemaphoreLaws W}.
Implicit Types s : Store P S W.
Implicit Types c : coalescer W.

(** The extents of the current batch. *)
Definition current_exts s (inode : Z) : list bufExtent :=
  match st_co s with
  | Some c => match co_buffers c !! inode with Some buf => batch_exts (ib_current buf) | None => [] end
  | None => []
  end.

Lemma exts_total_0 ss es : Forall (bext_ok ss) es -> exts_total es = 0 -> es = [].
Proof.
  destruct es as [|e es]; [done|]. intros [(_ & _ & Hne & _) _]%Forall_cons.
  cbn [exts_total foldr]. fold (exts_total es). pose proof (exts_total_nonneg es).
  pose proof (blen_nonneg (be_data e)). intros Ht. destruct Hne. apply blen_nil_inv. lia.
Qed.

(** ** The swap *)

Lemma buf_ok_swap (ix : Index P S) inode buf b d :
  buf_ok ix inode buf None -> ib_current buf = Some b ->
  buf_ok ix inode (set_batches (Some (mkBufBatch [] 0 0 0 d None)) (Some b) buf) (Some Swapped) /\
  buf_exts (set_batches (Some (mkBufBatch [] 0 0 0 d None)) (Some b) buf) = buf_exts buf.
Proof.
  intros [H1 H2 H3 H4 H5 H6 H7 H8 H9 HA] Hb. cbn in H8.
  assert (buf_exts (set_batches (Some (mkBufBatch [] 0 0 0 d None)) (Some b) buf) = buf_exts buf) as E.
  { unfold buf_exts. cbn. by rewrite Hb, H8, app_nil_r. }
  split; [|done]. split; rewrite ?E; try done.
  - intros g e Hg He. apply (H5 g e Hg). cbn [unflushed] in *. by rewrite E in He.
  - by intros ? [= <-].
  - intros ? [= <-]. by rewrite (H6 b).
  - cbn. eauto.
  - intros b' e [[= <-]|[= <-]] He; [by apply elem_of_nil in He|by apply (H9 b e); [left|]].
  - destruct HA as (? & ? & He & Ht). split_and!; [done..| |]; [by rewrite E|].
    intros b' [[= <-]|[= <-]]; [|by apply Ht; left]. by split.
Qed.

Lemma wp_flush_swap inode s ph (Q : outcome bool -> Store P S W -> Prop) :
  store_ok s ph ->
  ((ph !! inode = None -> buffered s inode = []) -> Q (Ok false) s) ->
  (forall s', ph !! inode = None -> store_ok s' (<[inode := Swapped]> ph) -> same_view s s' ->
     st_idx s' = st_idx s -> in_u64 inode -> current_exts s' inode = [] ->
     batch_flushing s' inode = batch_current s inode -> closed s' = closed s ->
     (forall i, poison s' i = poison s i) -> (forall i, buffered s' i = buffered s i) -> Q (Ok true) s') ->
  wp (flush_swap inode) Q s.
Proof.
  intros (Hok & Hcl & Hq & c & Hc & Hco & Hm) HF HT. unfold flush_swap.
  wp_step. apply (wp_co_get s c); [done|].
  destruct (co_buffers c !! inode) as [buf|] eqn:Hb.
  2: { wp_step. apply HF. unfold buffered. by rewrite Hc, Hb. }
  destruct (ib_flushing buf) as [f|] eqn:Hf.
  { wp_step. apply HF. intros Hph. destruct (co_bufs _ _ _ Hco _ _ Hb) as [_ Hbuf].
    pose proof (bo_phase _ _ _ _ Hbuf) as Hp. rewrite Hph in Hp. cbn in Hp. congruence. }
  destruct (is_idle (ib_current buf)) eqn:Hidle.
  { wp_step. apply HF. intros _. unfold buffered, buf_exts. rewrite Hc, Hb, Hf. cbn [batch_exts app].
    destruct (co_bufs _ _ _ Hco _ _ Hb) as [_ Hbuf]. pose proof (bo_exts _ _ _ _ Hbuf) as Hx.
    unfold buf_exts in Hx. rewrite Hf in Hx. cbn [batch_exts app] in Hx.
    destruct (ib_current buf) as [b|] eqn:Hcur; [|done]. cbn [batch_exts is_idle] in *.
    apply (exts_total_0 _ _ Hx). rewrite <-(bo_current _ _ _ _ Hbuf b Hcur). by apply Z.eqb_eq. }
  destruct (ib_current buf) as [b|] eqn:Hcur; [|done].
  destruct (co_bufs _ _ _ Hco _ _ Hb) as [Hi Hbuf].
  assert (ph !! inode = None) as Hph.
  { pose proof (bo_phase _ _ _ _ Hbuf) as Hp. destruct (ph !! inode) as [[|j|j r]|]; [|..|done];
      cbn in Hp; rewrite Hf in Hp; [by destruct Hp|by destruct Hp as (? & ? & _)..]. }
  rewrite Hph in Hbuf. pose proof (co_channels _ _ _ Hco) as Hch.
  pose proof (chans_ok_new c Hch) as Hn. destruct (newBufBatch c) as [nb c1] eqn:En.
  injection En as <- <-. destruct Hn as (Hc1 & _ & _ & _).
  destruct (buf_ok_swap _ inode buf b (co_chans c) Hbuf Hcur) as [Hbuf' Hx].
  set (c1 := mkCoalescer _ _ _ _ _ _ _) in *.
  set (buf' := set_batches _ (Some b) buf) in *. wp_step. apply wp_co_put. wp_step.
  assert (buf_chans buf' = buf_chans buf ++ [co_chans c]) as Eq by (unfold buf_chans; cbn; by rewrite Hf, Hcur).
  assert (forall i, buffered (with_co (Some (put_buf inode buf' c1)) s) i = buffered s i) as Hbuf1.
  { intros i. unfold buffered. rewrite Hc. cbn.
    destruct (decide (i = inode)) as [->|Hne]; [by rewrite lookup_insert_eq, Hb|by rewrite lookup_insert_ne]. }
  apply HT; [done| | |done|done| | | | |exact Hbuf1].
  3: { unfold current_exts. cbn. by rewrite lookup_insert_eq. }
  3: { unfold batch_flushing, batch_current. rewrite Hc. cbn. by rewrite lookup_insert_eq, Hb. }
  3: { unfold closed. by rewrite Hc. }
  3: { intros i. unfold poison, poison_of. rewrite Hc. cbn. destruct (decide (i = inode)) as [->|Hne];
       [by rewrite lookup_insert_eq, Hb|by rewrite lookup_insert_ne]. }
  - split_and!; [done..|]. exists (put_buf inode buf' c1). split_and!; [done| |].
    + apply (co_ok_put _ c1 ph); [by destruct Hco|done|by rewrite lookup_insert_eq|by intros; apply lookup_insert_ne|].
      by apply (chans_ok_fresh c inode buf).
    + unfold mem_ok in *. cbn [put_buf with_buffers co_buffers co_sem co_opts]. subst c1. cbn [co_buffers co_sem co_opts].
      rewrite (mem_total_replace _ _ _ _ Hb). unfold buf_total. rewrite Hx. lia.
  - intros i x _. by apply live_eq.
Qed.

(** ** The extents *)

(** Only the phase of one flush advances. *)
Lemma store_ok_phase s ph ph' inode :
  store_ok s ph -> is_Some (ph !! inode) -> (forall j, j <> inode -> ph' !! j = ph !! j) ->
  (forall c buf, st_co s = Some c -> co_buffers c !! inode = Some buf ->
     buf_ok (st_idx s) inode buf (ph !! inode) -> buf_ok (st_idx s) inode buf (ph' !! inode)) ->
  store_ok s ph'.
Proof.
  intros (Hok & Hcl & Hq & c & Hc & Hco & Hm) [p Hp] Hph Hb. split_and!; [done..|].
  exists c. split_and!; [done| |done]. destruct Hco as [H1 H2 H3]. split; [| |done].
  - intros i buf Hl. destruct (H1 i buf Hl) as [Hi Hbuf]. split; [done|].
    destruct (decide (i = inode)) as [->|Hne]; [by apply (Hb c)|by rewrite Hph].
  - intros i q. destruct (decide (i = inode)) as [->|Hne]; [by eauto|by rewrite Hph by done; apply H2].
Qed.

Lemma wp_flush_build inode s ph (Q : outcome flushJob -> Store P S W -> Prop) :
  store_ok s ph -> ph !! inode = Some Swapped ->
  (forall j, fj_inode j = inode -> store_ok s (<[inode := Built j]> ph) -> Q (Ok j) s) ->
  wp (flush_build inode) Q s.
Proof.
  intros Hst Hph HO. pose proof Hst as (_ & _ & _ & c & Hc & Hco & _).
  destruct (co_phases _ _ _ Hco _ _ Hph) as [buf Hb]. destruct (co_bufs _ _ _ Hco _ _ Hb) as [_ Hbuf].
  rewrite Hph in Hbuf. destruct (bo_phase _ _ _ _ Hbuf) as [b Hf]. unfold flush_build. wp_step.
  apply (wp_co_get s c); [done|]. rewrite Hb, Hf. wp_step. apply HO; [done|].
  apply (store_ok_phase s ph _ inode Hst); [by rewrite Hph|by intros; apply lookup_insert_ne|].
  intros c' buf' Hc' Hb' _. rewrite Hc in Hc'. injection Hc' as <-. rewrite Hb in Hb'. injection Hb' as <-.
  rewrite lookup_insert_eq. destruct Hbuf as [H1 H2 H3 H4 H5 H6 H7 H8 H9 HA]. split; try done. by exists b.
Qed.

(** ** The append *)

Lemma bext_extent ss tier e :
  bext_ok ss e -> (tier = TierHot \/ tier = TierCold) -> extent_ok ss (AppendExtent_of tier e).
Proof.
  intros ([H0 H1] & H2 & H3 & H4 & H5 & H6) Ht. unfold extent_ok. cbn. split_and!; try done; unfold in_u64; lia.
Qed.

Lemma buf_exts_flushing buf b e : ib_flushing buf = Some b -> e ∈ bb_extents b -> e ∈ buf_exts buf.
Proof. intros Hf He. unfold buf_exts. rewrite Hf. apply elem_of_app. by left. Qed.

Lemma sorted_fmap (es : list bufExtent) tier :
  StronglySorted (fun a b => be_seq a < be_seq b) es ->
  StronglySorted (fun a b => ae_Seq a < ae_Seq b) (AppendExtent_of tier <$> es).
Proof.
  induction 1 as [|e es Hs IH He]; [constructor|]. constructor; [done|]. apply Forall_fmap. exact He.
Qed.

(** What a flush hands to the engine is what the engine asks for. *)
Lemma job_extents (ix : Index P S) inode buf b ph :
  buf_ok ix inode buf ph -> ib_flushing buf = Some b -> unflushed buf ph = buf_exts buf ->
  let es := AppendExtent_of (ib_tier buf) <$> bb_extents b in
  Forall (extent_ok (ix_stripeSize ix)) es /\ (forall e, e ∈ es -> ae_Seq e <= ix_seqGen ix) /\
  seqs_fresh (contents (ix_db ix)) inode es.
Proof.
  intros [H1 H2 H3 H4 H5 _ _ _ _ _] Hf Hu. rewrite Hu in H5. cbv zeta. rewrite Forall_forall in H2.
  assert (forall ae, ae ∈ AppendExtent_of (ib_tier buf) <$> bb_extents b ->
    exists e, ae = AppendExtent_of (ib_tier buf) e /\ e ∈ buf_exts buf) as Hin.
  { intros ae (e & -> & He)%list_elem_of_fmap. exists e. split; [done|]. by eapply buf_exts_flushing. }
  split_and!; [|intros ae (e & -> & He)%Hin; by apply H4|split].
  - apply Forall_forall. intros ae (e & -> & He)%Hin. apply bext_extent; auto.
  - apply sorted_fmap. unfold buf_exts in H3. rewrite Hf in H3. by apply StronglySorted_app in H3 as (_ & ? & _).
  - intros g ae Hg (e & -> & He)%Hin. by apply H5.
Qed.

(** Appended or not, the file on disk and the batch that is being flushed lie
    under the current batch just as before. *)
Lemma shadow_appended fc fc' (fl cur : list bufExtent) x :
  fc' x = fc x \/ fc' x = shadow fc fl x -> shadow fc' (fl ++ cur) x = shadow fc (fl ++ cur) x.
Proof.
  intros [E|E]; [by apply shadow_ext|]. rewrite !shadow_app. apply shadow_ext.
  destruct (shadow_dec fl x) as [(e & Hin & He)|Hn]; [by eapply shadow_covered|].
  by rewrite !shadow_free in * by done.
Qed.

Lemma buf_ok_appended (ix ix' : Index P S) inode buf b j r h :
  buf_ok ix inode buf (Some (Built j)) -> ib_flushing buf = Some b -> in_u64 inode -> r <> Panic ->
  idled ix ix' inode (numbers (fj_ae j)) /\ r <> Ok tt \/
    wrote ix ix' inode h (numbers (fj_ae j)) (overlay_all (content ix inode) (fj_ae j)) ->
  buf_ok ix' inode buf (Some (Appended j r)).
Proof.
  intros Hbuf Hf Hi Hr Hw. pose proof Hbuf as [H1 H2 H3 H4 H5 H6 H7 H8 H9 HA].
  destruct H8 as (b' & Hf' & Hj). rewrite Hf in Hf'. injection Hf' as <-.
  assert (fj_ae j = AppendExtent_of (ib_tier buf) <$> bb_extents b) as Ej by by rewrite Hj.
  assert (numbered_in ix ix' inode (numbers (fj_ae j))) as (Hss & Hq & Hn) by (by destruct Hw as [[[_ ?] _]|[_ ?]]).
  split; try done.
  - by rewrite Hss.
  - intros e He. specialize (H4 e He). lia.
  - intros g e Hg He. cbn [unflushed] in He.
    assert (e ∈ buf_exts buf) as He' by (unfold buf_exts; apply elem_of_app; by right).
    destruct (Hn inode g Hi Hg) as [(g' & Hg' & <-)|[_ (ae & Hae & <-)]]; [by apply H5|].
    rewrite Ej in Hae. apply list_elem_of_fmap in Hae as (e1 & -> & He1).
    unfold buf_exts in H3. rewrite Hf in H3. apply StronglySorted_app in H3 as (Hs & _ & _). by apply Hs.
  - exists b.
    assert (idled ix ix' inode (numbers (fj_ae j)) /\ r <> Ok tt \/
      forall x, shadow (content ix' inode) (bb_extents b) x = content ix' inode x) as [[[(_ & Ed & _) _] Hne]|E].
    { destruct Hw as [?|[(_ & _ & Hc & _) _]]; [by left|right]. intros x.
      assert (forall y, content ix' inode y = shadow (content ix inode) (bb_extents b) y) as E
        by (intros y; by rewrite Hc, Ej, <-shadow_overlay_all).
      rewrite E, (shadow_ext _ _ _ _ (E x)). apply shadow_idem. }
    + split_and!; [done..|left|done]. intros g e. rewrite Ed. intros Hg He. apply H5; [done|].
      cbn [unflushed]. unfold buf_exts. rewrite Hf. apply elem_of_app. by left.
    + split_and!; [done..|by right|done].
Qed.

Lemma wp_flush_append inode j s ph (Q : outcome unit -> Store P S W -> Prop) :
  store_ok s ph -> ph !! inode = Some (Built j) -> fj_inode j = inode -> in_u64 inode ->
  (forall r s', st_co s' = st_co s -> same_view s s' -> r <> Panic ->
     (r = Ok tt -> sets_clean (st_idx s') /\
        node_bumped inode (fj_end j) (fj_mtime j) (contents (ix_db (st_idx s))) (contents (ix_db (st_idx s')))) ->
     (sets_clean (st_idx s') -> store_ok s' (<[inode := Appended j r]> ph)) -> Q r s') ->
  wp (flush_append j) Q s.
Proof.
  intros Hst Hph Hj Hi HQ. pose proof Hst as (Hok & Hcl & Hq & c & Hc & Hco & Hm).
  destruct (co_phases _ _ _ Hco _ _ Hph) as [buf Hb]. destruct (co_bufs _ _ _ Hco _ _ Hb) as [_ Hbuf].
  rewrite Hph in Hbuf. pose proof (bo_phase _ _ _ _ Hbuf) as (b & Hf & Ej).
  destruct (job_extents _ _ _ _ _ Hbuf Hf) as (Hes & Hseq & Hfr); [done|].
  assert (fj_ae j = AppendExtent_of (ib_tier buf) <$> bb_extents b) as Ea by by rewrite Ej.
  rewrite <-Ea in Hes, Hseq, Hfr.
  set (ix := st_idx s) in *. set (h := Some (flush_hook inode (fj_end j) (fj_mtime j))).
  assert (forall r ix', r <> Panic -> ix_seqGen ix' < 2^62 ->
    (r = Ok tt -> sets_clean ix' /\ node_bumped inode (fj_end j) (fj_mtime j) (contents (ix_db ix)) (contents (ix_db ix'))) ->
    idled ix ix' inode (numbers (fj_ae j)) /\ r <> Ok tt \/
      wrote ix ix' inode h (numbers (fj_ae j)) (overlay_all (content ix inode) (fj_ae j)) ->
    Q r (with_idx ix' s)) as Hdone.
  { intros r ix' Hr Hq' Hbump Hw.
    assert (index_ok ix') as Hok' by (by destruct Hw as [[[(? & _) _] _]|[(? & _) _]]).
    assert (forall i, in_u64 i -> i <> inode -> same_file ix ix' i) as Hsame.
    { intros i Hi' Hne. destruct Hw as [[Hw _]|Hw]; [by eapply idled_same|by eapply wrote_other]. }
    apply HQ; [done| |done|exact Hbump|].
    - intros i x Hi'. unfold live, buffered. cbn [with_idx st_co st_idx]. rewrite Hc.
      destruct (decide (i = inode)) as [->|Hne]; [|apply shadow_ext; fold ix; by apply (Hsame i Hi' Hne)].
      rewrite Hb. unfold buf_exts. rewrite Hf. cbn [batch_exts]. apply shadow_appended.
      destruct Hw as [[[(_ & _ & E) _] _]|[(_ & _ & E & _) _]]; [left; by apply E|right].
      by rewrite E, Ea, <-shadow_overlay_all.
    - intros Hcl'. split_and!; [done..|]. exists c. split_and!; [done| |done].
      destruct Hco as [K1 K2 K3]. split; [| |done].
      + intros i bi Hl. destruct (K1 i bi Hl) as [Hi' Hbi]. split; [done|].
        destruct (decide (i = inode)) as [->|Hne].
        * rewrite lookup_insert_eq. rewrite Hb in Hl. injection Hl as <-. by eapply buf_ok_appended.
        * rewrite lookup_insert_ne by done. eapply buf_ok_same; [by apply Hsame|done].
      + intros i p. destruct (decide (i = inode)) as [->|Hne]; [by eauto|].
        rewrite lookup_insert_ne by done. apply K2. }
  unfold flush_append. rewrite Hj. apply wp_on_idx. fold ix.
  apply wp_AppendBatchCtx; [done..|apply flush_hook_ok| |].
  - intros ix' Hw Hcl' Hq'. apply Hdone; [done|lia| |by right]. intros _. split; [done|].
    destruct Hw as [(_ & Hh & _) _]. by apply hooked_bump.
  - intros e ix' Hw. apply Hdone; [done| |done|].
    + assert (ix_seqGen ix' = ix_seqGen ix) as -> by (by destruct Hw as [[_ (_ & ? & _)]|[_ (_ & ? & _)]]).
      done.
    + destruct Hw as [?|?]; [by left|by right].
Qed.

(** ** The settling *)

Lemma buf_ok_settled (ix : Index P S) inode buf b j r :
  buf_ok ix inode buf (Some (Appended j r)) -> ib_flushing buf = Some b ->
  buf_ok ix inode (settle_buf j r buf) None /\
  buf_exts (settle_buf j r buf) = batch_exts (ib_current buf) /\
  buf_chans (settle_buf j r buf) = batch_chans (ib_current buf).
Proof.
  intros [H1 H2 H3 H4 H5 H6 H7 H8 H9 HA] Hf.
  assert (ib_tier (settle_buf j r buf) = ib_tier buf /\ ib_current (settle_buf j r buf) = ib_current buf /\
          ib_flushing (settle_buf j r buf) = None) as (Et & Ec & Ef) by by destruct r.
  assert (buf_exts (settle_buf j r buf) = batch_exts (ib_current buf)) as Ex by by unfold buf_exts; rewrite Ec, Ef.
  unfold buf_exts in H2, H3, H4. rewrite Hf in H2, H3, H4. cbn [batch_exts] in *.
  apply Forall_app in H2 as [_ H2]. apply StronglySorted_app in H3 as (_ & _ & H3).
  split_and!; [|done|by unfold buf_chans; rewrite Ec, Ef]. split; rewrite ?Et, ?Ex, ?Ec, ?Ef; try done.
  - intros e He. apply H4, elem_of_app. by right.
  - intros g e Hg He. cbn [unflushed] in *. rewrite Ex in He. by apply H5.
  - intros b' e [Hb|Hb]; [|done]. apply H9. by left.
  - destruct HA as (? & ? & He & Ht).
    assert (ib_liveSize (settle_buf j r buf) = ib_liveSize buf /\ ib_liveMtime (settle_buf j r buf) = ib_liveMtime buf)
      as [El Em] by by destruct r.
    split_and!; rewrite ?El, ?Em, ?Ex, ?Ec, ?Ef; [done..| |].
    + intros e He'. apply He. unfold buf_exts. apply elem_of_app. by right.
    + intros b' [Hb|Hb]; [|done]. apply Ht. by left.
Qed.

Lemma wp_close_chan n s c (Q : outcome unit -> Store P S W -> Prop) :
  st_co s = Some c -> n ∉ co_closed c ->
  Q (Ok tt) (with_co (Some (with_closed ({[n]} ∪ co_closed c) c)) s) -> wp (close_chan n) Q s.
Proof.
  intros Hc Hn HQ. unfold close_chan. wp_step. apply (wp_co_get s c); [done|].
  rewrite bool_decide_eq_false_2 by done. by apply wp_co_put.
Qed.

(** Closing the channel of a batch that is gone. *)
Lemma chans_ok_close c n :
  chans_ok c -> (n < co_chans c)%nat ->
  (forall i buf, co_buffers c !! i = Some buf -> n ∉ buf_chans buf) ->
  chans_ok (with_closed ({[n]} ∪ co_closed c) c).
Proof.
  intros (H1 & H2 & H3) Hn Hfree. split_and!; [|done|].
  - intros i buf Hb. destruct (H1 i buf Hb) as [Hnd Hl]. split; [done|]. intros m Hm.
    destruct (Hl m Hm). split; [done|]. cbn. intros [->%elem_of_singleton|?]%elem_of_union; [|done].
    by apply (Hfree i buf).
  - cbn. intros m [->%elem_of_singleton|Hm]%elem_of_union; [done|by apply H3].
Qed.

Lemma wp_flush_settle inode j r s ph (Q : outcome unit -> Store P S W -> Prop) :
  store_ok s ph -> ph !! inode = Some (Appended j r) -> fj_inode j = inode ->
  (forall s', store_ok s' (delete inode ph) -> st_idx s' = st_idx s ->
     (r = Ok tt -> same_view s s') -> buffered s' inode = current_exts s inode ->
     (forall i, i <> inode -> buffered s' i = buffered s i) ->
     poison s' inode = match r with Err e => Err e | _ => poison s inode end ->
     (forall i, i <> inode -> poison s' i = poison s i) ->
     closed s' = list_to_set (batch_chans (batch_flushing s inode)) ∪ closed s ->
     Q (Ok tt) s') ->
  wp (flush_settle j r) Q s.
Proof.
  intros (Hok & Hcl & Hq & c & Hc & Hco & Hm) Hph Hj HQ.
  destruct (co_phases _ _ _ Hco _ _ Hph) as [buf Hb]. destruct (co_bufs _ _ _ Hco _ _ Hb) as [Hi Hbuf].
  rewrite Hph in Hbuf. pose proof (bo_phase _ _ _ _ Hbuf) as (b & Hf & Ej & Hr & _ & Habs).
  destruct (buf_ok_settled _ _ _ _ _ _ Hbuf Hf) as (Hbuf' & Hx & Hch'). set (buf' := settle_buf j r buf) in *.
  pose proof (co_channels _ _ _ Hco) as Hch. destruct Hch as (C1 & C2 & C3) eqn:EC.
  destruct (C1 _ _ Hb) as [Hnd Hlive].
  assert (buf_chans buf = bb_done b :: buf_chans buf') as Ebc by (rewrite Hch'; unfold buf_chans; by rewrite Hf).
  destruct (Hlive (bb_done b)) as [Hlt Hncl]; [rewrite Ebc; left|].
  rewrite Ebc in Hnd. apply NoDup_cons in Hnd as [Hnin Hnd].
  set (c1 := put_buf inode buf' c).
  assert (chans_ok c1) as Hc1.
  { apply (chans_ok_sub c inode buf); [done..|]. rewrite Ebc. intros n Hn. by right. }
  assert (forall i bi, co_buffers c1 !! i = Some bi -> bb_done b ∉ buf_chans bi) as Hgone.
  { intros i bi. cbn. destruct (decide (i = inode)) as [->|Hne].
    - rewrite lookup_insert_eq. by intros [= <-].
    - rewrite lookup_insert_ne by done. intros Hl. apply (C2 inode i buf bi); [done..|].
      rewrite Ebc. left. }
  set (c2 := with_closed ({[bb_done b]} ∪ co_closed c1) c1).
  assert (co_ok (st_idx s) c1 (delete inode ph)) as Hco1.
  { apply (co_ok_put _ c ph); [done|done|by rewrite lookup_delete_eq|by intros; apply lookup_delete_ne|done]. }
  assert (bb_bytes b <= exts_total (bb_extents b)) as Hbb by by apply (bo_flushing _ _ _ _ Hbuf).
  assert (mem_total (co_buffers c1) = mem_total (co_buffers c) - exts_total (bb_extents b)) as Emt.
  { cbn. rewrite (mem_total_replace _ _ _ _ Hb). unfold buf_total. rewrite Hx. unfold buf_exts.
    rewrite Hf, exts_total_app. cbn [batch_exts]. lia. }
  pose proof (mem_total_nonneg (co_buffers c1)). pose proof (exts_total_nonneg (bb_extents b)).
  unfold flush_settle. wp_step. apply (wp_co_get s c); [done|]. rewrite Hj, Hb, Hf. fold buf'.
  wp_step. apply wp_co_put. wp_step. fold c1. apply (wp_close_chan _ _ c1); [done|done|]. fold c2.
  apply (wp_release _ _ c2); [done|unfold mem_ok in Hm; cbn; lia|]. intros w Hcap Hh. apply HQ.
  - split_and!; [done..|]. exists (with_sem w c2). split_and!; [done| |].
    + destruct Hco1 as [K1 K2 _]. split; [done..|]. by apply (chans_ok_close c1).
    + unfold mem_ok in *. cbn in *. lia.
  - done.
  - intros E i x _. unfold live, buffered. rewrite Hc. cbn [with_co with_sem with_closed st_co st_idx c2 co_buffers].
    destruct (decide (i = inode)) as [->|Hne]; [|subst c2 c1; cbn; by rewrite lookup_insert_ne].
    subst c2 c1. cbn. rewrite lookup_insert_eq, Hb, Hx. unfold buf_exts. rewrite Hf, shadow_app.
    apply shadow_ext. cbn [batch_exts]. by rewrite Habs.
  - unfold buffered, current_exts. rewrite Hc, Hb. subst c2 c1. cbn. by rewrite lookup_insert_eq.
  - intros i Hne. unfold buffered. rewrite Hc. subst c2 c1. cbn. by rewrite lookup_insert_ne.
  - unfold poison, poison_of. rewrite Hc, Hb. subst c2 c1 buf'. cbn. rewrite lookup_insert_eq. by destruct r.
  - intros i Hne. unfold poison, poison_of. rewrite Hc. subst c2 c1. cbn. by rewrite lookup_insert_ne.
  - unfold closed, batch_flushing. rewrite Hc, Hb. subst c2 c1. cbn. rewrite Hf. cbn. set_solver.
Qed.
End Flush.
