(* ===== verification/LiveTrunc.v ===== *)
(** * Truncation and deletion of buffered files

    Clipping the buffer and truncating the engine cut the file, as its readers
    see it, at the new size; dropping the buffer and deleting the fragments
    empty it.  Both are stated for an inode with no flush in flight. *)

From S2P Require Import Prelude Keys Kv Fragment Plan Segment Layer Index IndexSpec IndexRead IndexAppend IndexMaint Node Coalescer LiveFile LiveWrite LiveFlush.

(** ** Clipping extents *)

Definition clip_ext (size : Z) (e : bufExtent) : option bufExtent :=
  if size <=? be_off e then None
  else if size <? be_off e + blen (be_data e) then
    Some (mkBufExtent (be_seq e) (be_off e) (slice (be_data e) 0 (size - be_off e)))
  else Some e.

Definition clip_list (size : Z) (es : list bufExtent) : list bufExtent := omap (clip_ext size) es.

Lemma clip_ext_total size e :
  0 <= match clip_ext size e with Some e' => blen (be_data e') | None => 0 end <= blen (be_data e).
Proof.
  unfold clip_ext. pose proof (blen_nonneg (be_data e)).
  destruct (Z.leb_spec size (be_off e)); [lia|].
  destruct (Z.ltb_spec size (be_off e + blen (be_data e))); [|lia].
  cbn. rewrite blen_slice; lia.
Qed.

Lemma exts_total_cons e es : exts_total (e :: es) = blen (be_data e) + exts_total es.
Proof. done. Qed.

Lemma clip_list_eq size e es :
  clip_list size (e :: es) =
    match clip_ext size e with Some e' => e' :: clip_list size es | None => clip_list size es end.
Proof. done. Qed.

Lemma clip_list_cons size e es :
  exts_total (clip_list size (e :: es)) =
    match clip_ext size e with Some e' => blen (be_data e') | None => 0 end + exts_total (clip_list size es).
Proof. rewrite clip_list_eq. by destruct (clip_ext size e). Qed.

Lemma clip_list_total size es : 0 <= exts_total (clip_list size es) <= exts_total es.
Proof.
  induction es as [|e es IH]; [done|]. rewrite clip_list_cons, exts_total_cons.
  pose proof (clip_ext_total size e). lia.
Qed.

(** The loop of [InvalidatePastSize]. *)
Lemma foldl_clip ss size es : forall kept freed mx,
  stripe_size_ok ss -> Forall (bext_ok ss) es -> 0 <= size < 2^63 -> 0 <= freed ->
  freed + exts_total es < 2^63 ->
  exists mx', mx <= mx' /\ (forall e, e ∈ clip_list size es -> be_off e + blen (be_data e) <= mx') /\
    foldl (clip_extent size) (kept, freed, mx) es =
    (kept ++ clip_list size es, freed + (exts_total es - exts_total (clip_list size es)), mx').
Proof.
  induction es as [|e es IH]; intros kept freed mx Hss Hf Hsz Hfr Hmax.
  { exists mx. split_and!; [done|by intros e ?%elem_of_nil|]. cbn. rewrite app_nil_r. f_equal. f_equal. lia. }
  apply Forall_cons in Hf as [(_ & Ho & _ & _ & Hu & Hend) Hf]. pose proof Hss as [Hss1 Hss2]. unfold in_u32 in Hu.
  rewrite exts_total_cons in Hmax. pose proof (exts_total_nonneg es). pose proof (blen_nonneg (be_data e)).
  assert (be_off e + blen (be_data e) < 2^63) as Hoe by nia.
  rewrite clip_list_cons, exts_total_cons, clip_list_eq. cbn [foldl].
  unfold clip_extent at 2, clip_ext, ext_end. rewrite (i64_id (be_off e + _)) by (unfold in_i64; lia).
  destruct (Z.leb_spec size (be_off e)) as [Hle|Hgt].
  - rewrite (i64_id (freed + _)) by (unfold in_i64; lia).
    destruct (IH kept (freed + blen (be_data e)) mx) as (mx' & Hm1 & Hm2 & ->); try done; try lia.
    exists mx'. split_and!; [done..|]. f_equal. f_equal. lia.
  - rewrite (i64_id (size - be_off e)) by (unfold in_i64; lia).
    destruct (Z.ltb_spec size (be_off e + blen (be_data e))) as [Hlt|Hge].
    + rewrite (i64_id (blen (be_data e) - _)) by (unfold in_i64; lia).
      rewrite (i64_id (freed + _)) by (unfold in_i64; lia).
      match goal with |- context [foldl (clip_extent size) (?k, ?f, ?m) es] =>
        destruct (IH k f m) as (mx' & Hm1 & Hm2 & ->) end; try done; try lia.
      rewrite (i64_id (be_off e + _)) in Hm1 by (unfold in_i64; lia).
      exists mx'. split; [lia|]. split.
      { intros a [->|Ha]%elem_of_cons; [|by apply Hm2]. cbn [be_off be_data]. rewrite blen_slice by lia. lia. }
      cbn [be_data]. rewrite <-app_assoc, blen_slice by lia.
      f_equal. f_equal. lia.
    + match goal with |- context [foldl (clip_extent size) (?k, ?f, ?m) es] =>
        destruct (IH k f m) as (mx' & Hm1 & Hm2 & ->) end; try done; try lia.
      exists mx'. split; [lia|]. split; [intros a [->|Ha]%elem_of_cons; [lia|by apply Hm2]|].
      rewrite <-app_assoc. f_equal. f_equal. lia.
Qed.

Lemma clip_ext_spec ss size e e' :
  bext_ok ss e -> clip_ext size e = Some e' ->
  bext_ok ss e' /\ be_seq e' = be_seq e /\ be_off e' = be_off e /\
  blen (be_data e') <= blen (be_data e) /\ be_off e' + blen (be_data e') <= size.
Proof.
  intros (H1 & H2 & H3 & H4 & H5 & H6). unfold clip_ext. pose proof (blen_nonneg (be_data e)).
  destruct (Z.leb_spec size (be_off e)) as [|Hgt]; [done|].
  destruct (Z.ltb_spec size (be_off e + blen (be_data e))); intros [= <-]; [|done].
  split; [|cbn; rewrite blen_slice by lia; split_and!; done || lia]. unfold bext_ok. cbn. rewrite blen_slice by lia. split_and!; try done; try lia.
  - intros E. apply (f_equal blen) in E. rewrite blen_slice in E by lia. change (blen (@nil Z)) with 0 in E. lia.
  - by apply bytes_ok_slice.
Qed.

Lemma elem_of_clip_list ss size es e' :
  Forall (bext_ok ss) es -> e' ∈ clip_list size es ->
  bext_ok ss e' /\ exists e, e ∈ es /\ be_seq e' = be_seq e /\
    be_off e' + blen (be_data e') <= be_off e + blen (be_data e) /\ be_off e' + blen (be_data e') <= size.
Proof.
  intros Hf (e & He & Hc)%list_elem_of_omap. rewrite Forall_forall in Hf.
  destruct (clip_ext_spec ss size e e' (Hf e He) Hc) as (? & ? & E & ? & ?).
  split; [done|]. exists e. rewrite E in *. split_and!; [done..|lia|lia].
Qed.

Lemma clip_list_sorted ss size es :
  Forall (bext_ok ss) es -> StronglySorted (fun a b => be_seq a < be_seq b) es ->
  StronglySorted (fun a b => be_seq a < be_seq b) (clip_list size es).
Proof.
  intros Hf Hs. induction Hs as [|e es Hs IH He]; [constructor|].
  apply Forall_cons in Hf as [Hb Hf]. rewrite clip_list_eq.
  destruct (clip_ext size e) as [e'|] eqn:E; [|by apply IH].
  constructor; [by apply IH|]. apply Forall_forall. intros a Ha.
  destruct (clip_ext_spec ss size e e' Hb E) as (_ & -> & _).
  destruct (elem_of_clip_list ss size es a Hf Ha) as (_ & a0 & Ha0 & -> & _).
  rewrite Forall_forall in He. by apply He.
Qed.

Lemma clip_list_app size a b : clip_list size (a ++ b) = clip_list size a ++ clip_list size b.
Proof. apply omap_app. Qed.

(** The file over a cut content is cut. *)
Lemma clip_ext_at size e x :
  match clip_ext size e with
  | Some e' => ext_at e' x = ext_at e x && (x <? size) /\
      (ext_at e' x = true -> byte_at (be_data e') (x - be_off e') = byte_at (be_data e) (x - be_off e))
  | None => ext_at e x && (x <? size) = false
  end.
Proof.
  unfold clip_ext, ext_at. pose proof (blen_nonneg (be_data e)).
  destruct (Z.leb_spec size (be_off e)) as [Hle|Hgt].
  { destruct (Z.leb_spec (be_off e) x), (Z.ltb_spec x size), (Z.ltb_spec x (be_off e + blen (be_data e)));
      cbn; done || lia. }
  destruct (Z.ltb_spec size (be_off e + blen (be_data e))) as [Hlt|Hge]; cbn [be_off be_data].
  - rewrite blen_slice by lia. split.
    + destruct (Z.leb_spec (be_off e) x), (Z.ltb_spec x size), (Z.ltb_spec x (be_off e + blen (be_data e))),
        (Z.ltb_spec x (be_off e + (size - be_off e - 0))); cbn; done || lia.
    + intros Hx. apply andb_true_iff in Hx as [Hx1%Z.leb_le Hx2%Z.ltb_lt].
      rewrite byte_at_slice by lia. done.
  - split; [|done].
    destruct (Z.leb_spec (be_off e) x), (Z.ltb_spec x size), (Z.ltb_spec x (be_off e + blen (be_data e)));
      cbn; done || lia.
Qed.

Lemma shadow_clip size c es x :
  shadow (cut_at size c) (clip_list size es) x = cut_at size (shadow c es) x.
Proof.
  induction es as [|e es IH] using rev_ind; [done|]. rewrite clip_list_app.
  assert (clip_list size [e] = match clip_ext size e with Some e' => [e'] | None => [] end) as ->
    by (unfold clip_list; cbn [omap list_omap]; by destruct (clip_ext size e)).
  pose proof (clip_ext_at size e x) as Hx.
  assert (cut_at size (shadow c (es ++ [e])) x =
    if ext_at e x && (x <? size) then byte_at (be_data e) (x - be_off e) else cut_at size (shadow c es) x) as ->.
  { unfold cut_at. rewrite shadow_snoc. by destruct (x <? size), (ext_at e x). }
  destruct (clip_ext size e) as [e'|].
  - destruct Hx as [<- Hx2]. rewrite shadow_snoc, IH. destruct (ext_at e' x); [by apply Hx2|done].
  - by rewrite Hx, app_nil_r.
Qed.

(** ** The operations *)

Section Trunc.
Context {P : Type} {PB : Pebble P} {PL : PebbleLaws P}.
Context {S : Type} {SL : SegLayer S} {SLL : SegLayerLaws S} {MR : MapRange}.
Context {W : Type} {SW : Semaphore W} {SWL : SemaphoreLaws W}.
Implicit Types s : Store P S W.
Implicit Types c : coalescer W.

Lemma no_flush (ix : Index P S) c ph inode buf :
  co_ok ix c ph -> co_buffers c !! inode = Some buf -> ph !! inode = None -> ib_flushing buf = None.
Proof. intros Hco Hb Hph. destruct (co_bufs _ _ _ Hco _ _ Hb) as [_ Hbuf]. pose proof (bo_phase _ _ _ _ Hbuf) as H. by rewrite Hph in H. Qed.

(** A batch after the clipping: its extents and bytes. *)
Lemma clip_batch_spec ss size b :
  stripe_size_ok ss -> Forall (bext_ok ss) (bb_extents b) -> 0 <= size < 2^63 ->
  bb_bytes b = exts_total (bb_extents b) -> exts_total (bb_extents b) < 2^63 ->
  (forall e, e ∈ bb_extents b -> be_off e + blen (be_data e) <= bb_maxEnd b) ->
  exists b', clip_batch size 0 (Some b) =
      (Some b', exts_total (bb_extents b) - exts_total (clip_list size (bb_extents b))) /\
    bb_extents b' = clip_list size (bb_extents b) /\ bb_bytes b' = exts_total (clip_list size (bb_extents b)) /\
    bb_done b' = bb_done b /\ bb_mtime b' = bb_mtime b /\
    Z.min (bb_maxEnd b) 0 <= bb_maxEnd b' <= bb_maxEnd b /\
    forall e, e ∈ bb_extents b' -> be_off e + blen (be_data e) <= bb_maxEnd b'.
Proof.
  intros Hss Hf Hsz Hb Hmax Hend. unfold clip_batch.
  destruct (foldl_clip ss size (bb_extents b) [] 0 0) as (mx & Hmx0 & Hmx & ->); [done|done|done|lia|lia|].
  eexists. split; [done|]. cbn [with_extents bb_extents bb_bytes bb_done bb_maxEnd app]. split_and!; [done| |done|done|lia|lia|].
  2: { intros e He. specialize (Hmx e He). destruct (elem_of_clip_list ss size _ e Hf He) as (_ & e0 & He0 & _ & Hle & _).
    specialize (Hend e0 He0). lia. }
  rewrite Hb. pose proof (clip_list_total size (bb_extents b)). rewrite i64_id by (unfold in_i64; lia). lia.
Qed.

Lemma buf_ok_clip (ix : Index P S) inode buf b b' size live :
  buf_ok ix inode buf None -> ib_current buf = Some b ->
  bb_extents b' = clip_list size (bb_extents b) -> bb_bytes b' = exts_total (clip_list size (bb_extents b)) ->
  (forall e, e ∈ bb_extents b' -> be_off e + blen (be_data e) <= bb_maxEnd b') ->
  Z.min (bb_maxEnd b) 0 <= bb_maxEnd b' <= bb_maxEnd b -> 0 <= size < 2^63 -> live = Z.min (ib_liveSize buf) size ->
  bb_mtime b' = bb_mtime b ->
  buf_ok ix inode (set_live live (ib_liveMtime buf) (set_batches (Some b') None buf)) None.
Proof.
  intros [H1 H2 H3 H4 H5 H6 H7 H8 H9 HA] Hb Hx Hbt Hend Hmx Hsz -> Hmt. cbn in H8.
  assert (buf_exts buf = bb_extents b) as E by (unfold buf_exts; by rewrite H8, Hb).
  cbn [unflushed] in H5. rewrite E in *.
  split; try (unfold buf_exts; cbn; rewrite ?Hx); try done.
  - apply Forall_forall. intros e He. by apply (elem_of_clip_list _ size (bb_extents b)).
  - by apply (clip_list_sorted (ix_stripeSize ix)).
  - intros e He. destruct (elem_of_clip_list _ _ _ _ H2 He) as (_ & e0 & He0 & -> & _). by apply H4.
  - intros g e Hg He. destruct (elem_of_clip_list _ _ _ _ H2 He) as (_ & e0 & He0 & -> & _). by apply H5.
  - intros b0 [= <-]. by rewrite Hbt, Hx.
  - intros b0 e [[= <-]|?]; [by apply Hend|done].
  - destruct HA as (HA1 & HA2 & HA3 & HA4). split_and!; cbn; [unfold in_i64 in *; lia|done| |].
    + unfold buf_exts. cbn. rewrite Hx. intros e He.
      destruct (elem_of_clip_list _ _ _ _ H2 He) as (_ & e0 & He0 & _ & Hle & Hle').
      rewrite E in HA3. specialize (HA3 e0 He0). lia.
    + intros b0 [[= <-]|?]; [|done]. destruct (HA4 b) as [Hm1 Hm2]; [by left|].
      split; [unfold in_i64 in *; lia|by rewrite Hmt].
Qed.

(** The live size is clipped, the rest of the attributes is as before. *)
Definition attrs_clipped s s' (inode size : Z) : Prop :=
  (forall i, i <> inode -> live_attrs i s' = live_attrs i s) /\
  live_attrs inode s' = (fun a : Z * Z => (Z.min a.1 size, a.2)) <$> live_attrs inode s.

Lemma wp_InvalidatePastSize inode size s ph (Q : outcome unit -> Store P S W -> Prop) :
  store_ok s ph -> ph !! inode = None -> 0 <= size < 2^63 ->
  (forall s', store_ok s' ph -> st_idx s' = st_idx s ->
     buffered s' inode = clip_list size (buffered s inode) ->
     (forall i, i <> inode -> buffered s' i = buffered s i) -> attrs_clipped s s' inode size ->
     st_clock s' = st_clock s -> (forall i, poison s' i = poison s i) -> Q (Ok tt) s') ->
  wp (InvalidatePastSize inode size) Q s.
Proof.
  intros Hst Hph Hsz HQ. pose proof Hst as (Hok & Hcl & Hq & c & Hc & Hco & Hm).
  unfold InvalidatePastSize. wp_step. apply (wp_co_get s c); [done|].
  destruct (co_buffers c !! inode) as [buf|] eqn:Hb.
  2: { wp_step. apply HQ; try done; [unfold buffered; by rewrite Hc, Hb|].
    split; [done|]. unfold live_attrs, LiveAttrs. by rewrite Hc, Hb. }
  destruct (co_bufs _ _ _ Hco _ _ Hb) as [Hi Hbuf]. rewrite Hph in Hbuf.
  pose proof (no_flush _ _ _ _ _ Hco Hb Hph) as Hf. rewrite Hf.
  set (clipped := fun cur => set_live (Z.min (ib_liveSize buf) size) (ib_liveMtime buf) (set_batches cur None buf)).
  assert (forall w cur, buf_ok (st_idx s) inode (clipped cur) None ->
    batch_chans cur = batch_chans (ib_current buf) -> batch_exts cur = clip_list size (batch_exts (ib_current buf)) ->
    sem_cap w = sem_cap (co_sem c) ->
    sem_held w = sem_held (co_sem c) - (exts_total (batch_exts (ib_current buf)) - exts_total (batch_exts cur)) ->
    Q (Ok tt) (with_co (Some (with_sem w (put_buf inode (clipped cur) c))) s)) as Hdone.
  { intros w cur Hbuf' Hch Hx Hcap Hh. pose proof (clip_list_total size (batch_exts (ib_current buf))). apply HQ; [|done| | | |done|].
    - assert (buf_exts buf = batch_exts (ib_current buf)) as Ex by (unfold buf_exts; by rewrite Hf).
      assert (buf_exts (clipped cur) = batch_exts cur) as Ex' by done.
      eapply (store_ok_put s _ ph c w inode buf); try done; unfold buf_total; rewrite ?Ex, ?Ex', ?Hx;
        [by rewrite Hph|unfold buf_chans; cbn; by rewrite Hf|lia|by rewrite Hh, Hx].
    - unfold buffered. rewrite Hc, Hb. cbn. rewrite lookup_insert_eq. unfold buf_exts. cbn. by rewrite Hf.
    - intros i Hne. unfold buffered. rewrite Hc. cbn. by rewrite lookup_insert_ne.
    - unfold attrs_clipped, live_attrs, LiveAttrs. rewrite Hc. cbn. split.
      + intros i Hne. by rewrite lookup_insert_ne.
      + by rewrite lookup_insert_eq, Hb.
    - intros i. unfold poison, poison_of. rewrite Hc. cbn. destruct (decide (i = inode)) as [->|Hne];
        [by rewrite lookup_insert_eq, Hb|by rewrite lookup_insert_ne]. }
  destruct (ib_current buf) as [b|] eqn:Hcur.
  - cbn [batch_exts] in *. pose proof (bo_exts _ _ _ _ Hbuf) as Hx. unfold buf_exts in Hx. rewrite Hf, Hcur in Hx.
    assert (exts_total (bb_extents b) <= mem_total (co_buffers c)) as Hle.
    { rewrite (mem_total_delete _ _ _ Hb). unfold buf_total, buf_exts. rewrite Hf, Hcur. cbn [batch_exts app].
      pose proof (mem_total_nonneg (delete inode (co_buffers c))). lia. }
    assert (exts_total (bb_extents b) < 2^63) as Hmax by (unfold mem_ok in Hm; lia).
    pose proof Hok as (_ & Hss & _).
    destruct (clip_batch_spec (ix_stripeSize (st_idx s)) size b) as (b' & -> & E1 & E2 & E3 & E5 & E6 & E4); try done;
      [by apply (bo_current _ _ _ _ Hbuf)|by intros e; apply (bo_end _ _ _ _ Hbuf b); left|].
    pose proof (clip_list_total size (bb_extents b)).
    cbn [clip_batch]. wp_step. apply wp_co_put. fold (clipped (Some b')).
    assert (buf_ok (st_idx s) inode (clipped (Some b')) None) as Hbuf' by by eapply buf_ok_clip.
    assert (batch_chans (Some b') = batch_chans (Some b)) as Ech by (cbn; by rewrite E3).
    destruct (Z.ltb_spec 0 (exts_total (bb_extents b) - exts_total (clip_list size (bb_extents b)))).
    + eapply wp_release; [done|unfold mem_ok in Hm; cbn; lia|]. intros w Hcap Hh.
      apply Hdone; try done. cbn. by rewrite E1.
    + wp_step. apply (Hdone (co_sem c)); try done. cbn [batch_exts]. rewrite E1. lia.
  - cbn [clip_batch]. wp_step. apply wp_co_put. cbn [Z.ltb Z.compare]. wp_step.
    apply (Hdone (co_sem c) None); try done; [|cbn; lia].
    destruct (bo_attrs _ _ _ _ Hbuf) as (? & ? & _). apply buf_ok_none; cbn; try done; [by apply (bo_tier _ _ _ _ Hbuf)|unfold in_i64 in *; lia].
Qed.

(** The buffer is gone, and with it what it held. *)
Lemma wp_Drop inode s ph (Q : outcome unit -> Store P S W -> Prop) :
  store_ok s ph -> ph !! inode = None ->
  (forall s', store_ok s' ph -> st_idx s' = st_idx s -> buffered s' inode = [] ->
     (forall i, i <> inode -> buffered s' i = buffered s i) -> (forall i, i <> inode -> poison s' i = poison s i) ->
     Q (Ok tt) s') ->
  wp (Drop inode) Q s.
Proof.
  intros Hst Hph HQ. pose proof Hst as (Hok & Hcl & Hq & c & Hc & Hco & Hm).
  unfold Drop. wp_step. apply (wp_co_get s c); [done|].
  destruct (co_buffers c !! inode) as [buf|] eqn:Hb.
  2: { wp_step. apply HQ; try done. unfold buffered. by rewrite Hc, Hb. }
  rewrite (no_flush _ _ _ _ _ Hco Hb Hph). pose proof (no_flush _ _ _ _ _ Hco Hb Hph) as Hf.
  destruct (co_bufs _ _ _ Hco _ _ Hb) as [Hi Hbuf].
  set (freed := match ib_current buf with Some b => bb_bytes b | None => 0 end).
  assert (freed = buf_total buf) as Efr.
  { unfold freed, buf_total, buf_exts. rewrite Hf. destruct (ib_current buf) as [b|] eqn:E; [|done].
    by apply (bo_current _ _ _ _ Hbuf). }
  assert (mem_total (co_buffers c) = freed + mem_total (delete inode (co_buffers c))) as Emt
    by (rewrite Efr; by apply mem_total_delete).
  pose proof (mem_total_nonneg (delete inode (co_buffers c))). destruct Hco as [K1 K2 (C1 & C2 & C3)].
  assert (forall w cl, sem_cap w = sem_cap (co_sem c) -> sem_held w = sem_held (co_sem c) - freed ->
    (cl = co_closed c \/ exists b, ib_current buf = Some b /\ cl = {[bb_done b]} ∪ co_closed c) ->
    Q (Ok tt) (with_co (Some (mkCoalescer (co_opts c) w (delete inode (co_buffers c)) (co_queue c) (co_closing c) (co_chans c) cl)) s)) as Hdone.
  { intros w cl Hcap Hh Hcl'. apply HQ; [|done| | |].
    - split_and!; [done..|]. eexists. split_and!; [done| |unfold mem_ok in *; cbn; pose proof (exts_total_nonneg (buf_exts buf)); unfold buf_total in *; lia].
      split; cbn.
      + intros i bi [Hne Hl]%lookup_delete_Some. by apply K1.
      + intros i p Hp. destruct (K2 i p Hp) as [bi Hl]. exists bi. apply lookup_delete_Some. split; [congruence|done].
      + split_and!; cbn.
        * intros i bi [Hne Hl]%lookup_delete_Some. destruct (C1 i bi Hl) as [Hnd Hn]. split; [done|].
          intros n Hn'. destruct (Hn n Hn'). split; [done|]. destruct Hcl' as [->|(b & Hcur & ->)]; [done|].
          intros [->%elem_of_singleton|?]%elem_of_union; [|done].
          apply (C2 inode i buf bi (bb_done b)); [done..| |done]. rewrite (buf_chans_current buf b) by done. set_solver.
        * intros i j bi bj n Hij [_ Hi']%lookup_delete_Some [_ Hj']%lookup_delete_Some. by apply (C2 i j bi bj).
        * intros n Hn. destruct Hcl' as [->|(b & Hcur & ->)]; [by apply C3|].
          apply elem_of_union in Hn as [->%elem_of_singleton|Hn]; [|by apply C3].
          apply (C1 inode buf Hb). rewrite (buf_chans_current buf b) by done. set_solver.
    - unfold buffered. cbn. by rewrite lookup_delete_eq.
    - intros i Hne. unfold buffered. rewrite Hc. cbn. by rewrite lookup_delete_ne.
    - intros i Hne. unfold poison, poison_of. rewrite Hc. cbn. by rewrite lookup_delete_ne. }
  wp_step.
  apply (wp_mono _ (fun r s1 => r = Ok tt /\ exists cl, s1 = with_co (Some (with_closed cl c)) s /\
    (cl = co_closed c \/ exists b, ib_current buf = Some b /\ cl = {[bb_done b]} ∪ co_closed c))).
  { destruct (ib_current buf) as [b|] eqn:Hcur.
    - apply (wp_close_chan _ _ c); [done| |].
      + apply (C1 inode buf Hb). rewrite (buf_chans_current buf b) by done. set_solver.
      + split; [done|]. eexists. split; [done|]. right. by exists b.
    - wp_step. split; [done|]. exists (co_closed c). split; [|by left]. destruct s; cbn in *. subst. by destruct c. }
  intros r s1 (-> & cl & -> & Hcl'). wp_step. eapply wp_co_get; [done|]. wp_step. apply wp_co_put.
  destruct (Z.ltb_spec 0 freed).
  - wp_step. eapply wp_release; [done|unfold mem_ok in Hm; cbn; lia|]. intros w Hcap Hh. wp_step.
    eapply wp_co_get; [done|]. apply wp_co_put. cbn. rewrite delete_insert_eq. by apply Hdone.
  - wp_step. wp_step. wp_step. eapply wp_co_get; [done|]. apply wp_co_put. cbn. rewrite delete_insert_eq.
    apply (Hdone (co_sem c)); [done| |done]. pose proof (exts_total_nonneg (buf_exts buf)). unfold buf_total in *. lia.
Qed.
End Trunc.
