(* ===== verification/StoreSpec.v ===== *)
(** * Metadata operations and file contents

    Reads of the database change nothing; a commit of node and directory
    entries changes no byte of any file; [Setattr] cuts a file that shrinks
    and nothing else; freeing an inode empties it. *)

From S2P Require Import Prelude Keys Kv Fragment Plan Segment Layer Index IndexSpec IndexRead IndexAppend IndexMaint Node Coalescer Store LiveFile LiveWrite LiveFlush LiveTrunc.

Section Meta.
Context {P : Type} {PB : Pebble P} {PL : PebbleLaws P}.
Context {S : Type} {SL : SegLayer S} {SLL : SegLayerLaws S} {MR : MapRange}.
Context {W : Type} {SW : Semaphore W} {SWL : SemaphoreLaws W}.
Implicit Types s : Store P S W.

(** The database of the store, as a map. *)
Definition disk s : gmap bytes bytes := contents (ix_db (st_idx s)).

Lemma with_idx_id s : with_idx (st_idx s) s = s.
Proof. by destruct s. Qed.

Lemma wp_db {A} (m : M P A) (Q : outcome A -> Store P S W -> Prop) s :
  wp m (fun r p => Q r (with_idx (with_db p (st_idx s)) s)) (ix_db (st_idx s)) -> wp (db m) Q s.
Proof. intros Hm. by apply wp_on_idx, wp_on_db. Qed.

Lemma wp_db_get k (Q : outcome (option bytes) -> Store P S W -> Prop) s :
  Q (Ok (disk s !! k)) s -> (forall e, Q (Err e) s) -> wp (db (DB_Get k)) Q s.
Proof. intros HO HE. apply wp_db, wp_DB_Get; rewrite with_db_id, with_idx_id; [done|apply HE]. Qed.

Lemma wp_Stat inode (Q : outcome Node -> Store P S W -> Prop) s :
  (disk s !! NodeKey inode = None -> Q (Err ErrNotExist) s) ->
  (forall v n, disk s !! NodeKey inode = Some v -> decodeNode v = Ok n ->
     Q (Ok (merge_live (live_attrs inode s) n)) s) ->
  (forall e, Q (Err e) s) -> wp (Stat inode) Q s.
Proof.
  intros HN HO HE. unfold Stat. wp_step. apply wp_db_get; [|done].
  destruct (disk s !! NodeKey inode) as [v|] eqn:E; [|by wp_step; apply HN].
  wp_step. pose proof (decodeNode_no_panic v). destruct (decodeNode v) as [n|e|] eqn:En; [|by wp_step..].
  wp_step. wp_step. wp_step. wp_step. by eapply HO.
Qed.

(** Nothing but the keys outside the stripes has changed. *)
Definition meta_step s s' : Prop :=
  st_co s' = st_co s /\ ix_seqGen (st_idx s') = ix_seqGen (st_idx s) /\
  ix_stripeSize (st_idx s') = ix_stripeSize (st_idx s) /\
  ix_hot (st_idx s') = ix_hot (st_idx s) /\ ix_cold (st_idx s') = ix_cold (st_idx s) /\
  (forall k v, disk s' !! k = Some v -> bytes_ok k \/ disk s !! k = Some v) /\
  forall k, has_prefix StripeAllPrefix k -> disk s' !! k = disk s !! k.

Lemma frag_in_same_scan (m m' : gmap bytes bytes) i f :
  (forall k, has_prefix StripeAllPrefix k -> m' !! k = m !! k) -> frag_in m' i f -> frag_in m i f.
Proof.
  intros E (Ht & st & Hst & Hl). split; [done|]. exists st. split; [done|].
  rewrite <-E; [done|apply prefix_StripeAll_FragmentKey].
Qed.

Lemma meta_step_index s s' :
  index_ok (st_idx s) -> meta_step s s' ->
  index_ok (st_idx s') /\ forall i, in_u64 i -> same_file (st_idx s) (st_idx s') i.
Proof.
  intros Hok (_ & Hq & Hss & Hh & Hc & Hb & Hk). pose proof Hok as (Hs & Hst & Hu & Hd & Hr).
  assert (forall i f, frag_in (disk s') i f <-> frag_in (disk s) i f) as Hfr.
  { intros i f. split; apply frag_in_same_scan; [done|]. intros k Hp. by rewrite Hk. }
  assert (forall c, set_of c (st_idx s') = set_of c (st_idx s)) as Hsets by (by intros []).
  assert (index_ok (st_idx s')) as Hok'.
  { split_and!; [|by rewrite Hss|by rewrite Hq| |].
    - destruct Hs. split; [by rewrite Hh|by rewrite Hc].
    - split; [intros k v Hl; destruct (Hb k v Hl); [done|by eapply (proj1 Hd)]|].
      intros k v Hl Hp. rewrite Hss. apply (proj2 Hd); [|done]. fold (disk s). by rewrite <-Hk.
    - intros i f Hi Hf. apply Hfr in Hf. destruct (Hr i f Hi Hf) as [(d & Hl & Hle) Hle'].
      split; [|by rewrite Hq]. exists d. unfold tier_data, tier_durable in *. by rewrite Hsets. }
  split; [done|]. intros i Hi. split_and!; [done|lia| |].
  - intros f Hf. exists f. split; [by apply Hfr|done].
  - intros x. apply content_same_frags; [done..| |intros f; apply Hfr].
    split; [done|]. intros c. rewrite Hsets. split; [|lia]. intros id d Hl. exists []. by rewrite app_nil_r.
Qed.

Lemma meta_step_ok s s' ph : store_ok s ph -> meta_step s s' -> store_ok s' ph /\ same_view s s'.
Proof.
  intros (Hok & Hcl & Hq & c & Hc & Hco & Hm) Hms.
  destruct (meta_step_index s s' Hok Hms) as [Hok' Hsame]. destruct Hms as (Ec & Eq & _ & Eh & Ecl & _).
  split.
  - split_and!; [done|destruct Hcl; split; [by rewrite Eh|by rewrite Ecl]|by rewrite Eq|].
    exists c. split_and!; [by rewrite Ec| |done]. by eapply co_ok_same.
  - intros i x Hi. apply live_eq; [by apply Hsame|]. unfold buffered. by rewrite Ec.
Qed.

#[global] Instance meta_step_preorder : PreOrder meta_step.
Proof.
  split.
  - intros s. split_and!; eauto.
  - intros a b d (A1 & A2 & A3 & A4 & A5 & A6 & A7) (B1 & B2 & B3 & B4 & B5 & B6 & B7).
    split_and!; try congruence.
    + intros k v Hl. destruct (B6 k v Hl) as [?|?]; [by left|by apply A6].
    + intros k Hp. by rewrite B7, A7.
Qed.

Lemma meta_step_clock s f : meta_step s (mkStore (st_idx s) (st_co s) f).
Proof. split_and!; eauto. Qed.

Lemma apply_foreign_keys (ops : list wop) (m : gmap bytes bytes) k v :
  Forall foreign_op ops -> apply_ops ops m !! k = Some v -> bytes_ok k \/ m !! k = Some v.
Proof.
  revert m. induction ops as [|o ops IH]; intros m Hf Hl; [by right|].
  apply Forall_cons in Hf as [[_ Ho] Hf]. destruct (IH _ Hf Hl) as [?|Hl']; [by left|].
  destruct (decide (op_key o = k)) as [<-|Hne]; [by left|]. right. by rewrite apply_op_ne in Hl'.
Qed.

(** A commit of metadata: what it writes is there, no file changes. *)
Lemma wp_commit ops (Q : outcome unit -> Store P S W -> Prop) s :
  Forall foreign_op ops ->
  (forall s', meta_step s s' -> disk s' = apply_ops ops (disk s) -> st_clock s' = st_clock s -> Q (Ok tt) s') ->
  (forall e s', meta_step s s' -> disk s' = disk s \/ disk s' = apply_ops ops (disk s) -> Q (Err e) s') ->
  wp (commit ops) Q s.
Proof.
  intros Hf HO HE. unfold commit. apply wp_db.
  assert (forall p, contents p = disk s \/ contents p = apply_ops ops (disk s) ->
    meta_step s (with_idx (with_db p (st_idx s)) s)) as Hms.
  { intros p Hp. split_and!; try done.
    - intros k v. unfold disk at 1. cbn [with_idx with_db st_idx ix_db].
      destruct Hp as [->| ->]; [by right|by apply apply_foreign_keys].
    - intros k Hk. unfold disk at 1. cbn [with_idx with_db st_idx ix_db].
      destruct Hp as [->| ->]; [done|by apply apply_foreign]. }
  apply wp_queue_commit.
  - intros p Hp. apply HO; [by apply Hms; right|done|done].
  - intros e p Hp. by apply HE; [apply Hms|].
Qed.

Lemma node_set_foreign i v : foreign_op (WSet (NodeKey i) v).
Proof. split; [apply NodeKey_foreign|apply NodeKey_ok]. Qed.
Lemma node_delete_foreign i : foreign_op (WDelete (NodeKey i)).
Proof. split; [apply NodeKey_foreign|apply NodeKey_ok]. Qed.
Lemma dirent_set_foreign i n v : bytes_ok n -> foreign_op (WSet (DirentKey i n) v).
Proof. intros Hn. split; [by intros ?%has_prefix_tag|by apply DirentKey_ok]. Qed.
Lemma dirent_delete_foreign i n : bytes_ok n -> foreign_op (WDelete (DirentKey i n)).
Proof. intros Hn. split; [by intros ?%has_prefix_tag|by apply DirentKey_ok]. Qed.
Lemma counter_foreign v : foreign_op (WSet StoreNextInodeKey v).
Proof. split; [by intros ?%has_prefix_tag|]. by repeat constructor. Qed.

(** ** Truncation and deletion through the API *)

(** The engine cut the file and nothing else. *)
Lemma engine_cut s s1 ix' ph inode fc :
  store_ok s1 ph -> in_u64 inode -> st_idx s1 = st_idx s ->
  (forall i, i <> inode -> buffered s1 i = buffered s i) -> ph !! inode = None -> sets_clean ix' ->
  wrote (st_idx s) ix' inode None (numbers []) fc ->
  store_ok (with_idx ix' s1) ph /\
  view_becomes s (with_idx ix' s1) inode (shadow fc (buffered s1 inode)).
Proof.
  intros (Hok & Hcl & Hq & c & Hc & Hco & Hm) Hi Hix Hoth Hph Hcl' Hw. rewrite Hix in *.
  pose proof Hw as [(Hok' & _ & Hfc & _) (Hss & Hsq & Hn)]. split.
  - split_and!; [done|done|cbn; lia|]. exists c. split_and!; [done| |done].
    destruct Hco as [K1 K2 K3]. split; [|done..]. intros i buf Hb. destruct (K1 i buf Hb) as [Hi' Hbuf].
    split; [done|]. destruct (decide (i = inode)) as [->|Hne].
    + rewrite Hph in *. change (st_idx (with_idx ix' s1)) with ix'.
      destruct Hbuf as [H1 H2 H3 H4 H5 H6 H7 H8 H9 HA]. split; rewrite ?Hss, ?Hsq; try done.
      intros g e Hg He. destruct (Hn inode g Hi Hg) as [(g' & Hg' & <-)|[_ (? & ?%elem_of_nil & _)]]; [by apply H5|done].
    + eapply buf_ok_same; [by eapply wrote_other|done].
  - split.
    + intros x. unfold live. cbn [with_idx st_idx]. apply shadow_ext. by rewrite Hfc.
    + intros i x Hi' Hne. apply live_eq; [by apply (wrote_other _ _ _ _ _ _ _ Hw)|]. by rewrite <-Hoth.
Qed.

(** The engine did nothing. *)
Lemma engine_idle s s1 p ph inode :
  store_ok s1 ph -> st_idx s1 = st_idx s -> idled (st_idx s) (with_db p (st_idx s)) inode (numbers []) ->
  store_ok (with_idx (with_db p (st_idx s)) s1) ph.
Proof.
  intros (Hok & Hcl & Hq & c & Hc & Hco & Hm) Hix Hid. rewrite Hix in *.
  pose proof Hid as [(Hok' & _) _]. split_and!; [done..|]. exists c. split_and!; [done| |done].
  eapply co_ok_same; [|done]. intros i Hi. by eapply idled_same.
Qed.

Lemma wp_cut inode size s ph (Q : outcome unit -> Store P S W -> Prop) :
  store_ok s ph -> ph !! inode = None -> in_u64 inode -> 0 <= size < 2^63 ->
  (forall s', store_ok s' ph -> view_becomes s s' inode (cut_at size (live s inode)) -> attrs_clipped s s' inode size ->
     st_clock s' = st_clock s -> (forall k, ~ has_prefix StripeAllPrefix k -> disk s' !! k = disk s !! k) ->
     (forall i, poison s' i = poison s i) -> Q (Ok tt) s') ->
  (forall e s', store_ok s' ph -> (forall i x, in_u64 i -> i <> inode -> live s' i x = live s i x) ->
     (forall k, ~ has_prefix StripeAllPrefix k -> disk s' !! k = disk s !! k) ->
     (forall i, poison s' i = poison s i) -> Q (Err e) s') ->
  wp (let* _ := InvalidatePastSize inode size in on_idx (Truncate inode size)) Q s.
Proof.
  intros Hst Hph Hi Hsz HO HE. pose proof Hst as (Hok & Hcl & _). wp_step.
  apply (wp_InvalidatePastSize inode size s ph); [done..|]. intros s1 Hst1 Hix Hbuf Hoth Hat Hclk Hpo.
  apply wp_on_idx. rewrite Hix. apply wp_Truncate; [done|done|unfold in_i64; lia| |].
  - intros p Hw. destruct (engine_cut s s1 (with_db p (st_idx s)) ph inode _ Hst1 Hi Hix Hoth Hph Hcl Hw)
      as [H1 [H2 H3]]. apply HO; [done| |done|done| |done].
    + split; [|done]. intros x. rewrite H2, Hbuf. apply shadow_clip.
    + destruct Hw as [(_ & (hops & -> & Hk) & _) _]. exact Hk.
  - intros e p [Hid|Hw].
    + pose proof Hid as [(_ & Hd & Hc) _]. apply HE; [by eapply engine_idle| | |done].
      * intros i x Hi' Hne. apply live_eq; [by apply Hc|by apply Hoth].
      * intros k _. unfold disk. cbn [with_idx st_idx]. by rewrite Hd.
    + destruct (engine_cut s s1 (with_db p (st_idx s)) ph inode _ Hst1 Hi Hix Hoth Hph Hcl Hw) as [H1 [H2 H3]].
      apply HE; [done|done| |done]. destruct Hw as [(_ & (hops & -> & Hk) & _) _]. exact Hk.
Qed.

Lemma wp_free_inode inode s ph (Q : outcome unit -> Store P S W -> Prop) :
  store_ok s ph -> ph !! inode = None -> in_u64 inode ->
  (forall s', store_ok s' ph -> view_becomes s s' inode (fun _ => None) ->
     (forall k, ~ has_prefix StripeAllPrefix k -> disk s' !! k = disk s !! k) ->
     (forall i, i <> inode -> poison s' i = poison s i) -> Q (Ok tt) s') ->
  (forall e s', store_ok s' ph -> (forall i x, in_u64 i -> i <> inode -> live s' i x = live s i x) ->
     (forall k, ~ has_prefix StripeAllPrefix k -> disk s' !! k = disk s !! k) ->
     (forall i, i <> inode -> poison s' i = poison s i) -> Q (Err e) s') ->
  wp (free_inode inode) Q s.
Proof.
  intros Hst Hph Hi HO HE. pose proof Hst as (Hok & Hcl & _ & c & Hc & _). unfold free_inode.
  wp_step. wp_step. rewrite Hc. wp_step. apply (wp_Drop inode s ph); [done..|].
  intros s1 Hst1 Hix Hbuf Hoth Hpo. apply wp_on_idx. rewrite Hix. apply wp_DeleteInode; [done|done| |].
  - intros p Hw. destruct (engine_cut s s1 (with_db p (st_idx s)) ph inode _ Hst1 Hi Hix Hoth Hph Hcl Hw)
      as [H1 [H2 H3]]. apply HO; [done| | |done].
    + split; [|done]. intros x. by rewrite H2, Hbuf.
    + destruct Hw as [(_ & (hops & -> & Hk) & _) _]. exact Hk.
  - intros e p [Hid|Hw].
    + pose proof Hid as [(_ & Hd & Hc') _]. apply HE; [by eapply engine_idle| | |done].
      * intros i x Hi' Hne. apply live_eq; [by apply Hc'|by apply Hoth].
      * intros k _. unfold disk. cbn [with_idx st_idx]. by rewrite Hd.
    + destruct (engine_cut s s1 (with_db p (st_idx s)) ph inode _ Hst1 Hi Hix Hoth Hph Hcl Hw) as [H1 [H2 H3]].
      apply HE; [done|done| |done]. destruct Hw as [(_ & (hops & -> & Hk) & _) _]. exact Hk.
Qed.
End Meta.
