(* ===== verification/LiveRead.v ===== *)
(** * Reading an open file

    A read that succeeds returns the file as its readers see it: buffered
    bytes where there are any, the content of the engine elsewhere, zeros in
    holes, clipped at the size.  While a flush is between its commit and its end
    the engine and the buffer both hold its batch, under the same numbers: a
    slice may come from either, and they agree.  A read that starts inside an
    extent that is only buffered never succeeds. *)

From S2P Require Import Prelude Keys Kv Fragment Plan Segment Layer Index IndexSpec IndexRead IndexAppend Node Coalescer Store Handle LiveFile LiveFlush StoreSpec.

(** ** Buffers of bytes *)

Lemma byte_at_zreplicate {A} n (x : A) i : 0 <= i < n -> byte_at (zreplicate n x) i = Some x.
Proof.
  intros. unfold byte_at, zreplicate. rewrite decide_True by lia. apply lookup_replicate_2. lia.
Qed.

Lemma blen_put_at p lo data :
  0 <= lo -> lo + blen data <= blen p -> blen (put_at p lo data) = blen p.
Proof.
  intros. pose proof (blen_nonneg data). unfold put_at. rewrite !blen_app, !blen_slice by lia. lia.
Qed.

Lemma byte_at_put_at p lo data i :
  0 <= lo -> lo + blen data <= blen p -> 0 <= i ->
  byte_at (put_at p lo data) i =
    if (lo <=? i) && (i <? lo + blen data) then byte_at data (i - lo) else byte_at p i.
Proof.
  intros Hlo Hle Hi. pose proof (blen_nonneg data). unfold put_at.
  assert (blen (slice p 0 lo) = lo) as Hl by (rewrite blen_slice; lia).
  destruct (Z.leb_spec lo i) as [H1|H1]; cbn [andb].
  - rewrite byte_at_app_r by lia. rewrite Hl. destruct (Z.ltb_spec i (lo + blen data)) as [H2|H2].
    + rewrite byte_at_app_l by lia. done.
    + rewrite byte_at_app_r by lia.
      destruct (Z.ltb_spec i (blen p)) as [H3|H3].
      * rewrite byte_at_slice by lia. f_equal. lia.
      * unfold byte_at. rewrite !decide_True by lia. rewrite !lookup_ge_None_2; [done| |].
        -- unfold blen in *. lia.
        -- assert (blen (slice p (lo + blen data) (blen p)) = blen p - (lo + blen data)) by (rewrite blen_slice; lia).
           unfold blen in *. lia.
  - rewrite byte_at_app_l by lia. rewrite byte_at_slice by lia. done.
Qed.

(** ** Buffered fragments *)

Section Mem.
Implicit Types es : list bufExtent.

Lemma mem_frag_covers e x : covers (mem_frag e) x = ext_at e x.
Proof. done. Qed.

Lemma mem_frag_ok ss e :
  stripe_size_ok ss -> bext_ok ss e -> fragment_ok (mem_frag e) /\ fr_SegmentOffset (mem_frag e) = be_seq e.
Proof.
  intros [Hs1 Hs2] (H1 & H2 & H3 & H4 & H5 & H6). unfold in_u32 in H5. pose proof (stripe_lo ss (be_off e) Hs1).
  assert (0 < blen (be_data e)).
  { pose proof (blen_nonneg (be_data e)). destruct (decide (blen (be_data e) = 0)) as [E|]; [|lia].
    by apply blen_nil_inv in E. }
  assert (blen (be_data e) <= 2^30) by nia.
  assert (i64 (be_seq e) = be_seq e) as E by (apply i64_id; unfold in_i64; lia).
  split; [|done]. unfold fragment_ok, mem_frag. cbn [fr_Seq fr_LogicalOff fr_Length fr_Tier fr_SegmentID fr_SegmentOffset].
  rewrite E. unfold in_u64, in_u8, in_u32, TierMem. split_and!; try lia; nia.
Qed.

(** The newest extent at [x] is the one that shows. *)
Lemma shadow_newest c es e x :
  StronglySorted (fun a b => be_seq a < be_seq b) es -> e ∈ es -> ext_at e x = true ->
  (forall e', e' ∈ es -> ext_at e' x = true -> be_seq e' <= be_seq e) ->
  shadow c es x = byte_at (be_data e) (x - be_off e).
Proof.
  intros Hs Hin He Hmax. apply list_elem_of_split in Hin as (es1 & es2 & ->).
  rewrite shadow_app. change (e :: es2) with ([e] ++ es2). rewrite shadow_app.
  apply StronglySorted_app in Hs as (_ & _ & Hs). apply StronglySorted_inv in Hs as [_ Hs].
  rewrite shadow_free.
  - change [e] with ([] ++ [e]). by rewrite shadow_snoc, He.
  - intros e' He'. apply not_true_iff_false. intros Hc.
    rewrite Forall_forall in Hs. specialize (Hs e' He'). cbn in Hs.
    specialize (Hmax e' ltac:(set_solver) Hc). lia.
Qed.

Lemma seq_inj es a b :
  StronglySorted (fun a b => be_seq a < be_seq b) es -> a ∈ es -> b ∈ es -> be_seq a = be_seq b -> a = b.
Proof.
  intros Hs Ha Hb E. induction Hs as [|e es Hs IH He]; [by apply elem_of_nil in Ha|].
  rewrite Forall_forall in He. apply elem_of_cons in Ha as [->|Ha], Hb as [->|Hb]; [done|..|by apply IH].
  - specialize (He b Hb). cbn in He. lia.
  - specialize (He a Ha). cbn in He. lia.
Qed.

Lemma elem_of_collect lo hi b f :
  f ∈ collect lo hi b <-> exists e, f = mem_frag e /\ e ∈ batch_exts b /\ lo < ext_end e /\ be_off e < hi.
Proof.
  destruct b as [b|]; cbn [collect batch_exts]; [|split; [by intros ?%elem_of_nil|by intros (e & _ & ?%elem_of_nil & _)]].
  rewrite list_elem_of_fmap. split.
  - intros (e & -> & He). apply list_elem_of_filter in He as [Hc He]. exists e. split_and!; try done.
    all: apply negb_true_iff, orb_false_iff in Hc as [?%Z.leb_gt ?%Z.leb_gt]; lia.
  - intros (e & -> & He & H1 & H2). exists e. split; [done|]. apply list_elem_of_filter. split; [|done].
    apply negb_true_iff, orb_false_iff. split; apply Z.leb_gt; lia.
Qed.

Lemma find_extent_spec q b :
  match find_extent q b with
  | Some e => e ∈ batch_exts b /\ be_seq e = q
  | None => forall e, e ∈ batch_exts b -> be_seq e <> q
  end.
Proof.
  destruct b as [b|]; cbn [find_extent batch_exts]; [|by intros e ?%elem_of_nil].
  destruct (list_find (fun e => be_seq e = q) (bb_extents b)) as [[i e]|] eqn:E; cbn.
  - apply list_find_Some in E as (Hl & Hq & _). split; [by eapply list_elem_of_lookup_2|done].
  - intros e He Hq. apply list_find_None in E. rewrite Forall_forall in E. by apply (E e).
Qed.

(** [CopyOut] from the right extent gives its bytes; from any other it fails. *)
Lemma CopyOut_spec {W} (c : coalescer W) inode buf e lo n loc ss :
  co_buffers c !! inode = Some buf -> StronglySorted (fun a b => be_seq a < be_seq b) (buf_exts buf) ->
  stripe_size_ok ss -> Forall (bext_ok ss) (buf_exts buf) -> e ∈ buf_exts buf ->
  0 < n -> be_off e <= lo -> lo + n <= be_off e + blen (be_data e) ->
  (forall e', e' ∈ buf_exts buf -> ext_at e' lo = true -> be_seq e' <= be_seq e) ->
  loc_Offset loc = be_seq e + (lo - be_off e) -> loc_Length loc = n ->
  match CopyOut inode loc lo n c with
  | Ok d => lo = be_off e /\ d = slice (be_data e) (lo - be_off e) (lo - be_off e + n)
  | Err _ => lo <> be_off e
  | Panic => False
  end.
Proof.
  intros Hb Hs Hss Hf He Hn Hlo Hend Hmax Hoff Hlen. unfold CopyOut. rewrite Hb.
  rewrite Forall_forall in Hf. pose proof (Hf e He) as (H1 & H2 & _ & _ & Hu & Hst). unfold in_u32 in Hu.
  pose proof Hss as [Hss1 Hss2]. pose proof (stripe_lo ss (be_off e) Hss1).
  assert (be_off e + blen (be_data e) < 2^63 /\ blen (be_data e) <= 2^30) as [Hm1 Hm2] by nia.
  rewrite Hoff, u64_id by (unfold in_u64; lia). set (q := be_seq e + (lo - be_off e)).
  set (ext := match find_extent q (ib_current buf) with Some e => Some e | None => find_extent q (ib_flushing buf) end).
  assert (match ext with
    | Some e' => e' ∈ buf_exts buf /\ be_seq e' = q
    | None => forall e', e' ∈ buf_exts buf -> be_seq e' <> q end) as Hext.
  { unfold ext. pose proof (find_extent_spec q (ib_current buf)) as A. pose proof (find_extent_spec q (ib_flushing buf)) as B.
    unfold buf_exts. destruct (find_extent q (ib_current buf)) as [e'|].
    - destruct A. split; [apply elem_of_app; by right|done].
    - destruct (find_extent q (ib_flushing buf)) as [e'|].
      + destruct B. split; [apply elem_of_app; by left|done].
      + intros e' [He'|He']%elem_of_app; auto. }
  destruct ext as [e'|].
  - destruct Hext as [He' Hq']. pose proof (Hf e' He') as (H1' & H2' & _ & _ & Hu' & Hst'). unfold in_u32 in Hu'.
    pose proof (stripe_lo ss (be_off e') Hss1).
    assert (be_off e' + blen (be_data e') < 2^63) by nia. pose proof (blen_nonneg (be_data e')).
    rewrite (i64_id (lo - be_off e')) by (unfold in_i64; lia).
    rewrite Hlen, (i64_id (lo - be_off e' + n)) by (unfold in_i64; lia).
    destruct (decide (lo = be_off e)) as [El|Hne].
    + assert (e' = e) as -> by (apply (seq_inj (buf_exts buf)); [done..|lia]).
      rewrite (proj2 (Z.ltb_ge (lo - be_off e) 0)), (proj2 (Z.ltb_ge _ _)) by lia. cbn [orb].
      rewrite (proj2 (Z.ltb_ge _ _)) by lia. split; [done|]. apply slice_all. rewrite blen_slice by lia. lia.
    + destruct (Z.ltb_spec (lo - be_off e') 0); [done|].
      destruct (Z.ltb_spec (blen (be_data e')) (lo - be_off e' + n)); [done|]. exfalso.
      assert (be_seq e' <= be_seq e); [|lia]. apply Hmax; [done|].
      unfold ext_at. apply andb_true_iff. split; [apply Z.leb_le|apply Z.ltb_lt]; lia.
  - intros El. apply (Hext e He). lia.
Qed.
End Mem.

(** ** The plan *)

Section Read.
Context {P : Type} {PB : Pebble P} {PL : PebbleLaws P}.
Context {S : Type} {SL : SegLayer S} {SLL : SegLayerLaws S} {MR : MapRange}.
Context {W : Type} {SW : Semaphore W} {SWL : SemaphoreLaws W}.
Implicit Types s : Store P S W.

(** No flush of the inode is between its commit and its settling. *)
Definition not_appended (ph : gmap Z phase) (inode : Z) : Prop :=
  match ph !! inode with Some (Appended _ _) => False | _ => True end.

(** An extent that is newer than all of the file on disk. *)
Definition fresh s (inode : Z) (e : bufExtent) : Prop :=
  forall g, frag_in (disk s) inode g -> fr_Seq g < be_seq e.

(** The extents of a file: those of the batch in flight, which the engine may
    hold already, then those of the current one, which it does not. *)
Definition exts_ok s (inode : Z) : Prop :=
  Forall (bext_ok (ix_stripeSize (st_idx s))) (buffered s inode) /\
  StronglySorted (fun a b => be_seq a < be_seq b) (buffered s inode) /\
  exists fl cur, buffered s inode = fl ++ cur /\ Forall (fresh s inode) cur /\
    (Forall (fresh s inode) fl \/
     forall x, shadow (content (st_idx s) inode) fl x = content (st_idx s) inode x).

Lemma store_exts_ok s ph inode : store_ok s ph -> exts_ok s inode.
Proof.
  intros (_ & _ & _ & c & Hc & Hco & _). unfold exts_ok, buffered. rewrite Hc.
  destruct (co_buffers c !! inode) as [buf|] eqn:Hb.
  - destruct (co_bufs _ _ _ Hco _ _ Hb) as [_ [H1 H2 H3 H4 H5 H6 H7 H8 H9 HA]]. split_and!; [done..|].
    exists (batch_exts (ib_flushing buf)), (batch_exts (ib_current buf)). split; [done|].
    assert (forall e, e ∈ unflushed buf (ph !! inode) -> fresh s inode e) as Hfr by (intros e He g Hg; by apply H5).
    assert (Forall (fresh s inode) (batch_exts (ib_current buf))) as Hcur.
    { apply Forall_forall. intros e He. apply Hfr. destruct (ph !! inode) as [[| |]|]; [..|done|];
        unfold unflushed, buf_exts; apply elem_of_app; by right. }
    split; [done|]. destruct (ph !! inode) as [[| |j r]|] eqn:Hph.
    3: { destruct H8 as (b & Hf & _ & _ & Hl & _). rewrite Hf. cbn [batch_exts].
      destruct Hl as [Hl|Hl]; [left|by right]. apply Forall_forall. intros e He g Hg. by apply Hl. }
    all: left; apply Forall_forall; intros e He; apply Hfr; unfold unflushed, buf_exts; apply elem_of_app; by left.
  - split_and!; [constructor..|]. exists [], []. split_and!; [done|constructor|left; constructor].
Qed.

(** No flush in between: the disk has none of the extents. *)
Lemma all_fresh s ph inode e : store_ok s ph -> not_appended ph inode -> e ∈ buffered s inode -> fresh s inode e.
Proof.
  intros (_ & _ & _ & c & Hc & Hco & _) Hph He g Hg. unfold buffered in He. rewrite Hc in He.
  destruct (co_buffers c !! inode) as [buf|] eqn:Hb; [|by apply elem_of_nil in He].
  destruct (co_bufs _ _ _ Hco _ _ Hb) as [_ [H1 H2 H3 H4 H5 H6 H7 H8 H9 HA]]. apply H5; [done|].
  unfold not_appended in Hph. by destruct (ph !! inode) as [[| |]|].
Qed.

(** What shows where the buffer has nothing newer than a fragment on disk. *)
Lemma live_from_disk s inode f x :
  exts_ok s inode -> frag_in (disk s) inode f ->
  (forall e, e ∈ buffered s inode -> ext_at e x = true -> be_seq e <= fr_Seq f) ->
  live s inode x = content (st_idx s) inode x.
Proof.
  intros (_ & _ & fl & cur & E & Hcur & Hfl) Hf Hmax. unfold live. rewrite E in Hmax |- *. rewrite shadow_app.
  assert (forall l, Forall (fresh s inode) l -> (forall e, e ∈ l -> e ∈ fl ++ cur) ->
    forall e, e ∈ l -> ext_at e x = false) as Hno.
  { intros l Hl Hin e He. apply not_true_iff_false. intros Hc. rewrite Forall_forall in Hl. specialize (Hl e He f Hf).
    specialize (Hmax e (Hin e He) Hc). lia. }
  rewrite shadow_free by (apply Hno; [done|]; intros; apply elem_of_app; by right).
  destruct Hfl as [Hfl|Hfl]; [|done]. apply shadow_free, Hno; [done|]. intros. apply elem_of_app. by left.
Qed.

(** The fragments a read considers. *)
Definition read_frags s (inode off n : Z) (disk_frags : list Fragment) : Prop :=
  (forall f, f ∈ disk_frags -> frag_in (disk s) inode f) /\
  (forall x, off <= x < off + n -> newest disk_frags x = newest (inode_frags (disk s) inode) x).

Lemma elem_of_mem_frags s ph inode off n f :
  store_ok s ph -> exts_ok s inode -> 0 <= off -> 0 < n -> off + n < 2^63 ->
  f ∈ mem_frags inode off n s <-> exists e, f = mem_frag e /\ e ∈ buffered s inode /\
    off < ext_end e /\ be_off e < off + n.
Proof.
  intros (Hok & _ & _ & c & Hc & Hco & _) Hx Ho Hn Hm. unfold mem_frags, FragmentsFor, buffered. rewrite Hc.
  rewrite (proj2 (Z.leb_gt n 0)) by lia. rewrite (i64_id (off + n)) by (unfold in_i64; lia).
  destruct (co_buffers c !! inode) as [buf|]; [|split; [by intros ?%elem_of_nil|by intros (e & _ & ?%elem_of_nil & _)]].
  rewrite elem_of_app, !elem_of_collect. unfold buf_exts. setoid_rewrite elem_of_app. naive_solver.
Qed.

(** What a slice of the plan stands for. *)
Inductive slice_kind s (inode : Z) (sl : ReadSlice) : Prop :=
  | slice_hole : rs_Sparse sl = true ->
      (forall x, rs_LogicalOff sl <= x < rs_LogicalOff sl + rs_Length sl -> live s inode x = None) ->
      slice_kind s inode sl
  | slice_mem e : rs_Sparse sl = false -> e ∈ buffered s inode ->
      be_off e <= rs_LogicalOff sl -> rs_LogicalOff sl + rs_Length sl <= be_off e + blen (be_data e) ->
      (forall x, rs_LogicalOff sl <= x < rs_LogicalOff sl + rs_Length sl ->
         forall e', e' ∈ buffered s inode -> ext_at e' x = true -> be_seq e' <= be_seq e) ->
      rs_Locator sl = mkLocator TierMem 0 (be_seq e + (rs_LogicalOff sl - be_off e)) (rs_Length sl) ->
      slice_kind s inode sl
  | slice_disk f : rs_Sparse sl = false ->
      (forall x, rs_LogicalOff sl <= x < rs_LogicalOff sl + rs_Length sl ->
         serves (disk s) inode x f /\ live s inode x = content (st_idx s) inode x /\
         forall e, e ∈ buffered s inode -> ext_at e x = true -> be_seq e <= fr_Seq f) ->
      (fr_Tier f = TierHot \/ fr_Tier f = TierCold) ->
      rs_Locator sl = mkLocator (fr_Tier f) (fr_SegmentID f)
        (fr_SegmentOffset f + (rs_LogicalOff sl - fr_LogicalOff f)) (rs_Length sl) ->
      slice_kind s inode sl.

Lemma ext_end_id ss e : stripe_size_ok ss -> bext_ok ss e -> ext_end e = be_off e + blen (be_data e).
Proof.
  intros [Hs1 Hs2] (_ & H2 & _ & _ & Hu & H). unfold in_u32 in Hu. pose proof (stripe_lo ss (be_off e) Hs1).
  pose proof (blen_nonneg (be_data e)). unfold ext_end. apply i64_id. unfold in_i64. nia.
Qed.

(** An extent that covers a byte of the range is among the fragments. *)
Lemma mem_in_range s ph inode off n e x :
  store_ok s ph -> exts_ok s inode -> 0 <= off -> 0 < n -> off + n < 2^63 ->
  off <= x < off + n -> e ∈ buffered s inode -> ext_at e x = true -> mem_frag e ∈ mem_frags inode off n s.
Proof.
  intros Hst Hx Ho Hn Hm Hr He Hc. apply (elem_of_mem_frags s ph); [done..|]. exists e. split_and!; [done..| |].
  - destruct Hx as (Hf & _). rewrite Forall_forall in Hf. destruct Hst as ((_ & Hss & _) & _).
    rewrite (ext_end_id (ix_stripeSize (st_idx s))) by auto. apply andb_true_iff in Hc as [_ ?%Z.ltb_lt]. lia.
  - apply andb_true_iff in Hc as [?%Z.leb_le _]. lia.
Qed.

Lemma combined_ok s ph inode off n dfs :
  store_ok s ph -> exts_ok s inode -> in_u64 inode -> 0 <= off -> 0 < n -> off + n < 2^63 ->
  (forall f, f ∈ dfs -> frag_in (disk s) inode f) ->
  Forall fragment_ok (dfs ++ mem_frags inode off n s).
Proof.
  intros Hst Hx Hi Ho Hn Hm Hd. pose proof Hst as ((_ & Hss & _ & Hs & _) & _).
  pose proof Hx as (Hf & _). rewrite Forall_forall in Hf.
  assert (forall f, f ∈ mem_frags inode off n s -> exists e, f = mem_frag e /\ e ∈ buffered s inode) as Hmem.
  { intros f (e & -> & He & _)%(elem_of_mem_frags s ph); [|done..]. eauto. }
  apply Forall_app. split; [by apply (frags_ok (ix_stripeSize (st_idx s)) (disk s) inode)|].
  apply Forall_forall. intros f (e & -> & He)%Hmem. by apply (mem_frag_ok (ix_stripeSize (st_idx s))), Hf.
Qed.

Lemma plan_kinds s ph inode off n dfs sl :
  store_ok s ph -> exts_ok s inode -> in_u64 inode -> 0 <= off -> 0 < n -> off + n < 2^63 ->
  read_frags s inode off n dfs -> sl ∈ PlanRead (dfs ++ mem_frags inode off n s) off n ->
  off <= rs_LogicalOff sl /\ 0 < rs_Length sl /\ rs_LogicalOff sl + rs_Length sl <= off + n /\
  slice_kind s inode sl.
Proof.
  intros Hst Hx Hi Ho Hn Hm [Hd Hnew] Hsl. pose proof (combined_ok s ph inode off n dfs Hst Hx Hi Ho Hn Hm Hd) as Hfo.
  pose proof Hst as (Hok & _). pose proof Hok as (_ & Hss & _ & Hs & _). pose proof Hss as [Hss1 _].
  pose proof Hx as (Hf & _). rewrite Forall_forall in Hf.
  set (frags := dfs ++ mem_frags inode off n s) in *. unfold PlanRead, planRead in Hsl.
  rewrite (proj2 (Z.leb_gt n 0)) in Hsl by lia.
  destruct (plan_sorted_slice_top frags (sort_desc frags) Hfo (sort_desc_perm _) (sort_desc_sorted _) off n sl)
    as (L1 & L2 & L3 & L4); [done..|]. split_and!; [done..|].
  destruct L4 as [[Hsp Hn0]|(Hsp & f & Hin & Hnf & Hlo & Hhi & Hloc)].
  - apply slice_hole; [done|]. intros x Hr. destruct (Hn0 x Hr) as [Hn1 _]. clear Hn0. rename Hn1 into Hn0. cbn [top] in Hn0.
    unfold live. rewrite shadow_free.
    + apply content_hole; [done..|]. intros f Hf'.
      assert (newest (inode_frags (disk s) inode) x = None) as E.
      { rewrite <-Hnew by lia. apply newest_None. intros g Hg. apply Hn0, elem_of_app. by left. }
      rewrite newest_None in E. by apply E, (elem_of_inode_frags (ix_stripeSize (st_idx s))).
    + intros e He. apply not_true_iff_false. intros Hc.
      assert (mem_frag e ∈ frags) as Hin by (apply elem_of_app; right; apply (mem_in_range s ph inode off n e x); done || lia).
      specialize (Hn0 _ Hin). rewrite mem_frag_covers in Hn0. congruence.
  - assert (forall x, rs_LogicalOff sl <= x < rs_LogicalOff sl + rs_Length sl ->
      forall e, e ∈ buffered s inode -> ext_at e x = true -> be_seq e <= fr_Seq f) as Hmax.
    { intros x Hr e He Hc. destruct (Hnf x Hr) as [(_ & _ & Hmx) _].
      apply (Hmx (mem_frag e)); [|done]. apply elem_of_app. right. apply (mem_in_range s ph inode off n e x); done || lia. }
    apply elem_of_app in Hin as [Hin|Hin].
    + apply (slice_disk _ _ _ f); [done| | |done].
      * intros x Hr. split; [|split; [apply (live_from_disk s inode f); [done|by apply Hd|by apply Hmax]|by apply Hmax]].
        apply (newest_serves (ix_stripeSize (st_idx s))); [done..|].
        rewrite <-Hnew by lia. destruct (Hnf x Hr) as [(_ & Hcf & Hmx) _].
        apply newest_unique; [|done|done|].
        -- by apply (frags_distinct (ix_stripeSize (st_idx s)) (disk s) inode).
        -- intros g Hg. apply Hmx, elem_of_app. by left.
      * destruct (frag_in_shape _ _ _ _ Hs Hi (Hd f Hin)) as (_ & st & _ & (_ & _ & _ & Ht) & _). done.
    + apply (elem_of_mem_frags s ph) in Hin as (e & -> & He & _); [|done..].
      destruct (mem_frag_ok _ _ Hss (Hf e He)) as [_ Eo]. rewrite Eo in Hloc.
      apply (slice_mem _ _ _ e); done.
Qed.

(** ** Filling the buffer *)

(** The store after some reads. *)
Definition only_read s s1 : Prop := exists ix, s1 = with_idx ix s /\ kept_clean (st_idx s) ix.

(** [p] holds the file from [off] to [hi], and [p0] elsewhere. *)
Definition filled s (inode off hi : Z) (p0 p : bytes) : Prop :=
  blen p = blen p0 /\
  (forall x, off <= x < hi -> byte_at p (x - off) = Some (default 0 (live s inode x))) /\
  forall i, hi - off <= i -> 0 <= i -> byte_at p i = byte_at p0 i.

Lemma filled_put s inode off lo n p0 p b :
  filled s inode off lo p0 p -> off <= lo -> 0 < n -> lo + n - off <= blen p0 -> blen b = n ->
  (forall i, 0 <= i < n -> byte_at b i = Some (default 0 (live s inode (lo + i)))) ->
  filled s inode off (lo + n) p0 (put_at p (lo - off) b).
Proof.
  intros (H1 & H2 & H3) Hlo Hn Hend Hb Hv. split_and!.
  - rewrite blen_put_at; lia.
  - intros x Hx. rewrite byte_at_put_at by lia.
    destruct (Z.leb_spec (lo - off) (x - off)), (Z.ltb_spec (x - off) (lo - off + blen b)); cbn [andb];
      try (apply H2; lia).
    rewrite Hv by lia. do 3 f_equal. lia.
  - intros i Hi Hi0. rewrite byte_at_put_at by lia.
    destruct (Z.leb_spec (lo - off) i), (Z.ltb_spec i (lo - off + blen b)); cbn [andb]; try lia; apply H3; lia.
Qed.

(** The extent that shows at [x], if any and not on disk, starts there. *)
Definition starts_at s (inode x : Z) : Prop :=
  forall e, e ∈ buffered s inode -> fresh s inode e -> ext_at e x = true ->
    (forall e', e' ∈ buffered s inode -> ext_at e' x = true -> be_seq e' <= be_seq e) -> be_off e = x.

Lemma wp_read_slice s s1 ph inode off n p0 p sl (Q : outcome bytes -> Store P S W -> Prop) :
  store_ok s ph -> exts_ok s inode -> in_u64 inode -> only_read s s1 ->
  0 <= off -> off + n < 2^63 -> n <= blen p0 ->
  off <= rs_LogicalOff sl -> 0 < rs_Length sl -> rs_LogicalOff sl + rs_Length sl <= off + n ->
  slice_kind s inode sl -> filled s inode off (rs_LogicalOff sl) p0 p ->
  (forall p' s2, only_read s s2 -> filled s inode off (rs_LogicalOff sl + rs_Length sl) p0 p' ->
     starts_at s inode (rs_LogicalOff sl) -> Q (Ok p') s2) ->
  (forall e s2, only_read s s2 -> Q (Err e) s2) ->
  wp (read_slice inode off p sl) Q s1.
Proof.
  intros Hst Hx Hi (ix & -> & Hk) Ho Hm Hp Hlo Hlen Hend Hkind Hfill HO HE.
  pose proof Hst as (Hok & _ & _ & c & Hc & Hco & _). pose proof (proj1 Hfill) as Hbp.
  unfold read_slice. set (lo := rs_LogicalOff sl) in *. set (k := rs_Length sl) in *.
  rewrite (i64_id (lo - off)) by (unfold in_i64; lia).
  rewrite (i64_id (lo - off + k)) by (unfold in_i64; lia).
  rewrite !(proj2 (Z.ltb_ge _ _)) by lia. cbn [orb].
  replace (lo - off + k - (lo - off)) with k by lia.
  destruct Hkind as [Hsp Hn|e Hsp He Hle Hhi Hmax Hloc|f Hsp Hsv Ht Hloc]; rewrite Hsp.
  - wp_step. apply HO; [by exists ix| |].
    + apply filled_put; try done; [lia|by apply blen_zreplicate; lia|].
      intros i Hr. rewrite byte_at_zreplicate by done. by rewrite Hn by lia.
    + intros e He _ Hc'. pose proof Hx as (_ & Hsort & _). intros Hmax. specialize (Hn lo ltac:(lia)).
      unfold live in Hn. rewrite (shadow_newest _ _ e) in Hn by done.
      apply andb_true_iff in Hc' as [?%Z.leb_le ?%Z.ltb_lt]. unfold byte_at in Hn. rewrite decide_True in Hn by lia.
      apply lookup_ge_None in Hn. unfold blen in *. lia.
  - rewrite Hloc. cbn [loc_Tier]. change (TierMem =? TierMem) with true. cbn iota. wp_step. wp_step.
    apply (wp_co_get _ c); [done|]. apply wp_of_outcome.
    unfold buffered in *. destruct Hx as (Hf & Hsort & _). unfold buffered in Hf, Hsort. rewrite Hc in *.
    destruct (co_buffers c !! inode) as [buf|] eqn:Hb; [|by apply elem_of_nil in He].
    pose proof Hok as (_ & Hss & _).
    pose proof (CopyOut_spec c inode buf e lo k (mkLocator TierMem 0 (be_seq e + (lo - be_off e)) k)
      (ix_stripeSize (st_idx s)) Hb Hsort Hss Hf He ltac:(lia) Hle Hhi (Hmax lo ltac:(lia)) eq_refl eq_refl) as HC.
    destruct (CopyOut inode _ lo k c) as [d|err|].
    + destruct HC as [El ->]. wp_step. apply HO; [by exists ix| |].
      2: { intros e' He' _ Hc' Hmax'. rewrite El. f_equal. unfold buffered in He', Hmax'. rewrite Hc, Hb in He', Hmax'.
        apply (seq_inj (buf_exts buf)); [done..|].
        assert (be_seq e' <= be_seq e) by (apply (Hmax lo); done || lia).
        assert (be_seq e <= be_seq e'); [|lia]. apply Hmax'; [done|].
        apply andb_true_iff. split; [apply Z.leb_le|apply Z.ltb_lt]; lia. }
      apply filled_put; try done; [lia|rewrite blen_slice; lia|].
      intros i Hr. rewrite byte_at_slice by lia. unfold live, buffered. rewrite Hc, Hb.
      rewrite (shadow_newest _ _ e); [|done|done| |by apply Hmax; lia].
      2: { apply andb_true_iff. split; [apply Z.leb_le|apply Z.ltb_lt]; lia. }
      replace (lo - be_off e + i) with (lo + i - be_off e) by lia.
      assert (is_Some (byte_at (be_data e) (lo + i - be_off e))) as [v Hv].
      { unfold byte_at. rewrite decide_True by lia. apply lookup_lt_is_Some_2. unfold blen in *. lia. }
      by rewrite Hv.
    + apply HE. by exists ix.
    + done.
  - assert ((loc_Tier (rs_Locator sl) =? TierMem) = false) as Et.
    { rewrite Hloc. cbn [loc_Tier]. by destruct Ht as [-> | ->]. }
    assert (ix_db ix = ix_db (st_idx s)) as Ed by apply Hk.
    rewrite Et. wp_step. apply wp_on_idx.
    apply (wp_ReadAtCtx inode f _ lo k); [by eapply kept_index_ok; [|apply Hk]|done|done| |exact Hloc| |].
    + intros x Hr. cbn [with_idx st_idx]. rewrite Ed. by apply Hsv.
    + intros b ix' Hk' Hb Hv. wp_step. apply HO; [exists ix'; split; [done|by etrans]| |].
      2: { intros e He Hfe Hc'. destruct (Hsv lo ltac:(lia)) as ((Hf & _) & _ & Hn). specialize (Hn e He Hc').
        specialize (Hfe f Hf). lia. }
      apply filled_put; try done; [lia|]. intros i Hr. destruct (Hv i Hr) as [E [v Hv']].
      rewrite Hv'. rewrite (proj1 (proj2 (Hsv (lo + i) ltac:(lia)))).
      cbn [with_idx st_idx] in E. rewrite (kept_content (st_idx s) ix) in E by (done || apply Hk).
      by rewrite <-E, Hv'.
    + intros e ix' Hk' _. apply HE. exists ix'. split; [done|by etrans].
Qed.

Lemma wp_read_slices s ph inode off n p0 (Q : outcome bytes -> Store P S W -> Prop) plan :
  forall lo p s1,
  store_ok s ph -> exts_ok s inode -> in_u64 inode -> only_read s s1 ->
  0 <= off -> off + n < 2^63 -> n <= blen p0 -> tiles plan lo (off + n) -> filled s inode off lo p0 p ->
  (forall sl, sl ∈ plan -> off <= rs_LogicalOff sl /\ 0 < rs_Length sl /\
     rs_LogicalOff sl + rs_Length sl <= off + n /\ slice_kind s inode sl) ->
  (forall p' s2, only_read s s2 -> filled s inode off (off + n) p0 p' ->
     (lo < off + n -> starts_at s inode lo) -> Q (Ok p') s2) ->
  (forall e s2, only_read s s2 -> Q (Err e) s2) ->
  wp (mfold (read_slice inode off) p plan) Q s1.
Proof.
  induction plan as [|sl plan IH]; intros lo p s1 Hst Hx Hi Hr Ho Hm Hp Ht Hfill Hsl HO HE; cbn [mfold].
  - cbn in Ht. subst lo. wp_step. apply HO; [done..|lia].
  - destruct Ht as (<- & Hlen & Ht). destruct (Hsl sl ltac:(left)) as (H1 & H2 & H3 & H4). wp_step.
    apply (wp_read_slice s s1 ph inode off n p0); try done.
    intros p' s2 Hr' Hfill' Hst'. eapply IH; try done.
    + intros sl' Hin. apply Hsl. by right.
    + intros p2 s3 Hr2 Hfill2 _. by apply HO.
Qed.

(** ** The read *)

Lemma wp_FragmentsInRange s ph inode off n (Q : outcome (list Fragment) -> Store P S W -> Prop) :
  store_ok s ph -> in_u64 inode -> iter_complete (ix_db (st_idx s)) ->
  0 <= off -> 0 < n -> off + n <= 2^32 * ix_stripeSize (st_idx s) ->
  (forall dfs, read_frags s inode off n dfs -> Q (Ok dfs) s) -> (forall e, Q (Err e) s) ->
  wp (on_idx (FragmentsInRange inode off n)) Q s.
Proof.
  intros (Hok & _) Hi Hcomp Ho Hn Hend HO HE. pose proof Hok as (_ & [Hss Hss'] & _).
  apply wp_on_idx. unfold FragmentsInRange. rewrite (proj2 (Z.leb_gt n 0)) by lia. wp_step. apply wp_get.
  assert (addressable (ix_stripeSize (st_idx s)) off /\ addressable (ix_stripeSize (st_idx s)) (off + n - 1)) as [Ha Ha']
    by (unfold addressable; lia).
  assert (off + n < 2^63) by nia.
  rewrite (i64_id (off + n)) by (unfold in_i64; lia). rewrite (i64_id (off + n - 1)) by (unfold in_i64; lia).
  destruct (stripeOf_div _ _ Hss Ha) as [-> Hu]. destruct (stripeOf_div _ _ Hss Ha') as [-> Hu'].
  apply wp_fragmentsInRange; [done..| |intros e; rewrite with_idx_id; apply HE].
  intros frags Hin Hall. rewrite with_idx_id. apply HO. split; [done|]. specialize (Hall Hcomp).
  intros x Hx. by apply (range_newest (st_idx s) inode frags off n).
Qed.

(** The bytes a read may return: up to the size [Stat] shows. *)
Definition read_count (size off n : Z) : Z := Z.max 0 (Z.min n (size - off)).

Definition read_result s inode off p (r : outcome (Z * bytes)) : Prop :=
  match r with
  | Ok (n, p') =>
      blen p' = blen p /\
      (p = [] /\ n = 0 \/
       exists node, Stat inode s = (Ok node, s) /\ n = read_count (nd_Size node) off (blen p)) /\
      (forall i, 0 <= i < n -> byte_at p' i = Some (default 0 (live s inode (off + i)))) /\
      forall i, n <= i -> 0 <= i -> byte_at p' i = byte_at p i
  | Err _ => True
  | Panic => False
  end.

Lemma wp_Stat_value inode s (Q : outcome Node -> Store P S W -> Prop) :
  (forall node, Stat inode s = (Ok node, s) -> Q (Ok node) s) -> (forall e, Q (Err e) s) -> wp (Stat inode) Q s.
Proof.
  intros HO HE. pose proof (wp_Stat inode (fun r s' => s' = s /\ r <> Panic) s) as Hw. unfold wp in *.
  destruct (Stat inode s) as [r s'] eqn:E. cbn [fst snd] in *. destruct Hw as [-> Hr]; [done..|].
  by destruct r; [apply HO|apply HE|].
Qed.

Lemma wp_Handle_ReadAtCtx s ph inode off p (Q : outcome (Z * bytes) -> Store P S W -> Prop) :
  store_ok s ph -> in_u64 inode -> iter_complete (ix_db (st_idx s)) ->
  0 <= off -> off + blen p <= 2^32 * ix_stripeSize (st_idx s) ->
  (forall n p' s', only_read s s' -> read_result s inode off p (Ok (n, p')) ->
     (0 < n -> starts_at s inode off) -> Q (Ok (n, p')) s') ->
  (forall e s', only_read s s' -> Q (Err e) s') ->
  wp (Handle_ReadAtCtx inode p off) Q s.
Proof.
  intros Hst Hi Hcomp Ho Hend HO HE. pose proof (store_exts_ok s ph inode Hst) as Hx.
  pose proof Hst as (Hok & _). pose proof Hok as ((Hs1 & Hs2) & [Hss Hss'] & _).
  assert (only_read s s) as Hrefl.
  { exists (st_idx s). rewrite with_idx_id. split; [done|by apply kept_clean_refl]. }
  unfold Handle_ReadAtCtx. destruct p as [|b0 r0] eqn:Ep.
  { wp_step. apply HO; [done| |lia]. split_and!; [done|by left|lia|done]. }
  rewrite <-Ep in *. assert (0 < blen p) as Hp by (rewrite Ep, blen_cons; pose proof (blen_nonneg r0); lia).
  assert (off + blen p < 2^63) as Hm by nia. wp_step. apply wp_Stat_value; [|by intros; apply HE].
  intros node Hnode. destruct (Z.leb_spec (nd_Size node) off) as [Hz|Hz].
  { wp_step. apply HO; [done| |lia]. unfold read_result, read_count. split_and!; [done| |lia|done].
    right. exists node. split; [done|]. lia. }
  rewrite (i64_id (off + blen p)) by (unfold in_i64; lia).
  set (n := if nd_Size node <? off + blen p then i64 (nd_Size node - off) else blen p).
  assert (n = read_count (nd_Size node) off (blen p) /\ 0 < n <= blen p) as [En Hn].
  { unfold n, read_count. destruct (Z.ltb_spec (nd_Size node) (off + blen p)); [rewrite i64_id by (unfold in_i64; lia)|]; lia. }
  rewrite !(proj2 (Z.ltb_ge _ _)) by lia. cbn [orb]. wp_step.
  apply (wp_FragmentsInRange s ph inode off n); try done; [lia|lia| |by intros; apply HE]. intros dfs Hdf.
  wp_step. wp_step. wp_step.
  assert (Forall fragment_ok (dfs ++ mem_frags inode off n s)) as Hfo by (apply (combined_ok s ph); try done; [lia|lia|by apply Hdf]).
  apply (wp_read_slices s ph inode off n p _ _ off); try done; try lia.
  - unfold PlanRead, planRead. rewrite (proj2 (Z.leb_gt n 0)) by lia.
    apply (plan_sorted_tiles (dfs ++ mem_frags inode off n s)); auto using sort_desc_perm, sort_desc_sorted; lia.
  - split_and!; [done|lia|]. intros i Hi0 _. done.
  - intros sl Hsl. apply (plan_kinds s ph inode off n dfs); try done; lia.
  - intros p' s2 Hr2 (F1 & F2 & F3) Hstart. wp_step. apply HO; [done| |intros _; apply Hstart; lia].
    split_and!; [done| | |].
    + right. by exists node.
    + intros i Hi'. rewrite <-(F2 (off + i)) by lia. f_equal. lia.
    + intros i Hi1 Hi2. apply F3; lia.
Qed.

(** C6: a successful read returns the file.  The count is the length of the
    buffer clipped at the size [Stat] shows; each byte is the newest buffered
    one, else the one on disk, else zero; the rest of the buffer is untouched.
    This holds at every stage of a flush.  Reading never panics and changes no
    file.  It may fail: when a system call
    does, and when it starts inside a buffered extent. *)
Theorem ReadAt_returns_file s ph inode off p :
  store_ok s ph -> in_u64 inode -> iter_complete (ix_db (st_idx s)) ->
  0 <= off -> off + blen p <= 2^32 * ix_stripeSize (st_idx s) ->
  let '(r, s') := Handle_ReadAtCtx inode p off s in
  only_read s s' /\ read_result s inode off p r.
Proof.
  intros. apply (wp_pair (Handle_ReadAtCtx inode p off)
    (fun r s' => only_read s s' /\ read_result s inode off p r)).
  by eapply wp_Handle_ReadAtCtx.
Qed.

(** C40: a read that starts inside a buffered extent, and not at its first
    byte, returns no byte: the locator of the slice carries the sequence number
    of the extent plus the distance, and [CopyOut] takes it for the number.
    Such a read fails until the extent has been flushed. *)
Theorem read_inside_extent_fails s ph inode off p e :
  store_ok s ph -> not_appended ph inode -> in_u64 inode -> iter_complete (ix_db (st_idx s)) ->
  0 <= off -> off + blen p <= 2^32 * ix_stripeSize (st_idx s) ->
  e ∈ buffered s inode -> be_off e < off < be_off e + blen (be_data e) ->
  (forall e', e' ∈ buffered s inode -> ext_at e' off = true -> be_seq e' <= be_seq e) ->
  match (Handle_ReadAtCtx inode p off s).1 with
  | Ok (n, _) => n <= 0
  | Err _ => True
  | Panic => False
  end.
Proof.
  intros Hst Hph Hi Hcomp Ho Hend He Hin Hmax.
  apply (wp_Handle_ReadAtCtx s ph inode off p
    (fun r _ => match r with Ok (n, _) => n <= 0 | Err _ => True | Panic => False end)); try done.
  intros n p' s' _ _ Hstart. destruct (Z.leb_spec n 0) as [|Hn]; [done|].
  specialize (Hstart Hn e He (all_fresh s ph inode e Hst Hph He)).
  rewrite Hstart in Hin; [lia| |done]. apply andb_true_iff. split; [apply Z.leb_le|apply Z.ltb_lt]; lia.
Qed.
End Read.
