(* ===== verification/Durable.v ===== *)
(** * Flushes and Fsync

    The four steps of a flush composed, when nothing comes in between: what
    was buffered is on disk, or the inode is poisoned.  A successful [Fsync]
    makes the file durable: a power loss at any later moment before the next
    flush gives back what readers saw. *)

From S2P Require Import Prelude Keys Kv Fragment Plan Segment Layer Index IndexSpec IndexRead IndexAppend IndexMaint IndexRecover Node Coalescer Store Handle LiveFile LiveWrite LiveFlush LiveTrunc StoreSpec.

Section Durable.
Context {P : Type} {PB : Pebble P} {PL : PebbleLaws P}.
Context {S : Type} {SL : SegLayer S} {SLL : SegLayerLaws S} {MR : MapRange}.
Context {W : Type} {SW : Semaphore W} {SWL : SemaphoreLaws W}.
Implicit Types s : Store P S W.
Implicit Types c : coalescer W.

(** ** The job of a flush *)

(** The end a flush records covers all it writes. *)
Definition flushed_node s s' (inode : Z) : Prop := exists fend mtime,
  in_i64 fend /\ in_i64 mtime /\ node_bumped inode fend mtime (disk s) (disk s') /\
  forall e, e ∈ buffered s inode -> be_off e + blen (be_data e) <= fend.

Lemma built_job s ph inode j :
  store_ok s ph -> ph !! inode = Some (Built j) ->
  in_i64 (fj_end j) /\ in_i64 (fj_mtime j) /\
  forall e, e ∈ batch_exts (batch_flushing s inode) -> be_off e + blen (be_data e) <= fj_end j.
Proof.
  intros (_ & _ & _ & c & Hc & Hco & _) Hph.
  destruct (co_phases _ _ _ Hco _ _ Hph) as [buf Hb]. destruct (co_bufs _ _ _ Hco _ _ Hb) as [_ Hbuf].
  rewrite Hph in Hbuf. destruct (bo_phase _ _ _ _ Hbuf) as (b & Hf & ->).
  destruct (bo_attrs _ _ _ _ Hbuf) as (_ & _ & _ & Hty). destruct (Hty b) as [? ?]; [by right|].
  split_and!; [done..|]. unfold batch_flushing. rewrite Hc, Hb. cbn [mbind option_bind]. rewrite Hf.
  intros e He. apply (bo_end _ _ _ _ Hbuf b); [by right|done].
Qed.

Lemma buffered_split s inode :
  buffered s inode = batch_exts (batch_flushing s inode) ++ current_exts s inode.
Proof.
  unfold buffered, batch_flushing, current_exts. destruct (st_co s) as [c|]; [|done].
  by destruct (co_buffers c !! inode).
Qed.

Lemma buffered_idle s ph inode :
  store_ok s ph -> ph !! inode = None -> buffered s inode = batch_exts (batch_current s inode).
Proof.
  intros (_ & _ & _ & c & Hc & Hco & _) Hph. unfold buffered, batch_current. rewrite Hc.
  destruct (co_buffers c !! inode) as [buf|] eqn:Hb; [|done]. cbn [mbind option_bind].
  destruct (co_bufs _ _ _ Hco _ _ Hb) as [_ Hbuf]. pose proof (bo_phase _ _ _ _ Hbuf) as Hp.
  rewrite Hph in Hp. cbn in Hp. unfold buf_exts. by rewrite Hp.
Qed.

(** ** The settling of a flush that failed and left a set unclean *)

Lemma settle_blind j r s ix :
  flush_settle j r (with_idx ix s) =
    let '(o, s') := flush_settle j r s in (o, with_idx ix s').
Proof.
  unfold flush_settle, bind, co_get, co_put, ret, panic, close_chan, release, of_outcome. cbn [st_co with_idx].
  destruct (st_co s) as [c|]; [|done]. destruct (co_buffers c !! fj_inode j) as [buf|]; [|done].
  destruct (ib_flushing buf) as [b|]; [|done]. unfold bind, co_get, co_put, panic. cbn [st_co with_idx with_co].
  case_bool_decide; [done|]. cbn [st_co with_idx with_co].
  by destruct (sem_release _ _) as [[[]|e|] w].
Qed.

Lemma settle_idx j r s : st_idx (flush_settle j r s).2 = st_idx s.
Proof.
  pose proof (settle_blind j r s (st_idx s)) as E. rewrite with_idx_id in E. rewrite E at 1.
  by destruct (flush_settle j r s).
Qed.

(** The state before the append, for the buffer, when the append has failed. *)
Lemma append_failed s ph inode j e :
  store_ok s ph -> ph !! inode = Some (Built j) -> in_u64 inode ->
  store_ok s (<[inode := Appended j (Err e)]> ph).
Proof.
  intros Hst Hph Hi. pose proof Hst as (Hok & _).
  apply (store_ok_phase s ph _ inode Hst); [by rewrite Hph|by intros; apply lookup_insert_ne|].
  intros c buf _ _ Hbuf. rewrite Hph in Hbuf. rewrite lookup_insert_eq.
  destruct (bo_phase _ _ _ _ Hbuf) as (b & Hf & _).
  apply (buf_ok_appended (st_idx s) (st_idx s) inode buf b j (Err e) None); try done.
  left. split; [by apply idled_refl|done].
Qed.

(** ** The flush *)

Definition flush_done s s' (inode : Z) : Prop :=
  closed s' = list_to_set (batch_chans (batch_current s inode)) ∪ closed s /\
  buffered s' inode = [] /\ (forall i, i <> inode -> buffered s' i = buffered s i) /\
  forall i, i <> inode -> poison s' i = poison s i.

(** The settling, run after the state [sx] that the append left. *)
Lemma wp_settle_after s s1 sx ph inode j r :
  store_ok sx (<[inode := Appended j r]> ph) -> ph !! inode = None -> fj_inode j = inode ->
  st_co sx = st_co s1 -> current_exts s1 inode = [] -> batch_flushing s1 inode = batch_current s inode ->
  closed s1 = closed s -> (forall i, poison s1 i = poison s i) -> (forall i, buffered s1 i = buffered s i) ->
  wp (flush_settle j r) (fun r' s3 => r' = Ok tt /\ store_ok s3 ph /\ st_idx s3 = st_idx sx /\
    (r = Ok tt -> same_view sx s3) /\ flush_done s s3 inode /\
    poison s3 inode = match r with Err e => Err e | _ => poison s inode end) sx.
Proof.
  intros Hst Hph Hj Hco Hcur Hfl Hcl Hpo Hbu.
  apply (wp_flush_settle inode j r sx (<[inode := Appended j r]> ph)); [done|by rewrite lookup_insert_eq|done|].
  intros s3 Hst3 Hix3 Hv3 Hb3 Hl3 Hp3 Hp3' Hc3. rewrite delete_insert_id in Hst3 by done.
  assert (forall i, poison sx i = poison s i) as Hpx by (intros i; rewrite <-Hpo; unfold poison; by rewrite Hco).
  assert (forall i, buffered sx i = buffered s i) as Hbx by (intros i; rewrite <-Hbu; unfold buffered; by rewrite Hco).
  unfold flush_done. split_and!; try done.
  - rewrite Hc3, <-Hfl, <-Hcl. unfold batch_flushing, closed. by rewrite Hco.
  - rewrite Hb3, <-Hcur. unfold current_exts. by rewrite Hco.
  - intros i Hne. by rewrite Hl3, Hbx.
  - intros i Hne. by rewrite Hp3', Hpx.
  - by rewrite Hp3, Hpx.
Qed.

Lemma wp_flushInode inode s ph (Q : outcome unit -> Store P S W -> Prop) :
  store_ok s ph -> ph !! inode = None ->
  (buffered s inode = [] -> Q (Ok tt) s) ->
  (forall s', store_ok s' ph -> same_view s s' -> flush_done s s' inode ->
     poison s' inode = poison s inode -> flushed_node s s' inode -> Q (Ok tt) s') ->
  (forall e s', (sets_clean (st_idx s') -> store_ok s' ph) -> flush_done s s' inode ->
     poison s' inode = Err e -> (forall i x, in_u64 i -> i <> inode -> live s' i x = live s i x) -> Q (Ok tt) s') ->
  wp (flushInode inode) Q s.
Proof.
  intros Hst Hph HN HO HE. unfold flushInode. wp_step.
  apply (wp_flush_swap inode s ph); [done| |].
  { intros Hb. wp_step. apply HN. by apply Hb. }
  intros s1 _ Hst1 Hv1 Hix1 Hi Hcur1 Hfl1 Hcl1 Hpo1 Hbu1. wp_step.
  apply (wp_flush_build inode s1 (<[inode := Swapped]> ph)); [done|by rewrite lookup_insert_eq|]. intros j Hj Hst2.
  rewrite insert_insert_eq in Hst2.
  destruct (built_job _ _ inode j Hst2 ltac:(by rewrite lookup_insert_eq)) as (Hje & Hjm & Hends).
  wp_step. wp_step.
  apply (wp_flush_append inode j s1 (<[inode := Built j]> ph)); [done|by rewrite lookup_insert_eq|done|done|].
  intros r s2 Hco2 Hv2 Hr Hokr Hst3. rewrite insert_insert_eq in Hst3.
  assert (forall sx, store_ok sx (<[inode := Appended j r]> ph) -> st_co sx = st_co s1 ->
    wp (flush_settle j r) (fun r' s3 => r' = Ok tt /\ store_ok s3 ph /\ st_idx s3 = st_idx sx /\
      (r = Ok tt -> same_view sx s3) /\ flush_done s s3 inode /\
      poison s3 inode = match r with Err e => Err e | _ => poison s inode end) sx) as Hset
    by (intros sx ? ?; by apply (wp_settle_after s s1)).
  destruct r as [[]|e|]; [| |done].
  - destruct (Hokr eq_refl) as [Hcl' Hnb]. eapply wp_mono; [by apply (Hset s2); [apply Hst3|]|].
    intros r' s3 (-> & Hst4 & Hix3 & Hv3 & Hd & Hp3). apply HO; [done| |done|done|].
    + intros i x Hix. by rewrite Hv3, Hv2, Hv1.
    + exists (fj_end j), (fj_mtime j). split_and!; [done|done| |].
      * unfold disk. rewrite Hix3, <-Hix1. exact Hnb.
      * intros e. rewrite <-Hbu1, buffered_split, Hcur1, app_nil_r. apply Hends.
  - pose proof (append_failed s1 _ inode j e Hst2 ltac:(by rewrite lookup_insert_eq) Hi) as Hst5.
    rewrite insert_insert_eq in Hst5. set (ix2 := st_idx s2) in *.
    assert (store_ok (with_idx (st_idx s1) s2) (<[inode := Appended j (Err e)]> ph)) as Hst6
      by (unfold store_ok in *; cbn [with_idx st_idx st_co]; by rewrite Hco2).
    pose proof (Hset _ Hst6 Hco2) as Hw'.
    assert (sets_clean ix2 -> store_ok (flush_settle j (Err e) s2).2 ph) as Hclean
      by (intros Hcl2; by destruct (Hset s2 (Hst3 Hcl2) Hco2) as (_ & ? & _)).
    unfold wp in *. rewrite settle_blind in Hw'. 
    pose proof (settle_idx j (Err e) s2) as E2.
    destruct (flush_settle j (Err e) s2) as [r' s3]. cbn [fst snd] in *.
    destruct Hw' as (-> & Hst7 & _ & _ & Hd & Hp).
    apply (HE e); [|done|done|].
    + intros Hcl7. apply Hclean. by rewrite E2 in Hcl7.
    + intros i x Hi' Hne. rewrite <-Hv1, <-Hv2 by done. apply live_eq; [by rewrite E2|].
      destruct Hd as (_ & _ & Hd & _). change (buffered s3 i = buffered s2 i).
      transitivity (buffered s i); [by apply Hd|]. rewrite <-Hbu1. unfold buffered. by rewrite Hco2.
Qed.

(** ** Fsync *)

Definition with_requests (q : list Z) s : Store P S W := with_co (with_queue q <$> st_co s) s.

Definition requests s : list Z := match st_co s with Some c => co_queue c | None => [] end.

Lemma with_requests_ok s ph q : store_ok s ph -> store_ok (with_requests q s) ph.
Proof.
  intros (Hok & Hcl & Hq & c & Hc & [H1 H2 H3] & Hm). split_and!; [done..|]. exists (with_queue q c).
  split_and!; [cbn; by rewrite Hc|by split|done].
Qed.

(** Only the requests differ. *)
Lemma with_requests_same s q :
  (forall i, buffered (with_requests q s) i = buffered s i) /\
  (forall i, poison (with_requests q s) i = poison s i) /\
  closed (with_requests q s) = closed s /\
  (forall i, batch_current (with_requests q s) i = batch_current s i) /\
  st_idx (with_requests q s) = st_idx s.
Proof. unfold buffered, poison, closed, batch_current. cbn. by destruct (st_co s). Qed.

Lemma with_requests_view s q : same_view s (with_requests q s).
Proof. intros i x _. apply live_eq; [done|]. apply with_requests_same. Qed.

(** No request fits the queue. *)
Definition no_queue s : Prop := match st_co s with Some c => op_queueSize (co_opts c) <= 0 | None => False end.

(** What [Fsync] promises. *)
Definition fsynced s s' (ph : gmap Z phase) (inode : Z) (r : outcome unit) : Prop :=
  match r with
  | Ok _ =>
      store_ok s' ph /\ same_view s s' /\ buffered s' inode = [] /\ poison s' inode = Ok tt /\
      (forall i, i <> inode -> buffered s' i = buffered s i) /\
      (buffered s inode = [] /\ disk s' = disk s \/ flushed_node s s' inode)
  | Err e =>
      (sets_clean (st_idx s') -> store_ok s' ph) /\
      (forall i x, in_u64 i -> i <> inode -> live s' i x = live s i x) /\
      (poison s' inode = Err e \/ e = Blocked /\ same_view s s' /\ no_queue s)
  | Panic => False
  end.

Lemma wp_flusherLoop_one inode s (Q : outcome unit -> Store P S W -> Prop) :
  requests s = [inode] -> is_Some (st_co s) ->
  wp (flushInode inode) (fun r s' => r = Ok tt /\ Q (Ok tt) s') (with_requests [] s) ->
  wp flusherLoop Q s.
Proof.
  intros Hr [c Hc] Hw. unfold requests in Hr. unfold with_requests in Hw. rewrite Hc in Hr, Hw. unfold flusherLoop. wp_step.
  apply (wp_co_get s c); [done|]. wp_step. apply wp_co_put. rewrite Hr. cbn [mfor fmap option_fmap option_map] in *.
  wp_step. eapply wp_mono; [exact Hw|]. intros r s' [-> HQ]. by wp_step.
Qed.

(** The wait for the batches, all of them settled. *)
Lemma wp_fsync_wait inode waits s (Q : outcome unit -> Store P S W -> Prop) :
  is_Some (st_co s) -> (forall n, n ∈ waits -> n ∈ closed s) -> Q (poison s inode) s ->
  wp (let* c := co_get in
      if forallb (fun ch => bool_decide (ch ∈ co_closed c)) waits then of_outcome (poison_of inode c)
      else throw Blocked) Q s.
Proof.
  intros [c Hc] Hw HQ. unfold poison, closed in *. rewrite Hc in *. wp_step. apply (wp_co_get s c); [done|].
  assert (forallb (fun ch => bool_decide (ch ∈ co_closed c)) waits = true) as ->.
  { apply forallb_forall. intros n Hn. apply bool_decide_eq_true_2, Hw. by apply list_elem_of_In. }
  by wp_step.
Qed.

(** Without bytes in the current batch nothing is buffered. *)
Lemma no_bytes_buffered s ph inode :
  store_ok s ph -> ph !! inode = None -> has_bytes (batch_current s inode) = false -> buffered s inode = [].
Proof.
  intros Hst Hph Hh. pose proof Hst as (_ & _ & _ & c & Hc & Hco & _). rewrite (buffered_idle s ph) by done.
  unfold batch_current in *. rewrite Hc in *. destruct (co_buffers c !! inode) as [buf|] eqn:Hb; [|done].
  cbn [mbind option_bind] in *. destruct (co_bufs _ _ _ Hco _ _ Hb) as [_ Hbuf].
  pose proof (no_flush _ _ _ _ _ Hco Hb Hph) as Hf. destruct (ib_current buf) as [b|] eqn:Hcur; [|done].
  pose proof (bo_exts _ _ _ _ Hbuf) as Hx. unfold buf_exts in Hx. rewrite Hf, Hcur in Hx. cbn [batch_exts app] in *.
  apply (exts_total_0 _ _ Hx). rewrite <-(bo_current _ _ _ _ Hbuf b Hcur).
  pose proof (exts_total_nonneg (bb_extents b)). rewrite <-(bo_current _ _ _ _ Hbuf b Hcur) in *.
  cbn [has_bytes] in Hh. apply Z.ltb_ge in Hh. lia.
Qed.

Lemma bytes_buffered s ph inode :
  store_ok s ph -> ph !! inode = None -> has_bytes (batch_current s inode) = true -> buffered s inode <> [].
Proof.
  intros Hst Hph Hh. pose proof Hst as (_ & _ & _ & c & Hc & Hco & _). rewrite (buffered_idle s ph) by done.
  unfold batch_current in *. rewrite Hc in *. destruct (co_buffers c !! inode) as [buf|] eqn:Hb; [|done].
  cbn [mbind option_bind] in *. destruct (co_bufs _ _ _ Hco _ _ Hb) as [_ Hbuf].
  destruct (ib_current buf) as [b|] eqn:Hcur; [|done]. pose proof (bo_current _ _ _ _ Hbuf b Hcur) as Hbb.
  cbn [batch_exts has_bytes] in *. intros E. rewrite E in Hbb. rewrite Hbb in Hh. done.
Qed.

(** The flush that [Fsync] asks for, and its wait. *)
Lemma wp_fsync_flush inode s0 s ph (k : M (Store P S W) unit) :
  store_ok s0 ph -> ph !! inode = None -> s = with_requests [inode] s0 -> poison s0 inode = Ok tt ->
  buffered s0 inode <> [] ->
  (forall s' (Q : outcome unit -> Store P S W -> Prop), is_Some (st_co s') ->
     (forall n, n ∈ batch_chans (batch_current s0 inode) -> n ∈ closed s') -> Q (poison s' inode) s' -> wp k Q s') ->
  wp (let* _ := flusherLoop in k) (fun r s' => fsynced s0 s' ph inode r) s.
Proof.
  intros Hst Hph -> Hp Hne Hk. pose proof Hst as (_ & _ & _ & c & Hc & _).
  destruct (with_requests_same s0 []) as (Rb & Rp & Rc & Rx & Rix).
  assert (with_requests [] (with_requests [inode] s0) = with_requests [] s0) as E by (unfold with_requests; cbn; by rewrite Hc).
  wp_step. apply (wp_flusherLoop_one inode); [unfold requests; cbn; by rewrite Hc|cbn; rewrite Hc; by eauto|]. rewrite E.
  apply (wp_flushInode inode _ ph); [by apply with_requests_ok|done|by rewrite Rb| |].
  - intros s' Hst' Hv (Hcl' & Hb' & Hbo & Hpo) Hp' Hn. split; [done|].
    pose proof Hst' as (_ & _ & _ & c' & Hc' & _). rewrite Rp, Hp in Hp'. rewrite Rc, Rx in Hcl'.
    apply Hk; [by eauto|intros n Hn'; rewrite Hcl'; set_solver|]. rewrite Hp'. split_and!; [done| |done|done| |].
    + intros i x Hi. rewrite Hv by done. by apply with_requests_view.
    + intros i Hi. by rewrite Hbo, Rb.
    + right. destruct Hn as (fe & mt & ? & ? & Hnb & He). exists fe, mt. split_and!; [done..|].
      intros e. rewrite <-Rb. apply He.
  - intros e s' Hst' (Hcl' & Hb' & Hbo & Hpo) Hp' Hl. split; [done|]. rewrite Rc, Rx in Hcl'.
    apply Hk; [unfold poison in Hp'; destruct (st_co s'); [by eauto|done]|intros n Hn'; rewrite Hcl'; set_solver|].
    rewrite Hp'. split_and!; [done| |by left]. intros i x Hi Hi'. rewrite Hl by done. by apply with_requests_view.
Qed.

Lemma wp_Fsync inode s ph :
  store_ok s ph -> ph !! inode = None -> requests s = [] ->
  wp (Fsync inode) (fun r s' => fsynced s s' ph inode r) s.
Proof.
  intros Hst Hph Hrq. pose proof Hst as (Hok & Hcl & Hq & c & Hc & Hco & Hm).
  pose proof (no_bytes_buffered s ph inode Hst Hph) as HN. pose proof (bytes_buffered s ph inode Hst Hph) as HY.
  assert (poison s inode = poison_of inode c) as Hps by (unfold poison; by rewrite Hc).
  unfold batch_current in HN, HY. rewrite Hc in HN, HY. unfold poison_of in Hps.
  unfold Fsync. wp_step. apply (wp_co_get s c); [done|].
  destruct (co_buffers c !! inode) as [buf|] eqn:Hb; cbn [mbind option_bind] in HN, HY.
  2: { wp_step. split_and!; try done; [by apply HN|left; split; [by apply HN|done]]. }
  destruct (ib_poisoned buf) as [e|]; [wp_step; split_and!; [done..|by left]|].
  pose proof (no_flush _ _ _ _ _ Hco Hb Hph) as Hf. unfold fsync_snapshot. rewrite Hf. cbn [app].
  destruct (has_bytes (ib_current buf)) eqn:Hhas.
  - destruct (ib_current buf) as [b|] eqn:Hcur; [|done].
    unfold requests in Hrq. rewrite Hc in Hrq. rewrite Hrq.
    destruct (Z.leb_spec (op_queueSize (co_opts c)) (blen (@nil Z))) as [Hfull|_].
    { wp_step. wp_step. split_and!; [done..|right]. split_and!; [done..|]. unfold no_queue. by rewrite Hc. }
    apply wp_bind, wp_bind, wp_co_put.
    eapply (wp_bind_inv flusherLoop), (wp_fsync_flush inode s); [done|done|unfold with_requests; by rewrite Hc|done|by apply HY|].
    intros s' Q Hs' Hn HQ. apply wp_fsync_wait; [done| |done]. intros n Hin. apply Hn.
    unfold batch_current. rewrite Hc, Hb. cbn [mbind option_bind]. by rewrite Hcur.
  - wp_step. wp_step. apply wp_fsync_wait; [by eauto| |].
    + by destruct (ib_current buf); intros n ?%elem_of_nil.
    + rewrite Hps. split_and!; try done; [by apply HN|]. left. split; [by apply HN|done].
Qed.

(** A file with nothing buffered is what the engine holds. *)
Lemma live_on_disk s inode x : buffered s inode = [] -> live s inode x = content (st_idx s) inode x.
Proof. unfold live. by intros ->. Qed.

(** ** The sync of the engine *)

Lemma wp_sync_all cold ix (Q : outcome unit -> Index P S -> Prop) :
  index_ok ix -> (forall r ix', r <> Panic -> kept_clean ix ix' -> Q r ix') -> wp (on_set cold sl_sync_all) Q ix.
Proof.
  intros Hok HQ. pose proof Hok as (Hs & _). apply wp_zoom.
  eapply wp_mono; [by apply lv_sync_all, sets_ok_of|]. intros r s (Hl & Hq & Hc & Hr).
  apply HQ; [by destruct r|]. by apply kept_clean_with_set; [..|apply quiet_grows|].
Qed.

Lemma wp_SyncIdx ix (Q : outcome unit -> Index P S -> Prop) :
  index_ok ix ->
  (forall r ix', r <> Panic -> idled ix ix' 0 (numbers []) -> (sets_clean ix -> sets_clean ix') ->
     contents (ix_db ix') = contents (ix_db ix) -> Q r ix') ->
  wp SyncIdx Q ix.
Proof.
  intros Hok HQ. unfold SyncIdx.
  assert (forall r ix' p, r <> Panic -> kept_clean ix ix' -> contents p = contents (ix_db ix') -> Q r (with_db p ix')) as HK.
  { intros r ix' p Hr [Hk Hcl] Hp. pose proof (kept_index_ok _ _ Hok Hk) as Hok'.
    destruct (with_db_same ix' p) as [Hok2 Hc2]; [done..|].
    pose proof Hk as (_ & [Hss _] & Hdb & Hsq).
    assert (contents (ix_db (with_db p ix')) = contents (ix_db ix)) as E by (cbn; by rewrite Hp, Hdb).
    apply HQ; [done| |done|done].
    split; [|by apply same_numbers]. split_and!; [done|done|].
    intros i x Hi. rewrite Hc2 by done. by apply kept_content. }
  assert (forall ix' : Index P S, with_db (ix_db ix') ix' = ix') as Hid by (by intros []).
  wp_step. apply wp_sync_all; [done|]. intros [[]|e|] ix1 Hr1 Hk1; [| |done].
  2: { rewrite <-(Hid ix1). by apply HK. }
  wp_step. apply wp_sync_all; [by eapply kept_index_ok, Hk1|]. intros [[]|e|] ix2 Hr2 Hk2; [| |done].
  2: { rewrite <-(Hid ix2). apply HK; [done|by transitivity ix1|done]. }
  apply wp_on_db, wp_Batch_Commit.
  - intros p Hp. apply HK; [done|by transitivity ix1|done].
  - intros e p Hp. apply HK; [done|by transitivity ix1|]. by destruct Hp.
Qed.

Lemma engine_idled s ix' ph :
  store_ok s ph -> idled (st_idx s) ix' 0 (numbers []) -> sets_clean ix' ->
  store_ok (with_idx ix' s) ph /\ same_view s (with_idx ix' s).
Proof.
  intros (Hok & Hcl & Hq & c & Hc & Hco & Hm) Hid Hcl'. pose proof Hid as [(Hok' & _ & Hcn) (_ & Hsq & _)].
  split; [|intros i x Hi; apply live_eq; [by apply Hcn|done]].
  split_and!; [done|done|cbn; lia|]. exists c. split_and!; [done| |done].
  eapply co_ok_same; [|done]. intros i Hi. by eapply idled_same.
Qed.

(** ** Durability *)

(** What [Open] makes of a power loss in state [s] is, for [inode], [f]. *)
Definition survives s (inode : Z) (f : Z -> option Z) : Prop :=
  forall now ix0, index_crashed (st_idx s) ix0 -> (forall cold, lv_ordered (set_of cold (st_idx s))) ->
  wp (OpenSets now) (fun r ix => match r with
    | Ok _ => index_ok ix /\ forall x, content ix inode x = f x
    | Err _ => True
    | Panic => False
    end) ix0.

Lemma store_survives s ph inode :
  store_ok s ph -> in_u64 inode -> survives s inode (content (st_idx s) inode).
Proof.
  intros (Hok & Hcl & Hq & _) Hi now ix0 Hcr Hord.
  eapply wp_mono; [apply (wp_OpenSets now (st_idx s)); try done; lia|].
  intros [[]|e|] ix Hr; [|done|done]. destruct Hr as (Hok' & _ & _ & Hc & _). split; [done|]. intros x. by apply Hc.
Qed.

End Durable.
