(* ===== verification/Drain.v ===== *)
(** * Shutting the buffer down

    [Drain] asks every file for an [Fsync] and goes on after an error, whose
    first it returns.  Either every buffered byte reaches the engine, or a
    flush has failed: no file waits for a flush that does not come. *)

From S2P Require Import Prelude Keys Kv Fragment Plan Segment Layer Index IndexSpec IndexRead IndexAppend IndexMaint IndexRecover Node Coalescer Store Handle LiveFile LiveWrite LiveFlush LiveTrunc StoreSpec Durable.

Section Drain.
Context {P : Type} {PB : Pebble P} {PL : PebbleLaws P}.
Context {S : Type} {SL : SegLayer S} {SLL : SegLayerLaws S} {MR : MapRange}.
Context {W : Type} {SW : Semaphore W} {SWL : SemaphoreLaws W}.
Implicit Types s : Store P S W.
Implicit Types c : coalescer W.

(** ** What a flush leaves alone *)

(** The queue, the options and the closing flag; the inodes with a buffer. *)
Definition queue_frame s : option (list Z * coalescerOptions * bool) :=
  (fun c => (co_queue c, co_opts c, co_closing c)) <$> st_co s.

Definition buf_inodes s : gset Z := match st_co s with Some c => dom (co_buffers c) | None => ∅ end.

Definition same_frame s s' : Prop := queue_frame s' = queue_frame s /\ buf_inodes s' = buf_inodes s.

Lemma same_frame_trans s1 s2 s3 : same_frame s1 s2 -> same_frame s2 s3 -> same_frame s1 s3.
Proof. intros [? ?] [? ?]. split; congruence. Qed.

Lemma frame_put c c' s inode buf buf' :
  st_co s = Some c -> co_buffers c !! inode = Some buf ->
  co_queue c' = co_queue c -> co_opts c' = co_opts c -> co_closing c' = co_closing c -> co_buffers c' = co_buffers c ->
  same_frame s (with_co (Some (put_buf inode buf' c')) s).
Proof.
  intros Hc Hb Hq Ho Hcl Hbs. unfold same_frame, queue_frame, buf_inodes. rewrite Hc. cbn.
  rewrite Hq, Ho, Hcl, Hbs. split; [done|]. rewrite dom_insert_L.
  assert (inode ∈ dom (co_buffers c)) by (apply elem_of_dom; by rewrite Hb). set_solver.
Qed.

Lemma frame_swap inode s : same_frame s (flush_swap inode s).2.
Proof.
  unfold flush_swap, bind, co_get, co_put, ret, panic. destruct (st_co s) as [c|] eqn:Hc; [|done].
  destruct (co_buffers c !! inode) as [buf|] eqn:Hb; [|done]. destruct (ib_flushing buf); [done|].
  destruct (is_idle (ib_current buf)); [done|]. cbn [newBufBatch snd]. by eapply frame_put.
Qed.

Lemma frame_build inode s : same_frame s (flush_build inode s).2.
Proof.
  unfold flush_build, bind, co_get, ret, panic. destruct (st_co s) as [c|]; [|done].
  destruct (co_buffers c !! inode) as [buf|]; [|done]. by destruct (ib_flushing buf).
Qed.

Lemma frame_on_idx {A} (m : M (Index P S) A) s : same_frame s (on_idx m s).2.
Proof. unfold on_idx, zoom. by destruct (m (st_idx s)). Qed.

Lemma frame_release n s : same_frame s (release n s).2.
Proof.
  unfold release, bind, co_get, co_put, panic, of_outcome. destruct (st_co s) as [c|] eqn:Hc; [|done].
  destruct (sem_release n (co_sem c)) as [r w]. unfold same_frame, queue_frame, buf_inodes. by rewrite Hc.
Qed.

Lemma frame_settle j r s : same_frame s (flush_settle j r s).2.
Proof.
  unfold flush_settle, bind at 1, co_get at 1. destruct (st_co s) as [c|] eqn:Hc; [|done].
  destruct (co_buffers c !! fj_inode j) as [buf|] eqn:Hb; [|done]. destruct (ib_flushing buf) as [b|]; [|done].
  unfold bind at 1, co_put at 1. set (s1 := with_co _ s).
  assert (same_frame s s1) as H1 by by eapply frame_put.
  unfold bind, close_chan, co_get, co_put, panic. cbn [s1 with_co st_co]. unfold bind. cbn.
  case_bool_decide; [done|]. set (s2 := with_co _ _).
  eapply same_frame_trans; [|apply (frame_release (bb_bytes b) s2)]. done.
Qed.

Lemma frame_flushInode inode s : same_frame s (flushInode inode s).2.
Proof.
  unfold flushInode, bind at 1. pose proof (frame_swap inode s) as H1.
  destruct (flush_swap inode s) as [[b|e|] s1]; cbn [snd] in H1; [|done..]. destruct b; [|done].
  unfold bind at 1. pose proof (frame_build inode s1) as H2.
  destruct (flush_build inode s1) as [[j|e|] s2]; cbn [snd] in H2; [|by eapply same_frame_trans..].
  unfold bind, try. pose proof (frame_on_idx (AppendBatchCtx (fj_inode j) (fj_ae j) (Some (flush_hook (fj_inode j) (fj_end j) (fj_mtime j)))) s2) as H3.
  change (on_idx _ s2) with (flush_append j s2) in H3.
  assert (same_frame s s2) as H02 by by eapply same_frame_trans.
  destruct (flush_append j s2) as [r s3]; cbn [snd] in H3. assert (same_frame s s3) as H03 by by eapply same_frame_trans.
  destruct r as [[]|e|]; [| |done]; (eapply same_frame_trans; [exact H03|apply frame_settle]).
Qed.

(** ** One [Fsync] of a drain *)

(** Ready for the next: nothing queued, room for a request. *)
Definition ready s : Prop := exists o b, queue_frame s = Some ([], o, b) /\ 0 < op_queueSize o.

Lemma ready_requests s : ready s -> requests s = [].
Proof. intros (o & b & E & _). unfold queue_frame, requests in *. destruct (st_co s) as [c|]; [|done]. by injection E as -> _ _. Qed.

Definition closing s : bool := match st_co s with Some c => co_closing c | None => false end.

Lemma frame_queue q c s : st_co s = Some c -> buf_inodes (with_co (Some (with_queue q c)) s) = buf_inodes s.
Proof. intros Hc. unfold buf_inodes. by rewrite Hc. Qed.

(** The frame after [Fsync] and that it does not wait for ever. *)
Lemma Fsync_frame inode s :
  ready s -> let '(r, s') := Fsync inode s in
  (r <> Panic -> ready s' /\ buf_inodes s' = buf_inodes s /\ closing s' = closing s).
Proof.
  intros (o & b & E & Ho). pose proof E as E0. unfold queue_frame in E. destruct (st_co s) as [c|] eqn:Hc; [|done].
  cbn in E. injection E as Eq Eo Eb.
  assert (ready s) as Hr by (by exists o, b).
  unfold Fsync, bind at 1, co_get at 1. rewrite Hc.
  destruct (co_buffers c !! inode) as [buf|]; [|done]. destruct (ib_poisoned buf); [done|].
  destruct (fsync_snapshot buf) as [waits need]. unfold bind at 1. destruct need.
  2: { unfold ret, bind, co_get. rewrite Hc. destruct (forallb _ _); unfold of_outcome, throw; done. }
  rewrite Eq, Eo. destruct (Z.leb_spec (op_queueSize o) (blen (@nil Z))) as [Hz|_]; [unfold blen in Hz; cbn in Hz; lia|].
  unfold bind at 1, co_put at 1. set (s1 := with_co _ s).
  unfold flusherLoop, bind at 1, co_get at 1. cbn [s1 with_co st_co].
  unfold bind at 1, co_put at 1. cbn [with_queue co_queue app]. set (s2 := with_co _ _).
  assert (queue_frame s2 = Some ([], o, b) /\ buf_inodes s2 = buf_inodes s) as [F2 B2].
  { unfold queue_frame, buf_inodes. cbn. rewrite Hc, Eo, Eb. done. }
  cbn [mfor]. unfold bind at 1. destruct (frame_flushInode inode s2) as [F3 B3].
  destruct (flushInode inode s2) as [[[]|e|] s3]; cbn [snd] in F3, B3; [| |done].
  - assert (ready s3 /\ buf_inodes s3 = buf_inodes s /\ closing s3 = closing s) as Hdone.
    { split; [exists o, b; by rewrite F3, F2|]. split; [congruence|]. unfold closing. rewrite F2 in F3. unfold queue_frame in F3.
      destruct (st_co s3); [|done]. injection F3 as _ _ ->. by rewrite Hc, Eb. }
    unfold ret, bind, co_get. destruct (st_co s3); [|done]. destruct (forallb _ _); unfold of_outcome, throw; by intros _.
  - intros _. split; [exists o, b; by rewrite F3, F2|]. split; [congruence|]. unfold closing. rewrite F2 in F3. unfold queue_frame in F3.
    destruct (st_co s3); [|done]. injection F3 as _ _ ->. by rewrite Hc, Eb.
Qed.

(** ** The drain *)

Definition drain_one (firstErr : outcome unit) (ino : Z) : M (Store P S W) (outcome unit) :=
  let* r := try (Fsync ino) in
  ret match firstErr, r with Ok _, Err e => Err e | _, _ => firstErr end.

(** Some flush has failed. *)
Definition flush_failed : Prop :=
  exists i e s1 s2, Fsync i s1 = (Err e, s2) /\ poison s2 i = Err e.

(** Once it has an error, a drain ends in an error. *)
Lemma drain_after_error l e : forall s, exists r s', mfold drain_one (Err e) l s = (r, s') /\ (r = Ok (Err e) \/ r = Panic).
Proof.
  induction l as [|i l IH]; intros s; cbn [mfold]; [by eexists _, _; split; [|left]|].
  unfold bind at 1, drain_one at 1, bind at 1, try. destruct (Fsync i s) as [[[]|e'|] s1]; [apply IH..|]. by eexists _, _; split; [|right].
Qed.

Definition drained s s' (l : list Z) : Prop :=
  store_ok s' ∅ /\ same_view s s' /\ ready s' /\ closing s' = closing s /\ buf_inodes s' = buf_inodes s /\
  (forall i, i ∈ l -> buffered s' i = []) /\ (forall i, buffered s i = [] -> buffered s' i = []).

Lemma drain_loop l : forall s, store_ok s ∅ -> ready s ->
  let '(r, s') := mfold drain_one (Ok tt) l s in
  r = Ok (Ok tt) /\ drained s s' l \/ r <> Ok (Ok tt) /\ flush_failed.
Proof.
  induction l as [|i l IH]; intros s Hst Hr; cbn [mfold].
  { left. split; [done|]. do 5 (split; [done|]). split; [|done]. by intros i ?%elem_of_nil. }
  pose proof (wp_Fsync i s ∅ Hst (lookup_empty i) (ready_requests s Hr)) as Hw. unfold wp in Hw.
  pose proof (Fsync_frame i s Hr) as Hf.
  unfold bind at 1, drain_one at 1, bind at 1, try. destruct (Fsync i s) as [[[]|e|] s1] eqn:E; cbn [fst snd] in Hw; [| |done].
  - destruct Hf as (Hr1 & B1 & C1); [done|]. destruct Hw as (Hst1 & Hv1 & Hb1 & _ & Ho1 & _).
    unfold ret. specialize (IH s1 Hst1 Hr1). fold drain_one. destruct (mfold drain_one (Ok tt) l s1) as [r s'].
    destruct IH as [[-> (Hst2 & Hv2 & Hr2 & C2 & B2 & Hl2 & Hk2)]|]; [left|by right]. split; [done|].
    split_and!; [done| |done|congruence|congruence| |].
    + intros j x Hj. by rewrite Hv2, Hv1.
    + intros j [->|Hj]%elem_of_cons; [by apply Hk2|by apply Hl2].
    + intros j Hj. apply Hk2. destruct (decide (j = i)) as [->|Hne]; [done|by rewrite Ho1].
  - unfold ret. cbv beta iota. destruct (drain_after_error l e s1) as (r & s' & -> & Hr'). right.
    split; [by destruct Hr' as [-> | ->]|]. exists i, e, s, s1. split; [done|].
    destruct Hw as (_ & _ & [Hp|(-> & _ & Hq)]); [done|exfalso].
    destruct Hr as (o & b & Ef & Ho). unfold queue_frame, no_queue in *. destruct (st_co s) as [c|]; [|done].
    cbn in Ef. injection Ef as _ Eo _. rewrite Eo in Hq. lia.
Qed.

Lemma buffered_member s i : i ∉ buf_inodes s -> buffered s i = [].
Proof.
  unfold buf_inodes, buffered. destruct (st_co s) as [c|]; [|done]. intros Hi%not_elem_of_dom. by rewrite Hi.
Qed.

End Drain.
