(* ===== verification/Fs.v ===== *)
(** * The directory tree, abstractly

    A file system is a map of nodes, a map of directory entries and the next
    free inode number.  Each operation of the file API is a pure function from
    a file system to its result, the changes it commits at once, and the inode
    it frees; [fs_ok] is the invariant of the tree, and every operation keeps
    it.  Tree.v shows that the code implements these functions. *)

From S2P Require Import Prelude Keys Node.

Record fs : Type := mkFs {
  fs_nodes : gmap Z Node;
  fs_entries : gmap (Z * bytes) Z;
  fs_next : Z;
}.

(** ** Changes *)

Inductive fop : Type :=
  | FNode (n : Node)
  | FFree (i : Z)
  | FEntry (parent : Z) (name : bytes) (child : Z)
  | FRemove (parent : Z) (name : bytes)
  | FNext (next : Z).

Definition apply_fop (f : fs) (o : fop) : fs :=
  match o with
  | FNode n => mkFs (<[nd_Inode n := n]> (fs_nodes f)) (fs_entries f) (fs_next f)
  | FFree i => mkFs (delete i (fs_nodes f)) (fs_entries f) (fs_next f)
  | FEntry p name c => mkFs (fs_nodes f) (<[(p, name) := c]> (fs_entries f)) (fs_next f)
  | FRemove p name => mkFs (fs_nodes f) (delete (p, name) (fs_entries f)) (fs_next f)
  | FNext n => mkFs (fs_nodes f) (fs_entries f) n
  end.

Definition apply_fops (ops : list fop) (f : fs) : fs := foldl apply_fop f ops.

(** What an operation does when it succeeds: its result, its changes and the
    inode whose content goes. *)
Record plan (A : Type) : Type := mkPlan {
  pl_result : A;
  pl_ops : list fop;
  pl_free : option Z;
}.
Arguments mkPlan {A}.
Arguments pl_result {A}.
Arguments pl_ops {A}.
Arguments pl_free {A}.

(** ** The operations *)

Definition guard (b : bool) (e : error) : outcome unit := if b then Ok tt else Err e.

Definition new_node (id mode nlink uid gid size now : Z) (target : bytes) : Node :=
  mkNode id mode nlink uid gid size now now now target.

Definition add_links (k now : Z) (n : Node) : Node := set_Ctime now (set_Nlink (u32 (nd_Nlink n + k)) n).

Section Ops.
Variable live : Z -> option (Z * Z).     (* the buffered size and time of an inode *)
Implicit Types f : fs.

Definition fs_stat f (i : Z) : outcome Node :=
  match fs_nodes f !! i with
  | Some n => Ok (merge_live (live i) n)
  | None => Err ErrNotExist
  end.

Definition fs_dir f (i : Z) : outcome Node :=
  let? n := fs_stat f i in
  let? _ := guard (IsDir (nd_Mode n)) ErrNotDir in Ok n.

Definition fs_child f (parent : Z) (name : bytes) : outcome (Z * Node) :=
  match fs_entries f !! (parent, name) with
  | None => Err ErrNotExist
  | Some c => match fs_stat f c with Ok n => Ok (c, n) | _ => Err dangling end
  end.

Definition fs_lookup f (parent : Z) (name : bytes) : outcome Node :=
  let? _ := validName name in
  let? cn := fs_child f parent name in Ok cn.2.

Definition fs_unused f (parent : Z) (name : bytes) : outcome unit :=
  match fs_entries f !! (parent, name) with Some _ => Err ErrExist | None => Ok tt end.

(** A new node, linked into its parent. *)
Definition link_new f (parent : Z) (name : bytes) (n : Node) (more : list fop) : outcome (plan Node) :=
  Ok (mkPlan n (FNext (u64 (fs_next f + 1)) :: FNode n :: FEntry parent name (nd_Inode n) :: more) None).

Definition fs_create f (t : nat -> Z) (parent : Z) (name : bytes) (mode uid gid : Z) : outcome (plan Node) :=
  let? _ := validName name in
  let? _ := fs_dir f parent in
  let? _ := fs_unused f parent name in
  link_new f parent name
    (new_node (fs_next f) (Z.lor ModeRegular (Z.land mode PermMask)) 1 uid gid 0 (t O) []) [].

Definition fs_mkdir f (t : nat -> Z) (parent : Z) (name : bytes) (mode uid gid : Z) : outcome (plan Node) :=
  let? _ := validName name in
  let? pn := fs_dir f parent in
  let? _ := fs_unused f parent name in
  link_new f parent name
    (new_node (fs_next f) (Z.lor ModeDir (Z.land mode PermMask)) 2 uid gid 0 (t O) [])
    [FNode (add_links 1 (t O) pn)].

Definition fs_symlink f (t : nat -> Z) (parent : Z) (name target : bytes) (uid gid : Z) : outcome (plan Node) :=
  let? _ := validName name in
  let? _ := fs_dir f parent in
  let? _ := fs_unused f parent name in
  link_new f parent name
    (new_node (fs_next f) (Z.lor ModeSymlink 511) 1 uid gid (blen target) (t O) target) [].

Definition fs_link f (t : nat -> Z) (target parent : Z) (name : bytes) : outcome (plan Node) :=
  let? _ := validName name in
  let? tn := fs_stat f target in
  let? _ := guard (negb (IsDir (nd_Mode tn))) EPERM in
  let? _ := fs_dir f parent in
  let? _ := fs_unused f parent name in
  let n := add_links 1 (t O) tn in
  Ok (mkPlan n [FNode n; FEntry parent name target] None).

(** One link fewer; the node goes with the last one. *)
Definition unlink_node (i now : Z) (n : Node) : fop * option Z :=
  let n := add_links (-1) now n in
  if nd_Nlink n =? 0 then (FFree i, Some i) else (FNode n, None).

Definition fs_unlink f (t : nat -> Z) (parent : Z) (name : bytes) : outcome (plan unit) :=
  let? _ := validName name in
  let? cn := fs_child f parent name in
  let? _ := guard (negb (IsDir (nd_Mode cn.2))) ErrIsDir in
  let uf := unlink_node cn.1 (t O) cn.2 in
  Ok (mkPlan tt [FRemove parent name; uf.1] uf.2).

Definition fs_empty f (i : Z) : bool :=
  bool_decide (filter (fun kv : Z * bytes * Z => kv.1.1 = i) (fs_entries f) = ∅).

Definition fs_rmdir f (t : nat -> Z) (parent : Z) (name : bytes) : outcome (plan unit) :=
  let? _ := validName name in
  let? cn := fs_child f parent name in
  let? _ := guard (IsDir (nd_Mode cn.2)) ErrNotDir in
  let? _ := guard (fs_empty f cn.1) ErrNotEmpty in
  let? pn := fs_stat f parent in
  Ok (mkPlan tt [FRemove parent name; FFree cn.1; FNode (add_links (-1) (t O) pn)] None).

(** The directory that holds [i]. *)
Definition fs_parent f (i : Z) : option Z :=
  match list_find (fun kv => kv.2 = i) (map_to_list (fs_entries f)) with
  | Some (_, kv) => Some kv.1.1
  | None => None
  end.

(** Is [root] met on the way up from [cur]?  The climb gives up after [fuel] steps. *)
Fixpoint fs_climb (fuel : nat) f (cur root : Z) : bool :=
  match fuel with
  | O => false
  | S fuel =>
      if cur =? RootInode then false
      else
        match fs_parent f cur with
        | None => false
        | Some p => if p =? root then true else fs_climb fuel f p root
        end
  end.

Definition fs_under f (i root : Z) : bool := (i =? root) || fs_climb 1000 f i root.

(** The entry that a rename replaces: its changes, the inode it frees, and the
    readings of the clock it used. *)
Definition fs_replace f (t : nat -> Z) (src : Node) (newParent : Z) (dst : Z) : outcome (list fop * option Z * nat) :=
  match fs_stat f dst with
  | Ok dn =>
      let? _ := guard (Bool.eqb (IsDir (nd_Mode src)) (IsDir (nd_Mode dn)))
                  (if IsDir (nd_Mode src) then ErrNotDir else ErrIsDir) in
      if IsDir (nd_Mode dn) then
        let? _ := guard (fs_empty f dst) ErrNotEmpty in
        let? np := fs_stat f newParent in
        Ok ([FFree dst; FNode (add_links (-1) (t O) np)], None, 1)%nat
      else
        let uf := unlink_node dst (t O) dn in Ok ([uf.1], uf.2, 1)%nat
  | _ => Err dangling
  end.

(** A directory that changes parents takes its [..] link along. *)
Definition fs_relink f (t0 t1 : Z) (src : Node) (oldParent newParent : Z) : outcome (list fop) :=
  if IsDir (nd_Mode src) && negb (oldParent =? newParent) then
    let? op := fs_stat f oldParent in
    let? np := fs_stat f newParent in
    Ok [FNode (add_links (-1) t0 op); FNode (add_links 1 t1 np)]
  else Ok [].

Definition fs_rename f (t : nat -> Z) (oldParent : Z) (oldName : bytes) (newParent : Z) (newName : bytes)
    : outcome (plan unit) :=
  let? _ := validName oldName in
  let? _ := validName newName in
  let? src := fs_child f oldParent oldName in
  let? _ := fs_dir f newParent in
  let? _ := guard (negb (IsDir (nd_Mode src.2) && fs_under f newParent src.1)) ErrInvalid in
  let dst := fs_entries f !! (newParent, newName) in
  if bool_decide (dst = Some src.1) then Ok (mkPlan tt [] None)
  else
    let? rep := match dst with
                | Some d => fs_replace f t src.2 newParent d
                | None => Ok ([], None, O)
                end in
    let? links := fs_relink f (t rep.2) (t (S rep.2)) src.2 oldParent newParent in
    Ok (mkPlan tt (rep.1.1 ++ [FRemove oldParent oldName; FEntry newParent newName src.1] ++ links) rep.1.2).

Definition fs_setattr f (t : nat -> Z) (i : Z) (sa : SetAttr) : outcome (plan Node) :=
  let? n := fs_stat f i in
  let nn := apply_attr sa (t O) n in
  Ok (mkPlan nn [FNode nn] None).

Definition fs_readlink f (i : Z) : outcome bytes :=
  let? n := fs_stat f i in
  let? _ := guard (IsSymlink (nd_Mode n)) ErrInvalid in Ok (nd_SymlinkTarget n).
(** ** The calls that change the tree *)

Inductive call : Type :=
  | CCreate (parent : Z) (name : bytes) (mode uid gid : Z)
  | CMkdir (parent : Z) (name : bytes) (mode uid gid : Z)
  | CSymlink (parent : Z) (name target : bytes) (uid gid : Z)
  | CLink (target parent : Z) (name : bytes)
  | CUnlink (parent : Z) (name : bytes)
  | CRmdir (parent : Z) (name : bytes)
  | CRename (oldParent : Z) (oldName : bytes) (newParent : Z) (newName : bytes).

Definition some_node (p : outcome (plan Node)) : outcome (plan (option Node)) :=
  let? p := p in Ok (mkPlan (Some (pl_result p)) (pl_ops p) (pl_free p)).
Definition no_node (p : outcome (plan unit)) : outcome (plan (option Node)) :=
  let? p := p in Ok (mkPlan None (pl_ops p) (pl_free p)).

Definition spec f (t : nat -> Z) (c : call) : outcome (plan (option Node)) :=
  match c with
  | CCreate p n m u g => some_node (fs_create f t p n m u g)
  | CMkdir p n m u g => some_node (fs_mkdir f t p n m u g)
  | CSymlink p n tg u g => some_node (fs_symlink f t p n tg u g)
  | CLink i p n => some_node (fs_link f t i p n)
  | CUnlink p n => no_node (fs_unlink f t p n)
  | CRmdir p n => no_node (fs_rmdir f t p n)
  | CRename op on np nn => no_node (fs_rename f t op on np nn)
  end.
End Ops.

(** ** The invariant *)

(** The number of entries that point to [i]. *)
Definition links (f : fs) (i : Z) : nat := size (filter (fun kv : Z * bytes * Z => kv.2 = i) (fs_entries f)).

Definition is_dir (f : fs) (i : Z) : Prop := exists n, fs_nodes f !! i = Some n /\ IsDir (nd_Mode n) = true.

(** The invariant, but for [d] links of [i]: the root is a directory; node
    numbers are below the counter; every entry lies in a directory, has a
    proper name and points to a node; a file counts its links and has at least
    one; a directory has one entry, the root none. *)
Record fs_but (f : fs) (i : Z) (d : Z) : Prop := {
  fo_root : is_dir f RootInode;
  fo_node : forall j n, fs_nodes f !! j = Some n -> nd_Inode n = j /\ 0 < j < fs_next f;
  fo_entry : forall p name c, fs_entries f !! (p, name) = Some c ->
    validName name = Ok tt /\ is_dir f p /\ is_Some (fs_nodes f !! c);
  fo_file : forall j n, fs_nodes f !! j = Some n -> IsDir (nd_Mode n) = false ->
    0 < nd_Nlink n /\ Z.of_nat (links f j) = nd_Nlink n + if j =? i then d else 0;
  fo_dir : forall j n, fs_nodes f !! j = Some n -> IsDir (nd_Mode n) = true ->
    Z.of_nat (links f j) = (if j =? RootInode then 0 else 1) + if j =? i then d else 0;
}.

Definition fs_ok (f : fs) : Prop := fs_but f RootInode 0.

(** There is room for one more node and one more link. *)
Definition fs_room (f : fs) : Prop := fs_next f + 1 < 2^64 /\ Z.of_nat (size (fs_entries f)) + 1 < 2^32.
