(* ===== verification/FsInv.v ===== *)
(** * The directory tree: every operation keeps the invariant *)

From S2P Require Import Prelude Keys Node Fs.

Implicit Types f : fs.

(** ** Counting links *)

Lemma links_add f p name c i :
  fs_entries f !! (p, name) = None ->
  links (apply_fop f (FEntry p name c)) i = (links f i + if decide (c = i) then 1 else 0)%nat.
Proof.
  intros Hn. unfold links. cbn [apply_fop fs_entries]. rewrite map_filter_insert. cbn [snd].
  destruct (decide (c = i)) as [->|Hne].
  - rewrite map_size_insert_None; [lia|]. apply map_lookup_filter_None. by left.
  - rewrite delete_id by done. lia.
Qed.

Lemma links_del f p name c i :
  fs_entries f !! (p, name) = Some c ->
  (links (apply_fop f (FRemove p name)) i + (if decide (c = i) then 1 else 0))%nat = links f i.
Proof.
  intros Hs. set (f' := apply_fop f (FRemove p name)).
  assert (links f i = links (apply_fop f' (FEntry p name c)) i) as ->.
  { unfold links. cbn [apply_fop f' fs_entries]. by rewrite insert_delete_id. }
  rewrite links_add; [done|]. apply lookup_delete_eq.
Qed.

Lemma links_pos f p name c : fs_entries f !! (p, name) = Some c -> (0 < links f c)%nat.
Proof. intros Hs. pose proof (links_del f p name c c Hs) as E. rewrite decide_True in E by done. lia. Qed.

Lemma links_none f i k : links f i = O -> fs_entries f !! k <> Some i.
Proof. destruct k as [p name]. intros Hl Hs. pose proof (links_pos f p name i Hs). lia. Qed.

(** The only entry that points to [i]. *)
Lemma links_unique f i k k' :
  links f i = 1%nat -> fs_entries f !! k = Some i -> fs_entries f !! k' = Some i -> k = k'.
Proof.
  destruct k as [p name], k' as [p' name']. intros Hl Hs Hs'. destruct (decide ((p, name) = (p', name'))) as [|Hne]; [done|].
  pose proof (links_del f p name i i Hs) as E. rewrite decide_True in E by done.
  assert (fs_entries (apply_fop f (FRemove p name)) !! (p', name') = Some i) as H1
    by (cbn [apply_fop fs_entries]; by rewrite lookup_delete_ne).
  pose proof (links_pos _ _ _ _ H1). lia.
Qed.

Lemma links_entries f f' i : fs_entries f' = fs_entries f -> links f' i = links f i.
Proof. unfold links. by intros ->. Qed.

(** ** Facts of the invariant *)

Lemma but_any f i j : fs_but f i 0 -> fs_but f j 0.
Proof.
  intros [H1 H2 H3 H4 H5]. split; [done..| |].
  - intros k n Hk Hd. destruct (H4 k n Hk Hd) as [? E]. split; [done|]. rewrite E. by destruct (k =? i), (k =? j).
  - intros k n Hk Hd. rewrite (H5 k n Hk Hd). by destruct (k =? i), (k =? j).
Qed.

Section Facts.
Context (f : fs) (Hok : fs_ok f).

Lemma file_links i n : fs_nodes f !! i = Some n -> IsDir (nd_Mode n) = false ->
  0 < nd_Nlink n /\ Z.of_nat (links f i) = nd_Nlink n.
Proof. intros Hn Hd. destruct (fo_file _ _ _ Hok _ _ Hn Hd) as [? E]. destruct (i =? RootInode); lia. Qed.

Lemma dir_links i n : fs_nodes f !! i = Some n -> IsDir (nd_Mode n) = true ->
  links f i = if i =? RootInode then O else 1%nat.
Proof. intros Hn Hd. pose proof (fo_dir _ _ _ Hok _ _ Hn Hd) as E. destruct (i =? RootInode); lia. Qed.

Lemma entry_node p name c : fs_entries f !! (p, name) = Some c -> exists n, fs_nodes f !! c = Some n.
Proof. intros He. by apply (fo_entry _ _ _ Hok) in He as (_ & _ & ?). Qed.

Lemma entry_dir p name c : fs_entries f !! (p, name) = Some c -> is_dir f p.
Proof. intros He. by apply (fo_entry _ _ _ Hok) in He as (_ & ? & _). Qed.

(** A directory is in one place only. *)
Lemma dir_once p name p' name' c :
  is_dir f c -> fs_entries f !! (p, name) = Some c -> fs_entries f !! (p', name') = Some c -> (p, name) = (p', name').
Proof.
  intros (n & Hn & Hd) H1 H2. eapply links_unique; [|done|done].
  pose proof (dir_links _ _ Hn Hd) as Hl. pose proof (links_pos _ _ _ _ H1). by destruct (c =? RootInode); [lia|].
Qed.

Lemma root_unlinked p name : fs_entries f !! (p, name) <> Some RootInode.
Proof. destruct (fo_root _ _ _ Hok) as (n & Hn & Hd). apply links_none. by rewrite (dir_links _ _ Hn Hd). Qed.

Lemma fresh_node : fs_nodes f !! fs_next f = None.
Proof. destruct (fs_nodes f !! fs_next f) as [n|] eqn:E; [|done]. apply (fo_node _ _ _ Hok) in E. lia. Qed.

Lemma unlinked i : fs_nodes f !! i = None -> links f i = O.
Proof.
  intros Hn. destruct (decide (links f i = O)) as [|Hne]; [done|]. exfalso.
  unfold links in Hne. apply map_size_non_empty_iff, map_choose in Hne as ([p name] & c & Hl).
  apply map_lookup_filter_Some in Hl as [He Hc]. cbn in Hc. subst c.
  destruct (entry_node _ _ _ He) as [n Hn']. congruence.
Qed.

Lemma empty_dir i p name c : fs_empty f i = true -> fs_entries f !! (p, name) = Some c -> p <> i.
Proof.
  unfold fs_empty. intros Hb%bool_decide_eq_true_1 He ->.
  assert (filter (fun kv : Z * bytes * Z => kv.1.1 = i) (fs_entries f) !! (i, name) = Some c) as Hl
    by (apply map_lookup_filter_Some; done).
  by rewrite Hb, lookup_empty in Hl.
Qed.
End Facts.

Lemma links_size f i : (links f i <= size (fs_entries f))%nat.
Proof. unfold links. apply map_subseteq_size, map_filter_subseteq. Qed.

(** ** Single changes *)

Lemma but_next f i d n : fs_but f i d -> fs_next f <= n -> fs_but (apply_fop f (FNext n)) i d.
Proof.
  intros [H1 H2 H3 H4 H5] Hn. split; [done| |done..].
  intros j nj Hj. destruct (H2 j nj Hj). cbn. split; [done|lia].
Qed.

(** One more entry for [c]. *)
Lemma but_entry f p name c d :
  fs_but f c d -> fs_entries f !! (p, name) = None -> validName name = Ok tt -> is_dir f p ->
  is_Some (fs_nodes f !! c) -> fs_but (apply_fop f (FEntry p name c)) c (d + 1).
Proof.
  intros [H1 H2 H3 H4 H5] He Hv Hp Hc. split; [done|done| | |].
  - intros q nm c'. cbn. destruct (decide ((q, nm) = (p, name))) as [[= -> ->]|Hne].
    + rewrite lookup_insert_eq. by intros [= <-].
    + rewrite lookup_insert_ne by done. apply H3.
  - intros j n Hj Hd. rewrite links_add by done. destruct (H4 j n Hj Hd) as [? E]. split; [done|].
    destruct (Z.eqb_spec j c), (decide (c = j)); try congruence; lia.
  - intros j n Hj Hd. rewrite links_add by done. pose proof (H5 j n Hj Hd) as E.
    destruct (Z.eqb_spec j c), (decide (c = j)); try congruence; lia.
Qed.

(** One entry fewer. *)
Lemma but_remove f p name c d :
  fs_but f c d -> fs_entries f !! (p, name) = Some c -> fs_but (apply_fop f (FRemove p name)) c (d - 1).
Proof.
  intros [H1 H2 H3 H4 H5] He. split; [done|done| | |].
  - intros q nm c'. cbn. intros [_ Hl]%lookup_delete_Some. by apply H3 in Hl.
  - intros j n Hj Hd. pose proof (links_del f p name c j He) as Hk. destruct (H4 j n Hj Hd) as [? E]. split; [done|].
    destruct (Z.eqb_spec j c), (decide (c = j)); try congruence; lia.
  - intros j n Hj Hd. pose proof (links_del f p name c j He) as Hk. pose proof (H5 j n Hj Hd) as E.
    destruct (Z.eqb_spec j c), (decide (c = j)); try congruence; lia.
Qed.

Lemma node_lookup f n j nj :
  fs_nodes (apply_fop f (FNode n)) !! j = Some nj ->
  j = nd_Inode n /\ nj = n \/ j <> nd_Inode n /\ fs_nodes f !! j = Some nj.
Proof. cbn. intros [[<- <-]|[? ?]]%lookup_insert_Some; auto. Qed.

Lemma node_is_some f n j : is_Some (fs_nodes f !! j) -> is_Some (fs_nodes (apply_fop f (FNode n)) !! j).
Proof. intros [x Hx]. cbn. destruct (decide (nd_Inode n = j)) as [->|]; [rewrite lookup_insert_eq|rewrite lookup_insert_ne by done]; eauto. Qed.

(** A node written again, of the same kind. *)
Lemma but_node f n n0 d d' :
  fs_but f (nd_Inode n) d -> fs_nodes f !! nd_Inode n = Some n0 -> IsDir (nd_Mode n) = IsDir (nd_Mode n0) ->
  (IsDir (nd_Mode n) = false -> 0 < nd_Nlink n) ->
  d' = (if IsDir (nd_Mode n) then d else d + nd_Nlink n0 - nd_Nlink n) ->
  fs_but (apply_fop f (FNode n)) (nd_Inode n) d'.
Proof.
  intros [H1 H2 H3 H4 H5] Hn Hk Hl ->.
  assert (forall j, is_dir f j -> is_dir (apply_fop f (FNode n)) j) as Hdir.
  { intros j (nj & Hj & Hd). unfold is_dir. cbn. destruct (decide (nd_Inode n = j)) as [<-|].
    - rewrite lookup_insert_eq. exists n. split; [done|]. rewrite Hk. congruence.
    - rewrite lookup_insert_ne by done. eauto. }
  split; [by apply Hdir| | | |].
  - intros j nj [[-> ->]|[_ Hj]]%node_lookup; [|by apply H2]. by apply H2 in Hn as [_ ?].
  - intros p name c He. apply H3 in He as (? & ? & ?). split_and!; [done|by apply Hdir|by apply node_is_some].
  - intros j nj [[-> ->]|[Hne Hj]]%node_lookup Hd.
    + rewrite Hk in Hd. destruct (H4 _ _ Hn Hd) as [? E]. rewrite Z.eqb_refl in *. rewrite Hk, Hd.
      change (links (apply_fop f (FNode n)) (nd_Inode n)) with (links f (nd_Inode n)).
      rewrite Hk in Hl. specialize (Hl Hd). lia.
    + pose proof (H4 _ _ Hj Hd) as E. rewrite (proj2 (Z.eqb_neq j (nd_Inode n)) Hne) in E |- *. exact E.
  - intros j nj [[-> ->]|[Hne Hj]]%node_lookup Hd.
    + rewrite Hd. rewrite Hk in Hd. exact (H5 _ _ Hn Hd).
    + pose proof (H5 _ _ Hj Hd) as E. rewrite (proj2 (Z.eqb_neq j (nd_Inode n)) Hne) in E |- *. exact E.
Qed.

(** A new node, not linked yet. *)
Lemma but_fresh f n :
  fs_ok f -> fs_nodes f !! nd_Inode n = None -> 0 < nd_Inode n < fs_next f ->
  (IsDir (nd_Mode n) = false -> nd_Nlink n = 1) -> fs_but (apply_fop f (FNode n)) (nd_Inode n) (-1).
Proof.
  intros Hok Hn Hi Hl. pose proof (unlinked f Hok _ Hn) as Hl0.
  destruct (but_any f RootInode (nd_Inode n) Hok) as [H1 H2 H3 H4 H5].
  assert (forall j, is_dir f j -> is_dir (apply_fop f (FNode n)) j) as Hdir.
  { intros j (nj & Hj & Hd). exists nj. split; [|done]. cbn. rewrite lookup_insert_ne by congruence. done. }
  split; [by apply Hdir| | | |].
  - intros j nj [[-> ->]|[_ Hj]]%node_lookup; [done|by apply H2].
  - intros p name c He. apply H3 in He as (? & ? & ?). split_and!; [done|by apply Hdir|by apply node_is_some].
  - intros j nj [[-> ->]|[Hne Hj]]%node_lookup Hd.
    + change (links (apply_fop f (FNode n)) (nd_Inode n)) with (links f (nd_Inode n)).
      rewrite Hl0, Z.eqb_refl, Hl by done. lia.
    + pose proof (H4 _ _ Hj Hd) as E. rewrite (proj2 (Z.eqb_neq j (nd_Inode n)) Hne) in E |- *. exact E.
  - intros j nj [[-> ->]|[Hne Hj]]%node_lookup Hd.
    + change (links (apply_fop f (FNode n)) (nd_Inode n)) with (links f (nd_Inode n)).
      rewrite Hl0, Z.eqb_refl. destruct (Z.eqb_spec (nd_Inode n) RootInode) as [E|]; [|lia].
      destruct H1 as (rn & Hr & _). congruence.
    + pose proof (H5 _ _ Hj Hd) as E. rewrite (proj2 (Z.eqb_neq j (nd_Inode n)) Hne) in E |- *. exact E.
Qed.

(** A node without links, and without entries, goes. *)
Lemma but_free f i d :
  fs_but f i d -> i <> RootInode -> links f i = O -> (forall p name c, fs_entries f !! (p, name) = Some c -> p <> i) ->
  fs_ok (apply_fop f (FFree i)).
Proof.
  intros [H1 H2 H3 H4 H5] Hi Hl He.
  assert (forall j, j <> i -> is_dir f j -> is_dir (apply_fop f (FFree i)) j) as Hdir.
  { intros j Hj (nj & Hn & Hd). exists nj. split; [|done]. cbn. by rewrite lookup_delete_ne. }
  assert (forall j nj, fs_nodes (apply_fop f (FFree i)) !! j = Some nj -> j <> i /\ fs_nodes f !! j = Some nj) as Hlook.
  { intros j nj. cbn. intros [? ?]%lookup_delete_Some. auto. }
  split.
  - by apply Hdir.
  - intros j nj [_ Hj]%Hlook. by apply H2.
  - intros p name c Hc. pose proof (He _ _ _ Hc). apply H3 in Hc as Hc'. destruct Hc' as (? & ? & ?).
    split_and!; [done|by apply Hdir|]. cbn. rewrite lookup_delete_ne; [done|]. intros <-.
    by apply (links_none f i (p, name)).
  - intros j nj [Hne Hj]%Hlook Hd. pose proof (H4 _ _ Hj Hd) as E. rewrite (proj2 (Z.eqb_neq j i)) in E by done.
    change (links (apply_fop f (FFree i)) j) with (links f j). by destruct (j =? RootInode).
  - intros j nj [Hne Hj]%Hlook Hd. pose proof (H5 _ _ Hj Hd) as E. rewrite (proj2 (Z.eqb_neq j i)) in E by done.
    change (links (apply_fop f (FFree i)) j) with (links f j). rewrite E. destruct (j =? RootInode); lia.
Qed.

(** ** Nodes as the operations write them *)

Lemma merge_live_keeps lv n :
  nd_Inode (merge_live lv n) = nd_Inode n /\ nd_Mode (merge_live lv n) = nd_Mode n /\
  nd_Nlink (merge_live lv n) = nd_Nlink n /\ nd_SymlinkTarget (merge_live lv n) = nd_SymlinkTarget n.
Proof. unfold merge_live. destruct lv as [[size mtime]|]; [|done]. by repeat case_match. Qed.

Lemma stat_node live f i n : fs_stat live f i = Ok n ->
  exists n0, fs_nodes f !! i = Some n0 /\ nd_Inode n = nd_Inode n0 /\ nd_Mode n = nd_Mode n0 /\ nd_Nlink n = nd_Nlink n0.
Proof.
  unfold fs_stat. destruct (fs_nodes f !! i) as [n0|]; [|done]. intros [= <-].
  destruct (merge_live_keeps (live i) n0) as (? & ? & ? & _). by exists n0.
Qed.

Lemma stat_is_dir live f i n : fs_stat live f i = Ok n -> IsDir (nd_Mode n) = true -> is_dir f i.
Proof. intros (n0 & Hn & _ & Hm & _)%stat_node Hd. exists n0. by rewrite <-Hm. Qed.

Lemma guard_ok b e u : guard b e = Ok u <-> b = true.
Proof. destruct u. by destruct b. Qed.

(** [obind_inv] opens a chain of [let?] that ended well. *)
Ltac obind_inv H :=
  repeat match type of H with
  | obind ?r _ = Ok _ => let E := fresh "E" in let x := fresh "x" in
      destruct r as [x| |] eqn:E; cbn [obind] in H; [|discriminate H..]
  end.

Lemma dir_ok live f i n : fs_dir live f i = Ok n -> fs_stat live f i = Ok n /\ IsDir (nd_Mode n) = true.
Proof. unfold fs_dir. intros H. obind_inv H. injection H as <-. by destruct (IsDir (nd_Mode x)). Qed.

Lemma unused_ok f p name u : fs_unused f p name = Ok u -> fs_entries f !! (p, name) = None.
Proof. unfold fs_unused. by destruct (fs_entries f !! (p, name)). Qed.

Lemma child_ok live f p name c n : fs_child live f p name = Ok (c, n) ->
  fs_entries f !! (p, name) = Some c /\ fs_stat live f c = Ok n.
Proof.
  unfold fs_child. destruct (fs_entries f !! (p, name)) as [c'|]; [|done].
  destruct (fs_stat live f c') eqn:E; [|done..]. by intros [= <- <-].
Qed.

Lemma mode_kind x m : IsDir (Z.lor (Z.land x ModeMask) (Z.land m PermMask)) = IsDir x.
Proof.
  unfold IsDir. rewrite mode_bits; [done| |].
  - rewrite <-Z.land_assoc. change (Z.land ModeMask PermMask) with 0. apply Z.land_0_r.
  - by rewrite <-Z.land_assoc.
Qed.

Lemma apply_attr_keeps sa now n :
  nd_Inode (apply_attr sa now n) = nd_Inode n /\ IsDir (nd_Mode (apply_attr sa now n)) = IsDir (nd_Mode n) /\
  nd_Nlink (apply_attr sa now n) = nd_Nlink n.
Proof.
  destruct sa as [[m|] [u|] [g|] [sz|] [mt|] [at'|]]; cbn; split_and!; try done; apply mode_kind.
Qed.

(** A directory written back with another link count. *)
Lemma ok_dir_node f i d n :
  fs_but f i d -> is_dir f (nd_Inode n) -> IsDir (nd_Mode n) = true -> fs_but (apply_fop f (FNode n)) i d.
Proof.
  intros Hb (n0 & Hn & Hd) Hk. destruct (decide (i = nd_Inode n)) as [->|Hne].
  - apply (but_node f n n0 d); [done|done|congruence|congruence|by rewrite Hk].
  - destruct Hb as [H1 H2 H3 H4 H5].
    assert (forall j, is_dir f j -> is_dir (apply_fop f (FNode n)) j) as Hdir.
    { intros j (nj & Hj & Hdj). unfold is_dir. cbn. destruct (decide (nd_Inode n = j)) as [<-|].
      - rewrite lookup_insert_eq. by exists n.
      - rewrite lookup_insert_ne by done. eauto. }
    split; [by apply Hdir| | | |].
    + intros j nj [[-> ->]|[_ Hj]]%node_lookup; [|by apply H2]. by apply H2 in Hn as [_ ?].
    + intros p name c He. apply H3 in He as (? & ? & ?). split_and!; [done|by apply Hdir|by apply node_is_some].
    + intros j nj [[-> ->]|[_ Hj]]%node_lookup Hdj; [congruence|by apply H4].
    + intros j nj [[-> ->]|[_ Hj]]%node_lookup Hdj; [by apply (H5 _ n0)|by apply (H5 _ nj)].
Qed.

Lemma add_links_keeps k now n :
  nd_Inode (add_links k now n) = nd_Inode n /\ nd_Mode (add_links k now n) = nd_Mode n /\
  nd_Nlink (add_links k now n) = u32 (nd_Nlink n + k).
Proof. done. Qed.

Lemma is_dir_fop f o i :
  match o with FNode n => nd_Inode n = i -> IsDir (nd_Mode n) = true | FFree j => j <> i | _ => True end ->
  is_dir f i -> is_dir (apply_fop f o) i.
Proof.
  intros Ho (n & Hn & Hd). destruct o as [m|j|p nm c|p nm|x]; unfold is_dir; cbn; [| |eauto..].
  - destruct (decide (nd_Inode m = i)) as [<-|]; [rewrite lookup_insert_eq; eauto|rewrite lookup_insert_ne by done; eauto].
  - rewrite lookup_delete_ne by done. eauto.
Qed.

(** ** The operations *)

Section Keep.
Context (live : Z -> option (Z * Z)) (t : nat -> Z) (f : fs) (Hok : fs_ok f).

Lemma ok_link_new parent name n :
  fs_room f -> is_dir f parent -> fs_entries f !! (parent, name) = None -> validName name = Ok tt ->
  nd_Inode n = fs_next f -> (IsDir (nd_Mode n) = false -> nd_Nlink n = 1) ->
  let f' := apply_fops [FNext (u64 (fs_next f + 1)); FNode n; FEntry parent name (nd_Inode n)] f in
  fs_ok f' /\ is_dir f' parent.
Proof.
  intros [Hroom _] Hp Hn Hv Hi Hl. pose proof (fresh_node f Hok) as Hfr. rewrite <-Hi in Hfr.
  destruct (fo_root _ _ _ Hok) as (rn & Hr & _). pose proof (fo_node _ _ _ Hok _ _ Hr) as [_ Hrb].
  rewrite u64_id by (unfold in_u64; lia).
  assert (forall j, is_dir f j -> nd_Inode n <> j) as Hne by (intros j (nj & Hj & _) E; congruence).
  cbn [apply_fops foldl]. split.
  - apply (but_any _ (nd_Inode n)). apply (but_entry _ parent name (nd_Inode n) (-1)); [|done|done| |cbn; rewrite lookup_insert_eq; eauto].
    + apply but_fresh; [by apply but_next; [|lia]|done|cbn; lia|done].
    + apply is_dir_fop; [|by apply is_dir_fop]. intros E. by destruct (Hne _ Hp).
  - repeat (apply is_dir_fop; [try done|]); [|done]. intros E. by destruct (Hne _ Hp).
Qed.

Lemma ok_unlink parent name c n :
  fs_child live f parent name = Ok (c, n) -> IsDir (nd_Mode n) = false -> fs_room f ->
  let uf := unlink_node c (t O) n in fs_ok (apply_fops [FRemove parent name; uf.1] f) /\
  (forall i, is_dir f i -> is_dir (apply_fops [FRemove parent name; uf.1] f) i) /\
  (forall i, uf.2 = Some i -> i = c /\ fs_nodes (apply_fops [FRemove parent name; uf.1] f) !! i = None).
Proof.
  intros (He & Hs)%child_ok Hd [_ Hroom]. apply stat_node in Hs as (n0 & Hn & Hi & Hm & Hl).
  pose proof (fo_node _ _ _ Hok _ _ Hn) as [Hci _]. rewrite Hm in Hd.
  destruct (file_links f Hok _ _ Hn Hd) as [Hpos Hln]. pose proof (links_size f c).
  pose proof (but_remove f parent name c 0 (but_any _ _ _ Hok) He) as Hb. unfold unlink_node.
  assert (nd_Nlink (add_links (-1) (t O) n) = nd_Nlink n0 - 1) as El.
  { cbn. rewrite Hl. apply u32_id. unfold in_u32. lia. }
  rewrite El. cbn [apply_fops foldl]. set (f1 := apply_fop f (FRemove parent name)) in *.
  assert (forall i, is_dir f i -> i <> c) as Hdc by (intros i (ni & Hni & Hdi) ->; congruence).
  destruct (Z.eqb_spec (nd_Nlink n0 - 1) 0) as [E|E]; cbn [fst snd].
  - split_and!.
    + eapply but_free; [done| | |].
      * intros ->. destruct (fo_root _ _ _ Hok) as (rn & Hr & Hrd). congruence.
      * pose proof (links_del f parent name c c He) as Hk. rewrite decide_True in Hk by done. fold f1 in Hk. lia.
      * intros q nm c' Hq ->. apply (fo_entry _ _ _ Hb) in Hq as (_ & (x & Hx & Hxd) & _). cbn in Hx. congruence.
    + intros i Hdi. apply is_dir_fop; [|by apply is_dir_fop]. by apply not_eq_sym, Hdc.
    + intros i [= <-]. split; [done|]. apply lookup_delete_eq.
  - split_and!; [| |done].
    + apply (but_any _ c). rewrite <-Hci, <-Hi. eapply (but_node _ (add_links (-1) (t O) n) n0);
        cbn [add_links set_Ctime set_Nlink nd_Inode nd_Mode nd_Nlink] in *; rewrite ?Hi, ?Hci, ?Hm, ?Hd; [done|done|done|lia|lia].
    + intros i Hdi. apply is_dir_fop; [|by apply is_dir_fop]. intros Ei. exfalso. apply (Hdc i Hdi). rewrite <-Ei. cbn. congruence.
Qed.

Lemma ok_rmdir parent name c n :
  fs_child live f parent name = Ok (c, n) -> IsDir (nd_Mode n) = true -> fs_empty f c = true ->
  let f' := apply_fops [FRemove parent name; FFree c] f in
  fs_ok f' /\ parent <> c /\ forall i, is_dir f i -> i <> c -> is_dir f' i.
Proof.
  intros (He & Hs)%child_ok Hd Hem. pose proof (stat_is_dir _ _ _ _ Hs Hd) as (n0 & Hn & Hd0).
  pose proof (but_remove f parent name c 0 (but_any _ _ _ Hok) He) as Hb.
  cbn [apply_fops foldl]. split_and!; [|by apply (empty_dir f c parent name c)|].
  - eapply but_free; [done|by intros ->; eapply root_unlinked| |].
    + pose proof (links_del f parent name c c He) as Hk. rewrite decide_True in Hk by done.
      pose proof (dir_links f Hok _ _ Hn Hd0) as Hl. destruct (c =? RootInode); lia.
    + intros q nm c'. cbn. intros [_ Hq]%lookup_delete_Some. by apply (empty_dir f c q nm c').
  - intros i Hdi Hne. apply is_dir_fop; [done|]. by apply is_dir_fop.
Qed.

(** An entry moves to another place. *)
Lemma ok_move p name c p' name' :
  fs_entries f !! (p, name) = Some c -> is_dir f p' -> validName name' = Ok tt ->
  fs_entries f !! (p', name') = None -> fs_ok (apply_fops [FRemove p name; FEntry p' name' c] f).
Proof.
  intros He Hp Hv Hn. destruct (entry_node f Hok _ _ _ He) as [n Hc]. cbn [apply_fops foldl].
  apply (but_any _ c). replace 0 with (0 - 1 + 1) by lia. apply but_entry; [|by apply lookup_delete_None; right|done| |cbn; eauto].
  - by apply but_remove; [apply (but_any _ RootInode)|].
  - by apply is_dir_fop.
Qed.
End Keep.

(** ** Renaming *)

Definition node_op (o : fop) : Prop := match o with FNode _ | FFree _ => True | _ => False end.

Lemma apply_node_ops rep : forall f p name,
  Forall node_op rep -> apply_fops (FRemove p name :: rep) f = apply_fop (apply_fops rep f) (FRemove p name).
Proof.
  induction rep as [|o rep IH]; intros f p name Hf; [done|]. apply Forall_cons in Hf as [Ho Hf].
  change (apply_fops (o :: rep) f) with (apply_fops rep (apply_fop f o)). rewrite <-IH by done. by destruct o.
Qed.

Lemma node_ops_entries rep f : Forall node_op rep -> fs_entries (apply_fops rep f) = fs_entries f.
Proof.
  revert f. induction rep as [|o rep IH]; intros f Hf; [done|]. apply Forall_cons in Hf as [Ho Hf].
  cbn [apply_fops foldl]. unfold apply_fops in IH. rewrite IH by done. by destruct o.
Qed.

(** What is replaced may as well go first. *)
Lemma replace_first rep f p name p' name' c :
  Forall node_op rep ->
  apply_fops (rep ++ [FRemove p name; FEntry p' name' c]) f =
  apply_fops [FRemove p name; FEntry p' name' c] (apply_fops (FRemove p' name' :: rep) f).
Proof.
  intros Hf. rewrite (apply_node_ops rep f) by done. unfold apply_fops. rewrite foldl_app. cbn [foldl apply_fop fs_nodes fs_entries fs_next].
  f_equal. rewrite delete_delete, insert_delete_eq. done.
Qed.

Section Rename.
Context (live : Z -> option (Z * Z)) (t : nat -> Z) (f : fs) (Hok : fs_ok f) (Hroom : fs_room f).

(** What a rename replaces. *)
Lemma ok_replace src newParent newName d rep free k :
  fs_entries f !! (newParent, newName) = Some d ->
  fs_replace live f t src newParent d = Ok (rep, free, k) ->
  let f1 := apply_fops (FRemove newParent newName :: rep) f in
  Forall node_op rep /\ fs_ok f1 /\ is_dir f1 newParent /\
  (forall i, is_dir f i -> fs_empty f i = false -> is_dir f1 i) /\
  forall i, free = Some i -> fs_nodes f1 !! i = None.
Proof.
  intros He H. unfold fs_replace in H. destruct (fs_stat live f d) as [dn| |] eqn:Es; [|done..].
  assert (fs_child live f newParent newName = Ok (d, dn)) as Hc by (unfold fs_child; by rewrite He, Es).
  assert (forall i, is_dir f i -> fs_empty f i = false -> fs_empty f d = true -> i <> d) as Hem by (intros; congruence).
  pose proof (entry_dir f Hok _ _ _ He) as Hnp.
  destruct (Bool.eqb _ _) eqn:Ek; [|done]. cbn [guard obind] in H. destruct (IsDir (nd_Mode dn)) eqn:Ed.
  - destruct (fs_empty f d) eqn:Em; [|done]. cbn [guard obind] in H.
    destruct (fs_stat live f newParent) as [np| |] eqn:Enp; [|done..]. injection H as <- <- <-.
    destruct (ok_rmdir live f Hok newParent newName d dn Hc Ed Em) as (Hok1 & Hne & Hdir).
    pose proof (stat_node _ _ _ _ Enp) as (np0 & Hnp0 & Hi & Hm & _).
    pose proof (fo_node _ _ _ Hok _ _ Hnp0) as [Hnpi _]. rewrite Hnpi in Hi.
    assert (IsDir (nd_Mode np) = true) as Hnd by (rewrite Hm; destruct Hnp as (x & Hx & ?); congruence).
    change (apply_fops (_ :: _) f) with (apply_fop (apply_fops [FRemove newParent newName; FFree d] f) (FNode (add_links (-1) (t O) np))).
    cbv zeta. split_and!; [by repeat constructor| | |intros i Hdi Hi'|done].
    + apply ok_dir_node; [done| |done]. cbn [add_links set_Ctime set_Nlink nd_Inode]. rewrite Hi. by apply Hdir.
    + apply is_dir_fop; [done|by apply Hdir].
    + apply is_dir_fop; [done|]. apply Hdir; [done|by apply Hem].
  - destruct (unlink_node d (t O) dn) as [o fr] eqn:Eu. injection H as <- <- <-.
    destruct (ok_unlink live t f Hok newParent newName d dn Hc Ed Hroom) as (Hok1 & Hdir & Hfree).
    rewrite Eu in *. cbn [fst snd] in *. cbv zeta. split_and!; [|done|by apply Hdir|by intros; apply Hdir|].
    + constructor; [|constructor]. unfold unlink_node in Eu. by case_match; injection Eu as <- <-.
    + intros i Hi. by apply Hfree.
Qed.

Lemma relink_dirs t0 t1 src oldParent newParent l :
  fs_relink live f t0 t1 src oldParent newParent = Ok l -> is_dir f oldParent -> is_dir f newParent ->
  forall o, o ∈ l -> exists n, o = FNode n /\ IsDir (nd_Mode n) = true /\ (nd_Inode n = oldParent \/ nd_Inode n = newParent).
Proof.
  unfold fs_relink. intros H (no & Hno & Hdo) (nn & Hnn & Hdn). destruct (_ && _); [|injection H as <-; by intros o ?%elem_of_nil].
  obind_inv H. injection H as <-. apply stat_node in E as (a & Ha & Hia & Hma & _), E0 as (b & Hb & Hib & Hmb & _).
  pose proof (fo_node _ _ _ Hok _ _ Ha) as [Hai _]. pose proof (fo_node _ _ _ Hok _ _ Hb) as [Hbi _].
  intros o [->|[->|?%elem_of_nil]%elem_of_cons]%elem_of_cons; [| |done]; eexists; (split; [done|]); cbn; split; try congruence;
    [left|right]; congruence.
Qed.

Lemma ok_dir_nodes l : forall g, fs_ok g ->
  (forall o, o ∈ l -> exists n, o = FNode n /\ IsDir (nd_Mode n) = true /\ is_dir g (nd_Inode n)) ->
  fs_ok (apply_fops l g) /\ (forall i, fs_nodes g !! i = None -> fs_nodes (apply_fops l g) !! i = None).
Proof.
  induction l as [|o l IH]; intros g Hg Hl; [done|]. destruct (Hl o ltac:(left)) as (n & -> & Hd & Hdi).
  cbn [apply_fops foldl]. destruct (IH (apply_fop g (FNode n))) as [Hok' Hn].
  - by apply ok_dir_node.
  - intros o Ho. destruct (Hl o ltac:(by right)) as (n' & -> & Hd' & Hdi'). exists n'. split_and!; [done..|]. by apply is_dir_fop.
  - split; [done|]. intros i Hi. apply Hn. cbn. rewrite lookup_insert_ne; [done|]. intros E.
    destruct Hdi as (x & Hx & _). congruence.
Qed.

(** The entry moves, after what it replaces has gone. *)
Lemma ok_rename_ops oldParent oldName newParent newName c rep links f1 :
  fs_entries f !! (oldParent, oldName) = Some c -> fs_entries f !! (newParent, newName) <> Some c ->
  Forall node_op rep -> f1 = apply_fops (FRemove newParent newName :: rep) f -> fs_ok f1 ->
  validName newName = Ok tt -> is_dir f1 newParent -> is_dir f1 oldParent ->
  (forall o, o ∈ links -> exists n, o = FNode n /\ IsDir (nd_Mode n) = true /\ (nd_Inode n = oldParent \/ nd_Inode n = newParent)) ->
  let f' := apply_fops (rep ++ [FRemove oldParent oldName; FEntry newParent newName c] ++ links) f in
  fs_ok f' /\ forall i, fs_nodes f1 !! i = None -> fs_nodes f' !! i = None.
Proof.
  intros He Hne Hrep -> Hok1 Hv Hnp Hop Hl. cbv zeta.
  set (f1 := apply_fops (FRemove newParent newName :: rep) f) in *.
  assert (fs_entries f1 = delete (newParent, newName) (fs_entries f)) as Ef1.
  { unfold f1. rewrite apply_node_ops by done. cbn [apply_fop fs_entries]. by rewrite node_ops_entries. }
  assert (apply_fops (rep ++ [FRemove oldParent oldName; FEntry newParent newName c] ++ links) f =
    apply_fops links (apply_fops [FRemove oldParent oldName; FEntry newParent newName c] f1)) as ->.
  { unfold f1. rewrite <-replace_first by done. unfold apply_fops. by rewrite app_assoc, foldl_app. }
  destruct (ok_dir_nodes links (apply_fops [FRemove oldParent oldName; FEntry newParent newName c] f1)) as [Hok' Hn].
  - apply ok_move; [done| |done|done|by rewrite Ef1, lookup_delete_eq].
    rewrite Ef1, lookup_delete_ne; [done|]. intros E. by rewrite E in Hne.
  - intros o Ho. destruct (Hl o Ho) as (n & -> & Hd & Hi). exists n. split_and!; [done..|].
    apply is_dir_fop; [done|]. apply is_dir_fop; [done|]. by destruct Hi as [->| ->].
  - split; [done|]. intros i Hi. by apply Hn.
Qed.
End Rename.

(** A parent is not empty. *)
Lemma parent_not_empty f p name c : fs_entries f !! (p, name) = Some c -> fs_empty f p = false.
Proof.
  intros He. destruct (fs_empty f p) eqn:E; [|done]. by destruct (empty_dir f p p name c E He).
Qed.

(** ** All operations *)

(** The inodes that a plan frees have no node left. *)
Definition frees (f : fs) (free : option Z) : Prop := forall i, free = Some i -> fs_nodes f !! i = None.

Lemma ok_rename live t f oldParent oldName newParent newName p :
  fs_ok f -> fs_room f -> fs_rename live f t oldParent oldName newParent newName = Ok p ->
  fs_ok (apply_fops (pl_ops p) f) /\ frees (apply_fops (pl_ops p) f) (pl_free p).
Proof.
  intros Hok Hroom H. unfold fs_rename in H. obind_inv H. destruct x1 as [c cn]. cbn [fst snd] in H.
  apply child_ok in E1 as [He Hs]. apply dir_ok in E2 as [Hsp Hdp]. pose proof (stat_is_dir _ _ _ _ Hsp Hdp) as Hnp.
  destruct x0. case_bool_decide as Hdst; [by injection H as <-|]. obind_inv H. injection H as <-.
  destruct x0 as [[rep free] k]. cbn [pl_ops pl_free fst snd] in *.
  pose proof (entry_dir f Hok _ _ _ He) as Hop.
  pose proof (relink_dirs live f Hok _ _ _ _ _ _ E2 Hop Hnp) as Hl.
  destruct (fs_entries f !! (newParent, newName)) as [d|] eqn:Ed.
  - destruct (ok_replace live t f Hok Hroom _ _ _ _ _ _ _ Ed E1) as (Hrep & Hok1 & Hnp1 & Hkeep & Hfr).
    destruct (ok_rename_ops f oldParent oldName newParent newName c rep x1 (apply_fops (FRemove newParent newName :: rep) f) He) as [Hok' Hn]; try done.
    + by rewrite Ed.
    + apply Hkeep; [done|]. by eapply parent_not_empty.
    + split; [done|]. intros i Hi. by apply Hn, Hfr.
  - injection E1 as <- <- <-.
    destruct (ok_rename_ops f oldParent oldName newParent newName c [] x1 f He) as [Hok' _]; try done.
    + by rewrite Ed.
    + cbn. rewrite delete_id by done. by destruct f.
Qed.

Section Each.
Context (live : Z -> option (Z * Z)) (t : nat -> Z) (f : fs) (Hok : fs_ok f) (Hroom : fs_room f).

Definition keeps (p : list fop * option Z) : Prop :=
  fs_ok (apply_fops p.1 f) /\ frees (apply_fops p.1 f) p.2.

Lemma ok_mkdir par nm m u g p : fs_mkdir live f t par nm m u g = Ok p -> keeps (pl_ops p, pl_free p).
Proof.
  unfold fs_mkdir. intros E. obind_inv E. injection E as <-. destruct x. apply dir_ok in E1 as [Hs Hd]. apply unused_ok in E2.
  pose proof (stat_is_dir _ _ _ _ Hs Hd) as Hp.
  match goal with |- context [FNode ?n :: _] => set (nn := n) in * end.
  destruct (ok_link_new f Hok par nm nn) as [Hok' Hp']; try done.
  { unfold nn, new_node, IsDir. cbn [nd_Mode]. by rewrite mode_bits. }
  split; [|done]. cbn [pl_ops pl_free fst snd].
  change (apply_fops _ f) with (apply_fop (apply_fops [FNext (u64 (fs_next f + 1)); FNode nn; FEntry par nm (nd_Inode nn)] f) (FNode (add_links 1 (t O) x0))).
  apply ok_dir_node; [done| |done]. apply stat_node in Hs as (n0 & Hn & Hi & _).
  pose proof (fo_node _ _ _ Hok _ _ Hn) as [Hpi _]. cbn. by rewrite Hi, Hpi.
Qed.

Lemma ok_link i par nm p : fs_link live f t i par nm = Ok p -> keeps (pl_ops p, pl_free p).
Proof.
  unfold fs_link. intros E. obind_inv E. injection E as <-. destruct x. apply dir_ok in E3 as [Hs Hd]. apply unused_ok in E4.
  apply guard_ok in E2. apply negb_true_iff in E2. apply stat_node in E1 as (n0 & Hn & Hi & Hm & Hl).
  pose proof (fo_node _ _ _ Hok _ _ Hn) as [Hpi _]. rewrite Hm in E2. destruct (file_links f Hok _ _ Hn E2) as [Hpos Hln].
  pose proof (links_size f i). destruct Hroom as [_ Hr]. split; [|done]. cbn [pl_ops pl_free fst snd apply_fops foldl].
  apply (but_any _ i). replace 0 with (-1 + 1) by lia.
  assert (nd_Inode (add_links 1 (t O) x0) = i) as Ei by (cbn; congruence).
  assert (nd_Nlink (add_links 1 (t O) x0) = nd_Nlink n0 + 1) as El.
  { cbn. rewrite Hl. apply u32_id. unfold in_u32. lia. }
  apply but_entry; [|done|done| |cbn; rewrite Hi, Hpi, lookup_insert_eq; eauto].
  - rewrite <-Ei. apply (but_node _ _ n0 0); rewrite ?Ei, ?El; [by apply (but_any _ RootInode)|done|cbn; by rewrite Hm|lia|].
    cbn. rewrite Hm, E2. cbn in El. lia.
  - pose proof (stat_is_dir _ _ _ _ Hs Hd) as Hdi. apply is_dir_fop; [|done].
    intros E. destruct Hdi as (y & Hy & Hyd). rewrite Ei in E. congruence.
Qed.

Lemma ok_unlink_op par nm p : fs_unlink live f t par nm = Ok p -> keeps (pl_ops p, pl_free p).
Proof.
  unfold fs_unlink. intros E. obind_inv E. injection E as <-. destruct x0 as [c n]. cbn [fst snd pl_ops pl_free] in *.
  apply guard_ok, negb_true_iff in E2.
  destruct (ok_unlink live t f Hok par nm c n E1 E2 Hroom) as (Hok1 & _ & Hfr). split; [done|].
  intros i Hi. by apply Hfr.
Qed.

Lemma ok_rmdir_op par nm p : fs_rmdir live f t par nm = Ok p -> keeps (pl_ops p, pl_free p).
Proof.
  unfold fs_rmdir. intros E. obind_inv E. injection E as <-. destruct x0 as [c n]. cbn [fst snd pl_ops pl_free] in *.
  apply guard_ok in E2, E3. destruct (ok_rmdir live f Hok par nm c n E1 E2 E3) as (Hok1 & Hne & Hdir). split; [|done].
  pose proof E1 as [He _]%child_ok. pose proof (entry_dir f Hok _ _ _ He) as Hp. apply stat_node in E4 as (n0 & Hn & Hi & Hm & _).
  pose proof (fo_node _ _ _ Hok _ _ Hn) as [Hpi _]. cbn [fst snd].
  change (apply_fops _ f) with (apply_fop (apply_fops [FRemove par nm; FFree c] f) (FNode (add_links (-1) (t O) x3))).
  apply ok_dir_node; [done| |].
  - cbn. rewrite Hi, Hpi. by apply Hdir.
  - cbn. rewrite Hm. destruct Hp as (y & Hy & ?). congruence.
Qed.

Lemma ok_setattr_op i sa p : fs_setattr live f t i sa = Ok p -> keeps (pl_ops p, pl_free p).
Proof.
  unfold fs_setattr. intros E. obind_inv E. injection E as <-. apply stat_node in E0 as (n0 & Hn & Hi & Hm & Hl).
  destruct (apply_attr_keeps sa (t O) x) as (Ki & Km & Kl). pose proof (fo_node _ _ _ Hok _ _ Hn) as [Hpi _].
  split; [|done]. cbn [pl_ops pl_free fst snd apply_fops foldl]. rewrite Hi, Hpi in Ki. rewrite Hm in Km. rewrite Hl in Kl.
  apply (but_any _ i). rewrite <-Ki. apply (but_node _ _ n0 0); rewrite ?Ki, ?Km, ?Kl; [by apply (but_any _ RootInode)|done|done| |].
  - intros Hd. by apply (file_links f Hok _ _ Hn).
  - destruct (IsDir (nd_Mode n0)); lia.
Qed.

(** Every operation that succeeds keeps the tree. *)
Lemma spec_keeps c p : spec live f t c = Ok p -> keeps (pl_ops p, pl_free p).
Proof.
  intros H. destruct c as [par nm m u g|par nm m u g|par nm tg u g|tgt par nm|par nm|par nm|op on np nn];
    cbn [spec] in H; unfold some_node, no_node in H; obind_inv H; injection H as <-; cbn [pl_ops pl_free].
  - unfold fs_create in E. obind_inv E. injection E as <-. destruct x0. apply dir_ok in E1 as [Hs Hd]. apply unused_ok in E2.
    split; [|done]. apply ok_link_new; try done. by eapply stat_is_dir.
  - by eapply ok_mkdir.
  - unfold fs_symlink in E. obind_inv E. injection E as <-. destruct x0. apply dir_ok in E1 as [Hs Hd]. apply unused_ok in E2.
    split; [|done]. apply ok_link_new; try done. by eapply stat_is_dir.
  - by eapply ok_link.
  - by eapply ok_unlink_op.
  - by eapply ok_rmdir_op.
  - by eapply ok_rename.
Qed.
End Each.
