(* ===== verification/Tree.v ===== *)
(** * The file API implements the directory tree

    [represents] relates the database to a file system of Fs.v.  Each operation
    of Store.v returns what its abstract counterpart returns, commits the same
    changes at once, and on any error leaves the tree as it was or fully
    changed; so the invariant of the tree holds after every call. *)

From S2P Require Import Prelude Keys Kv Segment Layer Index IndexSpec IndexRead IndexAppend IndexMaint Node Coalescer Store LiveFile LiveWrite LiveFlush LiveTrunc StoreSpec Fs FsInv.

(** ** The representation *)

Record represents (m : gmap bytes bytes) (f : fs) : Prop := {
  rp_node : forall i, in_u64 i -> m !! NodeKey i = encodeNode <$> (fs_nodes f !! i);
  rp_node_typed : forall i n, fs_nodes f !! i = Some n -> in_u64 i /\ node_typed n /\ nd_Inode n = i;
  rp_entry : forall p name, in_u64 p -> bytes_ok name ->
    m !! DirentKey p name = direntValue <$> (fs_entries f !! (p, name));
  rp_entry_typed : forall p name c, fs_entries f !! (p, name) = Some c -> in_u64 p /\ bytes_ok name /\ in_u64 c;
  rp_entry_keys : forall k v, m !! k = Some v -> has_prefix [tagDirent] k ->
    exists p name, in_u64 p /\ bytes_ok name /\ k = DirentKey p name;
  rp_next : m !! StoreNextInodeKey = Some (put_le 8 (fs_next f));
  rp_next_typed : in_u64 (fs_next f);
}.

Definition wop_of (o : fop) : wop :=
  match o with
  | FNode n => WSet (NodeKey (nd_Inode n)) (encodeNode n)
  | FFree i => WDelete (NodeKey i)
  | FEntry p name c => WSet (DirentKey p name) (direntValue c)
  | FRemove p name => WDelete (DirentKey p name)
  | FNext n => WSet StoreNextInodeKey (put_le 8 n)
  end.

Definition fop_typed (o : fop) : Prop :=
  match o with
  | FNode n => node_typed n
  | FFree i => in_u64 i
  | FEntry p name c => in_u64 p /\ bytes_ok name /\ in_u64 c
  | FRemove p name => in_u64 p /\ bytes_ok name
  | FNext n => in_u64 n
  end.

(** The kinds of key are apart. *)
Lemma node_dirent i p name : NodeKey i <> DirentKey p name.
Proof. done. Qed.
Lemma node_counter i : NodeKey i <> StoreNextInodeKey.
Proof. done. Qed.
Lemma dirent_counter p name : DirentKey p name <> StoreNextInodeKey.
Proof. done. Qed.

#[local] Hint Resolve node_dirent node_counter dirent_counter not_eq_sym : core.

Lemma node_not_dirent i : ~ has_prefix [tagDirent] (NodeKey i).
Proof. by intros ?%has_prefix_tag. Qed.
Lemma counter_not_dirent : ~ has_prefix [tagDirent] StoreNextInodeKey.
Proof. by intros ?%has_prefix_tag. Qed.

(** One change of the tree is one write of the batch. *)
Lemma represents_fop m f o : represents m f -> fop_typed o -> represents (apply_op m (wop_of o)) (apply_fop f o).
Proof.
  intros [H1 H2 H3 H4 H5 H6 H7] Ho. destruct o as [n|i|p name c|p name|n]; cbn [fop_typed wop_of apply_op apply_fop] in *.
  - pose proof Ho as (Hi & _). split; cbn [fs_nodes fs_entries fs_next]; try done.
    + intros j Hj. destruct (decide (nd_Inode n = j)) as [<-|Hne]; [by rewrite !lookup_insert_eq|].
      rewrite !lookup_insert_ne; [by apply H1|done|]. intros E. by apply Hne, NodeKey_inj.
    + intros j nj [[<- <-]|[_ Hj]]%lookup_insert_Some; [done|by apply H2].
    + intros q nm Hq Hn. rewrite lookup_insert_ne by auto. by apply H3.
    + intros k v [[<- _]|[_ Hk]]%lookup_insert_Some Hp; [by destruct (node_not_dirent _ Hp)|by eapply H5].
    + by rewrite lookup_insert_ne by auto.
  - split; cbn [fs_nodes fs_entries fs_next]; try done.
    + intros j Hj. destruct (decide (i = j)) as [<-|Hne]; [by rewrite !lookup_delete_eq|].
      rewrite !lookup_delete_ne; [by apply H1|done|]. intros E. by apply Hne, NodeKey_inj.
    + intros j nj [_ Hj]%lookup_delete_Some. by apply H2.
    + intros q nm Hq Hn. rewrite lookup_delete_ne by auto. by apply H3.
    + intros k v [_ Hk]%lookup_delete_Some. by eapply H5.
    + by rewrite lookup_delete_ne by auto.
  - destruct Ho as (Hp & Hn & Hc). split; cbn [fs_nodes fs_entries fs_next]; try done.
    + intros j Hj. rewrite lookup_insert_ne by auto. by apply H1.
    + intros q nm Hq Hnm. destruct (decide ((p, name) = (q, nm))) as [[= <- <-]|Hne]; [by rewrite !lookup_insert_eq|].
      rewrite !lookup_insert_ne; [by apply H3|done|]. intros E. apply Hne. by destruct (DirentKey_inj _ _ _ _ Hp Hq E) as [-> ->].
    + intros q nm d [[[= <- <-] <-]|[_ Hd]]%lookup_insert_Some; [done|by apply H4].
    + intros k v [[<- _]|[_ Hk]]%lookup_insert_Some; [by eauto|by apply (H5 k v)].
    + by rewrite lookup_insert_ne by auto.
  - destruct Ho as (Hp & Hn). split; cbn [fs_nodes fs_entries fs_next]; try done.
    + intros j Hj. rewrite lookup_delete_ne by auto. by apply H1.
    + intros q nm Hq Hnm. destruct (decide ((p, name) = (q, nm))) as [[= <- <-]|Hne]; [by rewrite !lookup_delete_eq|].
      rewrite !lookup_delete_ne; [by apply H3|done|]. intros E. apply Hne. by destruct (DirentKey_inj _ _ _ _ Hp Hq E) as [-> ->].
    + intros q nm d [_ Hd]%lookup_delete_Some. by apply H4.
    + intros k v [_ Hk]%lookup_delete_Some. by apply (H5 k v).
    + by rewrite lookup_delete_ne by auto.
  - split; cbn [fs_nodes fs_entries fs_next]; try done.
    + intros j Hj. rewrite lookup_insert_ne by auto. by apply H1.
    + intros q nm Hq Hn. rewrite lookup_insert_ne by auto. by apply H3.
    + intros k v [[<- _]|[_ Hk]]%lookup_insert_Some Hp; [by destruct (counter_not_dirent Hp)|by eapply H5].
    + by rewrite lookup_insert_eq.
Qed.

Lemma represents_fops ops : forall m f,
  represents m f -> Forall fop_typed ops -> represents (apply_ops (wop_of <$> ops) m) (apply_fops ops f).
Proof.
  induction ops as [|o ops IH]; intros m f Hr Hf; [done|]. apply Forall_cons in Hf as [Ho Hf].
  apply (IH (apply_op m (wop_of o))); [by apply represents_fop|done].
Qed.

(** Only keys outside the stripes matter. *)
Lemma represents_same m m' f :
  (forall k, ~ has_prefix StripeAllPrefix k -> m' !! k = m !! k) -> represents m f -> represents m' f.
Proof.
  intros E [H1 H2 H3 H4 H5 H6 H7]. split; try done.
  - intros i Hi. rewrite E; [by apply H1|apply NodeKey_foreign].
  - intros p name Hp Hn. rewrite E; [by apply H3|]. by intros ?%has_prefix_tag.
  - intros k v Hk Hp. apply (H5 k v); [|done]. rewrite <-E; [done|]. destruct Hp as [r ->]. by intros ?%has_prefix_tag.
  - rewrite E; [done|]. by intros ?%has_prefix_tag.
Qed.

Lemma wop_foreign o : fop_typed o -> foreign_op (wop_of o).
Proof.
  destruct o; cbn; intros Ho; [apply node_set_foreign|apply node_delete_foreign|apply dirent_set_foreign; tauto|
    apply dirent_delete_foreign; tauto|apply counter_foreign].
Qed.

Section Tree.
Context {P : Type} {PB : Pebble P} {PL : PebbleLaws P}.
Context {S : Type} {SL : SegLayer S} {SLL : SegLayerLaws S} {MR : MapRange}.
Context {W : Type} {SW : Semaphore W} {SWL : SemaphoreLaws W}.
Implicit Types s : Store P S W.
Implicit Types f : fs.

(** ** What a call ends in *)

(** The call returns the result of the specification and has made its changes,
    all at once, or has failed, and then made all of them or none.  When the
    engine does not fail, the outcome is that of the specification, except that
    emptying the content of a freed inode may still fail. *)
Definition refined {A} s (ph : gmap Z phase) f (sp : outcome (plan A)) (r : outcome A) s' : Prop :=
  store_ok s' ph /\
  match sp with
  | Ok p =>
      let f' := apply_fops (pl_ops p) f in
      (forall i x, in_u64 i -> pl_free p <> Some i -> live s' i x = live s i x) /\
      match r with
      | Ok a => a = pl_result p /\ represents (disk s') f' /\ (forall i x, pl_free p = Some i -> live s' i x = None)
      | Err _ => (represents (disk s') f \/ represents (disk s') f') /\ (PebbleReliable P -> is_Some (pl_free p))
      | Panic => False
      end
  | _ => exists e, r = Err e /\ (PebbleReliable P -> sp = Err e) /\ represents (disk s') f /\ same_view s s'
  end.

(** ** While a call runs *)

Definition attrs_typed (lv : Z -> option (Z * Z)) : Prop :=
  forall i size mtime, lv i = Some (size, mtime) -> in_i64 size /\ in_i64 mtime.

(** The call started in [s] and has read the clock [k] times. *)
Record running s (ph : gmap Z phase) f (lv : Z -> option (Z * Z)) (t : nat -> Z) (k : nat) s1 : Prop := {
  rn_ok : store_ok s1 ph;
  rn_fs : represents (disk s1) f;
  rn_live : forall i, live_attrs i s1 = lv i;
  rn_typed : attrs_typed lv;
  rn_view : same_view s s1;
  rn_clock : forall n, i64 (st_clock s1 n) = t (k + n)%nat;
}.

Lemma store_attrs_typed s ph : store_ok s ph -> attrs_typed (fun i => live_attrs i s).
Proof.
  intros (_ & _ & _ & c & Hc & Hco & _) i size mtime. unfold live_attrs, LiveAttrs. rewrite Hc.
  destruct (co_buffers c !! i) as [buf|] eqn:Hb; [|done]. intros [= <- <-].
  destruct (co_bufs _ _ _ Hco _ _ Hb) as [_ Hbuf]. by destruct (bo_attrs _ _ _ _ Hbuf) as (? & ? & _).
Qed.

Definition clock s (n : nat) : Z := i64 (st_clock s n).

Lemma running_start s ph f : store_ok s ph -> represents (disk s) f ->
  running s ph f (fun i => live_attrs i s) (clock s) 0 s.
Proof. intros Hst Hr. split; try done. by eapply store_attrs_typed. Qed.

Section Running.
Context (s : Store P S W) (ph : gmap Z phase) (f : fs) (lv : Z -> option (Z * Z)) (t : nat -> Z).

Lemma stat_typed (s1 : Store P S W) k i n :
  running s ph f lv t k s1 -> fs_stat lv f i = Ok n -> node_typed n /\ nd_Inode n = i /\ in_u64 i.
Proof.
  intros [_ Hf _ Ht _ _]. unfold fs_stat. destruct (fs_nodes f !! i) as [n0|] eqn:E; [|done]. intros [= <-].
  destruct (rp_node_typed _ _ Hf _ _ E) as (Hi & Hn & Hni). split; [|by destruct (merge_live_keeps (lv i) n0) as (-> & _)].
  unfold merge_live. destruct (lv i) as [[size mtime]|] eqn:El; [|done]. destruct (Ht _ _ _ El) as [? ?].
  destruct Hn as (N1 & N2 & N3 & N4 & N5 & N6 & N7 & N8 & N9 & N10). unfold node_typed.
  destruct (nd_Size n0 <? size), (_ <? mtime); cbn; by split_and!.
Qed.

Lemma run_get s1 k key (Q : outcome (option bytes) -> Store P S W -> Prop) :
  running s ph f lv t k s1 ->
  Q (Ok (disk s1 !! key)) s1 -> (forall e, ~ PebbleReliable P -> Q (Err e) s1) -> wp (db (DB_Get key)) Q s1.
Proof.
  intros _ HQ HE. apply wp_db, wp_DB_Get_rel; [|intros e He]; rewrite with_db_id, with_idx_id; [done|by apply HE].
Qed.

Lemma run_stat s1 k i (Q : outcome Node -> Store P S W -> Prop) :
  running s ph f lv t k s1 -> in_u64 i ->
  Q (fs_stat lv f i) s1 -> (forall e, ~ PebbleReliable P -> Q (Err e) s1) -> wp (Stat i) Q s1.
Proof.
  intros Hr Hi HQ HE. unfold Stat. wp_step. apply (run_get s1 k); [done| |done].
  pose proof Hr as [_ Hf Hl _ _ _]. rewrite (rp_node _ _ Hf) by done. unfold fs_stat in HQ.
  destruct (fs_nodes f !! i) as [n|] eqn:E; cbn [fmap option_fmap option_map]; wp_step; [|done].
  destruct (rp_node_typed _ _ Hf _ _ E) as (_ & Hn & _). rewrite decode_encodeNode by done.
  wp_step. wp_step. wp_step. wp_step. by rewrite Hl.
Qed.

Lemma run_dirent s1 k p name (Q : outcome (option Z) -> Store P S W -> Prop) :
  running s ph f lv t k s1 -> in_u64 p -> bytes_ok name ->
  Q (Ok (fs_entries f !! (p, name))) s1 -> (forall e, ~ PebbleReliable P -> Q (Err e) s1) -> wp (readDirent p name) Q s1.
Proof.
  intros Hr Hp Hn HQ HE. unfold readDirent. wp_step. apply (run_get s1 k); [done| |done].
  pose proof Hr as [_ Hf _ _ _ _]. rewrite (rp_entry _ _ Hf) by done.
  destruct (fs_entries f !! (p, name)) as [c|] eqn:E; cbn [fmap option_fmap option_map]; [|by wp_step].
  rewrite blen_direntValue. cbn [negb Z.eqb Pos.eqb]. wp_step. rewrite get_direntValue; [done|].
  by apply (rp_entry_typed _ _ Hf) in E as (_ & _ & ?).
Qed.

Lemma run_dir s1 k i (Q : outcome unit -> Store P S W -> Prop) :
  running s ph f lv t k s1 -> in_u64 i ->
  Q (let? _ := fs_dir lv f i in Ok tt) s1 -> (forall e, ~ PebbleReliable P -> Q (Err e) s1) -> wp (requireDir i) Q s1.
Proof.
  intros Hr Hi HQ HE. unfold requireDir. wp_step. apply (run_stat s1 k); [done|done| |done]. unfold fs_dir in HQ.
  destruct (fs_stat lv f i) as [n|e|]; cbn [obind] in HQ; [|done..].
  destruct (IsDir (nd_Mode n)); cbn [negb]; by wp_step.
Qed.

Lemma run_absent s1 k p name (Q : outcome unit -> Store P S W -> Prop) :
  running s ph f lv t k s1 -> in_u64 p -> bytes_ok name ->
  Q (fs_unused f p name) s1 -> (forall e, ~ PebbleReliable P -> Q (Err e) s1) -> wp (absent p name) Q s1.
Proof.
  intros Hr Hp Hn HQ HE. unfold absent. wp_step. apply (run_dirent s1 k); [done..| |done].
  unfold fs_unused in HQ. destruct (fs_entries f !! (p, name)); by wp_step.
Qed.

Lemma run_alloc s1 k (Q : outcome (Z * wop) -> Store P S W -> Prop) :
  running s ph f lv t k s1 ->
  Q (Ok (fs_next f, wop_of (FNext (u64 (fs_next f + 1))))) s1 -> (forall e, ~ PebbleReliable P -> Q (Err e) s1) ->
  wp allocInode Q s1.
Proof.
  intros Hr HQ HE. unfold allocInode. wp_step. apply (run_get s1 k); [done| |done].
  pose proof Hr as [_ Hf _ _ _ _]. rewrite (rp_next _ _ Hf). wp_step. rewrite blen_put_le. cbn [Z.of_nat Z.eqb Pos.eqb Pos.of_succ_nat Pos.succ].
  rewrite get_put_le_u64 by apply (rp_next_typed _ _ Hf). exact HQ.
Qed.

Lemma run_now s1 k (Q : outcome Z -> Store P S W -> Prop) :
  running s ph f lv t k s1 -> (forall s2, running s ph f lv t (Datatypes.S k) s2 -> in_i64 (t k) -> Q (Ok (t k)) s2) -> wp time_now Q s1.
Proof.
  intros [H1 H2 H3 H4 H5 H6] HQ. unfold wp, time_now. cbn [fst snd].
  pose proof (H6 O) as E. rewrite Nat.add_0_r in E. rewrite E. apply HQ; [|rewrite <-E; apply i64_range]. split; try done.
  intros n. cbn. rewrite H6. f_equal. lia.
Qed.

(** The changes of the call, committed. *)
Lemma run_commit s1 k ops (Q : outcome unit -> Store P S W -> Prop) :
  running s ph f lv t k s1 -> Forall fop_typed ops ->
  (forall s2, store_ok s2 ph -> represents (disk s2) (apply_fops ops f) -> same_view s s2 -> Q (Ok tt) s2) ->
  (forall e s2, ~ PebbleReliable P -> store_ok s2 ph -> represents (disk s2) f \/ represents (disk s2) (apply_fops ops f) ->
     same_view s s2 -> Q (Err e) s2) ->
  wp (commit (wop_of <$> ops)) Q s1.
Proof.
  intros [Hst Hf _ _ Hv _] Ht HO HE.
  assert (Forall foreign_op (wop_of <$> ops)) as Hfo
    by (apply Forall_fmap; eapply Forall_impl; [exact Ht|]; intros o; apply wop_foreign).
  assert (forall s2, meta_step s1 s2 -> store_ok s2 ph /\ same_view s s2) as Hms.
  { intros s2 Hm. destruct (meta_step_ok s1 s2 ph Hst Hm) as [? Hv2]. split; [done|].
    intros i x Hi. by rewrite Hv2, Hv. }
  assert (wp (commit (wop_of <$> ops)) (fun r s2 => meta_step s1 s2 /\ match r with
    | Ok _ => disk s2 = apply_ops (wop_of <$> ops) (disk s1)
    | Err _ => disk s2 = disk s1 \/ disk s2 = apply_ops (wop_of <$> ops) (disk s1)
    | Panic => False end) s1) as Hw by (apply wp_commit; auto).
  assert (wp (commit (wop_of <$> ops)) (fun r _ => PebbleReliable P -> is_ok r = true) s1) as Hrel.
  { unfold commit. apply wp_db, wp_queue_commit_rel; [done|]. intros e p Hn _ Hr. by destruct Hn. }
  unfold wp in *. destruct (commit (wop_of <$> ops) s1) as [r s2]. cbn [fst snd] in *.
  destruct Hw as [Hm Hd]. destruct (Hms s2 Hm) as [Hst2 Hv2]. destruct r as [[]|e|]; [| |done].
  - apply HO; [done| |done]. rewrite Hd. by apply represents_fops.
  - apply HE; [intros Hr; by specialize (Hrel Hr)|done| |done].
    destruct Hd as [->| ->]; [by left|right; by apply represents_fops].
Qed.

(** ** Endings *)

Lemma end_err {A} s1 k (sp : outcome (plan A)) e :
  running s ph f lv t k s1 -> (PebbleReliable P -> sp = Err e) -> refined s ph f sp (Err e) s1.
Proof.
  intros [Hst Hf _ _ Hv _] Hsp. split; [done|]. destruct sp as [p|e'|].
  - split; [by intros; apply Hv|]. split; [by left|]. intros Hr. by specialize (Hsp Hr).
  - exists e. split_and!; try done.
  - exists e. split_and!; try done.
Qed.

Lemma end_engine {A} s1 k (sp : outcome (plan A)) :
  running s ph f lv t k s1 -> forall e, ~ PebbleReliable P -> refined s ph f sp (Err e) s1.
Proof. intros Hr e Hn. by eapply end_err. Qed.

(** A call that commits and returns. *)
Lemma end_commit {A} s1 k (a : A) ops w :
  running s ph f lv t k s1 -> w = wop_of <$> ops -> Forall fop_typed ops ->
  wp (let* _ := commit w in ret a) (refined s ph f (Ok (mkPlan a ops None))) s1.
Proof.
  intros Hr -> Ht. wp_step. eapply run_commit; [done|done| |].
  - intros s2 Hst Hf Hv. wp_step. split; [done|]. cbn [pl_ops pl_free pl_result]. split; [by intros; apply Hv|]. by split_and!.
  - intros e s2 Hn Hst Hf Hv. split; [done|]. cbn [pl_ops pl_free pl_result]. split; [by intros; apply Hv|]. split; [done|].
    intros Hrel. by destruct Hn.
Qed.

(** ** No specification panics *)

Lemma stat_no_panic i : fs_stat lv f i <> Panic.
Proof. unfold fs_stat. by case_match. Qed.
Lemma guard_no_panic b e : guard b e <> Panic.
Proof. by destruct b. Qed.
Lemma unused_no_panic p name : fs_unused f p name <> Panic.
Proof. unfold fs_unused. by case_match. Qed.
Lemma dir_no_panic i : fs_dir lv f i <> Panic.
Proof.
  unfold fs_dir. pose proof (stat_no_panic i). destruct (fs_stat lv f i) as [n| |]; [|done..]. cbn.
  by destruct (IsDir (nd_Mode n)).
Qed.
Lemma child_no_panic p name : fs_child lv f p name <> Panic.
Proof. unfold fs_child. by repeat case_match. Qed.

(** [spec_case r E] splits on a step [r] of the specification; where it ends
    in an error, so does the call. *)
Ltac spec_case r E :=
  destruct r eqn:E; cbn [obind];
  [ | solve [eapply end_err; done]
    | exfalso; revert E; first [apply validName_no_panic | eapply stat_no_panic | eapply dir_no_panic
        | eapply unused_no_panic | eapply child_no_panic | eapply guard_no_panic] ].

(** ** The operations that add an entry *)

Lemma new_node_typed id mode nlink uid gid size now target :
  in_u64 id -> in_u32 mode -> in_u32 nlink -> in_u32 uid -> in_u32 gid -> in_i64 size -> in_i64 now ->
  blen target < 2^16 -> node_typed (new_node id mode nlink uid gid size now target).
Proof. intros. by unfold node_typed. Qed.

Lemma add_links_typed k now n : node_typed n -> in_i64 now -> node_typed (add_links k now n).
Proof.
  intros (N1 & N2 & N3 & N4 & N5 & N6 & N7 & N8 & N9 & N10) Hn. unfold node_typed. cbn. split_and!; try done; apply u32_range.
Qed.

Hypothesis Hclock : forall n, in_i64 (t n).

Lemma wp_Create parent name mode uid gid (s1 : Store P S W) k :
  running s ph f lv t k s1 -> k = O -> in_u64 parent -> bytes_ok name -> in_u32 uid -> in_u32 gid ->
  wp (Create parent name mode uid gid) (refined s ph f (fs_create lv f t parent name mode uid gid)) s1.
Proof.
  intros Hr -> Hp Hn Hu Hg. pose proof (rp_next_typed _ _ (rn_fs _ _ _ _ _ _ _ Hr)) as Hnx.
  unfold Create, Create_prepare, fs_create. wp_step. wp_step. wp_step.
  spec_case (validName name) Ev.
  wp_step. eapply run_dir; [done|done| |by eapply end_engine].
  spec_case (fs_dir lv f parent) Ed.
  wp_step. eapply run_absent; [done..| |by eapply end_engine].
  spec_case (fs_unused f parent name) Eu.
  wp_step. eapply run_alloc; [done| |by eapply end_engine]. wp_step. eapply run_now; [done|]. intros s2 Hr2 Ht. wp_step.
  eapply end_commit; [done|reflexivity|].
  repeat (apply Forall_cons; split); try done; [apply u64_range|].
  apply new_node_typed; try done. by apply lor_perm_u32.
Qed.

Lemma wp_Mkdir parent name mode uid gid (s1 : Store P S W) k :
  running s ph f lv t k s1 -> k = O -> in_u64 parent -> bytes_ok name -> in_u32 uid -> in_u32 gid ->
  wp (Mkdir parent name mode uid gid) (refined s ph f (fs_mkdir lv f t parent name mode uid gid)) s1.
Proof.
  intros Hr -> Hp Hn Hu Hg. pose proof (rp_next_typed _ _ (rn_fs _ _ _ _ _ _ _ Hr)) as Hnx.
  unfold Mkdir, fs_mkdir, fs_dir. wp_step. wp_step. spec_case (validName name) Ev.
  wp_step. eapply run_stat; [done|done| |by eapply end_engine]. spec_case (fs_stat lv f parent) Es.
  destruct (stat_typed _ _ _ _ Hr Es) as (Hnt & Hni & _). destruct (IsDir (nd_Mode _)) eqn:Ek; cbn [negb guard obind].
  2: { wp_step. by eapply end_err. }
  wp_step. eapply run_absent; [done..| |by eapply end_engine]. spec_case (fs_unused f parent name) Eu.
  wp_step. eapply run_alloc; [done| |by eapply end_engine]. wp_step. eapply run_now; [done|]. intros s2 Hr2 Ht.
  eapply end_commit; [done|cbn; rewrite Hni; reflexivity|].
  repeat (apply Forall_cons; split); try done; [apply u64_range| |by apply add_links_typed].
  apply new_node_typed; try done. by apply lor_perm_u32.
Qed.

Lemma wp_Symlink parent name target uid gid (s1 : Store P S W) k :
  running s ph f lv t k s1 -> k = O -> in_u64 parent -> bytes_ok name -> in_u32 uid -> in_u32 gid -> blen target < 2^16 ->
  wp (Symlink parent name target uid gid) (refined s ph f (fs_symlink lv f t parent name target uid gid)) s1.
Proof.
  intros Hr -> Hp Hn Hu Hg Htg. pose proof (rp_next_typed _ _ (rn_fs _ _ _ _ _ _ _ Hr)) as Hnx.
  unfold Symlink, fs_symlink. wp_step. wp_step. spec_case (validName name) Ev.
  wp_step. eapply run_dir; [done|done| |by eapply end_engine]. spec_case (fs_dir lv f parent) Ed.
  wp_step. eapply run_absent; [done..| |by eapply end_engine]. spec_case (fs_unused f parent name) Eu.
  wp_step. eapply run_alloc; [done| |by eapply end_engine]. wp_step. eapply run_now; [done|]. intros s2 Hr2 Ht.
  eapply end_commit; [done|reflexivity|].
  repeat (apply Forall_cons; split); try done; [apply u64_range|].
  apply new_node_typed; try done. unfold in_i64. pose proof (blen_nonneg target). lia.
Qed.

Lemma wp_Link target parent name (s1 : Store P S W) k :
  running s ph f lv t k s1 -> k = O -> in_u64 target -> in_u64 parent -> bytes_ok name ->
  wp (Link target parent name) (refined s ph f (fs_link lv f t target parent name)) s1.
Proof.
  intros Hr -> Htg Hp Hn. unfold Link, fs_link. wp_step. wp_step. spec_case (validName name) Ev.
  wp_step. eapply run_stat; [done|done| |by eapply end_engine]. spec_case (fs_stat lv f target) Es.
  destruct (stat_typed _ _ _ _ Hr Es) as (Hnt & Hni & _). destruct (IsDir (nd_Mode _)) eqn:Ek; cbn [negb guard obind].
  { wp_step. by eapply end_err. }
  wp_step. eapply run_dir; [done|done| |by eapply end_engine]. spec_case (fs_dir lv f parent) Ed.
  wp_step. eapply run_absent; [done..| |by eapply end_engine]. spec_case (fs_unused f parent name) Eu.
  wp_step. eapply run_now; [done|]. intros s2 Hr2 Ht.
  eapply end_commit; [done|cbn; rewrite Hni; reflexivity|].
  repeat (apply Forall_cons; split); try done. by apply add_links_typed.
Qed.

(** ** Scans of directory entries *)

Hypothesis complete : forall p : P, iter_complete p.
Hypothesis Hok : fs_ok f.
Hypothesis Hph : forall i, ph !! i = None.

(** What a scan of entries yields. *)
Definition dirent_scan (m : gmap bytes bytes) (pfx : bytes) (l : list (bytes * bytes)) : Prop :=
  StronglySorted key_before l /\ forall k v, (k, v) ∈ l <-> m !! k = Some v /\ has_prefix pfx k.

Lemma run_walk s1 k pfx (Q : outcome (list (bytes * bytes)) -> Store P S W -> Prop) :
  running s ph f lv t k s1 -> bytes_ok pfx ->
  (forall l, dirent_scan (disk s1) pfx l -> Q (Ok l) s1) -> (forall e, ~ PebbleReliable P -> Q (Err e) s1) ->
  wp (db (DB_walk_unchecked pfx (PrefixUpperBound pfx))) Q s1.
Proof.
  intros [Hst _ _ _ _ _] Hp HQ HE. apply wp_db. pose proof Hst as ((_ & _ & _ & Hd & _) & _).
  apply wp_DB_walk_complete; [apply complete| |intros e He; rewrite with_db_id, with_idx_id; by apply HE].
  intros l Hs Hl. rewrite with_db_id, with_idx_id. apply HQ. split; [done|]. by eapply prefix_pairs.
Qed.

(** An entry of the tree behind each pair. *)
Lemma scan_entry m pfx l k v :
  represents m f -> dirent_scan m (tagDirent :: pfx) l -> (k, v) ∈ l ->
  exists p name c, in_u64 p /\ bytes_ok name /\ k = DirentKey p name /\ v = direntValue c /\ fs_entries f !! (p, name) = Some c.
Proof.
  intros Hf [_ Hl] [Hk Hp]%Hl.
  destruct (rp_entry_keys _ _ Hf k v Hk) as (p & name & Hpu & Hn & ->); [destruct Hp as [r ->]; by eexists|].
  rewrite (rp_entry _ _ Hf) in Hk by done. destruct (fs_entries f !! (p, name)) as [c|] eqn:E; [|done].
  injection Hk as <-. by exists p, name, c.
Qed.

Lemma entry_in_scan m pfx l p name c :
  represents m f -> dirent_scan m pfx l -> fs_entries f !! (p, name) = Some c -> has_prefix pfx (DirentKey p name) ->
  (DirentKey p name, direntValue c) ∈ l.
Proof.
  intros Hf [_ Hl] He Hp. apply Hl. split; [|done]. destruct (rp_entry_typed _ _ Hf _ _ _ He) as (Hpu & Hn & _).
  by rewrite (rp_entry _ _ Hf), He.
Qed.

Lemma run_children s1 k i (Q : outcome bool -> Store P S W -> Prop) :
  running s ph f lv t k s1 -> in_u64 i ->
  Q (Ok (negb (fs_empty f i))) s1 -> (forall e, ~ PebbleReliable P -> Q (Err e) s1) -> wp (hasDirentChildren i) Q s1.
Proof.
  intros Hr Hi HQ HE. unfold hasDirentChildren. wp_step. eapply run_walk; [done|apply DirentPrefix_ok| |done].
  intros l Hl. pose proof (rn_fs _ _ _ _ _ _ _ Hr) as Hf. wp_step.
  assert (match l with [] => false | _ => true end = negb (fs_empty f i)) as ->; [|done].
  unfold fs_empty. destruct l as [|[k0 v0] l].
  - rewrite bool_decide_eq_true_2; [done|]. apply map_empty. intros [p name].
    apply map_lookup_filter_None. right. intros c He. cbn. intros ->.
    pose proof (entry_in_scan _ _ _ i name c Hf Hl He) as Hin. apply (not_elem_of_nil (DirentKey i name, direntValue c)), Hin.
    by apply prefix_DirentPrefix_DirentKey.
  - destruct (scan_entry _ _ _ k0 v0 Hf Hl ltac:(left)) as (p & name & c & Hp & Hn & -> & -> & He).
    rewrite bool_decide_eq_false_2; [done|]. intros Hem.
    destruct (proj1 (proj2 Hl _ _) (list_elem_of_here _ _)) as [_ Hpf]. apply prefix_DirentPrefix_DirentKey in Hpf as <-; [|done..].
    assert (filter (fun kv : Z * bytes * Z => kv.1.1 = i) (fs_entries f) !! (i, name) = Some c) as Hl2
      by (apply map_lookup_filter_Some; done).
    by rewrite Hem, lookup_empty in Hl2.
Qed.

(** ** The operations that remove an entry *)

Lemma end_free s1 k ops free w :
  running s ph f lv t k s1 -> w = wop_of <$> ops -> Forall fop_typed ops ->
  (forall i, free = Some i -> in_u64 i /\ i <> 0) ->
  wp (let* _ := commit w in free_if free) (refined s ph f (Ok (mkPlan tt ops free))) s1.
Proof.
  intros Hr -> Ht Hfree. wp_step. eapply run_commit; [done|done| |].
  - intros s2 Hst Hf Hv. destruct free as [i|]; cbn [free_if].
    2: { wp_step. split; [done|]. cbn [pl_ops pl_free pl_result]. split; [by intros; apply Hv|]. by split_and!. }
    destruct (Hfree i eq_refl) as [Hi Hi0]. rewrite (proj2 (Z.eqb_neq i 0)) by done.
    apply (wp_free_inode i s2 ph); [done|done|done| |].
    + intros s3 Hst3 [Hv3 Hv3'] Hk _. split; [done|]. cbn [pl_ops pl_free pl_result]. split; [|split_and!; [done| |]].
      * intros j x Hj Hne. rewrite Hv3' by congruence. by apply Hv.
      * by eapply represents_same.
      * intros j x [= <-]. apply Hv3.
    + intros e s3 Hst3 Hv3 Hk _. split; [done|]. cbn [pl_ops pl_free pl_result]. split; [|split; [right|by eauto]].
      * intros j x Hj Hne. rewrite Hv3 by congruence. by apply Hv.
      * by eapply represents_same.
  - intros e s2 Hn Hst Hf Hv. split; [done|]. cbn [pl_ops pl_free pl_result]. split; [by intros; apply Hv|]. split; [done|].
    intros Hrel. by destruct Hn.
Qed.

(** Read an entry, then its node. *)
Lemma run_child {A} s1 k p name (K : Z -> Node -> M (Store P S W) A) (sp : Z * Node -> outcome (plan A)) :
  running s ph f lv t k s1 -> in_u64 p -> bytes_ok name ->
  (forall c n, fs_entries f !! (p, name) = Some c -> fs_child lv f p name = Ok (c, n) ->
     fs_stat lv f c = Ok n -> in_u64 c -> node_typed n -> nd_Inode n = c ->
     wp (K c n) (refined s ph f (sp (c, n))) s1) ->
  wp (let* child := readDirent p name in
      match child with
      | None => throw ErrNotExist
      | Some child => let* n := on_error dangling (Stat child) in K child n
      end) (refined s ph f (let? cn := fs_child lv f p name in sp cn)) s1.
Proof.
  intros Hr Hp Hn HK. unfold fs_child in *. wp_step. eapply run_dirent; [done..| |by eapply end_engine].
  destruct (fs_entries f !! (p, name)) as [c|] eqn:E; cbn [obind]; [|wp_step; by eapply end_err].
  destruct (rp_entry_typed _ _ (rn_fs _ _ _ _ _ _ _ Hr) _ _ _ E) as (_ & _ & Hc).
  unfold on_error. wp_step. wp_step. wp_step. eapply run_stat; [done|done| |].
  - pose proof (stat_no_panic c). destruct (fs_stat lv f c) as [n|e|] eqn:Es; [|wp_step; by eapply end_err|done]. wp_step.
    destruct (stat_typed _ _ _ _ Hr Es) as (? & ? & _). by apply HK.
  - intros e Hn'. wp_step. by eapply end_engine.
Qed.

Lemma node_pos i n : fs_nodes f !! i = Some n -> i <> 0.
Proof. intros Hn. apply (fo_node _ _ _ Hok) in Hn. lia. Qed.

Lemma unlink_typed i now n : node_typed n -> in_i64 now -> in_u64 i ->
  fop_typed (unlink_node i now n).1 /\ forall j, (unlink_node i now n).2 = Some j -> j = i.
Proof.
  intros Hn Ht Hi. unfold unlink_node. destruct (nd_Nlink _ =? 0); cbn; split; try done; [by intros j [= <-]|by apply add_links_typed].
Qed.

Lemma drop_link_spec i now n : nd_Inode n = i ->
  drop_link i now n = (wop_of (unlink_node i now n).1, (unlink_node i now n).2).
Proof.
  intros <-. unfold drop_link, unlink_node, add_links. change (nd_Nlink n - 1) with (nd_Nlink n + -1).
  by destruct (nd_Nlink _ =? 0).
Qed.

Lemma wp_Unlink parent name (s1 : Store P S W) k :
  running s ph f lv t k s1 -> k = O -> in_u64 parent -> bytes_ok name ->
  wp (Unlink parent name) (refined s ph f (fs_unlink lv f t parent name)) s1.
Proof.
  intros Hr -> Hp Hn. unfold Unlink, fs_unlink. wp_step. wp_step. spec_case (validName name) Ev.
  eapply run_child; [done..|]. intros c n He _ Hs Hc Hnt Hni. cbn [fst snd].
  destruct (IsDir (nd_Mode n)); cbn [negb guard obind]; [wp_step; by eapply end_err|].
  wp_step. eapply run_now; [done|]. intros s2 Hr2 Ht. rewrite drop_link_spec by done.
  destruct (unlink_typed c (t O) n Hnt Ht Hc) as [Hft Hfr].
  eapply end_free; [done|reflexivity|by repeat (apply Forall_cons; split)|].
  intros i Hi. apply Hfr in Hi as ->. split; [done|]. apply stat_node in Hs as (n0 & Hn0 & _). by eapply node_pos.
Qed.

Lemma wp_Rmdir parent name (s1 : Store P S W) k :
  running s ph f lv t k s1 -> k = O -> in_u64 parent -> bytes_ok name ->
  wp (Rmdir parent name) (refined s ph f (fs_rmdir lv f t parent name)) s1.
Proof.
  intros Hr -> Hp Hn. unfold Rmdir, fs_rmdir. wp_step. wp_step. spec_case (validName name) Ev.
  eapply run_child; [done..|]. intros c n He _ Hs Hc Hnt Hni. cbn [fst snd].
  destruct (IsDir (nd_Mode n)); cbn [negb guard obind]; [|wp_step; by eapply end_err].
  wp_step. eapply run_children; [done|done| |by eapply end_engine].
  destruct (fs_empty f c); cbn [negb guard obind]; [|wp_step; by eapply end_err].
  wp_step. eapply run_stat; [done|done| |by eapply end_engine]. spec_case (fs_stat lv f parent) Es.
  destruct (stat_typed _ _ _ _ Hr Es) as (Hpt & Hpi & _).
  wp_step. eapply run_now; [done|]. intros s2 Hr2 Ht.
  match goal with |- wp (commit ?w) _ _ => assert (forall Q : outcome unit -> Store P S W -> Prop,
    wp (let* _ := commit w in free_if None) Q s2 -> wp (commit w) Q s2) as Hret end.
  { intros Q. unfold wp, bind. cbn [free_if]. unfold ret. by destruct (commit _ s2) as [[[]|e|] s3]. }
  apply Hret. eapply end_free; [done|cbn; rewrite Hpi; reflexivity| |done].
  repeat (apply Forall_cons; split); try done. by apply add_links_typed.
Qed.

(** ** Renaming *)

Lemma find_entry_spec i l :
  in_u64 i ->
  (forall k v, (k, v) ∈ l -> exists p name c, in_u64 p /\ in_u64 c /\ k = DirentKey p name /\ v = direntValue c /\
     fs_entries f !! (p, name) = Some c) ->
  exists r, find_entry (direntValue i) l = Ok r /\
    match r with
    | Some p => exists name, fs_entries f !! (p, name) = Some i
    | None => forall k v, (k, v) ∈ l -> v <> direntValue i
    end.
Proof.
  intros Hi. induction l as [|[k v] l IH]; intros Hl; [exists None; split; [done|by intros k v ?%elem_of_nil]|].
  cbn [find_entry]. unfold equalBytes. destruct (Hl k v ltac:(left)) as (p & name & c & Hp & Hc & -> & -> & He).
  case_bool_decide as Hv.
  - apply direntValue_inj in Hv as ->; [|done..]. rewrite DirentParent_DirentKey by done. exists (Some p). split; [done|]. by exists name.
  - destruct IH as (r & -> & Hr); [intros k' v' Hin; apply Hl; by right|]. exists r. split; [done|].
    destruct r; [done|]. intros k' v' [[= -> ->]|Hin]%elem_of_cons; [done|by eapply Hr].
Qed.

Lemma fs_parent_spec i :
  match fs_parent f i with
  | Some p => exists name, fs_entries f !! (p, name) = Some i
  | None => forall k, fs_entries f !! k <> Some i
  end.
Proof.
  unfold fs_parent. destruct (list_find _ _) as [[n [[p name] c]]|] eqn:E.
  - apply list_find_Some in E as (Hl & Hc & _). cbn in Hc. subst c. exists name.
    apply elem_of_map_to_list. by eapply list_elem_of_lookup_2.
  - intros k Hk. apply list_find_None in E. rewrite Forall_forall in E.
    by apply (E (k, i)); [apply elem_of_map_to_list|].
Qed.

Lemma run_parent s1 k i (Q : outcome (option Z) -> Store P S W -> Prop) :
  running s ph f lv t k s1 -> in_u64 i -> is_dir f i ->
  Q (Ok (fs_parent f i)) s1 -> (forall e, ~ PebbleReliable P -> Q (Err e) s1) -> wp (findParent i) Q s1.
Proof.
  intros Hr Hi Hd HQ HE. unfold findParent. wp_step. eapply run_walk; [done|by repeat constructor| |done].
  intros l Hl. pose proof (rn_fs _ _ _ _ _ _ _ Hr) as Hf.
  destruct (find_entry_spec i l Hi) as (r & -> & Hr').
  { intros k0 v Hin. destruct (scan_entry _ _ _ k0 v Hf Hl Hin) as (p & name & c & ? & ? & ? & ? & He).
    exists p, name, c. split_and!; try done. by apply (rp_entry_typed _ _ Hf) in He as (_ & _ & ?). }
  wp_step. pose proof (fs_parent_spec i) as Hfp. destruct r as [p|], (fs_parent f i) as [p'|]; [| | |done].
  - destruct Hr' as [nm H1], Hfp as [nm' H2]. by injection (dir_once f Hok p nm p' nm' i Hd H1 H2) as -> _.
  - destruct Hr' as [nm H1]. by destruct (Hfp (p, nm)).
  - destruct Hfp as [nm' H2]. exfalso. apply (Hr' (DirentKey p' nm') (direntValue i)); [|done].
    eapply entry_in_scan; [done..|]. by eexists.
Qed.

Lemma run_climb s1 k root fuel : forall cur (Q : outcome bool -> Store P S W -> Prop),
  running s ph f lv t k s1 -> in_u64 cur -> is_dir f cur ->
  Q (Ok (fs_climb fuel f cur root)) s1 -> (forall e, ~ PebbleReliable P -> Q (Err e) s1) -> wp (climb fuel cur root) Q s1.
Proof.
  induction fuel as [|fuel IH]; intros cur Q Hr Hi Hd HQ HE; cbn [climb fs_climb] in *; [by wp_step|].
  destruct (cur =? RootInode); [by wp_step|]. wp_step. eapply run_parent; [done..| |done].
  pose proof (fs_parent_spec cur) as Hp. destruct (fs_parent f cur) as [p|]; [|by wp_step].
  destruct Hp as [nm He]. destruct (p =? root); [by wp_step|]. apply IH; try done.
  - by apply (rp_entry_typed _ _ (rn_fs _ _ _ _ _ _ _ Hr)) in He as (? & _).
  - by eapply entry_dir.
Qed.

Lemma run_bump s1 k d i (Q : outcome wop -> Store P S W -> Prop) :
  running s ph f lv t k s1 -> in_u64 i ->
  (forall n s2, fs_stat lv f i = Ok n -> running s ph f lv t (Datatypes.S k) s2 -> node_typed (add_links d (t k) n) ->
     Q (Ok (wop_of (FNode (add_links d (t k) n)))) s2) ->
  (forall e, fs_stat lv f i = Err e -> Q (Err e) s1) -> (forall e, ~ PebbleReliable P -> Q (Err e) s1) ->
  wp (bump_nlink d i) Q s1.
Proof.
  intros Hr Hi HQ HN HE. unfold bump_nlink. wp_step. eapply run_stat; [done|done| |done].
  pose proof (stat_no_panic i). destruct (fs_stat lv f i) as [n|e|] eqn:Es; [|by apply HN|done].
  destruct (stat_typed _ _ _ _ Hr Es) as (Hnt & Hni & _). wp_step. eapply run_now; [done|]. intros s2 Hr2 Ht. wp_step.
  assert (NodeKey i = NodeKey (nd_Inode (add_links d (t k) n))) as -> by (cbn; by rewrite Hni).
  apply HQ; [done|done|by apply add_links_typed].
Qed.

(** The entry that is replaced. *)
Lemma run_replace s1 src newParent d (Q : outcome (list wop * option Z) -> Store P S W -> Prop) :
  running s ph f lv t O s1 -> in_u64 newParent -> in_u64 d ->
  (forall ops free n s2, fs_replace lv f t src newParent d = Ok (ops, free, n) -> running s ph f lv t n s2 ->
     Forall fop_typed ops -> (forall i, free = Some i -> i = d /\ i <> 0) -> Q (Ok (wop_of <$> ops, free)) s2) ->
  (forall e s2 n, (PebbleReliable P -> fs_replace lv f t src newParent d = Err e) -> running s ph f lv t n s2 -> Q (Err e) s2) ->
  wp (replace_target src newParent d) Q s1.
Proof.
  intros Hr Hnp Hd HQ HE. unfold replace_target, fs_replace in *. wp_step. unfold on_error. wp_step. wp_step.
  assert (forall e s2 n, ~ PebbleReliable P -> running s ph f lv t n s2 -> Q (Err e) s2) as HR.
  { intros e s2 n Hn Hr2. by eapply HE. }
  eapply run_stat; [done|done| |intros e Hn; wp_step; by eapply HR].
  pose proof (stat_no_panic d). destruct (fs_stat lv f d) as [dn|e|] eqn:Es; [|wp_step; by eapply HE|done]. wp_step.
  destruct (stat_typed _ _ _ _ Hr Es) as (Hdt & Hdi & _).
  destruct (Bool.eqb _ _); cbn [negb guard obind] in *; [|wp_step; by eapply HE].
  destruct (IsDir (nd_Mode dn)) eqn:Ek.
  - wp_step. eapply run_children; [done|done| |intros e Hn; by eapply HR].
    destruct (fs_empty f d); cbn [negb guard obind] in *; [|wp_step; by eapply HE].
    wp_step. eapply run_bump; [done|done| | |intros e Hn; by eapply HR].
    + intros np s2 Enp Hr2 Hnt. rewrite Enp in HQ. cbn [obind] in HQ. wp_step.
      apply (HQ [FFree d; FNode (add_links (-1) (t O) np)] None 1%nat); [done|done| |done].
      by repeat (apply Forall_cons; split).
    + intros e Enp. rewrite Enp in HE. cbn [obind] in HE. by eapply HE.
  - wp_step. eapply run_now; [done|]. intros s2 Hr2 Ht. rewrite drop_link_spec by done. wp_step.
    destruct (unlink_typed d (t O) dn Hdt Ht Hd) as [Hft Hfr].
    apply (HQ [(unlink_node d (t O) dn).1] _ 1%nat); [done|done|by constructor|].
    intros i Hi. apply Hfr in Hi as ->. split; [done|]. apply stat_node in Es as (n0 & Hn0 & _). by eapply node_pos.
Qed.

(** The [..] links of a directory that changes parents. *)
Definition relink (src : Node) (oldParent newParent : Z) : M (Store P S W) (list wop) :=
  if IsDir (nd_Mode src) && negb (oldParent =? newParent) then
    let* op := bump_nlink (-1) oldParent in
    let* np := bump_nlink 1 newParent in
    ret [op; np]
  else ret [].

Lemma run_relink s1 k src oldParent newParent (Q : outcome (list wop) -> Store P S W -> Prop) :
  running s ph f lv t k s1 -> in_u64 oldParent -> in_u64 newParent ->
  (forall ops n s2, fs_relink lv f (t k) (t (Datatypes.S k)) src oldParent newParent = Ok ops -> running s ph f lv t n s2 ->
     Forall fop_typed ops -> Q (Ok (wop_of <$> ops)) s2) ->
  (forall e s2 n, (PebbleReliable P -> fs_relink lv f (t k) (t (Datatypes.S k)) src oldParent newParent = Err e) ->
     running s ph f lv t n s2 -> Q (Err e) s2) ->
  wp (relink src oldParent newParent) Q s1.
Proof.
  intros Hr Ho Hn HQ HE. unfold relink, fs_relink in *. destruct (_ && _).
  2: { wp_step. by apply (HQ [] k). }
  assert (forall e s2 n, ~ PebbleReliable P -> running s ph f lv t n s2 -> Q (Err e) s2) as HR.
  { intros e s2 n Hn' Hr2. by eapply HE. }
  wp_step. eapply run_bump; [done|done| | |intros e Hn'; by eapply HR].
  2: { intros e Es. rewrite Es in HE. cbn [obind] in HE. by eapply HE. }
  intros op s2 Eo Hr2 Hot. rewrite Eo in HQ, HE. cbn [obind] in HQ, HE.
  wp_step. eapply run_bump; [done|done| | |intros e Hn'; by eapply HR].
  2: { intros e Es. rewrite Es in HE. cbn [obind] in HE. by eapply HE. }
  intros np s3 En Hr3 Hnt. rewrite En in HQ. cbn [obind] in HQ. wp_step.
  eapply (HQ [FNode _; FNode _]); [done|done|by repeat (apply Forall_cons; split)].
Qed.

Lemma run_under s1 k srcNode newParent srcInode (Q : outcome bool -> Store P S W -> Prop) :
  running s ph f lv t k s1 -> in_u64 newParent -> is_dir f newParent ->
  Q (Ok (IsDir (nd_Mode srcNode) && fs_under f newParent srcInode)) s1 ->
  (forall e, ~ PebbleReliable P -> Q (Err e) s1) ->
  wp (if IsDir (nd_Mode srcNode) then
        if newParent =? srcInode then ret true else isDescendant newParent srcInode
      else ret false) Q s1.
Proof.
  intros Hr Hn Hd HQ HE. unfold fs_under in HQ. destruct (IsDir (nd_Mode srcNode)); cbn [andb] in HQ; [|by wp_step].
  destruct (newParent =? srcInode); cbn [orb] in HQ; [by wp_step|]. unfold isDescendant. by eapply run_climb.
Qed.

Lemma wp_Rename oldParent oldName newParent newName (s1 : Store P S W) :
  running s ph f lv t O s1 -> in_u64 oldParent -> bytes_ok oldName -> in_u64 newParent -> bytes_ok newName ->
  wp (Rename oldParent oldName newParent newName) (refined s ph f (fs_rename lv f t oldParent oldName newParent newName)) s1.
Proof.
  intros Hr Hop Hon Hnp Hnn. unfold Rename, fs_rename. wp_step. wp_step. spec_case (validName oldName) Ev.
  wp_step. wp_step. spec_case (validName newName) Ev'.
  eapply run_child; [done..|]. intros c n He _ Hs Hc Hnt Hni. cbn [fst snd].
  wp_step. eapply run_dir; [done|done| |by eapply end_engine]. spec_case (fs_dir lv f newParent) Ed.
  pose proof (dir_ok _ _ _ _ Ed) as [Esp Edp]. pose proof (stat_is_dir _ _ _ _ Esp Edp) as Hdir.
  wp_step. eapply run_under; [done..| |by eapply end_engine].
  destruct (IsDir (nd_Mode n) && fs_under f newParent c); cbn [negb guard obind]; [wp_step; by eapply end_err|].
  wp_step. eapply run_dirent; [done..| |by eapply end_engine].
  case_bool_decide as Hdst.
  { wp_step. pose proof Hr as [H1 H2 _ _ H5 _]. split; [done|]. cbn [pl_ops pl_free pl_result].
    split; [by intros; apply H5|]. by split_and!. }
  assert (forall rep s2, running s ph f lv t rep.2 s2 -> Forall fop_typed rep.1.1 -> (forall i, rep.1.2 = Some i -> in_u64 i /\ i <> 0) ->
    wp (let* links := relink n oldParent newParent in
        let* _ := commit ((wop_of <$> rep.1.1) ++ [WDelete (DirentKey oldParent oldName);
          WSet (DirentKey newParent newName) (direntValue c)] ++ links) in
        free_if rep.1.2)
      (refined s ph f (let? links := fs_relink lv f (t rep.2) (t (Datatypes.S rep.2)) n oldParent newParent in
         Ok (mkPlan tt (rep.1.1 ++ [FRemove oldParent oldName; FEntry newParent newName c] ++ links) rep.1.2))) s2) as Hrest.
  { intros [[rep free] k] s2 Hr2 Hft Hfr. cbn [fst snd] in *. wp_step. eapply run_relink; [done..| |].
    - intros ops k' s3 El Hr3 Hlt. rewrite El. cbn [obind]. eapply end_free; [done|by rewrite !fmap_app| |done].
      apply Forall_app. split; [done|]. apply Forall_app. split; [|done].
      by repeat (apply Forall_cons; split).
    - intros e s3 k' El Hr3. eapply end_err; [done|]. intros Hrel. by rewrite (El Hrel). }
  wp_step. destruct (fs_entries f !! (newParent, newName)) as [d|] eqn:Edst.
  - destruct (rp_entry_typed _ _ (rn_fs _ _ _ _ _ _ _ Hr) _ _ _ Edst) as (_ & _ & Hd).
    eapply run_replace; [done..| |].
    + intros ops free k' s2 Erep Hr2 Hft Hfr. rewrite Erep. cbn [obind fst snd].
      apply (Hrest (ops, free, k') s2); [done|done|]. intros i Hi. destruct (Hfr i Hi) as [-> ?]. done.
    + intros e s2 k' Erep Hr2. eapply end_err; [done|]. intros Hrel. by rewrite (Erep Hrel).
  - wp_step. by apply (Hrest ([], None, O) s1).
Qed.

(** ** Attributes *)

Definition attr_typed (sa : SetAttr) : Prop :=
  (forall x, sa_UID sa = Some x -> in_u32 x) /\ (forall x, sa_GID sa = Some x -> in_u32 x) /\
  (forall x, sa_Size sa = Some x -> 0 <= x < 2^63) /\
  (forall x, sa_Mtime sa = Some x -> in_i64 x) /\ (forall x, sa_Atime sa = Some x -> in_i64 x).

Lemma land_mode_u32 x : in_u32 x -> in_u32 (Z.land x ModeMask).
Proof.
  intros [Hx Hx']. assert (0 <= Z.land x ModeMask) by (apply Z.land_nonneg; lia). split; [done|].
  destruct (decide (Z.land x ModeMask = 0)) as [->|]; [lia|]. apply Z.log2_lt_pow2; [lia|].
  pose proof (Z.log2_land x ModeMask Hx ltac:(done)) as Hl. change (Z.log2 ModeMask) with 15 in Hl. lia.
Qed.

Lemma opt_set_typed {A} (x : option A) g n :
  node_typed n -> (forall a m, x = Some a -> node_typed m -> node_typed (g a m)) -> node_typed (opt_set x g n).
Proof. intros Hn Hg. destruct x as [a|]; [by apply Hg|done]. Qed.

Lemma apply_attr_typed sa now n : node_typed n -> attr_typed sa -> in_i64 now -> node_typed (apply_attr sa now n).
Proof.
  intros Hn (Hu & Hg & Hs & Hm & Ha) Ht. unfold apply_attr. cbv zeta.
  assert (forall m, node_typed m -> node_typed (set_Ctime now m)) as Hct
    by (intros m (?&?&?&?&?&?&?&?&?&?); by unfold node_typed).
  apply Hct.
  repeat (apply opt_set_typed; [|intros a m Ea (?&?&?&?&?&?&?&?&?&?); unfold node_typed; cbn; split_and!; try done; auto]); [done|..].
  - apply lor_perm_u32. by apply land_mode_u32.
  - specialize (Hs a Ea). unfold in_i64. lia.
Qed.

(** The attributes of a call of [Setattr], once the file has been cut. *)
Definition set_attrs (i : Z) (sa : SetAttr) : M (Store P S W) Node :=
  let* nn := Stat i in
  let* now := time_now in
  let nn := apply_attr sa now nn in
  let* _ := commit [WSet (NodeKey i) (encodeNode nn)] in
  ret nn.

Lemma wp_set_attrs i sa (s1 : Store P S W) :
  running s ph f lv t O s1 -> in_u64 i -> attr_typed sa -> wp (set_attrs i sa) (refined s ph f (fs_setattr lv f t i sa)) s1.
Proof.
  intros Hr Hi Hsa. unfold set_attrs, fs_setattr. wp_step. eapply run_stat; [done|done| |by eapply end_engine].
  spec_case (fs_stat lv f i) Es. destruct (stat_typed _ _ _ _ Hr Es) as (Hnt & Hni & _).
  wp_step. eapply run_now; [done|]. intros s2 Hr2 Ht. destruct (apply_attr_keeps sa (t O) a) as (Hki & _).
  eapply end_commit; [done|cbn [fmap list_fmap wop_of]; rewrite Hki, Hni; reflexivity|]. constructor; [|done]. by apply apply_attr_typed.
Qed.
End Running.

(** ** Setattr *)

(** The size of the file no longer matters once a size is set. *)
Lemma apply_attr_size sa now n n' size :
  sa_Size sa = Some size -> set_Size 0 n = set_Size 0 n' -> apply_attr sa now n = apply_attr sa now n'.
Proof.
  intros Hs E. assert (forall x, set_Size x n = set_Size x n') as Ex.
  { intros x. by apply (f_equal (set_Size x)) in E. }
  destruct n, n'. unfold set_Size in E. cbn in E. injection E as -> -> -> -> -> -> -> -> ->.
  destruct sa as [[?|] [?|] [?|] sz [?|] [?|]]; cbn in Hs; subst; reflexivity.
Qed.

Lemma merge_live_size a b mtime n :
  set_Size 0 (merge_live (Some (a, mtime)) n) = set_Size 0 (merge_live (Some (b, mtime)) n).
Proof. unfold merge_live. destruct (nd_Size n <? a), (nd_Size n <? b); cbn; by destruct (nd_Mtime n <? mtime). Qed.

(** What [Setattr] leaves of the content: a smaller size cuts the file. *)
Definition resized (sa : SetAttr) (size : Z) (fc : Z -> option Z) : Z -> option Z :=
  match sa_Size sa with
  | Some sz => if sz <? size then cut_at sz fc else fc
  | None => fc
  end.

Definition setattr_done s (ph : gmap Z phase) f (i : Z) (sa : SetAttr) (r : outcome Node) s' : Prop :=
  store_ok s' ph /\ (forall j x, in_u64 j -> j <> i -> live s' j x = live s j x) /\
  match fs_setattr (fun j => live_attrs j s) f (clock s) i sa with
  | Ok p =>
      let f' := apply_fops (pl_ops p) f in
      match r with
      | Ok nn => nn = pl_result p /\ represents (disk s') f' /\
          exists n0, fs_stat (fun j => live_attrs j s) f i = Ok n0 /\
            forall x, live s' i x = resized sa (nd_Size n0) (live s i) x
      | Err _ => represents (disk s') f \/ represents (disk s') f'
      | Panic => False
      end
  | _ => exists e, r = Err e /\ (PebbleReliable P -> fs_setattr (fun j => live_attrs j s) f (clock s) i sa = Err e) /\
           represents (disk s') f /\ same_view s s'
  end.

Lemma setattr_from_attrs s s1 ph f i sa r s' n0 :
  refined s1 ph f (fs_setattr (fun j => live_attrs j s1) f (clock s) i sa) r s' ->
  fs_stat (fun j => live_attrs j s) f i = Ok n0 ->
  fs_setattr (fun j => live_attrs j s1) f (clock s) i sa = fs_setattr (fun j => live_attrs j s) f (clock s) i sa ->
  in_u64 i -> view_becomes s s1 i (resized sa (nd_Size n0) (live s i)) -> setattr_done s ph f i sa r s'.
Proof.
  intros [Hst Hr] Hn0 Esp Hi [Hv Hv']. rewrite Esp in Hr. split; [done|]. unfold setattr_done, fs_setattr in *. rewrite Hn0 in *. cbn [obind pl_ops pl_free pl_result] in *.
  destruct Hr as [Hl Hr]. split; [intros j x Hj Hne; by rewrite Hl, Hv'|]. destruct r as [nn|e|]; [|by destruct Hr|done].
  destruct Hr as (-> & Hf & _). split_and!; [done|done|]. exists n0. split; [done|]. intros x. by rewrite Hl, Hv.
Qed.

(** The half of [Setattr] after the cut, from the state [s1] that the cut left. *)
Lemma wp_attrs_after s s1 ph f i sa n0 :
  store_ok s1 ph -> represents (disk s1) f -> in_u64 i -> attr_typed sa -> st_clock s1 = st_clock s ->
  fs_stat (fun j => live_attrs j s) f i = Ok n0 ->
  fs_setattr (fun j => live_attrs j s1) f (clock s) i sa = fs_setattr (fun j => live_attrs j s) f (clock s) i sa ->
  view_becomes s s1 i (resized sa (nd_Size n0) (live s i)) ->
  wp (set_attrs i sa) (setattr_done s ph f i sa) s1.
Proof.
  intros Hst Hf Hi Hsa Hck Hn0 Esp Hv. pose proof (running_start s1 ph f Hst Hf) as Hr.
  assert (clock s1 = clock s) as Eck by (unfold clock; by rewrite Hck). rewrite Eck in Hr.
  eapply wp_mono; [by eapply wp_set_attrs|].
  intros r s' Hdone. by eapply setattr_from_attrs.
Qed.

(** A cut of the buffer does not show in the node that is written. *)
Lemma setattr_clipped s s1 f i sa size n0 :
  attrs_clipped s s1 i size -> sa_Size sa = Some size -> fs_stat (fun j => live_attrs j s) f i = Ok n0 ->
  fs_setattr (fun j => live_attrs j s1) f (clock s) i sa = fs_setattr (fun j => live_attrs j s) f (clock s) i sa.
Proof.
  intros [_ Hat] Hsz. unfold fs_setattr, fs_stat. destruct (fs_nodes f !! i) as [n|]; [|done]. intros _. cbn [obind].
  assert (apply_attr sa (clock s O) (merge_live (live_attrs i s1) n) = apply_attr sa (clock s O) (merge_live (live_attrs i s) n)) as ->; [|done].
  eapply apply_attr_size; [done|]. rewrite Hat. destruct (live_attrs i s) as [[sz mt]|]; [apply merge_live_size|done].
Qed.

Lemma wp_Setattr s ph f i sa :
  store_ok s ph -> represents (disk s) f -> (forall j, ph !! j = None) -> in_u64 i -> attr_typed sa ->
  wp (Setattr i sa) (setattr_done s ph f i sa) s.
Proof.
  intros Hst Hf Hph Hi Hsa. pose proof (running_start s ph f Hst Hf) as Hr. set (lv := fun j => live_attrs j s) in *.
  assert (forall e, fs_stat lv f i = Err e -> setattr_done s ph f i sa (Err e) s) as Herr.
  { intros e Ee. split; [done|]. split; [done|]. fold lv. unfold fs_setattr. rewrite Ee. cbn. by exists e. }
  assert (forall e, ~ PebbleReliable P -> setattr_done s ph f i sa (Err e) s) as Heng.
  { intros e Hn. split; [done|]. split; [done|]. destruct (fs_setattr _ _ _ _ _); [by left|exists e..]; by split_and!. }
  change (wp (let* _ := match sa_Size sa with Some size => shrink i size | None => ret tt end in set_attrs i sa) (setattr_done s ph f i sa) s).
  pose proof (stat_no_panic f lv i) as Hnp.
  assert (forall n0, fs_stat lv f i = Ok n0 -> (forall x, resized sa (nd_Size n0) (live s i) x = live s i x) ->
    wp (set_attrs i sa) (setattr_done s ph f i sa) s) as Hplain.
  { intros n0 Hn0 Hres. apply (wp_attrs_after s s ph f i sa n0); try done. }
  wp_step. destruct (sa_Size sa) as [size|] eqn:Esz.
  2: { wp_step. destruct (fs_stat lv f i) as [n0|e|] eqn:En; [|unfold set_attrs; wp_step; eapply run_stat; [done|done| |done]|done].
       - apply (Hplain n0); [done|]. unfold resized. by rewrite Esz.
       - rewrite En. by apply Herr. }
  unfold shrink. wp_step. eapply run_stat; [done|done| |done].
  destruct (fs_stat lv f i) as [n0|e|] eqn:En; [|by apply Herr|done].
  destruct (Z.ltb_spec size (nd_Size n0)) as [Hlt|Hge].
  2: { wp_step. apply (Hplain n0); [done|]. unfold resized. rewrite Esz. by rewrite (proj2 (Z.ltb_ge _ _)). }
  wp_step. wp_step. pose proof Hst as (_ & _ & _ & c & Hc & _). rewrite Hc.
  pose proof Hsa as (_ & _ & Hszt & _). specialize (Hszt size Esz).
  apply (wp_cut i size s ph); [done|done|done|done| |].
  - intros s1 Hst1 Hv Hat Hclk Hk _.
    apply (wp_attrs_after s s1 ph f i sa n0); try done; [by eapply represents_same|by eapply setattr_clipped|].
    unfold resized. rewrite Esz. by rewrite (proj2 (Z.ltb_lt _ _)).
  - intros e s1 Hst1 Hv Hk _. split; [done|]. split; [done|]. fold lv. unfold fs_setattr. rewrite En. cbn [obind pl_ops].
    left. by eapply represents_same.
Qed.
End Tree.
