(* ===== verification/TreeSpec.v ===== *)
(** * The file API: the contract

    Every call that changes the tree, run on any store, does what Fs.v says and
    keeps the invariant of the tree; [Open] establishes both.  Calls run alone
    here: two creations that overlap break the invariant (Race.v). *)

From S2P Require Import Prelude Keys Kv Gostr Segment Layer Index IndexSpec IndexRead IndexAppend IndexMaint Node Coalescer Store LiveFile LiveWrite LiveFlush LiveTrunc StoreSpec Fs FsInv Tree.

Section Calls.
Context {P : Type} {PB : Pebble P} {PL : PebbleLaws P}.
Context {S : Type} {SL : SegLayer S} {SLL : SegLayerLaws S} {MR : MapRange}.
Context {W : Type} {SW : Semaphore W} {SWL : SemaphoreLaws W}.
Implicit Types s : Store P S W.
Implicit Types f : fs.

(** ** Calls *)

Definition some_result (m : M (Store P S W) Node) : M (Store P S W) (option Node) := let* n := m in ret (Some n).
Definition no_result (m : M (Store P S W) unit) : M (Store P S W) (option Node) := let* _ := m in ret None.

Definition run (c : call) : M (Store P S W) (option Node) :=
  match c with
  | CCreate p n m u g => some_result (Create p n m u g)
  | CMkdir p n m u g => some_result (Mkdir p n m u g)
  | CSymlink p n tg u g => some_result (Symlink p n tg u g)
  | CLink i p n => some_result (Link i p n)
  | CUnlink p n => no_result (Unlink p n)
  | CRmdir p n => no_result (Rmdir p n)
  | CRename op on np nn => no_result (Rename op on np nn)
  end.

(** The arguments are of their Go types; a symlink target fits its length field. *)
Definition call_typed (c : call) : Prop :=
  match c with
  | CCreate p n _ u g | CMkdir p n _ u g => in_u64 p /\ bytes_ok n /\ in_u32 u /\ in_u32 g
  | CSymlink p n tg u g => in_u64 p /\ bytes_ok n /\ in_u32 u /\ in_u32 g /\ blen tg < 2^16
  | CLink i p n => in_u64 i /\ in_u64 p /\ bytes_ok n
  | CUnlink p n | CRmdir p n => in_u64 p /\ bytes_ok n
  | CRename op on np nn => in_u64 op /\ bytes_ok on /\ in_u64 np /\ bytes_ok nn
  end.

Lemma refined_some s ph f (sp : outcome (plan Node)) (m : M (Store P S W) Node) :
  wp m (refined s ph f sp) s -> wp (some_result m) (refined s ph f (some_node sp)) s.
Proof.
  intros Hm. unfold some_result. wp_step. eapply wp_mono; [exact Hm|]. intros r s' [Hst Hr].
  destruct r as [n|e|]; [wp_step| |]; (split; [done|]); unfold some_node; destruct sp as [p|e'|]; cbn [obind pl_ops pl_free pl_result] in *;
    try done; try (by destruct Hr as (? & ? & _)); [| |].
  - destruct Hr as (? & -> & ?). done.
  - destruct Hr as (e1 & [= <-] & Hsp & ?). exists e. split_and!; try done; [|tauto..]. intros Hrel. specialize (Hsp Hrel). congruence.
  - destruct Hr as (e1 & [= <-] & Hsp & ?). exists e. split_and!; try done; [|tauto..]. intros Hrel. by specialize (Hsp Hrel).
Qed.

Lemma refined_none s ph f (sp : outcome (plan unit)) (m : M (Store P S W) unit) :
  wp m (refined s ph f sp) s -> wp (no_result m) (refined s ph f (no_node sp)) s.
Proof.
  intros Hm. unfold no_result. wp_step. eapply wp_mono; [exact Hm|]. intros r s' [Hst Hr].
  destruct r as [n|e|]; [wp_step| |]; (split; [done|]); unfold no_node; destruct sp as [p|e'|]; cbn [obind pl_ops pl_free pl_result] in *;
    try done; try (by destruct Hr as (? & ? & _)); [| |].
  - destruct Hr as (? & _ & ?). done.
  - destruct Hr as (e1 & [= <-] & Hsp & ?). exists e. split_and!; try done; [|tauto..]. intros Hrel. specialize (Hsp Hrel). congruence.
  - destruct Hr as (e1 & [= <-] & Hsp & ?). exists e. split_and!; try done; [|tauto..]. intros Hrel. by specialize (Hsp Hrel).
Qed.

(** A call starts: the store is well formed and holds a tree. *)
Record at_rest s (ph : gmap Z phase) f : Prop := {
  ar_ok : store_ok s ph;
  ar_fs : represents (disk s) f;
  ar_tree : fs_ok f;
  ar_idle : forall i, ph !! i = None;
  ar_complete : forall p : P, iter_complete p;
}.

Lemma wp_run s ph f c :
  at_rest s ph f -> call_typed c -> wp (run c) (refined s ph f (spec (fun i => live_attrs i s) f (clock s) c)) s.
Proof.
  intros [Hst Hf Hok Hph Hc] Hty. pose proof (running_start s ph f Hst Hf) as Hr.
  assert (forall n, in_i64 (clock s n)) as Hck by (intros n; apply i64_range).
  destruct c; cbn [run spec call_typed] in *; destruct_and! Hty; first [apply refined_some|apply refined_none].
  - by eapply wp_Create.
  - by eapply wp_Mkdir.
  - by eapply wp_Symlink.
  - by eapply wp_Link.
  - by eapply wp_Unlink.
  - by eapply wp_Rmdir.
  - by eapply wp_Rename.
Qed.

(** C3: the calls that change the tree do what the abstract tree says.  Create,
    Mkdir, Symlink, Link, Unlink, Rmdir and Rename return the specified result
    and commit the specified changes in one step, or fail with the specified
    error and change nothing.  A failing engine may turn a call into an error
    that changed all or nothing.  No content changes but that of a file that
    lost its last link, which is emptied. *)
Theorem calls_refine_tree s ph f c :
  at_rest s ph f -> call_typed c ->
  let '(r, s') := run c s in refined s ph f (spec (fun i => live_attrs i s) f (clock s) c) r s'.
Proof. intros. apply (wp_pair (run c) (refined s ph f (spec (fun i => live_attrs i s) f (clock s) c))). by apply wp_run. Qed.



(** ** Opening a store *)

(** The tree of a store opened for the first time. *)
Definition mkfs (now : Z) : fs := mkFs {[RootInode := root_node now]} ∅ (RootInode + 1).

(** The database holds fragments at most. *)
Definition no_metadata (m : gmap bytes bytes) : Prop :=
  forall k v, m !! k = Some v -> has_prefix StripeAllPrefix k.

Lemma root_node_typed now : in_i64 now -> node_typed (root_node now).
Proof. intros H. by repeat split; try apply H. Qed.

Lemma mkfs_ok now : fs_ok (mkfs now).
Proof.
  assert (forall i n, fs_nodes (mkfs now) !! i = Some n -> i = RootInode /\ n = root_node now) as Hl
    by (intros i n; cbn; by intros [<- <-]%lookup_singleton_Some).
  split.
  - exists (root_node now). split; [apply lookup_singleton_eq|done].
  - by intros j n [-> ->]%Hl.
  - intros p name c. cbn. by rewrite lookup_empty.
  - by intros j n [-> ->]%Hl.
  - intros j n [-> ->]%Hl _. reflexivity.
Qed.

Lemma represents_mkfs m now :
  no_metadata m -> in_i64 now ->
  represents (apply_ops [WSet StoreNextInodeKey (put_le 8 (RootInode + 1)); WSet (NodeKey RootInode) (encodeNode (root_node now))] m)
    (mkfs now).
Proof.
  intros Hm Hn. assert (forall k, ~ has_prefix StripeAllPrefix k -> m !! k = None) as Hno.
  { intros k Hk. destruct (m !! k) as [v|] eqn:E; [|done]. by apply Hm in E. }
  change (represents (apply_op (<[StoreNextInodeKey := put_le 8 (RootInode + 1)]> m) (wop_of (FNode (root_node now)))) (apply_fop (mkFs ∅ ∅ (RootInode + 1)) (FNode (root_node now)))).
  apply represents_fop; [|by apply root_node_typed]. split; cbn [fs_nodes fs_entries fs_next]; try done.
  - intros i Hi. rewrite lookup_empty, lookup_insert_ne by done. apply Hno, NodeKey_foreign.
  - intros p name Hp Hnm. rewrite lookup_empty, lookup_insert_ne by done. apply Hno. by intros ?%has_prefix_tag.
  - intros k v [[<- _]|[_ Hk]]%lookup_insert_Some Hp; [by apply has_prefix_tag in Hp|].
    apply Hm in Hk. destruct Hp as [r ->]. by apply has_prefix_tag in Hk.
  - by rewrite lookup_insert_eq.
Qed.

(** A store right after its buffer was made. *)
Lemma fresh_buffer_ok s :
  index_ok (st_idx s) -> sets_clean (st_idx s) -> ix_seqGen (st_idx s) < 2^62 ->
  store_ok (with_co (Some newCoalescer) s) ∅.
Proof.
  intros Hok Hcl Hq. split_and!; [done..|]. exists newCoalescer. split_and!; [done| |].
  - split; [intros i b; cbn; by rewrite lookup_empty|by intros i p; rewrite lookup_empty|].
    split_and!; cbn; [intros i b|intros i j bi bj n _|intros n]; by rewrite ?lookup_empty || set_solver.
  - destruct (sem_new_law 4294967296) as [Hc Hh]. unfold mem_ok, newCoalescer, newCoalescerWithOptions.
    cbn [co_buffers co_sem co_opts complete_options op_globalCap opt_default defaultCoalescerOptions].
    change (opt_default 4294967296 4294967296) with 4294967296. rewrite Hc, Hh. unfold mem_total. rewrite map_fold_empty. lia.
Qed.

Definition opened s s' (t : nat -> Z) f : Prop :=
  store_ok s' ∅ /\ represents (disk s') f /\ fs_ok f /\
  (forall i x, in_u64 i -> live s' i x = content (st_idx s) i x).

Lemma wp_OpenStore s f0 :
  index_ok (st_idx s) -> sets_clean (st_idx s) -> ix_seqGen (st_idx s) < 2^62 ->
  (no_metadata (disk s) /\ f0 = mkfs (clock s O) \/ represents (disk s) f0 /\ fs_ok f0) ->
  wp OpenStore (fun r s' => match r with
    | Ok _ => opened s s' (clock s) f0
    | Err _ => index_ok (st_idx s') /\ forall i x, in_u64 i -> content (st_idx s') i x = content (st_idx s) i x
    | Panic => False
    end) s.
Proof.
  intros Hok Hcl Hq Hd.
  assert (index_ok (st_idx s) /\ forall i x, in_u64 i -> content (st_idx s) i x = content (st_idx s) i x) as Hid by done.
  assert (forall s1 ops, st_idx s1 = st_idx s -> Forall foreign_op ops ->
    represents (apply_ops ops (disk s)) f0 -> fs_ok f0 ->
    wp (let* _ := commit ops in modify (with_co (Some newCoalescer))) (fun r s' => match r with
      | Ok _ => opened s s' (clock s) f0
      | Err _ => index_ok (st_idx s') /\ forall i x, in_u64 i -> content (st_idx s') i x = content (st_idx s) i x
      | Panic => False
      end) s1) as Hend.
  { intros s1 ops Hix Hfo Hf Hfs. wp_step. apply wp_commit; [done| |].
    - intros s2 Hm2 Hd2 _. wp_step.
      destruct (meta_step_index s1 s2) as [Hok2 Hsf]; [by rewrite Hix|done|]. rewrite Hix in Hsf.
      destruct Hm2 as (_ & Hsq & Hss & Hh & Hc & _). rewrite Hix in *.
      split_and!; [|by unfold disk in *; cbn; rewrite Hd2, Hix|done|].
      + apply fresh_buffer_ok; [done|split; [rewrite Hh|rewrite Hc]; apply Hcl|by rewrite Hsq].
      + intros i x Hi. unfold live, buffered. cbn [with_co st_co st_idx newCoalescer newCoalescerWithOptions co_buffers].
        rewrite lookup_empty. cbn. by apply Hsf.
    - intros e s2 Hm2 _.
      destruct (meta_step_index s1 s2) as [Hok2 Hsf]; [by rewrite Hix|done|]. rewrite Hix in Hsf. split; [done|]. intros i x Hi. by apply Hsf. }
  unfold OpenStore. wp_step. apply wp_db_get; [|done]. wp_step. apply wp_db_get; [|done]. wp_step.
  destruct Hd as [[Hno ->]|[Hf Hfs]].
  - assert (forall k, ~ has_prefix StripeAllPrefix k -> disk s !! k = None) as Hn.
    { intros k Hk. destruct (disk s !! k) as [v|] eqn:E; [|done]. by apply Hno in E. }
    rewrite (Hn (NodeKey RootInode)) by apply NodeKey_foreign.
    rewrite (Hn StoreNextInodeKey) by (by intros ?%has_prefix_tag).
    wp_step. unfold time_now at 1. unfold wp at 1. cbn [fst snd]. wp_step.
    apply Hend; [done| |by apply represents_mkfs; [|apply i64_range]|apply mkfs_ok].
    repeat (apply Forall_cons; split); [apply counter_foreign|apply node_set_foreign|done].
  - destruct (fo_root _ _ _ Hfs) as (rn & Hrn & _). pose proof (fo_node _ _ _ Hfs _ _ Hrn) as [_ Hlt].
    rewrite (rp_node _ _ Hf), Hrn by done. cbn [fmap option_fmap option_map]. wp_step.
    rewrite (rp_next _ _ Hf). cbn [next_of]. rewrite blen_put_le. change (Z.of_nat 8 =? 8) with true. cbv iota.
    rewrite get_put_le_u64 by apply (rp_next_typed _ _ Hf). rewrite Z.max_l by (unfold RootInode in *; lia).
    apply Hend; [done|by repeat (apply Forall_cons; split); [apply counter_foreign|]| |done].
    assert (apply_fop f0 (FNext (fs_next f0)) = f0) as Ef by by destruct f0.
    rewrite <-Ef. apply (represents_fop _ _ (FNext (fs_next f0))); [done|apply (rp_next_typed _ _ Hf)].
Qed.
End Calls.
