(* ===== verification/Listing.v ===== *)
(** * Reading the directory tree

    [Lookup], [LookupPath], [Readlink], [OpenInode] and [Readdir] read the tree
    and change nothing.  A path resolves name by name from the root; a listing
    is complete, in the order of the names. *)

From S2P Require Import Prelude Keys Kv Gostr Segment Layer Index IndexSpec IndexRead IndexAppend IndexMaint Node Coalescer Store LiveFile LiveWrite LiveFlush LiveTrunc StoreSpec Fs FsInv Tree TreeSpec.

(** ** The specification *)

Section Spec.
Context (live : Z -> option (Z * Z)).
Implicit Types f : fs.

Fixpoint fs_walk f (n : Node) (parts : list bytes) : outcome Node :=
  match parts with
  | [] => Ok n
  | name :: parts =>
      let? _ := guard (IsDir (nd_Mode n)) ErrNotDir in
      let? c := fs_lookup live f (nd_Inode n) name in
      fs_walk f c parts
  end.

Definition fs_resolve f (p : bytes) : outcome Node :=
  let? n := fs_stat live f RootInode in fs_walk f n (splitPath p).
End Spec.

Definition name_before (a b : DirEntry) : Prop := lex_lt (de_Name a) (de_Name b) = true.

(** All entries of a directory, by name. *)
Definition listing (f : fs) (i : Z) (ds : list DirEntry) : Prop :=
  StronglySorted name_before ds /\
  forall d, d ∈ ds <-> fs_entries f !! (i, de_Name d) = Some (de_Inode d) /\
    exists n, fs_nodes f !! de_Inode d = Some n /\ de_Mode d = nd_Mode n.

(** What a read returns: the specified result, or an error of the engine. *)
Definition reads (P : Type) {PB : Pebble P} {A} (sp r : outcome A) : Prop :=
  r = sp \/ ~ PebbleReliable P /\ exists e, r = Err e.

(** ** Paths *)

(** An element of a clean path. *)
Definition plain (e : bytes) : Prop := e <> [] /\ e <> [46] /\ e <> [46; 46] /\ ~ 47 ∈ e.

Fixpoint join_slash (parts : list bytes) : bytes :=
  match parts with [] => [] | e :: parts => 47 :: e ++ join_slash parts end.

Lemma split_no_slash p e : e ∈ split_slash p -> ~ 47 ∈ e.
Proof.
  revert e. induction p as [|c p IH]; intros e He; cbn [split_slash] in He.
  - apply list_elem_of_singleton in He as ->. apply not_elem_of_nil.
  - destruct (Z.eqb_spec c 47) as [->|Hc].
    + apply elem_of_cons in He as [->|He]; [apply not_elem_of_nil|by apply IH].
    + destruct (split_slash p) as [|e0 es].
      * apply list_elem_of_singleton in He as ->. intros E%list_elem_of_singleton. congruence.
      * apply elem_of_cons in He as [->|He]; [|by apply IH; right].
        intros [E|He']%elem_of_cons; [congruence|]. by destruct (IH e0 ltac:(by left)).
Qed.

Lemma clean_step_plain stack e : Forall plain stack -> ~ 47 ∈ e -> Forall plain (clean_step stack e).
Proof.
  intros Hs He. unfold clean_step. repeat case_bool_decide; cbn [orb]; try done.
  - destruct stack as [|stack x _] using rev_ind; [done|]. rewrite removelast_last. by apply Forall_app in Hs as [? _].
  - apply Forall_app. split; [done|]. by apply Forall_singleton.
Qed.

Lemma splitPath_plain p : Forall plain (splitPath p).
Proof.
  unfold splitPath. assert (forall l, (forall e, e ∈ l -> ~ 47 ∈ e) -> forall stack, Forall plain stack -> Forall plain (foldl clean_step stack l)) as H.
  { induction l as [|e l IH]; intros Hl stack Hs; [done|]. cbn [foldl]. apply IH; [intros; apply Hl; by right|].
    apply clean_step_plain; [done|]. apply Hl. by left. }
  apply H; [apply split_no_slash|by constructor].
Qed.

Lemma split_join e q : ~ 47 ∈ e -> split_slash (e ++ 47 :: q) = e :: split_slash q.
Proof.
  induction e as [|c e IH]; intros He; cbn [app split_slash]; [done|].
  apply not_elem_of_cons in He as [Hc He]. rewrite (proj2 (Z.eqb_neq _ _)) by congruence. by rewrite IH.
Qed.

Lemma split_plain e : ~ 47 ∈ e -> split_slash e = [e].
Proof.
  induction e as [|c e IH]; intros He; cbn [split_slash]; [done|].
  apply not_elem_of_cons in He as [Hc He]. rewrite (proj2 (Z.eqb_neq _ _)) by congruence. by rewrite IH.
Qed.

Lemma split_joined parts : Forall plain parts -> split_slash (join_slash parts) = [] :: parts.
Proof.
  intros H. destruct parts as [|e parts]; [done|]. cbn [join_slash split_slash Z.eqb Pos.eqb]. f_equal.
  revert e H. induction parts as [|e' parts IH]; intros e H; apply Forall_cons in H as [(_ & _ & _ & He) H]; cbn [join_slash].
  - rewrite app_nil_r. by apply split_plain.
  - rewrite split_join by done. by rewrite IH.
Qed.

Lemma clean_plain parts : forall stack, Forall plain parts -> foldl clean_step stack parts = stack ++ parts.
Proof.
  induction parts as [|e parts IH]; intros stack H; cbn [foldl]; [by rewrite app_nil_r|].
  apply Forall_cons in H as [(H1 & H2 & H3 & _) H]. rewrite IH by done. unfold clean_step.
  rewrite !bool_decide_eq_false_2 by done. cbn [orb]. by rewrite <-app_assoc.
Qed.

(** The elements of a path are names without slashes, dots resolved, and a path
    written from such names splits into them again. *)
Theorem splitPath_roundtrip p parts :
  Forall plain (splitPath p) /\ splitPath (join_slash (splitPath p)) = splitPath p /\
  (Forall plain parts -> splitPath (join_slash parts) = parts).
Proof.
  assert (forall l, Forall plain l -> splitPath (join_slash l) = l) as H.
  { intros l Hl. unfold splitPath. rewrite split_joined by done. cbn [foldl]. by rewrite clean_plain. }
  pose proof (splitPath_plain p) as Hp. split_and!; [done|by apply H|apply H].
Qed.

Lemma split_bytes p e : bytes_ok p -> e ∈ split_slash p -> bytes_ok e.
Proof.
  revert e. induction p as [|c p IH]; intros e Hp He; cbn [split_slash] in He.
  - apply list_elem_of_singleton in He as ->. constructor.
  - apply Forall_cons in Hp as [Hc Hp]. destruct (c =? 47).
    + apply elem_of_cons in He as [->|He]; [constructor|by apply IH].
    + destruct (split_slash p) as [|e0 es].
      * apply list_elem_of_singleton in He as ->. by apply Forall_singleton.
      * apply elem_of_cons in He as [->|He]; [|by apply IH; [|right]]. apply Forall_cons. split; [done|]. apply IH; [done|by left].
Qed.

Lemma splitPath_bytes p : bytes_ok p -> Forall bytes_ok (splitPath p).
Proof.
  intros Hp. unfold splitPath. assert (forall l, Forall bytes_ok l -> forall stack, Forall bytes_ok stack -> Forall bytes_ok (foldl clean_step stack l)) as H.
  { induction l as [|e l IH]; intros Hl stack Hs; [done|]. apply Forall_cons in Hl as [He Hl]. cbn [foldl]. apply IH; [done|].
    unfold clean_step. repeat case_bool_decide; cbn [orb]; try done.
    - destruct stack as [|stack x _] using rev_ind; [done|]. rewrite removelast_last. by apply Forall_app in Hs as [? _].
    - apply Forall_app. split; [done|]. by apply Forall_singleton. }
  apply H; [|constructor]. apply Forall_forall. intros e. by apply split_bytes.
Qed.

Section Reads.
Context {P : Type} {PB : Pebble P} {PL : PebbleLaws P}.
Context {S : Type} {SL : SegLayer S} {SLL : SegLayerLaws S} {MR : MapRange}.
Context {W : Type} {SW : Semaphore W} {SWL : SemaphoreLaws W}.
Implicit Types s : Store P S W.
Implicit Types f : fs.

Section Running.
Context (s : Store P S W) (ph : gmap Z phase) (f : fs) (lv : Z -> option (Z * Z)) (t : nat -> Z).
Hypothesis Hr : running s ph f lv t 0 s.

(** What a read ends in. *)
Definition read_ends {A} (sp r : outcome A) (s' : Store P S W) : Prop := s' = s /\ reads P sp r.

Lemma read_spec {A} (sp : outcome A) : read_ends sp sp s.
Proof. split; [done|by left]. Qed.

Lemma read_engine {A} (sp : outcome A) e : ~ PebbleReliable P -> read_ends sp (Err e) s.
Proof. intros Hn. split; [done|]. right. eauto. Qed.

#[local] Hint Resolve read_spec read_engine : core.

Lemma wp_Lookup parent name (Q : outcome Node -> Store P S W -> Prop) :
  in_u64 parent -> bytes_ok name ->
  Q (fs_lookup lv f parent name) s -> (forall e, ~ PebbleReliable P -> Q (Err e) s) -> wp (Lookup parent name) Q s.
Proof.
  intros Hp Hn HQ HE. unfold Lookup. wp_step. wp_step. unfold fs_lookup, fs_child in HQ.
  destruct (validName name) as [u|e|] eqn:Ev; cbn [obind] in HQ; [|done|by destruct (validName_no_panic name)].
  wp_step. eapply run_dirent; [done..| |done].
  destruct (fs_entries f !! (parent, name)) as [c|] eqn:E; [|by wp_step].
  destruct (rp_entry_typed _ _ (rn_fs _ _ _ _ _ _ _ Hr) _ _ _ E) as (_ & _ & Hc).
  unfold on_error. wp_step. wp_step. eapply run_stat; [done..| |intros; wp_step; by apply HE].
  destruct (fs_stat lv f c) as [n|e|] eqn:Es; cbn [obind snd] in HQ; [by wp_step..|].
  unfold fs_stat in Es. by case_match.
Qed.

Lemma lookup_typed parent name n : fs_lookup lv f parent name = Ok n -> in_u64 (nd_Inode n).
Proof.
  unfold fs_lookup. intros H. obind_inv H. injection H as <-. destruct x0 as [c n]. apply child_ok in E0 as [_ Hs].
  cbn [snd]. by destruct (stat_typed s ph f lv t s 0 c n Hr Hs) as (_ & -> & Hc).
Qed.

Lemma wp_walk parts : forall n (Q : outcome Node -> Store P S W -> Prop),
  Forall bytes_ok parts -> in_u64 (nd_Inode n) ->
  Q (fs_walk lv f n parts) s -> (forall e, ~ PebbleReliable P -> Q (Err e) s) -> wp (walk n parts) Q s.
Proof.
  induction parts as [|name parts IH]; intros n Q Hp Hn HQ HE; cbn [walk fs_walk] in *; [by wp_step|].
  apply Forall_cons in Hp as [Hname Hp]. destruct (IsDir (nd_Mode n)); cbn [guard obind negb] in *; [|by wp_step].
  wp_step. apply wp_Lookup; [done..| |done].
  destruct (fs_lookup lv f (nd_Inode n) name) as [c|e|] eqn:E; cbn [obind] in HQ; [|done..].
  apply IH; [done|by eapply lookup_typed|done|done].
Qed.

Lemma wp_LookupPath p : bytes_ok p -> wp (LookupPath p) (read_ends (fs_resolve lv f p)) s.
Proof.
  intros Hp. unfold LookupPath, fs_resolve. wp_step. eapply run_stat; [done|done| |by eauto].
  destruct (fs_stat lv f RootInode) as [n|e|] eqn:E; cbn [obind]; [|by eauto..].
  apply wp_walk; [by apply splitPath_bytes| |by eauto|by eauto].
  by destruct (stat_typed s ph f lv t s 0 RootInode n Hr E) as (_ & -> & _).
Qed.

Lemma wp_Readlink i : in_u64 i -> wp (Readlink i) (read_ends (fs_readlink lv f i)) s.
Proof.
  intros Hi. unfold Readlink, fs_readlink. wp_step. eapply run_stat; [done|done| |by eauto].
  destruct (fs_stat lv f i) as [n|e|] eqn:E; cbn [obind]; [|by eauto..].
  destruct (IsSymlink (nd_Mode n)); cbn [guard obind negb]; wp_step; by eauto.
Qed.

(** ** Listing *)

(** A pair of the scan and the entry it stands for. *)
Definition scanned (i : Z) (kv : bytes * bytes) (d : DirEntry) : Prop :=
  kv = (DirentKey i (de_Name d), direntValue (de_Inode d)) /\ in_u64 (de_Inode d) /\
  exists n, fs_nodes f !! de_Inode d = Some n /\ de_Mode d = nd_Mode n.

Lemma wp_readdir_entries i l ds : Forall2 (scanned i) l ds ->
  forall out (Q : outcome (list DirEntry) -> Store P S W -> Prop),
  (forall l', l' `sublist_of` ds -> (PebbleReliable P -> l' = ds) -> Q (Ok (out ++ l')) s) -> wp (mfold readdir_entry out l) Q s.
Proof.
  induction 1 as [|kv d l ds (-> & Hi & n & Hn & Hm) _ IH]; intros out Q HQ; cbn [mfold].
  - wp_step. specialize (HQ [] ltac:(done) ltac:(done)). by rewrite app_nil_r in HQ.
  - wp_step. unfold readdir_entry at 1. cbn [fst snd]. rewrite DirentName_DirentKey. cbn [of_outcome]. wp_step. wp_step.
    rewrite blen_direntValue. cbn [negb Z.eqb Pos.eqb]. rewrite get_direntValue by done. wp_step. wp_step.
    eapply run_stat; [done|done| |].
    + unfold fs_stat. rewrite Hn. wp_step. apply IH. intros l' Hl' He. rewrite <-app_assoc. cbn [app].
      destruct (merge_live_keeps (lv (de_Inode d)) n) as (_ & -> & _). rewrite <-Hm. destruct d. apply HQ.
      * by apply sublist_skip.
      * intros Hrel. by rewrite He.
    + intros e He. wp_step. apply IH. intros l' Hl' _. apply HQ; [by apply sublist_cons|done].
Qed.

Lemma scanned_exists l (R : bytes * bytes -> DirEntry -> Prop) :
  (forall kv, kv ∈ l -> exists d, R kv d) -> exists ds, Forall2 R l ds.
Proof.
  induction l as [|kv l IH]; intros H; [by exists []|]. destruct (H kv ltac:(by left)) as [d Hd].
  destruct IH as [ds Hds]; [by intros; apply H; right|]. exists (d :: ds). by constructor.
Qed.

Lemma scanned_sorted i l ds :
  Forall2 (scanned i) l ds -> StronglySorted key_before l -> StronglySorted name_before ds.
Proof.
  induction 1 as [|kv d l ds (-> & _) Hl IH]; intros Hs; [constructor|]. apply StronglySorted_inv in Hs as [Hs Hf].
  constructor; [by apply IH|]. clear IH Hs. revert Hf. induction Hl as [|kv d' l ds (-> & _) Hl IH]; intros Hf; [constructor|].
  apply Forall_cons in Hf as [Hk Hf]. constructor; [|by apply IH].
  unfold key_before, DirentKey in Hk. cbn [fst] in Hk. rewrite !app_comm_cons, lex_lt_prefix in Hk. exact Hk.
Qed.

Lemma scan_listing i l :
  fs_ok f -> in_u64 i -> dirent_scan (disk s) (DirentPrefix i) l -> exists ds, Forall2 (scanned i) l ds /\ listing f i ds.
Proof.
  intros Hok Hi Hl. pose proof (rn_fs _ _ _ _ _ _ _ Hr) as Hf.
  assert (forall kv, kv ∈ l -> exists d, scanned i kv d /\ fs_entries f !! (i, de_Name d) = Some (de_Inode d)) as Hsc.
  { intros [k v] Hkv. destruct (scan_entry f (disk s) _ l k v Hf Hl Hkv) as (p & name & c & Hp & Hn & -> & -> & He).
    destruct Hl as [_ Hl]. apply Hl in Hkv as [_ Hpre]. apply prefix_DirentPrefix_DirentKey in Hpre; [|done..]. subst p.
    destruct (rp_entry_typed _ _ Hf _ _ _ He) as (_ & _ & Hc). destruct (fo_entry _ _ _ Hok _ _ _ He) as (_ & _ & n & Hn').
    exists (mkDirEntry name c (nd_Mode n)). split; [|done]. split_and!; [done..|by exists n]. }
  destruct (scanned_exists l (fun kv d => scanned i kv d /\ fs_entries f !! (i, de_Name d) = Some (de_Inode d)) Hsc) as [ds Hds].
  assert (Forall2 (scanned i) l ds) as Hds1 by (eapply Forall2_impl; [exact Hds|tauto]).
  exists ds. split; [done|]. split; [eapply scanned_sorted; [done|apply Hl]|]. intros d. split.
  - intros Hd. apply list_elem_of_lookup_1 in Hd as [k Hk]. destruct (Forall2_lookup_r _ _ _ _ _ Hds Hk) as (kv & _ & (_ & _ & Hn) & He). done.
  - intros (He & n & Hn & Hm). destruct (rp_entry_typed _ _ Hf _ _ _ He) as (_ & Hnm & Hc).
    assert ((DirentKey i (de_Name d), direntValue (de_Inode d)) ∈ l) as Hin
      by (eapply entry_in_scan; [done|done|done|by apply prefix_DirentPrefix_DirentKey]).
    apply list_elem_of_lookup_1 in Hin as [k Hk]. destruct (Forall2_lookup_l _ _ _ _ _ Hds Hk) as (d' & Hd' & (E & Hi' & n' & Hn' & Hm') & He').
    apply list_elem_of_lookup_2 in Hd'. pose proof (f_equal fst E) as E1. apply (f_equal (fun kv => get_be kv.2)) in E.
    cbn [fst snd] in E1, E. destruct (DirentKey_inj _ _ _ _ Hi Hi E1) as [_ E2]. rewrite !get_direntValue in E by done.
    destruct d as [a c m], d' as [a' c' m']. cbn in *. subst. by replace n' with n in Hd' by congruence.
Qed.

(** [Readdir] returns the listing; entries whose node the engine fails to read
    are left out. *)
Definition listed i (r : outcome (list DirEntry)) (s' : Store P S W) : Prop :=
  s' = s /\
  match fs_dir lv f i with
  | Ok _ => (exists ds l, r = Ok l /\ listing f i ds /\ l `sublist_of` ds /\ (PebbleReliable P -> l = ds)) \/
            ~ PebbleReliable P /\ exists e, r = Err e
  | sp => exists e, r = Err e /\ (PebbleReliable P -> sp = Err e)
  end.

Lemma wp_Readdir i : (forall p : P, iter_complete p) -> fs_ok f -> in_u64 i -> wp (Readdir i) (listed i) s.
Proof.
  intros Hc Hok Hi. unfold Readdir, listed. wp_step. eapply run_stat; [done|done| |].
  - unfold fs_dir. destruct (fs_stat lv f i) as [n|e|] eqn:E; cbn [obind]; [|by eauto|unfold fs_stat in E; by case_match].
    destruct (IsDir (nd_Mode n)); cbn [guard obind negb]; [|wp_step; by eauto].
    wp_step. eapply run_walk; [done|done|apply DirentPrefix_ok| |by eauto 10].
    intros l Hl. destruct (scan_listing i l Hok Hi Hl) as (ds & Hds & Hlist). eapply wp_readdir_entries; [done|].
    intros l' Hsub He. split; [done|]. left. by exists ds, l'.
  - intros e He. split; [done|]. destruct (fs_dir lv f i); [right|exists e; split; [done|by intros]..]. by eauto.
Qed.
End Running.

(** A path resolves name by name from the root, with the live attributes of its
    node, and nothing changes; a failing engine can only cause an error. *)
Theorem LookupPath_resolves s ph f p :
  at_rest s ph f -> bytes_ok p ->
  let '(r, s') := LookupPath p s in s' = s /\ reads P (fs_resolve (fun i => live_attrs i s) f p) r.
Proof.
  intros [Hst Hf _ _ _] Hp. pose proof (wp_LookupPath s ph f _ _ (running_start s ph f Hst Hf) p Hp) as H.
  unfold wp in H. by destruct (LookupPath p s).
Qed.

(** C11: A listing holds every entry of the directory, once, in the order of the
    names, with the kind of its node; what is no directory is refused.  When
    the engine fails to read a node, its entry is left out without an error. *)
Theorem Readdir_lists s ph f i :
  at_rest s ph f -> in_u64 i ->
  let '(r, s') := Readdir i s in listed s f (fun i => live_attrs i s) i r s'.
Proof.
  intros [Hst Hf Hok _ Hc] Hi. pose proof (wp_Readdir s ph f _ _ (running_start s ph f Hst Hf) i Hc Hok Hi) as H.
  unfold wp in H. by destruct (Readdir i s).
Qed.
End Reads.
