(* ===== verification/StoreExamples.v ===== *)
(** * The store at work

    A store on the example engine, with a semaphore that counts: a file is
    created and written, read, synced, cut and removed.  It instantiates every
    hypothesis of the theorems on the store. *)

From S2P Require Import Prelude Keys Kv Gostr Fragment Plan Segment Layer SegmentSet Index IndexSpec IndexRead IndexAppend IndexMaint IndexRecover IndexExamples Node Coalescer Store Handle LiveFile LiveWrite LiveFlush LiveTrunc StoreSpec LiveRead Durable Drain Fs FsInv Tree TreeSpec Listing.

#[local] Existing Instance insertion_order.

(** Capacity and units held. *)
#[global] Instance counting_semaphore : Semaphore (Z * Z) := {
  sem_new n := (n, 0);
  sem_acquire n w := if w.2 + n <=? w.1 then (Ok tt, (w.1, w.2 + n)) else (Err (ErrMsg "context done"), w);
  sem_release n w := if n <=? w.2 then (Ok tt, (w.1, w.2 - n)) else (Panic, w);
}.

#[global] Instance counting_semaphore_laws : SemaphoreLaws (Z * Z).
Proof.
  refine {| sem_cap := fst; sem_held := snd |}.
  - done.
  - intros n [cap held]. cbn. destruct (Z.leb_spec (held + n) cap); cbn; lia.
  - intros n [cap held] Hn. cbn in *. by rewrite (proj2 (Z.leb_le _ _)).
Defined.

Abbreviation St := (Store MemDB SetSt (Z * Z)).

Definition ex_s0 : St := mkStore ex_ix0 None (fun n => 1000 + Z.of_nat n).
Definition ex_s1 : St := (OpenStore ex_s0).2.
Definition ex_name : bytes := str "notes".
Definition ex_create : call := CCreate RootInode ex_name 420 7 7.
Definition ex_s2 : St := (run ex_create ex_s1).2.
Definition ex_s3 : St := (WriteAtCtx 2 ex_payload 2 ex_s2).2.

Definition ex_live (s : St) (inode : Z) : list (option Z) :=
  (fun i : nat => live s inode (Z.of_nat i)) <$> seq 0 14.

Example ex_run : ((OpenStore ex_s0).1, is_ok (run ex_create ex_s1).1, (WriteAtCtx 2 ex_payload 2 ex_s2).1) = (Ok tt, true, Ok 10).
Proof. by vm_compute. Qed.

Example ex_s3_view : ex_live ex_s3 2 =
  [None; None; Some 1; Some 2; Some 3; Some 4; Some 5; Some 6; Some 7; Some 8; Some 9; Some 10; None; None].
Proof. by vm_compute. Qed.

(** ** The states are well formed *)

Lemma ex_complete (p : MemDB) : iter_complete p.
Proof. apply reliable_iter_complete. Qed.

Definition ex_f1 : fs := mkfs 1000.
Definition ex_spec : outcome (plan (option Node)) := spec (fun i => live_attrs i ex_s1) ex_f1 (clock ex_s1) ex_create.
Definition ex_f2 : fs := match ex_spec with Ok p => apply_fops (pl_ops p) ex_f1 | _ => ex_f1 end.

Lemma ex_s1_rest : at_rest ex_s1 ∅ ex_f1.
Proof.
  destruct ex_ix0_ok as [Hok Hcl].
  assert ((OpenStore ex_s0).1 = Ok tt) as E by by vm_compute.
  pose proof (wp_OpenStore ex_s0 ex_f1 Hok Hcl ltac:(done)) as H. unfold wp in H. rewrite E in H.
  destruct H as (H1 & H2 & H3 & _); [left; split; [intros k v; unfold disk; cbn; by rewrite lookup_empty|done]|].
  split; [exact H1|exact H2|exact H3|intros i; apply lookup_empty|apply ex_complete].
Qed.

Lemma ex_create_typed : call_typed ex_create.
Proof. split_and!; try done. by apply bytes_ok_dec. Qed.

Lemma ex_s2_rest : at_rest ex_s2 ∅ ex_f2.
Proof.
  pose proof (wp_run ex_s1 ∅ ex_f1 ex_create ex_s1_rest ex_create_typed) as H. unfold wp in H.
  change (spec _ _ _ _) with ex_spec in H. fold ex_s2 in H.
  destruct (run ex_create ex_s1).1 as [n|e|] eqn:Er; [|exfalso; by vm_compute in Er..].
  assert (exists p, ex_spec = Ok p) as [p Ep].
  { destruct ex_spec as [p|e|] eqn:Es; [by exists p|exfalso; by vm_compute in Es..]. }
  destruct (spec_keeps _ _ ex_f1 (ar_tree _ _ _ ex_s1_rest) ltac:(by vm_compute) _ p Ep) as [Hf _].
  unfold refined in H. rewrite Ep in H. destruct H as (H1 & _ & _ & H2 & _). unfold ex_f2. rewrite Ep.
  split; [exact H1|exact H2|exact Hf|intros i; apply lookup_empty|apply ex_complete].
Qed.

Lemma ex_s3_ok : store_ok ex_s3 ∅ /\ view_becomes ex_s2 ex_s3 2 (overlay (live ex_s2 2) 2 ex_payload).
Proof.
  pose proof (wp_co_Write 2 2 ex_payload TierHot ex_s2 ∅ (fun r s' => match r with
    | Ok _ => store_ok s' ∅ /\ view_becomes ex_s2 s' 2 (overlay (live ex_s2 2) 2 ex_payload)
    | _ => True end) (ar_ok _ _ _ ex_s2_rest) ltac:(done) ltac:(by apply bytes_ok_dec) ltac:(by left) ltac:(done)) as H.
  specialize (H ltac:(by vm_compute) ltac:(by vm_compute) (fun s' H1 H2 _ _ _ => conj H1 H2) (fun e s' _ _ _ _ => I)). unfold wp in H.
  assert (ex_s3 = (co_Write 2 2 ex_payload TierHot ex_s2).2) as ->.
  { unfold ex_s3, WriteAtCtx, WriteAtTierCtx, ex_payload, bind, get. 
    assert (exists c, st_co ex_s2 = Some c) as [c ->] by (eexists; by vm_compute).
    by destruct (co_Write _ _ _ _ _) as [[[]|e|] s']. }
  destruct (co_Write 2 2 ex_payload TierHot ex_s2).1 as [[]|e|] eqn:E; [exact H|exfalso; by vm_compute in E..].
Qed.

(** ** The file API *)

Definition ex_rename : call := CRename RootInode ex_name RootInode (str "diary").

Lemma ex_rename_typed : call_typed ex_rename.
Proof. split_and!; try done; by apply bytes_ok_dec. Qed.

Lemma calls_refine_tree_witness :
  at_rest ex_s2 ∅ ex_f2 /\
  let '(r, s') := run ex_rename ex_s2 in
  r = Ok None /\ refined ex_s2 ∅ ex_f2 (spec (fun i => live_attrs i ex_s2) ex_f2 (clock ex_s2) ex_rename) r s'.
Proof.
  pose proof (calls_refine_tree ex_s2 ∅ ex_f2 ex_rename ex_s2_rest ex_rename_typed) as H.
  split; [exact ex_s2_rest|]. destruct (run ex_rename ex_s2) as [r s'] eqn:E. split; [|exact H].
  apply (f_equal fst) in E. vm_compute in E. by rewrite <-E.
Defined.


Definition ex_chmod : SetAttr := mkSetAttr (Some 384) None None (Some 5) None None.

Lemma ex_chmod_typed : attr_typed ex_chmod.
Proof. split_and!; intros x [= <-]; done. Qed.

Lemma ex_f2_room : fs_room ex_f2.
Proof. by vm_compute. Qed.


(** ** Reading the tree *)

Definition ex_path : bytes := str "/./notes/".

Lemma LookupPath_resolves_witness :
  at_rest ex_s2 ∅ ex_f2 /\
  let '(r, s') := LookupPath ex_path ex_s2 in
  (match r with Ok n => nd_Inode n =? 2 | _ => false end) = true /\ s' = ex_s2 /\ reads MemDB (fs_resolve (fun i => live_attrs i ex_s2) ex_f2 ex_path) r.
Proof.
  pose proof (LookupPath_resolves ex_s2 ∅ ex_f2 ex_path ex_s2_rest ltac:(by apply bytes_ok_dec)) as H.
  split; [exact ex_s2_rest|]. destruct (LookupPath ex_path ex_s2) as [r s'] eqn:E. split; [|exact H].
  apply (f_equal (fun p => match p.1 with Ok n => nd_Inode n =? 2 | _ => false end)) in E. vm_compute in E. exact (eq_sym E).
Defined.

Lemma Readdir_lists_witness :
  at_rest ex_s2 ∅ ex_f2 /\
  let '(r, s') := Readdir RootInode ex_s2 in
  r = Ok [mkDirEntry ex_name 2 33188] /\ listed ex_s2 ex_f2 (fun i => live_attrs i ex_s2) RootInode r s'.
Proof.
  pose proof (Readdir_lists ex_s2 ∅ ex_f2 RootInode ex_s2_rest ltac:(done)) as H.
  split; [exact ex_s2_rest|]. destruct (Readdir RootInode ex_s2) as [r s'] eqn:E. split; [|exact H].
  apply (f_equal fst) in E. vm_compute in E. exact (eq_sym E).
Defined.

(** ** Open files *)

Definition ex_buffer : bytes := zreplicate 6 0.

Lemma ex_not_appended inode : not_appended ∅ inode.
Proof. unfold not_appended. by rewrite lookup_empty. Qed.

Lemma ReadAt_returns_file_witness :
  let '(r, s') := Handle_ReadAtCtx 2 ex_buffer 2 ex_s3 in
  r = Ok (6, [1; 2; 3; 4; 5; 6]) /\ only_read ex_s3 s' /\ read_result ex_s3 2 2 ex_buffer r.
Proof.
  pose proof (ReadAt_returns_file ex_s3 ∅ 2 2 ex_buffer (proj1 ex_s3_ok) ltac:(done)
    (ex_complete _) ltac:(done) ltac:(by vm_compute)) as H.
  destruct (Handle_ReadAtCtx 2 ex_buffer 2 ex_s3) as [r s'] eqn:E. split; [|exact H].
  apply (f_equal fst) in E. vm_compute in E. by rewrite <-E.
Defined.

Definition ex_extent : bufExtent := mkBufExtent 101 2 (slice ex_payload 0 6).

Lemma ex_extents :
  buffered ex_s3 2 = [ex_extent; mkBufExtent 102 8 (slice ex_payload 6 10)].
Proof. by vm_compute. Qed.

Lemma read_inside_extent_fails_witness :
  ex_extent ∈ buffered ex_s3 2 /\ be_off ex_extent < 3 < be_off ex_extent + blen (be_data ex_extent) /\
  match (Handle_ReadAtCtx 2 ex_buffer 3 ex_s3).1 with
  | Ok (n, _) => n <= 0
  | Err _ => True
  | Panic => False
  end.
Proof.
  assert (ex_extent ∈ buffered ex_s3 2) as Hin by (rewrite ex_extents; left).
  assert (be_off ex_extent < 3 < be_off ex_extent + blen (be_data ex_extent)) as Hoff by by vm_compute.
  assert (forall e', e' ∈ buffered ex_s3 2 -> ext_at e' 3 = true -> be_seq e' <= be_seq ex_extent) as Hmax.
  { rewrite ex_extents. intros e' [->|[->|?%elem_of_nil]%elem_of_cons]%elem_of_cons; by vm_compute. }
  split; [exact Hin|]. split; [exact Hoff|].
  exact (read_inside_extent_fails ex_s3 ∅ 2 3 ex_buffer ex_extent (proj1 ex_s3_ok) (ex_not_appended 2) ltac:(done)
    (ex_complete _) ltac:(done) ltac:(by vm_compute) Hin Hoff Hmax).
Defined.


