(* ===== verification/Race.v ===== *)
(** * Two creations that overlap

    No lock spans [allocInode] and the commit of its batch, and requests run in
    parallel.  Two calls of [Create] that both read the counter before either
    commits hand out one inode number: both succeed, and two names are left
    on one file that counts one link. *)

From S2P Require Import Prelude Keys Kv Gostr Segment Layer SegmentSet Index IndexSpec IndexRead IndexAppend IndexMaint IndexExamples Node Coalescer Store LiveFile LiveWrite LiveFlush LiveTrunc StoreSpec Fs FsInv Tree TreeSpec StoreExamples.

Section Race.
Context {P : Type} {PB : Pebble P} {PL : PebbleLaws P}.
Context {S : Type} {SL : SegLayer S} {SLL : SegLayerLaws S} {MR : MapRange}.
Context {W : Type} {SW : Semaphore W} {SWL : SemaphoreLaws W}.
Implicit Types s : Store P S W.
Implicit Types f : fs.

(** Both calls up to their commits, then both commits. *)
Definition racing_creates (parent : Z) (na nb : bytes) (mode uid gid : Z) : M (Store P S W) (Node * Node) :=
  let* a := Create_prepare parent na mode uid gid in
  let* b := Create_prepare parent nb mode uid gid in
  let* _ := commit a.2 in
  let* _ := commit b.2 in
  ret (a.1, b.1).

Definition create_node f (mode uid gid now : Z) : Node :=
  new_node (fs_next f) (Z.lor ModeRegular (Z.land mode PermMask)) 1 uid gid 0 now [].
Definition create_ops f (parent : Z) (name : bytes) (n : Node) : list fop :=
  [FNext (u64 (fs_next f + 1)); FNode n; FEntry parent name (nd_Inode n)].

Lemma run_create_prepare s ph f lv t s1 k parent name mode uid gid (Q : outcome (Node * list wop) -> Store P S W -> Prop) :
  running s ph f lv t k s1 -> in_u64 parent -> bytes_ok name ->
  validName name = Ok tt -> is_dir f parent -> fs_entries f !! (parent, name) = None ->
  (forall now s2, running s ph f lv t (Datatypes.S k) s2 -> in_i64 now ->
     let n := create_node f mode uid gid now in Q (Ok (n, wop_of <$> create_ops f parent name n)) s2) ->
  (forall e, ~ PebbleReliable P -> Q (Err e) s1) ->
  wp (Create_prepare parent name mode uid gid) Q s1.
Proof.
  intros Hr Hp Hn Hv (dn & Hd & Hdir) Hnone HQ HE. unfold Create_prepare. wp_step. wp_step. rewrite Hv.
  wp_step. eapply run_dir; [done|done| |done]. unfold fs_dir, fs_stat. rewrite Hd. cbn [obind].
  destruct (merge_live_keeps (lv parent) dn) as (_ & -> & _). rewrite Hdir. cbn [guard obind].
  wp_step. eapply run_absent; [done..| |done]. unfold fs_unused. rewrite Hnone.
  wp_step. eapply run_alloc; [done| |done]. wp_step. eapply run_now; [done|]. intros s2 Hr2 Ht. wp_step. by apply HQ.
Qed.

Lemma create_ops_typed f parent name mode uid gid now :
  in_u64 (fs_next f) -> in_u64 parent -> bytes_ok name -> in_u32 uid -> in_u32 gid -> in_i64 now ->
  Forall fop_typed (create_ops f parent name (create_node f mode uid gid now)).
Proof.
  intros. repeat (apply Forall_cons; split); try done; [apply u64_range|]. apply new_node_typed; try done. by apply lor_perm_u32.
Qed.

(** C36: Two overlapping creations in one directory both succeed, with one inode
    number; both names lead to it, and the tree has lost its invariant. *)
Theorem racing_creates_share_inode s ph f parent na nb mode uid gid :
  at_rest s ph f -> PebbleReliable P -> in_u64 parent -> bytes_ok na -> bytes_ok nb -> in_u32 uid -> in_u32 gid ->
  validName na = Ok tt -> validName nb = Ok tt -> na <> nb -> is_dir f parent ->
  fs_entries f !! (parent, na) = None -> fs_entries f !! (parent, nb) = None ->
  let '(r, s') := racing_creates parent na nb mode uid gid s in
  exists a b f', r = Ok (a, b) /\ nd_Inode a = nd_Inode b /\ represents (disk s') f' /\
    fs_entries f' !! (parent, na) = Some (nd_Inode a) /\ fs_entries f' !! (parent, nb) = Some (nd_Inode a) /\ ~ fs_ok f'.
Proof.
  intros [Hst Hf Hok Hph _] Hrel Hp Hna Hnb Hu Hg Hva Hvb Hne Hd Ha Hb.
  pose proof (rp_next_typed _ _ Hf) as Hnx.
  assert (wp (racing_creates parent na nb mode uid gid) (fun r s' => exists a b f', r = Ok (a, b) /\ nd_Inode a = nd_Inode b /\ represents (disk s') f' /\
    fs_entries f' !! (parent, na) = Some (nd_Inode a) /\ fs_entries f' !! (parent, nb) = Some (nd_Inode a) /\ ~ fs_ok f') s) as H;
    [|unfold wp in H; by destruct (racing_creates _ _ _ _ _ _ s)].
  unfold racing_creates. wp_step. eapply run_create_prepare; [by apply running_start|done..| |by intros].
  intros now1 s1 Hr1 Hn1. cbv zeta. wp_step. eapply run_create_prepare; [done..| |by intros].
  intros now2 s2 Hr2 Hn2. cbv zeta. cbn [fst snd]. wp_step.
  eapply run_commit; [done|by apply create_ops_typed| |by intros]. intros s3 Hst3 Hf3 _.
  wp_step. eapply run_commit; [by apply running_start|by apply create_ops_typed| |by intros]. intros s4 _ Hf4 _.
  wp_step. set (a := create_node f mode uid gid now1) in *. set (b := create_node f mode uid gid now2) in *.
  exists a, b, (apply_fops (create_ops f parent nb b) (apply_fops (create_ops f parent na a) f)).
  assert (forall g, fs_entries (apply_fops (create_ops f parent nb b) (apply_fops (create_ops f parent na a) g)) =
    <[(parent, nb) := fs_next f]> (<[(parent, na) := fs_next f]> (fs_entries g))) as Ee by done.
  split_and!; [done|done|done|by rewrite Ee, lookup_insert_ne, lookup_insert_eq by congruence|by rewrite Ee, lookup_insert_eq|].
  intros Hbad. assert (links (apply_fops (create_ops f parent nb b) (apply_fops (create_ops f parent na a) f)) (fs_next f) = 1%nat) as Hl.
  { destruct (file_links _ Hbad (fs_next f) b) as [_ Hl]; [by apply lookup_insert_eq|unfold IsDir, b; cbn [nd_Mode create_node new_node]; by rewrite mode_bits|].
    cbn [nd_Nlink b create_node new_node] in Hl. lia. }
  assert ((parent, na) = (parent, nb)) as [= E]; [|done].
  eapply links_unique; [exact Hl|by rewrite Ee, lookup_insert_ne, lookup_insert_eq by congruence|by rewrite Ee, lookup_insert_eq].
Qed.
End Race.

(** ** The example *)

#[local] Existing Instance insertion_order.

Lemma racing_creates_share_inode_witness :
  at_rest ex_s1 ∅ ex_f1 /\
  let '(r, s') := racing_creates RootInode (str "a") (str "b") 420 7 7 ex_s1 in
  exists a b f', r = Ok (a, b) /\ nd_Inode a = nd_Inode b /\ represents (disk s') f' /\
    fs_entries f' !! (RootInode, str "a") = Some (nd_Inode a) /\ fs_entries f' !! (RootInode, str "b") = Some (nd_Inode a) /\ ~ fs_ok f'.
Proof.
  split; [exact ex_s1_rest|].
  apply (racing_creates_share_inode ex_s1 ∅ ex_f1 RootInode (str "a") (str "b") 420 7 7 ex_s1_rest); try done.
  - apply _.
  - by apply bytes_ok_dec.
  - by apply bytes_ok_dec.
  - apply (fo_root _ _ _ (ar_tree _ _ _ ex_s1_rest)).
Defined.
