(* ===== verification/Restart.v ===== *)
(** * The whole system after a power loss

    A start opens the index on what the devices kept, then the store on it
    (cmd/placefs/main.go, index.go [Open], store.go [Open]).  The directory tree
    comes back as the last call left it, every file as it was on disk; a file
    with nothing buffered comes back whole. *)

From S2P Require Import Prelude Keys Kv Gostr Segment Layer SegmentSet Index IndexSpec IndexRead IndexAppend IndexMaint IndexRecover IndexExamples Node Coalescer Store LiveFile LiveWrite LiveFlush LiveTrunc StoreSpec Fs FsInv Tree TreeSpec StoreExamples.

Section Restart.
Context {P : Type} {PB : Pebble P} {PL : PebbleLaws P}.
Context {S : Type} {SL : SegLayer S} {SLL : SegLayerLaws S} {MR : MapRange}.
Context {W : Type} {SW : Semaphore W} {SWL : SemaphoreLaws W}.
Implicit Types s : Store P S W.
Implicit Types f : fs.

Definition restart (now : Z) : M (Store P S W) unit :=
  let* _ := on_idx (OpenSets now) in OpenStore.

(** What a start gives back of state [s] and its tree. *)
Definition restarted s f (s' : Store P S W) : Prop :=
  store_ok s' ∅ /\ represents (disk s') f /\
  (forall i x, in_u64 i -> live s' i x = content (st_idx s) i x) /\
  (forall i x, in_u64 i -> buffered s i = [] -> live s' i x = live s i x).

Lemma wp_restart s ph f now ix0 clk :
  store_ok s ph -> represents (disk s) f -> fs_ok f ->
  u64 now < 2 ^ 62 -> ix_seqGen (st_idx s) + 1 < 2 ^ 62 ->
  (forall cold, lv_ordered (set_of cold (st_idx s))) -> index_crashed (st_idx s) ix0 ->
  wp (restart now) (fun r s' => match r with Ok _ => restarted s f s' | Err _ => True | Panic => False end) (mkStore ix0 None clk).
Proof.
  intros Hst Hf Hok Hnow Hseq Hord Hcr. pose proof Hst as (Hix & Hcl & _). unfold restart. wp_step. apply wp_on_idx.
  eapply wp_mono; [apply (wp_OpenSets now (st_idx s)); [done..|lia|done]|].
  intros [[]|e|] ix Hr; [|done|done]. destruct Hr as (Hix' & Hcl' & Hdb & Hc & _ & Hle).
  assert (represents (disk (with_idx ix (mkStore ix0 None clk : Store P S W))) f) as Hf' by (unfold disk in *; cbn; by rewrite Hdb).
  eapply wp_mono; [apply (wp_OpenStore _ f); [done|done|cbn; lia|by right]|].
  intros [[]|e|] s' Hr; [|done|done]. destruct Hr as (H1 & H2 & _ & H3). cbn [with_idx st_idx] in H3.
  assert (forall i x, in_u64 i -> live s' i x = content (st_idx s) i x) as Hl by (intros i x Hi; by rewrite H3, Hc).
  split_and!; [done|done|done|]. intros i x Hi Hb. rewrite Hl by done. unfold live. by rewrite Hb.
Qed.

(** C9: a start after a power loss restores the system.  Whatever calls came
    before, opening the index and the store on what the loss left gives back
    the directory tree exactly, every file as it was on disk, and a file
    without buffered bytes as its readers saw it; the store is well formed.
    The start may fail, but does not panic. *)
Theorem restart_restores s ph f now ix0 clk :
  store_ok s ph -> represents (disk s) f -> fs_ok f ->
  u64 now < 2 ^ 62 -> ix_seqGen (st_idx s) + 1 < 2 ^ 62 ->
  (forall cold, lv_ordered (set_of cold (st_idx s))) -> index_crashed (st_idx s) ix0 ->
  let '(r, s') := restart now (mkStore ix0 None clk) in
  match r with Ok _ => restarted s f s' | Err _ => True | Panic => False end.
Proof.
  intros. apply (wp_pair (restart now) (fun r s' => match r with Ok _ => restarted s f s' | Err _ => True | Panic => False end)).
  by eapply wp_restart.
Qed.
End Restart.

(** ** The example *)

#[local] Existing Instance insertion_order.

(** The example store, with its created file, after a power loss. *)
Definition ex_off_ix : Ix :=
  mkIndex (ix_db (st_idx ex_s2)) (power_off (ix_hot (st_idx ex_s2)).1, []) (power_off (ix_cold (st_idx ex_s2)).1, []) 8 0.

Lemma ex_off_ix_crashed : index_crashed (st_idx ex_s2) ex_off_ix.
Proof.
  destruct (ar_ok _ _ _ ex_s2_rest) as (((Hh & Hc) & _) & [Ch Cc] & _).
  unfold index_crashed, ex_off_ix. cbn [ix_db ix_stripeSize]. split; [reflexivity|]. split; [by vm_compute|]. intros []; by apply power_off_crashed.
Qed.

Lemma restart_restores_witness :
  index_crashed (st_idx ex_s2) ex_off_ix /\
  let '(r, s') := restart 50 (mkStore ex_off_ix None (fun _ => 60) : St) in
  r = Ok tt /\ restarted ex_s2 ex_f2 s'.
Proof.
  split; [exact ex_off_ix_crashed|].
  pose proof (restart_restores ex_s2 ∅ ex_f2 50 ex_off_ix (fun _ => 60) (ar_ok _ _ _ ex_s2_rest) (ar_fs _ _ _ ex_s2_rest)
    (ar_tree _ _ _ ex_s2_rest) ltac:(by vm_compute) ltac:(by vm_compute) ltac:(by intros []) ex_off_ix_crashed) as H.
  destruct (restart 50 (mkStore ex_off_ix None (fun _ => 60) : St)) as [r s'] eqn:E.
  assert (r = Ok tt) as -> by (apply (f_equal fst) in E; vm_compute in E; exact (eq_sym E)).
  exact (conj eq_refl H).
Defined.
