(* ===== verification/LiveSystem.v ===== *)
(** * The store under concurrency

    The buffer and the engine advance in critical sections; here they are the
    steps of a transition system, so that a flush of one file interleaves with
    writes, reads, truncations, deletions, flushes of other files, garbage
    collections and moves.  A read is one step here, at any stage of a flush;
    ReadRace.v is about reads that are interrupted.  A state is the store with the stage of every flush
    in flight.

    Every step shows at most one event to the callers of the API, and the files
    are the fold of the events.  Left out of the relation, because the code
    breaks there: a truncation or deletion while a flush of the file is in
    flight, and the move of a stripe of a file with buffered bytes.  A step
    that leaves a segment with a torn write ends the run: what follows then is
    the theorem [short_write_misplaces_next]. *)

From S2P Require Import Prelude Keys Kv Fragment Plan Segment Layer Index IndexSpec IndexRead IndexAppend IndexMaint IndexMove IndexGC IndexRecover Node Coalescer Store Handle LiveFile LiveWrite LiveFlush LiveTrunc StoreSpec LiveRead Durable.

(** ** What callers see *)

Inductive event : Type :=
  | EWrite (inode off : Z) (data : bytes)        (* a write returned *)
  | ERead (inode off n : Z) (p : bytes)          (* a read returned [n] bytes *)
  | ECut (inode size : Z)
  | EFree (inode : Z)
  | ELost (inode : Z) (e : error)                (* a flush failed: its batch is gone *)
  | EBroken (inode : Z)                          (* a truncation or deletion failed half way *)
  | ETau
  | EPanic.

(** Every file, byte by byte. *)
Definition files : Type := Z -> Z -> option Z.

Definition same_files (v v' : files) : Prop := forall i x, in_u64 i -> v' i x = v i x.
Definition others_same (v v' : files) (inode : Z) : Prop :=
  forall i x, in_u64 i -> i <> inode -> v' i x = v i x.

(** The effect of an event. *)
Definition after (e : event) (v v' : files) : Prop :=
  match e with
  | EWrite i off d => others_same v v' i /\ forall x, v' i x = overlay (v i) off d x
  | ERead i off n p => same_files v v' /\ forall k, 0 <= k < n -> byte_at p k = Some (default 0 (v i (off + k)))
  | ECut i size => others_same v v' i /\ forall x, v' i x = cut_at size (v i) x
  | EFree i => others_same v v' i /\ forall x, v' i x = None
  | ELost i _ | EBroken i => others_same v v' i
  | ETau => same_files v v'
  | EPanic => False
  end.

Fixpoint history (v : files) (es : list event) (v' : files) : Prop :=
  match es with
  | [] => same_files v v'
  | e :: es => exists v1, after e v v1 /\ history v1 es v'
  end.

Definition outcome_event {A} (r : outcome A) (good : A -> event) (bad : error -> event) : event :=
  match r with Ok a => good a | Err e => bad e | Panic => EPanic end.

Definition quiet {A} (r : outcome A) : event := outcome_event r (fun _ => ETau) (fun _ => ETau).

Section System.
Context {P : Type} {PB : Pebble P} {PL : PebbleLaws P}.
Context {S : Type} {SL : SegLayer S} {SLL : SegLayerLaws S} {MR : MapRange}.
Context {W : Type} {SW : Semaphore W} {SWL : SemaphoreLaws W}.
Implicit Types s : Store P S W.
Implicit Types ph : gmap Z phase.

Definition sys : Type := Store P S W * gmap Z phase.

(** ** Steps *)

Inductive step : sys -> event -> sys -> Prop :=
  | step_write inode off data tier s ph r s' :
      in_u64 inode -> bytes_ok data -> (tier = TierHot \/ tier = TierCold) ->
      0 <= off -> off + blen data <= 2^32 * ix_stripeSize (st_idx s) ->
      ix_seqGen (st_idx s) + blen data < 2^62 ->
      co_Write inode off data tier s = (r, s') ->
      step (s, ph) (outcome_event r (fun _ => EWrite inode off data) (fun _ => ETau)) (s', ph)
  | step_read inode off p s ph r s' :
      in_u64 inode -> iter_complete (ix_db (st_idx s)) ->
      0 <= off -> off + blen p <= 2^32 * ix_stripeSize (st_idx s) ->
      Handle_ReadAtCtx inode p off s = (r, s') ->
      step (s, ph) (outcome_event r (fun np => ERead inode off np.1 np.2) (fun _ => ETau)) (s', ph)
  | step_swap inode s ph r s' :
      flush_swap inode s = (r, s') ->
      step (s, ph) (quiet r)
        (s', match r with Ok true => <[inode := Swapped]> ph | _ => ph end)
  | step_build inode s ph r s' :
      ph !! inode = Some Swapped -> flush_build inode s = (r, s') ->
      step (s, ph) (quiet r) (s', match r with Ok j => <[inode := Built j]> ph | _ => ph end)
  | step_append inode j s ph r s' :
      in_u64 inode -> ph !! inode = Some (Built j) -> flush_append j s = (r, s') -> sets_clean (st_idx s') ->
      step (s, ph) (quiet r) (s', <[inode := Appended j r]> ph)
  | step_settle inode j r s ph r' s' :
      ph !! inode = Some (Appended j r) -> flush_settle j r s = (r', s') ->
      step (s, ph) (outcome_event r' (fun _ => outcome_event r (fun _ => ETau) (ELost inode)) (fun _ => EPanic))
        (s', delete inode ph)
  | step_cut inode size s ph r s' :
      ph !! inode = None -> in_u64 inode -> 0 <= size < 2^63 ->
      (let* _ := InvalidatePastSize inode size in on_idx (Truncate inode size)) s = (r, s') ->
      step (s, ph) (outcome_event r (fun _ => ECut inode size) (fun _ => EBroken inode)) (s', ph)
  | step_free inode s ph r s' :
      ph !! inode = None -> in_u64 inode -> free_inode inode s = (r, s') ->
      step (s, ph) (outcome_event r (fun _ => EFree inode) (fun _ => EBroken inode)) (s', ph)
  | step_commit ops s ph r s' :
      Forall foreign_op ops -> commit ops s = (r, s') -> step (s, ph) (quiet r) (s', ph)
  | step_request q s ph : step (s, ph) ETau (with_requests q s, ph)
  | step_sync s ph r s' :
      on_idx SyncIdx s = (r, s') -> sets_clean (st_idx s') -> step (s, ph) (quiet r) (s', ph)
  | step_gc s ph r s' : on_idx GC s = (r, s') -> step (s, ph) (quiet r) (s', ph)
  | step_move inode stripe target s ph r s' :
      buffered s inode = [] -> ph !! inode = None -> in_u64 inode -> in_u32 stripe ->
      (target = TierHot \/ target = TierCold) -> ix_seqGen (st_idx s) + ix_stripeSize (st_idx s) < 2^62 ->
      on_idx (Move inode stripe target) s = (r, s') -> sets_clean (st_idx s') ->
      step (s, ph) (quiet r) (s', ph).

Inductive steps : sys -> list event -> sys -> Prop :=
  | steps_nil x : steps x [] x
  | steps_cons x e y es z : step x e y -> steps y es z -> steps x (e :: es) z.

(** ** The invariant *)

(** The effect of a step on the errors of the files. *)
Definition poison_step (e : event) s s' : Prop :=
  forall i, match e with
    | ELost j err => if decide (i = j) then poison s' i = Err err else poison s' i = poison s i
    | EFree j | EBroken j => i <> j -> poison s' i = poison s i
    | EWrite j _ d => poison s' i = poison s i /\ (i = j -> d <> [] -> poison s i = Ok tt)
    | _ => poison s' i = poison s i
    end.

Definition good_step (e : event) s s' ph' : Prop :=
  store_ok s' ph' /\ after e (live s) (live s') /\ poison_step e s s'.

Lemma wp_eq {St A} (m : M St A) (Q : outcome A -> St -> Prop) (x : St) r (y : St) : wp m Q x -> m x = (r, y) -> Q r y.
Proof. unfold wp. by intros H E; rewrite E in H. Qed.

Lemma same_poison s s' : st_co s' = st_co s -> poison_step ETau s s'.
Proof. intros E i. unfold poison. by rewrite E. Qed.

(** The engine did something no reader can tell. *)
Lemma engine_step s ph ix' :
  store_ok s ph -> index_ok ix' -> sets_clean ix' -> ix_seqGen ix' < 2^62 ->
  (forall i buf, in_u64 i -> buf_ok (st_idx s) i buf (ph !! i) -> buffered s i = buf_exts buf -> buf_ok ix' i buf (ph !! i)) ->
  (forall i x, in_u64 i -> content ix' i x = content (st_idx s) i x) ->
  good_step ETau s (with_idx ix' s) ph.
Proof.
  intros (Hok & Hcl & Hq & c & Hc & [K1 K2 K3] & Hm) Hok' Hcl' Hq' Hb Hx. split; [|split].
  - split_and!; [done..|]. exists c. split_and!; [done| |done]. split; [|done..].
    intros i buf Hl. destruct (K1 i buf Hl) as [Hi Hbuf]. split; [done|]. apply Hb; [done..|].
    unfold buffered. by rewrite Hc, Hl.
  - intros i x Hi. by apply live_eq; [apply Hx|].
  - by apply same_poison.
Qed.

Lemma engine_same_file s ph ix' :
  store_ok s ph -> index_ok ix' -> sets_clean ix' -> ix_seqGen ix' < 2^62 ->
  (forall i, in_u64 i -> same_file (st_idx s) ix' i) -> good_step ETau s (with_idx ix' s) ph.
Proof.
  intros Hst Hok Hcl Hq Hs. apply engine_step; try done.
  - intros i buf Hi Hb _. eapply buf_ok_same; [by apply Hs|done].
  - intros i x Hi. by apply Hs.
Qed.

Lemma swept_same_file keep ix ix' i : swept keep ix ix' -> unchanged ix ix' -> in_u64 i -> same_file ix ix' i.
Proof.
  intros (_ & _ & Hd & Hss & Hq & _) (_ & _ & Hc) Hi. split_and!; [done|lia| |by intros; apply Hc].
  intros f. rewrite Hd. eauto.
Qed.

Lemma move_step s ph ix' inode stripe target :
  store_ok s ph -> in_u64 inode -> buffered s inode = [] -> ph !! inode = None ->
  ix_seqGen (st_idx s) + ix_stripeSize (st_idx s) < 2^62 ->
  unchanged (st_idx s) ix' \/ recanonicalised (st_idx s) ix' inode stripe target ->
  renumbered (st_idx s) ix' inode -> sets_clean ix' -> good_step ETau s (with_idx ix' s) ph.
Proof.
  intros Hst Hi Hb Hph Hroom Hc (Hss & Hq & Hf) Hcl.
  assert (index_ok ix' /\ forall i x, in_u64 i -> content ix' i x = content (st_idx s) i x) as [Hok Hx]
    by (by destruct Hc as [(? & _ & ?)|(? & _ & ? & _)]).
  apply engine_step; try done; [lia|]. intros i buf Hi' Hbuf Ebuf.
  destruct (decide (i = inode)) as [->|Hne].
  - rewrite Hb in Ebuf. rewrite Hph in *. destruct Hbuf as [H1 H2 H3 H4 H5 H6 H7 H8 H9 HA].
    split; cbn [unflushed] in *; rewrite <-?Ebuf; try done; try (by intros ? ?%elem_of_nil); try (by constructor).
    by intros g e _ ?%elem_of_nil.
  - eapply buf_ok_same; [|done]. split_and!; [done|lia| |by intros; apply Hx].
    intros f Hf'. exists f. split; [by apply Hf|done].
Qed.

Lemma after_tau s s' : same_view s s' -> after ETau (live s) (live s').
Proof. intros H i x Hi. by apply H. Qed.

Lemma after_only_read s s' ph : store_ok s ph -> only_read s s' -> good_step ETau s s' ph.
Proof.
  intros Hst (ix & -> & Hk & Hcl). pose proof Hst as (Hok & Hc & Hq & _).
  pose proof Hk as (_ & _ & _ & Eq). apply engine_same_file; try done;
    [by eapply kept_index_ok|by apply Hcl|by rewrite Eq|]. intros i Hi. by apply kept_same.
Qed.

(** ** The steps keep the invariant *)

Lemma good_write inode off data tier s ph r s' :
  store_ok s ph -> in_u64 inode -> bytes_ok data -> (tier = TierHot \/ tier = TierCold) ->
  0 <= off -> off + blen data <= 2^32 * ix_stripeSize (st_idx s) -> ix_seqGen (st_idx s) + blen data < 2^62 ->
  co_Write inode off data tier s = (r, s') ->
  good_step (outcome_event r (fun _ => EWrite inode off data) (fun _ => ETau)) s s' ph.
Proof.
  intros Hst Hi Hb Ht Ho He Hg. apply (wp_eq _ (fun r s' => good_step (outcome_event r (fun _ => EWrite inode off data) (fun _ => ETau)) s s' ph)).
  apply (wp_co_Write inode off data tier s ph); try done.
  - intros s1 Hst1 [Hv Ho1] [_ Hp] _ Hnp. split; [done|]. split; [by split|]. intros i. split; [apply Hp|]. by intros ->.
  - intros e s1 Hst1 Hv [_ Hp] _. split; [done|]. split; [by apply after_tau|]. exact Hp.
Qed.

Lemma good_read inode off p s ph r s' :
  store_ok s ph -> in_u64 inode -> iter_complete (ix_db (st_idx s)) ->
  0 <= off -> off + blen p <= 2^32 * ix_stripeSize (st_idx s) ->
  Handle_ReadAtCtx inode p off s = (r, s') ->
  good_step (outcome_event r (fun np => ERead inode off np.1 np.2) (fun _ => ETau)) s s' ph.
Proof.
  intros Hst Hi Hc Ho He. apply (wp_eq _ (fun r s' => good_step (outcome_event r (fun np => ERead inode off np.1 np.2) (fun _ => ETau)) s s' ph)).
  apply (wp_Handle_ReadAtCtx s ph); try done.
  - intros n p' s1 Hr (_ & _ & Hres & _) _. destruct (after_only_read s s1 ph Hst Hr) as (? & ? & ?). by split.
  - intros e s1 Hr. by apply after_only_read.
Qed.

Lemma good_swap inode s ph r s' :
  store_ok s ph -> flush_swap inode s = (r, s') ->
  good_step (quiet r) s s' (match r with Ok true => <[inode := Swapped]> ph | _ => ph end).
Proof.
  intros Hst. apply (wp_eq _ (fun r s' => good_step (quiet r) s s' (match r with Ok true => <[inode := Swapped]> ph | _ => ph end))).
  apply (wp_flush_swap inode s ph); [done|..].
  - intros _. split; [done|]. by split.
  - intros s1 _ Hst1 Hv _ _ _ _ _ Hp _. split; [done|]. split; [by apply after_tau|done].
Qed.

Lemma good_build inode s ph r s' :
  store_ok s ph -> ph !! inode = Some Swapped -> flush_build inode s = (r, s') ->
  good_step (quiet r) s s' (match r with Ok j => <[inode := Built j]> ph | _ => ph end).
Proof.
  intros Hst Hph. apply (wp_eq _ (fun r s' => good_step (quiet r) s s' (match r with Ok j => <[inode := Built j]> ph | _ => ph end))).
  apply (wp_flush_build inode s ph); [done..|]. intros j _ Hst1. split; [done|]. by split.
Qed.

Lemma built_inode s ph inode j : store_ok s ph -> ph !! inode = Some (Built j) -> fj_inode j = inode.
Proof.
  intros (_ & _ & _ & c & _ & [K1 K2 _] & _) Hph. destruct (K2 _ _ Hph) as [buf Hb].
  destruct (K1 _ _ Hb) as [_ Hbuf]. rewrite Hph in Hbuf. by destruct (bo_phase _ _ _ _ Hbuf) as (b & _ & ->).
Qed.

Lemma appended_inode s ph inode j r : store_ok s ph -> ph !! inode = Some (Appended j r) ->
  fj_inode j = inode /\ r <> Panic.
Proof.
  intros (_ & _ & _ & c & _ & [K1 K2 _] & _) Hph. destruct (K2 _ _ Hph) as [buf Hb].
  destruct (K1 _ _ Hb) as [_ Hbuf]. rewrite Hph in Hbuf. by destruct (bo_phase _ _ _ _ Hbuf) as (b & _ & -> & ? & _).
Qed.

Lemma good_append inode j s ph r s' :
  store_ok s ph -> in_u64 inode -> ph !! inode = Some (Built j) -> flush_append j s = (r, s') ->
  sets_clean (st_idx s') -> good_step (quiet r) s s' (<[inode := Appended j r]> ph).
Proof.
  intros Hst Hi Hph. apply (wp_eq _ (fun r s' => sets_clean (st_idx s') -> good_step (quiet r) s s' (<[inode := Appended j r]> ph))).
  apply (wp_flush_append inode j s ph); [done|done|by eapply built_inode|done|].
  intros r1 s1 Hc Hv Hr _ Hst1 Hcl. assert (quiet r1 = ETau) as -> by (by destruct r1).
  split; [by apply Hst1|]. split; [by apply after_tau|by apply same_poison].
Qed.

(** A failed flush drops the batch: only that file changes. *)
Lemma good_settle inode j r s ph r' s' :
  store_ok s ph -> ph !! inode = Some (Appended j r) -> flush_settle j r s = (r', s') ->
  good_step (outcome_event r' (fun _ => outcome_event r (fun _ => ETau) (ELost inode)) (fun _ => EPanic)) s s' (delete inode ph).
Proof.
  intros Hst Hph. destruct (appended_inode s ph inode j r Hst Hph) as [Hj Hr].
  apply (wp_eq _ (fun r' s' => good_step (outcome_event r' (fun _ => outcome_event r (fun _ => ETau) (ELost inode)) (fun _ => EPanic)) s s' (delete inode ph))).
  apply (wp_flush_settle inode j r s ph); [done..|]. intros s1 Hst1 Hix Hv Hb Hbo Hp Hpo _. cbn [outcome_event].
  destruct r as [[]|e|]; [| |done].
  - split; [done|]. split; [by apply after_tau, Hv|]. intros i. destruct (decide (i = inode)) as [->|]; [done|by apply Hpo].
  - split; [done|]. split.
    + intros i x Hi Hne. apply live_eq; [by rewrite Hix|by apply Hbo].
    + intros i. cbn [outcome_event]. case_decide as Hd; [by subst|by apply Hpo].
Qed.

Lemma good_cut inode size s ph r s' :
  store_ok s ph -> ph !! inode = None -> in_u64 inode -> 0 <= size < 2^63 ->
  (let* _ := InvalidatePastSize inode size in on_idx (Truncate inode size)) s = (r, s') ->
  good_step (outcome_event r (fun _ => ECut inode size) (fun _ => EBroken inode)) s s' ph.
Proof.
  intros Hst Hph Hi Hsz. apply (wp_eq _ (fun r s' => good_step (outcome_event r (fun _ => ECut inode size) (fun _ => EBroken inode)) s s' ph)).
  apply (wp_cut inode size s ph); [done..| |].
  - intros s1 Hst1 [Hv Ho] _ _ _ Hp. by split; [|split].
  - intros e s1 Hst1 Ho _ Hp. split; [done|]. split; [done|]. intros i _. apply Hp.
Qed.

Lemma good_free inode s ph r s' :
  store_ok s ph -> ph !! inode = None -> in_u64 inode -> free_inode inode s = (r, s') ->
  good_step (outcome_event r (fun _ => EFree inode) (fun _ => EBroken inode)) s s' ph.
Proof.
  intros Hst Hph Hi. apply (wp_eq _ (fun r s' => good_step (outcome_event r (fun _ => EFree inode) (fun _ => EBroken inode)) s s' ph)).
  apply (wp_free_inode inode s ph); [done..| |].
  - intros s1 Hst1 [Hv Ho] _ Hp. by split; [|split].
  - intros e s1 Hst1 Ho _ Hp. by split; [|split].
Qed.

Lemma good_commit ops s ph r s' :
  store_ok s ph -> Forall foreign_op ops -> commit ops s = (r, s') -> good_step (quiet r) s s' ph.
Proof.
  intros Hst Hf. apply (wp_eq _ (fun r s' => good_step (quiet r) s s' ph)).
  assert (forall s1, meta_step s s1 -> good_step ETau s s1 ph) as Hm.
  { intros s1 Hm. destruct (meta_step_ok s s1 ph Hst Hm) as [Hst1 Hv]. split; [done|]. split; [by apply after_tau|].
    by apply same_poison, Hm. }
  apply wp_commit; [done| |]; intros; by apply Hm.
Qed.

Lemma good_request q s ph : store_ok s ph -> good_step ETau s (with_requests q s) ph.
Proof.
  intros Hst. split; [by apply with_requests_ok|]. split; [by apply after_tau, with_requests_view|].
  intros i. apply with_requests_same.
Qed.

Lemma good_sync s ph r s' :
  store_ok s ph -> on_idx SyncIdx s = (r, s') -> sets_clean (st_idx s') -> good_step (quiet r) s s' ph.
Proof.
  intros Hst. apply (wp_eq _ (fun r s' => sets_clean (st_idx s') -> good_step (quiet r) s s' ph)).
  apply wp_on_idx, wp_SyncIdx; [by destruct Hst|]. intros r1 ix Hr Hid _ _ Hcl.
  assert (quiet r1 = ETau) as -> by (by destruct r1).
  destruct (engine_idled s ix ph Hst Hid Hcl) as [Hst1 Hv]. split; [done|]. split; [by apply after_tau|by apply same_poison].
Qed.

Lemma good_gc s ph r s' : store_ok s ph -> on_idx GC s = (r, s') -> good_step (quiet r) s s' ph.
Proof.
  intros Hst. pose proof Hst as (Hok & Hcl & Hq & _). apply (wp_eq _ (fun r s' => good_step (quiet r) s s' ph)).
  apply wp_on_idx. eapply wp_mono; [by apply wp_GC|]. intros r1 ix [Hsw Hc].
  assert (quiet r1 = ETau) as -> by (by destruct r1).
  pose proof (swept_unchanged _ _ Hok Hsw) as Hun. pose proof Hsw as (_ & Hcl1 & _ & _ & Eq & _).
  apply engine_same_file; [done|by apply Hun|done|by rewrite Eq|]. intros i Hi. by eapply swept_same_file.
Qed.

Lemma good_move inode stripe target s ph r s' :
  store_ok s ph -> buffered s inode = [] -> ph !! inode = None -> in_u64 inode -> in_u32 stripe ->
  (target = TierHot \/ target = TierCold) -> ix_seqGen (st_idx s) + ix_stripeSize (st_idx s) < 2^62 ->
  on_idx (Move inode stripe target) s = (r, s') -> sets_clean (st_idx s') -> good_step (quiet r) s s' ph.
Proof.
  intros Hst Hb Hph Hi Hs Ht Hq. pose proof Hst as (Hok & Hcl & _).
  apply (wp_eq _ (fun r s' => sets_clean (st_idx s') -> good_step (quiet r) s s' ph)).
  apply wp_on_idx, wp_Move; try done; [lia|..].
  - intros ix Hr Hcl1 Hn _. eapply move_step; try done. by right.
  - intros e ix Hr Hn Hcl1. by eapply move_step.
Qed.

Lemma step_good x e y : step x e y -> store_ok x.1 x.2 -> good_step e x.1 y.1 y.2.
Proof.
  intros H Hst. destruct H; cbn [fst snd] in *.
  - by eapply good_write.
  - by eapply good_read.
  - by apply good_swap.
  - by apply good_build.
  - by apply good_append.
  - by eapply good_settle.
  - by eapply good_cut.
  - by eapply good_free.
  - by eapply good_commit.
  - by apply good_request.
  - by apply good_sync.
  - by apply good_gc.
  - by eapply good_move.
Qed.

Lemma steps_ok x es y : steps x es y -> store_ok x.1 x.2 -> store_ok y.1 y.2 /\ history (live x.1) es (live y.1).
Proof.
  intros Hs. induction Hs as [x|x e y es z Hstep Hs IH]; intros Hst.
  - split; [done|]. by intros i x' _.
  - destruct (step_good x e y Hstep Hst) as (Hst1 & Ha & _). destruct (IH Hst1) as [Hst2 Hh]. split; [done|].
    exists (live y.1). by split.
Qed.

(** A poisoned file stays poisoned and takes no write until it is deleted. *)
Lemma steps_poison x es y i e :
  steps x es y -> store_ok x.1 x.2 -> poison x.1 i = Err e -> EFree i ∉ es -> EBroken i ∉ es ->
  (exists e', poison y.1 i = Err e') /\ forall off d, EWrite i off d ∈ es -> d = [].
Proof.
  intros Hs. revert e. induction Hs as [x|x ev y es z Hstep Hs IH]; intros e Hst Hp Hf Hb.
  { split; [by exists e|]. by intros off d ?%elem_of_nil. }
  apply not_elem_of_cons in Hf as [Hf1 Hf]. apply not_elem_of_cons in Hb as [Hb1 Hb].
  destruct (step_good x ev y Hstep Hst) as (Hst1 & _ & Hps). specialize (Hps i).
  assert ((exists e1, poison y.1 i = Err e1) /\ forall off d, ev = EWrite i off d -> d = []) as [[e1 He1] Hw].
  { destruct ev; try (by rewrite Hps; split; [eauto|]).
    - destruct Hps as [-> Hn]. split; [eauto|]. intros o d [= -> _ ->]. destruct d; [done|].
      rewrite Hp in Hn. by discriminate Hn.
    - rewrite Hps by congruence. by split; [eauto|].
    - case_decide; rewrite Hps; by split; [eauto|].
    - rewrite Hps by congruence. by split; [eauto|]. }
  destruct (IH e1 Hst1 He1 Hf Hb) as [He2 Hw2]. split; [done|].
  intros off d [Eev|Hin]%elem_of_cons; [by eapply Hw|by eapply Hw2].
Qed.

Lemma Fsync_poisoned s i e : poison s i = Err e -> (Fsync i s).1 = Err e.
Proof.
  unfold poison, poison_of, Fsync, co_get, bind. destruct (st_co s) as [c|]; [|done].
  destruct (co_buffers c !! i) as [buf|]; [|done]. by destruct (ib_poisoned buf) as [e'|]; [intros [= ->]|].
Qed.

(** ** The properties *)


(** C26: the memory the buffer holds never exceeds its configured capacity, in
    any state of any run, and every byte of it is accounted for in the
    semaphore. *)
Theorem buffer_bounded s ph es s' ph' :
  store_ok s ph -> steps (s, ph) es (s', ph') ->
  exists c, st_co s' = Some c /\ 0 <= mem_total (co_buffers c) <= op_globalCap (co_opts c) /\
    mem_total (co_buffers c) <= sem_held (co_sem c).
Proof.
  intros Hst Hs. destruct (steps_ok _ _ _ Hs Hst) as [(_ & _ & _ & c & Hc & _ & Hm) _]. exists c.
  pose proof (mem_total_nonneg (co_buffers c)). unfold mem_ok in Hm. split_and!; [done|lia..].
Qed.


End System.
