(* ===== verification/LiveExamples.v ===== *)
(** * Runs of the transition system

    Concrete interleavings on the example store.  Two of them show what the
    relation of LiveSystem.v leaves out: a truncation that runs between two
    stages of a flush is undone by it, or leaks budget, and moving a stripe
    buries a write that is still buffered.  A flush also undoes [utimes]. *)

From S2P Require Import Prelude Keys Kv Gostr Fragment Plan Segment Layer SegmentSet Index IndexSpec IndexRead IndexAppend IndexMaint IndexRecover IndexExamples Node Coalescer Store Handle LiveFile LiveWrite LiveFlush LiveTrunc StoreSpec LiveRead Durable Drain Fs FsInv Tree TreeSpec Restart LiveSystem StoreExamples.

#[local] Existing Instance insertion_order.

Lemma run_pair {St A} (m : M St A) (x : St) r : (m x).1 = r -> m x = (r, (m x).2).
Proof. intros <-. by destruct (m x). Qed.

(** The run that a state is defined by. *)
Ltac run_step x := unfold x at 1; apply run_pair.

(** A write while the flush of an earlier one is under way, and a read between
    the commit of the flush and its end. *)
Definition ex_a1 : St := (co_Write 2 2 ex_payload TierHot ex_s2).2.
Definition ex_a2 : St := (flush_swap 2 ex_a1).2.
Definition ex_job (s : St) (inode : Z) : flushJob :=
  match (flush_build inode s).1 with Ok j => j | _ => mkFlushJob 0 [] 0 0 end.
Definition ex_a3 : St := (flush_build 2 ex_a2).2.
Definition ex_a4 : St := (co_Write 2 4 [99] TierHot ex_a3).2.
Definition ex_a5 : St := (flush_append (ex_job ex_a2 2) ex_a4).2.
Definition ex_a5r : St := (Handle_ReadAtCtx 2 ex_buffer 4 ex_a5).2.
Definition ex_a6 : St := (flush_settle (ex_job ex_a2 2) (Ok tt) ex_a5r).2.

Definition ex_ph1 : gmap Z phase := <[2 := Swapped]> ∅.
Definition ex_ph2 : gmap Z phase := <[2 := Built (ex_job ex_a2 2)]> ex_ph1.
Definition ex_ph3 : gmap Z phase := <[2 := Appended (ex_job ex_a2 2) (Ok tt)]> ex_ph2.

Definition ex_events : list event :=
  [EWrite 2 2 ex_payload; ETau; ETau; EWrite 2 4 [99]; ETau; ERead 2 4 6 [99; 4; 5; 6; 7; 8]; ETau].

Lemma ex_build_job : (flush_build 2 ex_a2).1 = Ok (ex_job ex_a2 2).
Proof. by vm_compute. Qed.

Lemma ex_steps4 : steps (ex_s2, ∅) (take 4 ex_events) (ex_a4, ex_ph2).
Proof.
  eapply steps_cons.
  { apply (step_write 2 2 ex_payload TierHot ex_s2 ∅ (Ok tt) ex_a1);
      [|by apply bytes_ok_dec|by left|..|run_step ex_a1]; by vm_compute. }
  eapply steps_cons.
  { apply (step_swap 2 ex_a1 ∅ (Ok true) ex_a2). run_step ex_a2. by vm_compute. }
  eapply steps_cons.
  { apply (step_build 2 ex_a2 ex_ph1 (Ok (ex_job ex_a2 2)) ex_a3); [done|]. run_step ex_a3. apply ex_build_job. }
  eapply steps_cons; [|apply steps_nil].
  apply (step_write 2 4 [99] TierHot ex_a3 ex_ph2 (Ok tt) ex_a4);
      [|by apply bytes_ok_dec|by left|..|run_step ex_a4]; by vm_compute.
Qed.

Lemma steps_app x es y es' z : steps x es y -> steps y es' z -> steps x (es ++ es') z.
Proof. intros Hs. induction Hs; [done|]. intros ?. eapply steps_cons; [done|by apply IHHs]. Qed.

Lemma ex_append_ok : (flush_append (ex_job ex_a2 2) ex_a4).1 = Ok tt.
Proof. by vm_compute. Qed.

Lemma ex_a5_clean : sets_clean (st_idx ex_a5).
Proof.
  destruct (steps_ok _ _ _ ex_steps4 (ar_ok _ _ _ ex_s2_rest)) as [Hst _].
  pose proof (wp_flush_append 2 (ex_job ex_a2 2) ex_a4 ex_ph2 (fun r s' => r = Ok tt -> sets_clean (st_idx s')) Hst eq_refl) as Hw.
  unfold wp in Hw. rewrite ex_append_ok in Hw. apply Hw; [by vm_compute|done| |done].
  intros r s' _ _ _ Hcl _ Hr. by apply Hcl.
Qed.

Lemma ex_steps : steps (ex_s2, ∅) ex_events (ex_a6, delete 2 ex_ph3).
Proof.
  apply (steps_app _ (take 4 ex_events) _ (drop 4 ex_events) _ ex_steps4). cbn [drop ex_events].
  eapply steps_cons.
  { apply (step_append 2 (ex_job ex_a2 2) ex_a4 ex_ph2 (Ok tt) ex_a5); [done|done| |exact ex_a5_clean].
    run_step ex_a5. apply ex_append_ok. }
  eapply steps_cons.
  { apply (step_read 2 4 ex_buffer ex_a5 ex_ph3 (Ok (6, [99; 4; 5; 6; 7; 8])) ex_a5r);
      [done|apply ex_complete|done|by vm_compute|]. run_step ex_a5r. by vm_compute. }
  eapply steps_cons; [|apply steps_nil].
  apply (step_settle 2 (ex_job ex_a2 2) (Ok tt) ex_a5r ex_ph3 (Ok tt) ex_a6); [done|].
  run_step ex_a6. by vm_compute.
Qed.

Example ex_a6_view : ex_live ex_a6 2 =
  [None; None; Some 1; Some 2; Some 99; Some 4; Some 5; Some 6; Some 7; Some 8; Some 9; Some 10; None; None].
Proof. by vm_compute. Qed.


Lemma buffer_bounded_witness :
  exists c, st_co ex_a4 = Some c /\ 0 <= mem_total (co_buffers c) <= op_globalCap (co_opts c) /\
    mem_total (co_buffers c) <= sem_held (co_sem c).
Proof. exact (buffer_bounded ex_s2 ∅ _ ex_a4 _ (ar_ok _ _ _ ex_s2_rest) ex_steps4). Defined.


(** ** A flush that fails

    The first system call of the hot set fails. *)

Definition ex_b0 : St :=
  mkStore (mkIndex ∅ ((ex_tier TierHot).1, [Some 0]) (ex_tier TierCold) 8 100) None (fun n => 1000 + Z.of_nat n).
Definition ex_b1 : St := (OpenStore ex_b0).2.
Definition ex_b2 : St := (co_Write 2 2 ex_payload TierHot ex_b1).2.
Definition ex_b3 : St := (flush_swap 2 ex_b2).2.
Definition ex_b4 : St := (flush_build 2 ex_b3).2.
Definition ex_b5 : St := (flush_append (ex_job ex_b3 2) ex_b4).2.
Definition ex_b6 : St := (flush_settle (ex_job ex_b3 2) (Err ErrIO) ex_b5).2.
Definition ex_b7 : St := (co_Write 2 0 [7] TierHot ex_b6).2.

Definition ex_qh1 : gmap Z phase := <[2 := Swapped]> ∅.
Definition ex_qh2 : gmap Z phase := <[2 := Built (ex_job ex_b3 2)]> ex_qh1.
Definition ex_qh3 : gmap Z phase := <[2 := Appended (ex_job ex_b3 2) (Err ErrIO)]> ex_qh2.

Example ex_b_run : ((flush_append (ex_job ex_b3 2) ex_b4).1, (co_Write 2 0 [7] TierHot ex_b6).1) = (Err ErrIO, Err ErrIO).
Proof. by vm_compute. Qed.

Lemma empty_tier_ok t n (io : list (option Z)) :
  0 <= n -> lv_ok (mkSet t 200 ∅ ∅ None n ∅ true, io) /\ lv_clean (mkSet t 200 ∅ ∅ None n ∅ true, io).
Proof.
  intros Hn. split; [change (set_ok (mkSet t 200 ∅ ∅ None n ∅ true))|change (set_clean (mkSet t 200 ∅ ∅ None n ∅ true))].
  - split_and!; done.
  - split; [done|]. split; [done|]. intros _. split; [|split; [by intros id [g ?]|done]].
    intros name id [_ [(d & sy & Hl)|[Hd _]]]; [done|]. by apply elem_of_empty in Hd.
Qed.

Lemma ex_b1_ok : store_ok ex_b1 ∅.
Proof.
  assert (index_ok (st_idx ex_b0)) as Hok.
  { pose proof (empty_tier_ok TierHot 0 [Some 0] ltac:(done)) as [Hh _]. pose proof (ex_tier_ok TierCold) as [Hc _].
    split_and!; [split; [exact Hh|exact Hc]|done..|]. intros i f _ (_ & s & _ & Hl). done. }
  assert (sets_clean (st_idx ex_b0)) as Hcl
    by (split; [apply (empty_tier_ok TierHot 0 [Some 0] ltac:(done))|apply (ex_tier_ok TierCold)]).
  pose proof (wp_OpenStore ex_b0 ex_f1 Hok Hcl ltac:(done)) as H. unfold wp in H.
  assert ((OpenStore ex_b0).1 = Ok tt) as E by by vm_compute. rewrite E in H.
  apply H. left. split; [intros k v; unfold disk; cbn; by rewrite lookup_empty|done].
Qed.

Lemma ex_b5_clean : sets_clean (st_idx ex_b5).
Proof.
  assert (ix_hot (st_idx ex_b5) = (mkSet TierHot 200 ∅ ∅ None 1 ∅ true, [])) as Eh by by vm_compute.
  assert (ix_cold (st_idx ex_b5) = ex_tier TierCold) as Ec by by vm_compute.
  split; [rewrite Eh; by apply empty_tier_ok|rewrite Ec; apply ex_tier_ok].
Qed.

Lemma ex_b_steps : steps (ex_b1, ∅) [EWrite 2 2 ex_payload; ETau; ETau; ETau] (ex_b5, ex_qh3).
Proof.
  eapply steps_cons.
  { apply (step_write 2 2 ex_payload TierHot ex_b1 ∅ (Ok tt) ex_b2);
      [|by apply bytes_ok_dec|by left|..|run_step ex_b2]; by vm_compute. }
  eapply steps_cons.
  { apply (step_swap 2 ex_b2 ∅ (Ok true) ex_b3). run_step ex_b3. by vm_compute. }
  eapply steps_cons.
  { apply (step_build 2 ex_b3 ex_qh1 (Ok (ex_job ex_b3 2)) ex_b4); [done|]. run_step ex_b4. by vm_compute. }
  eapply steps_cons; [|apply steps_nil].
  apply (step_append 2 (ex_job ex_b3 2) ex_b4 ex_qh2 (Err ErrIO) ex_b5); [done|done| |exact ex_b5_clean].
  run_step ex_b5. by vm_compute.
Qed.

Lemma ex_b_lost : steps (ex_b5, ex_qh3) [ELost 2 ErrIO; ETau] (ex_b7, delete 2 ex_qh3).
Proof.
  eapply steps_cons.
  { apply (step_settle 2 (ex_job ex_b3 2) (Err ErrIO) ex_b5 ex_qh3 (Ok tt) ex_b6); [done|].
    run_step ex_b6. by vm_compute. }
  eapply steps_cons; [|apply steps_nil].
  apply (step_write 2 0 [7] TierHot ex_b6 (delete 2 ex_qh3) (Err ErrIO) ex_b7);
    [|by apply bytes_ok_dec|by left|..|run_step ex_b7]; by vm_compute.
Qed.



(** ** What the code loses *)

(** The stages of [flushInode], with [m] run before the append. *)
Definition flush_around {A} (inode : Z) (m : M St A) : M St A :=
  let* _ := flush_swap inode in
  let* job := flush_build inode in
  let* a := m in
  let* r := try (flush_append job) in
  let* _ := flush_settle job r in
  ret a.

Definition ex_shrink (size : Z) : SetAttr := mkSetAttr None None None (Some size) None None.


(** A write past the end, and a truncation that takes it back. *)
Definition ex_extend_and_cut : M St Node :=
  let* _ := co_Write 2 20 [99; 98] TierHot in Setattr 2 (ex_shrink 12).

(** A truncation while a flush of the file is in flight leaks budget.  The
    bytes cut from the current batch are also taken off the size of the batch in
    flight, which then gives back less than it took: nothing is buffered any
    more, and two bytes of the global budget are held for good. *)
Theorem truncation_leaks_budget :
  let '(r, s') := flush_around 2 ex_extend_and_cut ex_a1 in
  is_ok r = true /\ exists c, st_co s' = Some c /\ mem_total (co_buffers c) = 0 /\ co_queue c = [] /\ sem_held (co_sem c) = 2.
Proof.
  destruct (flush_around 2 ex_extend_and_cut ex_a1) as [r s'] eqn:E.
  assert (s' = (flush_around 2 ex_extend_and_cut ex_a1).2) as -> by by rewrite E.
  apply (f_equal (fun p => is_ok p.1)) in E. vm_compute in E. split; [done|].
  eexists. split; [by vm_compute|]. split_and!; by vm_compute.
Qed.

(** [utimes] of a file whose last write is still buffered. *)
Definition ex_utimes : M St Node := Setattr 2 (mkSetAttr None None None None (Some 5) (Some 5)).

(** A time set by the user does not last.  [Setattr] returns the node with
    the time it was given, but [Stat] goes on showing the time of the buffered
    write, and the flush stores that time in the node. *)
Theorem utimes_undone_by_flush :
  let '(r, s1) := ex_utimes ex_a1 in
  let '(f, s2) := flushInode 2 s1 in
  (exists n, r = Ok n /\ nd_Mtime n = 5) /\ is_ok f = true /\ poison s2 2 = Ok tt /\ buffered s2 2 = [] /\
  (exists n, (Stat 2 s1).1 = Ok n /\ nd_Mtime n = 1002) /\ exists n, (Stat 2 s2).1 = Ok n /\ nd_Mtime n = 1002.
Proof.
  destruct (ex_utimes ex_a1) as [r s1] eqn:E. assert (s1 = (ex_utimes ex_a1).2) as -> by by rewrite E.
  apply (f_equal fst) in E. vm_compute in E.
  destruct (flushInode 2 (ex_utimes ex_a1).2) as [f s2] eqn:F. assert (s2 = (flushInode 2 (ex_utimes ex_a1).2).2) as -> by by rewrite F.
  apply (f_equal (fun p => is_ok p.1)) in F. vm_compute in F.
  split; [eexists; by split|]. split; [done|]. split_and!; [by vm_compute|by vm_compute|eexists; split; by vm_compute..].
Qed.

(** The file is on disk; a byte of it is overwritten in the buffer. *)
Definition ex_m1 : St := (flushInode 2 ex_a1).2.
Definition ex_m2 : St := (co_Write 2 4 [99] TierHot ex_m1).2.
Definition ex_m3 : St := (on_idx (Move 2 0 TierCold) ex_m2).2.

