(* ===== verification/ReadRace.v ===== *)
(** * Reads in their critical sections

    A read takes no lock of its own: it reads the size, the fragments on disk,
    the fragments in the buffer, and then its bytes slice by slice, each under a
    lock of its own.  [Handle_ReadAtCtx] runs them in one go; here other code
    runs before the buffer is read, and before the bytes are.

    Code that leaves the fragments of the file where they are does no harm: a
    collection, say, or a write to another file.  A flush of the file does: between the two scans it takes a write from where
    the read has yet to look to where it has looked already, and after them it
    takes away what the plan points at. *)

From S2P Require Import Prelude Keys Kv Fragment Plan Segment Layer SegmentSet Index IndexSpec IndexRead IndexAppend IndexMaint IndexMove IndexGC IndexRecover IndexExamples Node Coalescer Store Handle LiveFile LiveWrite LiveFlush LiveTrunc StoreSpec LiveRead Fs FsInv Tree TreeSpec LiveSystem StoreExamples LiveExamples.

Section Staged.
Context {P : Type} {PB : Pebble P} {PL : PebbleLaws P}.
Context {S : Type} {SL : SegLayer S} {SLL : SegLayerLaws S} {MR : MapRange}.
Context {W : Type} {SW : Semaphore W} {SWL : SemaphoreLaws W}.
Implicit Types s : Store P S W.

(** [Handle.ReadAtCtx], where [scan] is what other goroutines do between the
    scan of the disk and the one of the buffer, and [fill] what they do before
    each slice of the plan is read. *)
Definition ReadAt_staged (scan fill : Store P S W -> Store P S W) (inode : Z) (p : bytes) (off : Z) : M (Store P S W) (Z * bytes) :=
  match p with
  | [] => ret (0, p)
  | _ =>
      let* node := Stat inode in
      if nd_Size node <=? off then ret (0, p)
      else
        let n := if nd_Size node <? i64 (off + blen p) then i64 (nd_Size node - off) else blen p in
        if (n <? 0) || (blen p <? n) then panic
        else
          let* diskFrags := on_idx (FragmentsInRange inode off n) in
          let* _ := modify scan in
          let* s := get in
          let combined := diskFrags ++ mem_frags inode off n s in
          let* p := mfold (fun p sl => let* _ := modify fill in read_slice inode off p sl) p (PlanRead combined off n) in
          ret (n, p)
  end.

(** With nothing in between it is the read of Handle.v. *)
Lemma ReadAt_staged_alone inode p off s :
  ReadAt_staged id id inode p off s = Handle_ReadAtCtx inode p off s.
Proof. done. Qed.

(** ** The file stays where it lies *)

(** Its fragments on disk, their bytes and its extents in the buffer are as in
    [s]. *)
Record in_place (inode : Z) s s' : Prop := {
  sp_frags : forall f, frag_in (disk s') inode f <-> frag_in (disk s) inode f;
  sp_content : forall x, content (st_idx s') inode x = content (st_idx s) inode x;
  sp_buffered : buffered s' inode = buffered s inode;
  sp_ok : exists ph, store_ok s' ph;
}.

(** Code that never moves the file. *)
Definition keeps_place (inode : Z) (h : Store P S W -> Store P S W) : Prop :=
  forall s s', in_place inode s s' -> in_place inode s (h s').

Lemma in_place_refl inode s ph : store_ok s ph -> in_place inode s s.
Proof. intros. split; [done..|by exists ph]. Qed.

Lemma in_place_trans inode s1 s2 s3 : in_place inode s1 s2 -> in_place inode s2 s3 -> in_place inode s1 s3.
Proof. intros [F C B _] [F' C' B' K]. split; [by intros; rewrite F'|by intros; rewrite C'|congruence|done]. Qed.

Lemma in_place_live inode s s' x : in_place inode s s' -> live s' inode x = live s inode x.
Proof. intros [_ C B _]. by apply live_eq. Qed.

Lemma in_place_serves inode s s' x f : in_place inode s s' -> serves (disk s) inode x f -> serves (disk s') inode x f.
Proof.
  intros [F _ _ _] (H1 & H2 & H3). split_and!; [by apply F|done|]. intros g Hg. apply H3. by apply F.
Qed.

Lemma in_place_newest inode s s' x :
  in_u64 inode -> index_ok (st_idx s) -> in_place inode s s' ->
  newest (inode_frags (disk s') inode) x = newest (inode_frags (disk s) inode) x.
Proof.
  intros Hi (_ & [Hss _] & _ & Hs & _) Hp. pose proof Hp as [F _ _ (ph & (_ & [Hss' _] & _ & Hs' & _) & _)].
  destruct (newest (inode_frags (disk s) inode) x) as [f|] eqn:E.
  - apply (newest_serves (ix_stripeSize (st_idx s'))); [done..|]. apply (in_place_serves inode s s'); [done|].
    by apply (newest_serves (ix_stripeSize (st_idx s))).
  - rewrite newest_None in *. intros f Hf. apply E. apply (elem_of_inode_frags (ix_stripeSize (st_idx s))); [done..|].
    apply F. by apply (elem_of_inode_frags (ix_stripeSize (st_idx s'))) in Hf.
Qed.

Lemma in_place_kind inode s s' sl : in_place inode s s' -> slice_kind s inode sl -> slice_kind s' inode sl.
Proof.
  intros Hp. pose proof Hp as [_ _ B _]. intros [Hsp Hn|e Hsp He Hlo Hhi Hmax Hl|f Hsp Hsv Ht Hl].
  - apply slice_hole; [done|]. intros x Hx. rewrite (in_place_live inode s s') by done. by apply Hn.
  - apply (slice_mem _ _ _ e); try done; by rewrite B.
  - apply (slice_disk _ _ _ f); try done. rewrite B. intros x Hx. destruct (Hsv x Hx) as [H1 H2].
    split; [by apply (in_place_serves inode s)|]. rewrite (in_place_live inode s s') by done. by rewrite (sp_content _ _ _ Hp).
Qed.

Lemma in_place_filled inode s s' off hi p0 p :
  in_place inode s s' -> filled s inode off hi p0 p <-> filled s' inode off hi p0 p.
Proof.
  intros Hp. unfold filled. split; intros (H1 & H2 & H3); (split_and!; [done| |done]); intros x Hx; rewrite H2 by done;
    by rewrite (in_place_live inode s s').
Qed.

Lemma only_read_in_place inode s s' ph : store_ok s ph -> in_u64 inode -> only_read s s' -> in_place inode s s'.
Proof.
  intros Hst Hi Hr. destruct (after_only_read s s' ph Hst Hr) as (Hst' & _). destruct Hr as (ix & -> & Hk & _).
  pose proof Hst as (Hok & _). pose proof Hk as (_ & _ & Ed & _). split; [|intros x; by apply kept_content|done|by exists ph].
  intros f. unfold disk. cbn [with_idx st_idx]. by rewrite Ed.
Qed.

(** The slices of a plan made in [s], read one by one from stores where the
    file is still in place. *)
Lemma wp_staged_slices s inode fill off n p0 (Q : outcome bytes -> Store P S W -> Prop) plan :
  keeps_place inode fill -> in_u64 inode -> 0 <= off -> off + n < 2^63 -> n <= blen p0 ->
  (forall sl, sl ∈ plan -> off <= rs_LogicalOff sl /\ 0 < rs_Length sl /\
     rs_LogicalOff sl + rs_Length sl <= off + n /\ slice_kind s inode sl) ->
  (forall p' s2, in_place inode s s2 -> filled s inode off (off + n) p0 p' -> Q (Ok p') s2) ->
  (forall e s2, in_place inode s s2 -> Q (Err e) s2) ->
  forall lo p s1, in_place inode s s1 -> tiles plan lo (off + n) -> filled s inode off lo p0 p ->
  wp (mfold (fun p sl => let* _ := modify fill in read_slice inode off p sl) p plan) Q s1.
Proof.
  intros Hfill Hi Ho Hm Hp Hsl HO HE. induction plan as [|sl plan IH]; intros lo p s1 Hpl Ht Hf; cbn [mfold].
  { cbn in Ht. subst lo. wp_step. by apply HO. }
  destruct Ht as (<- & Hlen & Ht). destruct (Hsl sl ltac:(left)) as (H1 & H2 & H3 & H4). wp_step. wp_step. wp_step.
  apply Hfill in Hpl. set (s2 := fill s1) in *. pose proof Hpl as [_ _ _ (ph & Hst)].
  apply (wp_read_slice s2 s2 ph inode off n p0); try done.
  - by eapply store_exts_ok.
  - exists (st_idx s2). rewrite with_idx_id. split; [done|apply kept_clean_refl, Hst].
  - by eapply in_place_kind.
  - by apply (in_place_filled inode s).
  - intros p' s3 Hr Hf' _. apply (only_read_in_place inode s2 s3 ph) in Hr; [|done..].
    eapply IH; [|by eapply in_place_trans|done|by apply (in_place_filled inode s s2)].
    intros sl' Hin. apply Hsl. by right.
  - intros e s3 Hr. apply HE. eapply in_place_trans; [done|]. by eapply only_read_in_place.
Qed.

(** C10: a read that is interrupted returns the file it started on.  Whatever
    runs between its critical sections, as long as it leaves the fragments, the
    extents and the bytes of this file in place: a read that succeeds has the
    count and the bytes of an undisturbed one. *)
Theorem staged_read_returns_file s ph inode off p scan fill :
  store_ok s ph -> in_u64 inode -> iter_complete (ix_db (st_idx s)) ->
  0 <= off -> off + blen p <= 2^32 * ix_stripeSize (st_idx s) ->
  keeps_place inode scan -> keeps_place inode fill ->
  read_result s inode off p (ReadAt_staged scan fill inode p off s).1.
Proof.
  intros Hst Hi Hcomp Ho Hend Hscan Hfill. pose proof Hst as (Hok & _).
  pose proof Hok as ((Hs1 & Hs2) & [Hss Hss'] & _).
  assert (wp (ReadAt_staged scan fill inode p off) (fun r _ => read_result s inode off p r) s) as H; [|exact H].
  unfold ReadAt_staged. destruct p as [|b0 r0] eqn:Ep.
  { wp_step. split_and!; [done|by left|lia|done]. }
  rewrite <-Ep in *. assert (0 < blen p) as Hp by (rewrite Ep, blen_cons; pose proof (blen_nonneg r0); lia).
  assert (off + blen p < 2^63) as Hm by nia. wp_step. apply wp_Stat_value; [|done].
  intros node Hnode. destruct (Z.leb_spec (nd_Size node) off) as [Hz|Hz].
  { wp_step. unfold read_result, read_count. split_and!; [done| |lia|done]. right. exists node. split; [done|]. lia. }
  rewrite (i64_id (off + blen p)) by (unfold in_i64; lia).
  set (n := if nd_Size node <? off + blen p then i64 (nd_Size node - off) else blen p).
  assert (n = read_count (nd_Size node) off (blen p) /\ 0 < n <= blen p) as [En Hn].
  { unfold n, read_count. destruct (Z.ltb_spec (nd_Size node) (off + blen p)); [rewrite i64_id by (unfold in_i64; lia)|]; lia. }
  rewrite !(proj2 (Z.ltb_ge _ _)) by lia. cbn [orb]. wp_step.
  apply (wp_FragmentsInRange s ph inode off n); try done; [lia|lia|]. intros dfs [Hd Hnew].
  wp_step. wp_step. wp_step. wp_step. wp_step.
  pose proof (Hscan s s (in_place_refl inode s ph Hst)) as Hpl. set (s1 := scan s) in *.
  pose proof Hpl as [F _ _ (ph1 & Hst1)].
  assert (forall f, f ∈ dfs -> frag_in (disk s1) inode f) as Hd1 by (intros f Hf; by apply F, Hd).
  assert (read_frags s1 inode off n dfs) as Hdf1.
  { split; [done|]. intros x Hx. rewrite Hnew by done. symmetry. by apply (in_place_newest inode s s1). }
  pose proof (store_exts_ok s1 ph1 inode Hst1) as Hx1.
  assert (Forall fragment_ok (dfs ++ mem_frags inode off n s1)) as Hfo by (apply (combined_ok s1 ph1); done || lia).
  apply (wp_staged_slices s1 inode fill off n p) with (lo := off); try done; try lia.
  - intros sl Hsl. apply (plan_kinds s1 ph1 inode off n dfs); try done; lia.
  - intros p' s2 _ Hf2%(in_place_filled inode s s1); [|done]. destruct Hf2 as (F1 & F2 & F3). wp_step.
    split_and!; [done| | |].
    + right. by exists node.
    + intros i Hi'. rewrite <-(F2 (off + i)) by lia. f_equal. lia.
    + intros i Hi1 Hi2. apply F3; lia.
  - by eapply in_place_refl.
  - unfold PlanRead, planRead. rewrite (proj2 (Z.leb_gt n 0)) by lia.
    apply (plan_sorted_tiles (dfs ++ mem_frags inode off n s1)); auto using sort_desc_perm, sort_desc_sorted; lia.
  - split_and!; [done|lia|]. intros i Hi0 _. done.
Qed.

(** ** What keeps a file in place *)

Lemma keeps_place_wp {A} inode (m : M (Store P S W) A) :
  (forall s ph, store_ok s ph -> wp m (fun _ s' => in_place inode s s') s) ->
  keeps_place inode (fun s => (m s).2).
Proof.
  intros Hm s s' Hp. pose proof Hp as [_ _ _ (ph & Hst)]. eapply in_place_trans; [done|]. exact (Hm s' ph Hst).
Qed.

Lemma keeps_place_compose inode h1 h2 : keeps_place inode h1 -> keeps_place inode h2 -> keeps_place inode (fun s => h2 (h1 s)).
Proof. intros H1' H2' s s' Hp. by apply H2', H1'. Qed.

(** A collection: what the plan points at is referenced. *)
Lemma gc_keeps_place inode : in_u64 inode -> keeps_place inode (fun s => (on_idx GC s).2).
Proof.
  intros Hi. apply keeps_place_wp. intros s ph Hst. pose proof Hst as (Hok & Hcl & Hq & _).
  apply wp_on_idx. eapply wp_mono; [by apply wp_GC|]. intros r ix [Hsw Hc].
  pose proof (swept_unchanged _ _ Hok Hsw) as Hun. pose proof Hsw as (_ & Hcl1 & Ed & _ & Eq & _).
  split; [intros f; unfold disk; cbn [with_idx st_idx]; by rewrite Ed|intros x; by apply Hun|done|].
  exists ph. apply engine_same_file; [done|by apply Hun|done|by rewrite Eq|]. intros i Hi'. by eapply swept_same_file.
Qed.

(** A write to another file, within the bounds of the engine. *)
Definition write_elsewhere (j off : Z) (data : bytes) (tier : Z) s : Store P S W :=
  if (ix_seqGen (st_idx s) + blen data <? 2^62) && (off + blen data <=? 2^32 * ix_stripeSize (st_idx s))
  then (co_Write j off data tier s).2 else s.

Lemma write_keeps_place inode j off data tier :
  j <> inode -> in_u64 inode -> in_u64 j -> bytes_ok data -> (tier = TierHot \/ tier = TierCold) -> 0 <= off ->
  keeps_place inode (write_elsewhere j off data tier).
Proof.
  intros Hne Hi Hj Hb Ht Ho s s' Hp. unfold write_elsewhere.
  destruct (Z.ltb_spec (ix_seqGen (st_idx s') + blen data) (2^62)) as [Hq|]; [|done].
  destruct (Z.leb_spec (off + blen data) (2^32 * ix_stripeSize (st_idx s'))) as [He|]; [|done].
  pose proof Hp as [_ _ _ (ph & Hst)]. eapply in_place_trans; [done|].
  assert (forall s2, store_ok s2 ph -> disk_same s' s2 -> others_buffered s' s2 j -> in_place inode s' s2) as Hs.
  { intros s2 Hst2 [(n & _ & Hix) _] Hob. split; [|intros x|apply Hob; congruence|by exists ph].
    - intros f. unfold disk. by rewrite Hix.
    - by rewrite Hix. }
  apply (wp_co_Write j off data tier s' ph (fun _ s2 => in_place inode s' s2)); [done..| |]; intros; by apply Hs.
Qed.

End Staged.

(** ** The example *)

#[local] Existing Instance insertion_order.

(** A collection and a write to another file in the middle of the read of a
    file half on disk, half in the buffer. *)
Definition ex_scan : St -> St := write_elsewhere 3 0 [9; 9] TierHot.
Definition ex_fill (s : St) : St := (on_idx GC s).2.

Example ex_staged : (ReadAt_staged ex_scan ex_fill 2 ex_buffer 2 ex_a6).1 = Ok (6, [1; 2; 99; 4; 5; 6]).
Proof. by vm_compute. Qed.

Lemma ex_a6_ok : store_ok ex_a6 (delete 2 ex_ph3).
Proof. exact (proj1 (steps_ok _ _ _ ex_steps (ar_ok _ _ _ ex_s2_rest))). Qed.

Lemma staged_read_returns_file_witness :
  let '(r, _) := ReadAt_staged ex_scan ex_fill 2 ex_buffer 2 ex_a6 in
  r = Ok (6, [1; 2; 99; 4; 5; 6]) /\ read_result ex_a6 2 2 ex_buffer r.
Proof.
  pose proof (staged_read_returns_file ex_a6 (delete 2 ex_ph3) 2 2 ex_buffer ex_scan ex_fill ex_a6_ok
    ltac:(done) (ex_complete _) ltac:(done) ltac:(by vm_compute)
    (write_keeps_place 2 3 0 [9; 9] TierHot ltac:(done) ltac:(done) ltac:(done) ltac:(by apply bytes_ok_dec) ltac:(by left) ltac:(done))
    (gc_keeps_place 2 ltac:(done))) as H.
  destruct (ReadAt_staged ex_scan ex_fill 2 ex_buffer 2 ex_a6) as [r s'] eqn:E. split; [|exact H].
  apply (f_equal fst) in E. vm_compute in E. exact (eq_sym E).
Defined.

