(* ===== verification/Mover.v ===== *)
(** * The background mover (src/mover/mover.go)

    A pass evicts stripes from the hot tier when it is over its cap, then
    collects garbage; errors lengthen the pause before the next pass.  The
    clock and the cancellation of the context are streams of readings.  The
    logger has no effect here. *)

From S2P Require Import Prelude Keys Kv Fragment Plan Segment Layer Index.

(** ** Go's float64, as far as a default needs it *)

(** [n / 2^k] to the nearest integer, ties to even. *)
Definition shift_even (n k : Z) : Z :=
  let q := Z.shiftr n k in
  let r := n - Z.shiftl q k in
  let half := Z.shiftl 1 (k - 1) in
  if (half <? r) || ((r =? half) && Z.odd q) then q + 1 else q.

(** A positive number rounded to 53 significant bits. *)
Definition round53 (n : Z) : Z :=
  let k := Z.log2 n - 52 in
  if k <=? 0 then n else Z.shiftl (shift_even n k) k.

(** 0.8 as a float64 is [0.8_mantissa / 2^53]. *)
Definition mantissa_08 : Z := 7205759403792794.

(** [int64(float64(n) * 0.8)] for a positive [n]. *)
Definition mul_08 (n : Z) : Z := Z.shiftr (round53 (round53 n * mantissa_08)) 53.

(** ** Configuration *)

Record MoverConfig : Type := mkMoverConfig {
  mc_HotMaxBytes : Z;
  mc_HotTargetBytes : Z;
  mc_Tick : Z;
  mc_MaxBackoff : Z;
}.

(** The defaults of [Start]. *)
Definition start_config (c : MoverConfig) : MoverConfig :=
  mkMoverConfig (mc_HotMaxBytes c)
    (if (mc_HotTargetBytes c =? 0) && (0 <? mc_HotMaxBytes c) then mul_08 (mc_HotMaxBytes c) else mc_HotTargetBytes c)
    (if mc_Tick c =? 0 then 30000000000 else mc_Tick c)
    (if mc_MaxBackoff c =? 0 then 300000000000 else mc_MaxBackoff c).

(** The loop of [backoff], [consec] bounding its rounds. *)
Fixpoint double_until (consec : nat) (d max : Z) : Z :=
  match consec with
  | O => d
  | Datatypes.S consec => if d <? max then double_until consec (i64 (d * 2)) max else d
  end.

Definition backoff (base max consec : Z) : Z :=
  if consec <=? 0 then base
  else
    let d := double_until (Z.to_nat consec) base max in
    if max <? d then max else d.

(** ** State *)

Record Stats : Type := mkStats {
  sa_EvictRuns : Z;
  sa_GCRuns : Z;
  sa_MovesOK : Z;
  sa_MoveFailures : Z;
  sa_BytesMoved : Z;
  sa_ConsecutiveErrs : Z;
  sa_LastTickUnix : Z;
  sa_LastErrorUnix : Z;
  sa_MoveDurationNanos : Z;
  sa_GCDurationNanos : Z;
}.

Definition zero_stats : Stats := mkStats 0 0 0 0 0 0 0 0 0 0.

Definition count_evict (s : Stats) : Stats :=
  mkStats (i64 (sa_EvictRuns s + 1)) (sa_GCRuns s) (sa_MovesOK s) (sa_MoveFailures s) (sa_BytesMoved s)
    (sa_ConsecutiveErrs s) (sa_LastTickUnix s) (sa_LastErrorUnix s) (sa_MoveDurationNanos s) (sa_GCDurationNanos s).
Definition count_gc (s : Stats) : Stats :=
  mkStats (sa_EvictRuns s) (i64 (sa_GCRuns s + 1)) (sa_MovesOK s) (sa_MoveFailures s) (sa_BytesMoved s)
    (sa_ConsecutiveErrs s) (sa_LastTickUnix s) (sa_LastErrorUnix s) (sa_MoveDurationNanos s) (sa_GCDurationNanos s).
Definition count_gc_time (d : Z) (s : Stats) : Stats :=
  mkStats (sa_EvictRuns s) (sa_GCRuns s) (sa_MovesOK s) (sa_MoveFailures s) (sa_BytesMoved s)
    (sa_ConsecutiveErrs s) (sa_LastTickUnix s) (sa_LastErrorUnix s) (sa_MoveDurationNanos s)
    (i64 (sa_GCDurationNanos s + d)).
Definition count_failure (s : Stats) : Stats :=
  mkStats (sa_EvictRuns s) (sa_GCRuns s) (sa_MovesOK s) (i64 (sa_MoveFailures s + 1)) (sa_BytesMoved s)
    (sa_ConsecutiveErrs s) (sa_LastTickUnix s) (sa_LastErrorUnix s) (sa_MoveDurationNanos s) (sa_GCDurationNanos s).
Definition count_move (n d : Z) (s : Stats) : Stats :=
  mkStats (sa_EvictRuns s) (sa_GCRuns s) (i64 (sa_MovesOK s + 1)) (sa_MoveFailures s) (i64 (sa_BytesMoved s + n))
    (sa_ConsecutiveErrs s) (sa_LastTickUnix s) (sa_LastErrorUnix s) (i64 (sa_MoveDurationNanos s + d))
    (sa_GCDurationNanos s).
Definition mark_tick (t : Z) (s : Stats) : Stats :=
  mkStats (sa_EvictRuns s) (sa_GCRuns s) (sa_MovesOK s) (sa_MoveFailures s) (sa_BytesMoved s)
    (sa_ConsecutiveErrs s) t (sa_LastErrorUnix s) (sa_MoveDurationNanos s) (sa_GCDurationNanos s).
Definition mark_error (t : Z) (s : Stats) : Stats :=
  mkStats (sa_EvictRuns s) (sa_GCRuns s) (sa_MovesOK s) (sa_MoveFailures s) (sa_BytesMoved s)
    (sa_ConsecutiveErrs s) (sa_LastTickUnix s) t (sa_MoveDurationNanos s) (sa_GCDurationNanos s).
Definition set_consec (n : Z) (s : Stats) : Stats :=
  mkStats (sa_EvictRuns s) (sa_GCRuns s) (sa_MovesOK s) (sa_MoveFailures s) (sa_BytesMoved s)
    n (sa_LastTickUnix s) (sa_LastErrorUnix s) (sa_MoveDurationNanos s) (sa_GCDurationNanos s).

Record cand : Type := mkCand { ca_inode : Z; ca_stripeID : Z; ca_hotBytes : Z }.

(** [ctx.Err()] of a cancelled context. *)
Definition Canceled : error := ErrMsg "context canceled".

Section Mover.
Context {P S : Type} `{Pebble P} `{SegLayer S} `{MapRange}.

Record Mover : Type := mkMover {
  mv_index : Index P S;
  mv_stats : Stats;
  mv_clock : nat -> Z;       (* nanoseconds, the readings still to come *)
  mv_cancel : nat -> bool;   (* whether the context is done, at each look *)
}.

Definition with_index (ix : Index P S) (m : Mover) : Mover := mkMover ix (mv_stats m) (mv_clock m) (mv_cancel m).
Definition with_stats (f : Stats -> Stats) (m : Mover) : Mover :=
  mkMover (mv_index m) (f (mv_stats m)) (mv_clock m) (mv_cancel m).

Definition on_mover {A} (m : M (Index P S) A) : M Mover A := zoom mv_index with_index m.

Definition count (f : Stats -> Stats) : M Mover unit := modify (with_stats f).

Definition now : M Mover Z := fun m =>
  (Ok (mv_clock m 0), mkMover (mv_index m) (mv_stats m) (fun n => mv_clock m (Datatypes.S n)) (mv_cancel m)).

(** [background] is a context that is never done. *)
Definition ctx_done (background : bool) : M Mover bool := fun m =>
  if background then (Ok false, m)
  else (Ok (mv_cancel m 0), mkMover (mv_index m) (mv_stats m) (mv_clock m) (fun n => mv_cancel m (Datatypes.S n))).

Definition unix (nanos : Z) : Z := nanos / 1000000000.

(** ** Eviction *)

(** The callback of [IterStripes]: candidates until twice the excess is queued. *)
Definition select_cand (want : Z) (s : StripeInfo) (t : list cand * Z) : bool * (list cand * Z) :=
  if si_HotBytes s =? 0 then (true, t)
  else
    let queued := i64 (t.2 + si_HotBytes s) in
    (queued <? i64 (want * 2), (t.1 ++ [mkCand (si_Inode s) (si_StripeID s) (si_HotBytes s)], queued)).

Fixpoint evict_loop (background : bool) (target : Z) (cands : list cand) : M Mover unit :=
  match cands with
  | [] => ret tt
  | c :: cands =>
      let* d := ctx_done background in
      if d : bool then throw Canceled
      else
        let* m := get in
        if HotUsedBytes (mv_index m) <=? target then ret tt
        else
          let* start := now in
          let* r := try (on_mover (Move (ca_inode c) (ca_stripeID c) TierCold)) in
          match r with
          | Ok _ =>
              let* fin := now in
              let* _ := count (count_move (ca_hotBytes c) (i64 (fin - start))) in
              evict_loop background target cands
          | Err _ => let* _ := count count_failure in evict_loop background target cands
          | Panic => panic
          end
  end.

Definition evictOnce (cfg : MoverConfig) (background : bool) : M Mover unit :=
  let* _ := count count_evict in
  if mc_HotMaxBytes cfg <=? 0 then ret tt
  else
    let* m := get in
    let used := HotUsedBytes (mv_index m) in
    if used <=? mc_HotMaxBytes cfg then ret tt
    else
      let want := i64 (used - mc_HotTargetBytes cfg) in
      let* t := on_mover (IterStripes (select_cand want) ([], 0)) in
      evict_loop background (mc_HotTargetBytes cfg) t.1.

Definition gcOnce : M Mover unit :=
  let* _ := count count_gc in
  let* start := now in
  let* r := try (on_mover GC) in
  match r with
  | Panic => panic
  | _ =>
      let* fin := now in
      let* _ := count (count_gc_time (i64 (fin - start))) in
      of_outcome r
  end.

Definition RunOnce (cfg : MoverConfig) : M Mover unit :=
  let* _ := evictOnce cfg true in gcOnce.

(** ** The loop *)

(** The collection that follows an eviction, and the next pause. *)
Definition finish_round (cfg : MoverConfig) (hadErr : bool) : M Mover Z :=
  let* g := try gcOnce in
  match g with
  | Panic => panic
  | _ =>
      let hadErr := hadErr || negb (is_ok g) in
      let* t := now in
      let* _ := count (mark_tick (unix t)) in
      if hadErr then
        let* m := get in
        let c := i64 (sa_ConsecutiveErrs (mv_stats m) + 1) in
        let* _ := count (set_consec c) in
        let* t := now in
        let* _ := count (mark_error (unix t)) in
        ret (backoff (mc_Tick cfg) (mc_MaxBackoff cfg) c)
      else
        let* _ := count (set_consec 0) in
        ret (mc_Tick cfg)
  end.

(** One round after the pause: the next pause, or [None] when the loop ends. *)
Definition loop_round (cfg : MoverConfig) : M Mover (option Z) :=
  let* r := try (evictOnce cfg false) in
  match r with
  | Ok _ => let* d := finish_round cfg false in ret (Some d)
  | Err _ =>
      let* d := ctx_done false in
      if d : bool then ret None else let* d := finish_round cfg true in ret (Some d)
  | Panic => panic
  end.

(** [loop], for at most [fuel] rounds: whether it has returned by then. *)
Fixpoint loop (fuel : nat) (cfg : MoverConfig) : M Mover bool :=
  match fuel with
  | O => ret false
  | Datatypes.S fuel =>
      let* d := ctx_done false in
      if d : bool then ret true
      else
        let* next := loop_round cfg in
        match next with Some _ => loop fuel cfg | None => ret true end
  end.
End Mover.
Arguments Mover P S : clear implicits.
