(* ===== verification/MoverSpec.v ===== *)
(** * The mover: a pass changes no file

    Backing off doubles the pause up to its bound.  A pass whose moves succeed
    changes no byte of any file, and leaves only referenced segments.  It does
    not watch its own progress: usage is the size of the segments, which moving
    does not shrink. *)

From S2P Require Import Prelude Keys Kv Fragment Plan Segment Layer SegmentSet Index IndexSpec IndexRead IndexAppend IndexMaint IndexMove IndexIter IndexGC Mover.

(** ** Backing off *)

Lemma double_until_spec n : forall d max, 0 < d -> max <= 2^62 ->
  Z.min max (double_until n d max) = Z.min max (d * 2 ^ Z.of_nat n).
Proof.
  induction n as [|n IH]; intros d max Hd Hm; cbn [double_until]; [by rewrite Z.mul_1_r|].
  assert (0 < 2 ^ Z.of_nat n) by lia.
  replace (2 ^ Z.of_nat (Datatypes.S n)) with (2 * 2 ^ Z.of_nat n) by (rewrite Nat2Z.inj_succ, Z.pow_succ_r; lia).
  destruct (Z.ltb_spec d max).
  - rewrite i64_id by (unfold in_i64; lia). rewrite IH by lia. f_equal. lia.
  - nia.
Qed.

(** the pause after [consec] failing rounds in a row is the tick doubled
    as many times, cut at the bound; without a failure it is the tick.  When
    the tick itself is above the bound, a failure shortens the pause. *)
Theorem backoff_doubles base max consec :
  0 < base -> max <= 2^62 -> 0 <= consec ->
  backoff base max consec = if consec =? 0 then base else Z.min max (base * 2 ^ consec).
Proof.
  intros Hb Hm Hc. unfold backoff. destruct (Z.leb_spec consec 0), (Z.eqb_spec consec 0); try lia.
  pose proof (double_until_spec (Z.to_nat consec) base max Hb Hm) as E. rewrite Z2Nat.id in E by lia. rewrite <-E.
  destruct (Z.ltb_spec max (double_until (Z.to_nat consec) base max)); lia.
Qed.

Lemma backoff_doubles_witness :
  0 < 30000000000 /\ backoff 30000000000 300000000000 3 = Z.min 300000000000 (30000000000 * 2 ^ 3).
Proof. split; [lia|]. exact (backoff_doubles 30000000000 300000000000 3 ltac:(lia) ltac:(lia) ltac:(lia)). Defined.

Section Mover.
Context {P : Type} {PB : Pebble P} {PL : PebbleLaws P}.
Context {S : Type} {SL : SegLayer S} {SLL : SegLayerLaws S} {MR : MapRange}.
Implicit Types ix : Index P S.
Implicit Types m : Mover P S.

(** ** Eviction *)

(** Files, stripe size and health are as before; the counter moved by at most [n]. *)
Definition same_index (n : Z) ix ix' : Prop :=
  index_ok ix' /\ sets_clean ix' /\ ix_stripeSize ix' = ix_stripeSize ix /\
  ix_seqGen ix <= ix_seqGen ix' <= ix_seqGen ix + n /\
  forall i x, in_u64 i -> content ix' i x = content ix i x.

Lemma same_index_refl n ix : index_ok ix -> sets_clean ix -> 0 <= n -> same_index n ix ix.
Proof. intros. split_and!; try done; lia. Qed.

Lemma same_index_trans a b ix1 ix2 ix3 : same_index a ix1 ix2 -> same_index b ix2 ix3 -> same_index (a + b) ix1 ix3.
Proof.
  intros (_ & _ & S1 & Q1 & C1) (O2 & L2 & S2 & Q2 & C2). split_and!; [done|done|congruence|lia|lia|].
  intros i x Hi. by rewrite C2, C1.
Qed.

Definition failures m : Z := sa_MoveFailures (mv_stats m).

(** No move failed and the files are as before, or a move has failed. *)
Definition evicted (n : Z) {A} m (r : outcome A) m' : Prop :=
  (failures m' = failures m /\ same_index n (mv_index m) (mv_index m') /\ r <> Panic) \/ failures m < failures m'.

Definition cand_ok (c : cand) : Prop := in_u64 (ca_inode c) /\ in_u32 (ca_stripeID c).

Lemma evict_loop_fails bg target cands : forall m, 0 <= failures m -> failures m + blen cands < 2^63 ->
  failures m <= failures (evict_loop bg target cands m).2.
Proof.
  induction cands as [|c cands IH]; intros m Hf Hlt; [cbn; lia|].
  rewrite blen_cons in Hlt. pose proof (blen_nonneg cands).
  cbn [evict_loop]. unfold bind at 1, ctx_done.
  assert (forall m1, failures m1 = failures m \/ failures m1 = failures m + 1 ->
    failures m <= failures (evict_loop bg target cands m1).2) as Hgo.
  { intros m1 H1. etrans; [|apply IH; lia]. lia. }
  assert (forall m1, failures m1 = failures m ->
    failures m <= failures ((let* m0 := get in
      if HotUsedBytes (mv_index m0) <=? target then ret tt
      else let* start := now in let* r := try (on_mover (Move (ca_inode c) (ca_stripeID c) TierCold)) in
        match r with
        | Ok _ => let* fin := now in let* _ := count (count_move (ca_hotBytes c) (i64 (fin - start))) in
            evict_loop bg target cands
        | Err _ => let* _ := count count_failure in evict_loop bg target cands
        | Panic => panic
        end) m1).2) as Hbody.
  { intros m1 H1. unfold bind at 1, get. destruct (_ <=? _); [unfold ret; cbn [snd]; lia|].
    unfold bind at 1, now at 1, bind at 1, try, on_mover, zoom. cbn [fst snd mv_index].
    destruct (Move _ _ _ _) as [[[]|e|] ix']; cbn [fst snd]; [| |change (failures m <= failures m1); lia].
    - unfold bind at 1, now, bind at 1, count, modify. apply Hgo. left. exact H1.
    - unfold bind at 1, count, modify. apply Hgo. right. cbn. unfold failures in *. cbn.
      rewrite i64_id by (unfold in_i64; lia). lia. }
  destruct bg; [by apply Hbody|]. destruct (mv_cancel m 0); [change (failures m <= failures m); lia|]. by apply Hbody.
Qed.

Lemma wp_evict_loop bg target cands : forall m,
  index_ok (mv_index m) -> sets_clean (mv_index m) -> Forall cand_ok cands ->
  0 <= failures m -> failures m + blen cands < 2^63 ->
  ix_seqGen (mv_index m) + ix_stripeSize (mv_index m) * blen cands < 2^64 ->
  wp (evict_loop bg target cands) (fun r m' => evicted (ix_stripeSize (mv_index m) * blen cands) m r m') m.
Proof.
  induction cands as [|c cands IH]; intros m Hok Hcl Hc Hf Hlt Hq.
  { cbn [evict_loop]. wp_step. left. split_and!; [done| |done]. apply same_index_refl; [done..|]. change (blen (@nil cand)) with 0. lia. }
  apply Forall_cons in Hc as [[Hi Hs] Hc]. rewrite blen_cons in *. pose proof (blen_nonneg cands).
  pose proof Hok as (_ & [Hss _] & [Hg _] & _). set (ss := ix_stripeSize (mv_index m)) in *.
  assert (0 <= ss * blen cands) by nia.
  assert (same_index (ss * (1 + blen cands)) (mv_index m) (mv_index m)) as Hid by (apply same_index_refl; [done..|nia]).
  assert (forall m1, mv_index m1 = mv_index m -> failures m1 = failures m ->
    wp (let* m0 := get in
      if HotUsedBytes (mv_index m0) <=? target then ret tt
      else let* start := now in let* r := try (on_mover (Move (ca_inode c) (ca_stripeID c) TierCold)) in
        match r with
        | Ok _ => let* fin := now in let* _ := count (count_move (ca_hotBytes c) (i64 (fin - start))) in
            evict_loop bg target cands
        | Err _ => let* _ := count count_failure in evict_loop bg target cands
        | Panic => panic
        end) (fun r m' => evicted (ss * (1 + blen cands)) m r m') m1) as Hbody.
  { intros m1 Hix Hfm. wp_step. apply wp_get. destruct (_ <=? _).
    { wp_step. left. rewrite Hix. by split_and!. }
    wp_step. unfold now at 1, wp at 1. cbn [fst snd]. wp_step. apply wp_try. unfold on_mover. apply wp_zoom. cbn [mv_index].
    rewrite Hix. apply wp_Move; [done|done|done|done|by right|nia| |].
    - intros ix' Hr Hcl' (Ess & Hsq & _). cbn [fst snd]. wp_step. unfold now at 1, wp at 1. cbn [fst snd].
      wp_step. unfold count at 1. wp_step.
      match goal with |- wp _ _ ?m2 => set (m3 := m2) end.
      assert (same_index ss (mv_index m) (mv_index m3)) as H1 by (destruct Hr as (? & _ & ? & _); split_and!; try done; change (mv_index m3) with ix'; lia).
      eapply wp_mono; [apply (IH m3); try done|].
      + by destruct Hr.
      + change (failures m3) with (failures m1). lia.
      + change (failures m3) with (failures m1). lia.
      + change (mv_index m3) with ix'. rewrite Ess. fold ss. destruct H1 as (_ & _ & _ & ? & _).
        change (mv_index m3) with ix' in *. nia.
      + intros r m' [(Ef & Hsame & Hp)|Hlt']; [left|right].
        * change (failures m3) with (failures m1) in Ef. split_and!; [congruence| |done].
          change (ix_stripeSize (mv_index m3)) with (ix_stripeSize ix') in Hsame. rewrite Ess in Hsame. fold ss in Hsame.
          replace (ss * (1 + blen cands)) with (ss + ss * blen cands) by lia. by eapply same_index_trans.
        * change (failures m3) with (failures m1) in Hlt'. lia.
    - intros e ix' _ _. cbn [fst snd]. wp_step. unfold count at 1. wp_step. unfold wp, evicted. right.
      match goal with |- context [evict_loop bg target cands ?m2] => set (m3 := m2) end.
      assert (failures m3 = failures m + 1) as E3.
      { unfold failures. cbn. unfold failures in *. rewrite Hfm. apply i64_id. unfold in_i64. lia. }
      pose proof (evict_loop_fails bg target cands m3). lia. }
  cbn [evict_loop]. wp_step. unfold ctx_done. destruct bg.
  - unfold wp at 1. cbn [fst snd]. by apply Hbody.
  - unfold wp at 1. cbn [fst snd]. destruct (mv_cancel m 0).
    + wp_step. left. by split_and!.
    + by apply Hbody.
Qed.

Lemma select_cand_ok want (g : group) t go t' :
  in_u64 g.1.1 -> in_u32 g.1.2 -> Forall cand_ok t.1 -> select_cand want (group_info g) t = (go, t') ->
  Forall cand_ok t'.1 /\ blen t'.1 <= blen t.1 + 1.
Proof.
  intros Hi Hs Ht. unfold select_cand. destruct (_ =? 0); intros [= <- <-]; [split; [done|lia]|]. cbn [fst].
  rewrite blen_app. split; [|done]. apply Forall_app. split; [done|]. by apply Forall_singleton.
Qed.

Lemma visit_select want (gs : list group) : forall t,
  Forall (fun g : group => in_u64 g.1.1 /\ in_u32 g.1.2) gs -> Forall cand_ok t.1 ->
  Forall cand_ok (visit (select_cand want) (group_info <$> gs) t).1 /\
  blen (visit (select_cand want) (group_info <$> gs) t).1 <= blen t.1 + blen gs.
Proof.
  induction gs as [|g gs IH]; intros t Hg Ht; [cbn; split; [done|change (blen (@nil group)) with 0; lia]|].
  apply Forall_cons in Hg as [[Hi Hs] Hg]. rewrite fmap_cons, blen_cons. cbn [visit]. pose proof (blen_nonneg gs).
  destruct (select_cand want (group_info g) t) as [go t'] eqn:E.
  destruct (select_cand_ok want g t go t') as [Ht' Hl]; [done..|].
  destruct go; [destruct (IH t' Hg Ht')|]; (split; [done|lia]).
Qed.

(** There are numbers left for every stripe. *)
Definition mover_room m : Prop :=
  index_ok (mv_index m) /\ sets_clean (mv_index m) /\ 0 <= failures m /\
  failures m + Z.of_nat (size (contents (ix_db (mv_index m)))) < 2^63 /\
  ix_seqGen (mv_index m) + ix_stripeSize (mv_index m) * Z.of_nat (size (contents (ix_db (mv_index m)))) < 2^64.

(** The hot tier is within its cap, or eviction is off. *)
Definition no_pressure (cfg : MoverConfig) m : Prop :=
  mc_HotMaxBytes cfg <= 0 \/ HotUsedBytes (mv_index m) <= mc_HotMaxBytes cfg.

Lemma wp_evictOnce cfg bg m :
  mover_room m ->
  wp (evictOnce cfg bg) (fun r m' => (exists n, evicted n m r m') /\
    (no_pressure cfg m -> r = Ok tt /\ mv_index m' = mv_index m)) m.
Proof.
  intros (Hok & Hcl & Hf & Hlt & Hq). unfold evictOnce, no_pressure. wp_step. unfold count. wp_step.
  set (m1 := with_stats count_evict m). pose proof Hok as (_ & [Hss _] & _).
  assert (evicted 0 m (Ok tt) m1) as Hid by (left; split_and!; [done|by apply same_index_refl|done]).
  destruct (Z.leb_spec (mc_HotMaxBytes cfg) 0); [wp_step; split; eauto|].
  wp_step. apply wp_get. change (HotUsedBytes (mv_index m1)) with (HotUsedBytes (mv_index m)).
  destruct (Z.leb_spec (HotUsedBytes (mv_index m)) (mc_HotMaxBytes cfg)); [wp_step; split; eauto|].
  wp_step. unfold on_mover. apply wp_zoom. change (mv_index m1) with (mv_index m). apply wp_IterStripes; [done| |].
  - intros gs (_ & Hgs & Hlen) _. change (with_index (mv_index m) m1) with m1.
    set (t := visit _ _ _). destruct (visit_select (i64 (HotUsedBytes (mv_index m) - mc_HotTargetBytes cfg)) gs ([], 0)) as [Hc Hl];
      [apply Forall_forall; intros g Hg; by destruct (Hgs g Hg) as (? & ? & _)|done|].
    fold t in Hc, Hl. change (blen (@nil cand, 0).1) with 0 in Hl. pose proof (blen_nonneg t.1).
    assert (blen gs <= Z.of_nat (size (contents (ix_db (mv_index m))))) by (unfold blen; lia).
    eapply wp_mono; [apply (wp_evict_loop bg _ t.1 m1); try done|].
    + change (failures m1) with (failures m). lia.
    + change (mv_index m1) with (mv_index m). nia.
    + intros r m' He. split; [by eexists|]. lia.
  - intros e. split; [|lia]. exists 0. left. change (with_index (mv_index m) m1) with m1.
    split_and!; [done|by apply same_index_refl|done].
Qed.

(** Every segment left holds bytes of a live fragment or is the active one. *)
Definition no_garbage ix : Prop :=
  forall cold id, is_Some (lv_data (set_of cold ix) !! id) ->
    referenced (contents (ix_db ix)) cold id \/ sl_active_id (set_of cold ix) = Some id.

Lemma wp_gcOnce m :
  index_ok (mv_index m) -> sets_clean (mv_index m) ->
  wp gcOnce (fun r m' => failures m' = failures m /\ same_index 0 (mv_index m) (mv_index m') /\ r <> Panic /\
    (r = Ok tt -> no_garbage (mv_index m'))) m.
Proof.
  intros Hok Hcl. unfold gcOnce, count. wp_step. wp_step. wp_step. unfold now at 1, wp at 1. cbn [fst snd].
  wp_step. apply wp_try. unfold on_mover. apply wp_zoom. cbn [mv_index with_stats].
  eapply wp_mono; [by apply wp_GC|]. intros r ix' [Hsw Hc].
  pose proof (swept_unchanged _ _ Hok Hsw) as (Hok' & Hd & Hx). pose proof Hsw as (_ & Hcl' & Ed & Es & Eq & Ha).
  assert (same_index 0 (mv_index m) ix') as Hsame by (split_and!; try done; lia).
  assert (r = Ok tt -> no_garbage ix') as Hg.
  { intros -> cold id Hl. rewrite Hd. destruct (Ha cold) as [-> _]. by apply Hc. }
  destruct r as [[]|e|]; [..|done]; cbn [fst snd]; wp_step; unfold now at 1, wp at 1; cbn [fst snd]; wp_step; wp_step; wp_step;
    (split_and!; [done|done|done|exact Hg]).
Qed.

Lemma gc_failures m : failures (gcOnce m).2 = failures m.
Proof.
  unfold gcOnce, bind, count, modify, now, try, on_mover, zoom. cbn [fst snd mv_index with_stats].
  by destruct (GC _) as [[[]|e|] ix'].
Qed.


(** ** Stopping *)

(** [m'] comes after [m] has looked at its context some more times. *)
Definition looks m m' : Prop := exists d, forall n, mv_cancel m' n = mv_cancel m (d + n)%nat.

Lemma looks_refl m : looks m m.
Proof. by exists O. Qed.

Lemma looks_trans m1 m2 m3 : looks m1 m2 -> looks m2 m3 -> looks m1 m3.
Proof. intros [d1 H1] [d2 H2]. exists (d1 + d2)%nat. intros n. rewrite H2, H1. f_equal. lia. Qed.

Lemma looks_same m m' : mv_cancel m' = mv_cancel m -> looks m m'.
Proof. intros E. exists O. intros n. by rewrite E. Qed.

(** Code that only looks. *)
Definition looking {A} (c : M (Mover P S) A) : Prop := forall m, looks m (c m).2.

Lemma looking_bind {A B} (c : M (Mover P S) A) (k : A -> M (Mover P S) B) :
  looking c -> (forall a, looking (k a)) -> looking (bind c k).
Proof.
  intros Hc Hk m. unfold bind. specialize (Hc m). destruct (c m) as [[a|e|] m1]; cbn [snd] in *; [|done..].
  eapply looks_trans; [exact Hc|apply Hk].
Qed.

Lemma looking_ret {A} (a : A) : looking (ret a).
Proof. intros m. apply looks_refl. Qed.
Lemma looking_throw {A} e : looking (throw e : M (Mover P S) A).
Proof. intros m. apply looks_refl. Qed.
Lemma looking_panic {A} : looking (panic : M (Mover P S) A).
Proof. intros m. apply looks_refl. Qed.
Lemma looking_of_outcome {A} (r : outcome A) : looking (of_outcome r).
Proof. intros m. apply looks_refl. Qed.
Lemma looking_get : looking get.
Proof. intros m. apply looks_refl. Qed.
Lemma looking_now : looking now.
Proof. intros m. by apply looks_same. Qed.
Lemma looking_count f : looking (count f).
Proof. intros m. by apply looks_same. Qed.
Lemma looking_on_mover {A} (c : M (Index P S) A) : looking (on_mover c).
Proof. intros m. unfold on_mover, zoom. destruct (c (mv_index m)). by apply looks_same. Qed.
Lemma looking_ctx_done b : looking (ctx_done b).
Proof. intros m. unfold ctx_done. destruct b; [apply looks_refl|]. by exists 1%nat. Qed.
Lemma looking_try {A} (c : M (Mover P S) A) : looking c -> looking (try c).
Proof. intros Hc m. unfold try. specialize (Hc m). by destruct (c m) as [[a|e|] m1]. Qed.

Ltac looking_step :=
  first
    [ apply looking_bind; [|intros ?] | apply looking_ret | apply looking_throw | apply looking_panic
    | apply looking_of_outcome | apply looking_get | apply looking_now | apply looking_count
    | apply looking_on_mover | apply looking_ctx_done | apply looking_try
    | progress cbv zeta
    | match goal with |- looking (match ?x with _ => _ end) => destruct x end ].
Ltac looking := repeat looking_step.

Lemma looking_evict_loop bg target cands : looking (evict_loop bg target cands).
Proof. induction cands as [|c cands IH]; cbn [evict_loop]; looking; done. Qed.

Lemma looking_evictOnce cfg bg : looking (evictOnce cfg bg).
Proof. unfold evictOnce. repeat first [apply looking_evict_loop|looking_step]. Qed.

Lemma looking_gcOnce : looking gcOnce.
Proof. unfold gcOnce. looking. Qed.

Lemma looking_finish_round cfg h : looking (finish_round cfg h).
Proof. unfold finish_round. repeat first [apply looking_gcOnce|looking_step]. Qed.

Lemma looking_loop_round cfg : looking (loop_round cfg).
Proof. unfold loop_round. repeat first [apply looking_evictOnce|apply looking_finish_round|looking_step]. Qed.

(** A round ends in a pause, in the end of the loop or in a panic. *)
Lemma finish_round_ok cfg h m e m' : finish_round cfg h m <> (Err e, m').
Proof.
  unfold finish_round, bind at 1, try. destruct (gcOnce m) as [[[]|e'|] m3]; [| |done];
    unfold bind, now, count, modify; destruct (h || _); done.
Qed.

Lemma loop_round_ok cfg m e m' : loop_round cfg m <> (Err e, m').
Proof.
  unfold loop_round, bind at 1, try. destruct (evictOnce cfg false m) as [[[]|e'|] m1]; [| |done].
  - unfold bind. pose proof (finish_round_ok cfg false m1) as Hn. by destruct (finish_round cfg false m1) as [[d|x|] m2]; [|by destruct (Hn x m2)|].
  - unfold bind at 1, ctx_done. destruct (mv_cancel m1 0); [done|]. set (m3 := mkMover _ _ _ _).
    unfold bind. pose proof (finish_round_ok cfg true m3) as Hn. by destruct (finish_round cfg true m3) as [[d|x|] m2]; [|by destruct (Hn x m2)|].
Qed.

End Mover.
