(* ===== verification/MoverExamples.v ===== *)
(** * The mover at work *)

From S2P Require Import Prelude Keys Kv Fragment Plan Segment Layer SegmentSet Index IndexSpec IndexRead IndexAppend IndexMaint IndexMove IndexIter IndexGC IndexRecover IndexExamples Mover MoverSpec.

#[local] Existing Instance insertion_order.

(** Four stripes of eight bytes, all on the hot tier. *)
Definition ex_hot : Ix := (AppendToWithTxCtx 7 0 (Z.of_nat <$> seq 0 32) TierHot None ex_ix0).2.
Definition ex_mover : Mover MemDB SetSt := mkMover ex_hot zero_stats (fun n => Z.of_nat n) (fun _ => false).

Definition ex_cfg : MoverConfig := mkMoverConfig 207 192 30000000000 300000000000.

Lemma ex_hot_ok : index_ok ex_hot /\ sets_clean ex_hot.
Proof.
  destruct ex_ix0_ok as [Hok Hcl]. unfold ex_hot.
  assert (wp (AppendToWithTxCtx 7 0 (Z.of_nat <$> seq 0 32) TierHot None)
    (fun r ix' => match r with Ok _ => index_ok ix' /\ sets_clean ix' | Err _ => True | Panic => False end)
    ex_ix0) as H.
  { apply wp_AppendToWithTxCtx; try done; [by apply bytes_ok_dec|by left|].
    intros ix' (Hok' & _) Hc' _. by split. }
  unfold wp in H. destruct (AppendToWithTxCtx 7 0 (Z.of_nat <$> seq 0 32) TierHot None ex_ix0) as [r ix'] eqn:E.
  cbn [fst snd] in *. by run_to_ok E.
Qed.

Lemma ex_mover_room : mover_room ex_mover.
Proof. split_and!; [apply ex_hot_ok|apply ex_hot_ok|by vm_compute..]. Qed.


Lemma IterStripes_visits_witness :
  let '(r, ix') := IterStripes (select_cand 16) ([], 0) ex_hot in
  ix' = ex_hot /\ r = Ok ([mkCand 7 0 8; mkCand 7 1 8; mkCand 7 2 8; mkCand 7 3 8], 32).
Proof.
  pose proof (IterStripes_visits (select_cand 16) ([], 0) ex_hot (proj1 ex_hot_ok)) as H.
  destruct (IterStripes (select_cand 16) ([], 0) ex_hot) as [r ix'] eqn:E.
  split; [exact (proj1 H)|]. apply (f_equal fst) in E. vm_compute in E. by rewrite <-E.
Defined.


(** eviction does not stop at its target.  Moving a stripe leaves its old
    bytes in the hot segments until the collector runs, so the usage the loop
    looks at never falls: of 208 hot bytes, with a target of 192, every one of
    the four stripes is moved, although one would have been enough. *)
Theorem evict_ignores_target :
  HotUsedBytes ex_hot = 208 /\
  let '(r, m') := evictOnce ex_cfg true ex_mover in
  r = Ok tt /\ sa_MovesOK (mv_stats m') = 4 /\ HotUsedBytes (mv_index m') = 208.
Proof.
  split; [by vm_compute|]. destruct (evictOnce ex_cfg true ex_mover) as [r m'] eqn:E.
  assert (m' = (evictOnce ex_cfg true ex_mover).2) as -> by by rewrite E.
  apply (f_equal fst) in E. vm_compute in E. split; [done|]. split; by vm_compute.
Qed.
