(* ===== verification/Migrate.v ===== *)
(** * The migration from the legacy database (src/kv/migrate.go)

    The first versions kept their metadata in a bbolt file.  [MigrateFromBolt]
    copies its buckets into the Pebble keyspace in synced batches and renames
    the file; the index runs it before it opens its database (index.go, [Open]).

    bbolt is not part of the repository: the class [Bolt] is its read side, a
    bucket being the pairs [ForEach] visits, in key order.  System calls fail
    as a stream of faults says; a failing call may still have had its effect.

    [legacy] is what a migration should copy: the relation between the keys
    and values of the new database and the buckets of the old file. *)

From S2P Require Import Prelude Keys Kv.

Class Bolt (B : Type) := {
  (** [tx.Bucket(name)] with what [ForEach] yields. *)
  bolt_bucket : B -> bytes -> option (list (bytes * bytes));
}.

Class BoltLaws (B : Type) `{Bolt B} := {
  bolt_sorted : forall b n l, bolt_bucket b n = Some l -> StronglySorted key_before l;
  bolt_bytes : forall b n l k v, bolt_bucket b n = Some l -> (k, v) ∈ l -> bytes_ok k;
}.

(** [Bucket.Get]. *)
Definition bolt_get (l : list (bytes * bytes)) (k : bytes) : option bytes :=
  (fun p => p.2.2) <$> list_find (fun kv => kv.1 = k) l.

(** [pebble.Open] on a directory without a database. *)
Class PebbleCreate (P : Type) `{PebbleLaws P} := {
  peb_create : P;
  peb_create_empty : contents peb_create = ∅;
}.

(** ** Keys of the legacy buckets *)

Definition node_key (k : bytes) : outcome bytes :=
  if negb (blen k =? 8) then Err (ErrMsg "kv migrate: nodes key length")
  else Ok (NodeKey (get_be k)).

Definition dirent_key (k : bytes) : outcome bytes :=
  if blen k <? 8 then Err (ErrMsg "kv migrate: dirents key length")
  else Ok (DirentKey (get_be (slice k 0 8)) (slice k 8 (blen k))).

Definition stripe_key (k : bytes) : outcome bytes :=
  if negb (blen k =? 12) then Err (ErrMsg "kv migrate: stripes key length")
  else Ok (LegacyStripeKey (get_be (slice k 0 8)) (get_be (slice k 8 12))).

Definition migrateBatchSize : Z := 1024.

(** [os.ErrNotExist] *)
Definition os_ErrNotExist : error := Errno 2.

(** ** The hot directory *)

Record fault : Type := mkFault { ft_err : error; ft_done : bool }.

Section Migrate.
Context {B P : Type} `{Bolt B} `{PebbleCreate P}.

Record Site : Type := mkSite {
  si_bolt : option B;                    (* db.bolt *)
  si_migrated : option B;                (* db.bolt.migrated *)
  si_pebble : option P;                  (* the Pebble directory, once it has a CURRENT file *)
  si_faults : nat -> option fault;       (* of the system calls still to come *)
  si_reports : list (bytes * Z);         (* what the progress callback was told *)
}.

Definition with_bolt (b m : option B) (s : Site) : Site := mkSite b m (si_pebble s) (si_faults s) (si_reports s).
Definition with_pebble (p : option P) (s : Site) : Site := mkSite (si_bolt s) (si_migrated s) p (si_faults s) (si_reports s).

(** A system call with an effect. *)
Definition sys (effect : Site -> Site) : M Site unit := fun s =>
  let s1 := mkSite (si_bolt s) (si_migrated s) (si_pebble s) (fun n => si_faults s (S n)) (si_reports s) in
  match si_faults s 0%nat with
  | None => (Ok tt, effect s1)
  | Some f => (Err (ft_err f), if ft_done f then effect s1 else s1)
  end.

Definition os_Stat_bolt : M Site unit :=
  let* _ := sys id in
  let* s := get in
  match si_bolt s with Some _ => ret tt | None => throw os_ErrNotExist end.

(** Does the Pebble directory hold a database? *)
Definition populated : M Site bool :=
  let* r := try (sys id) in                      (* os.ReadDir *)
  let* s := get in
  match r, si_pebble s with
  | Ok _, Some _ => let* r := try (sys id) in ret (is_ok r)   (* os.Stat(CURRENT) *)
  | _, _ => ret false
  end.

Definition bolt_Open : M Site B :=
  let* _ := sys id in
  let* s := get in
  match si_bolt s with Some b => ret b | None => throw os_ErrNotExist end.

(** [kv.Open]: creates the database when there is none. *)
Definition kv_Open : M Site unit :=
  sys (fun s => match si_pebble s with Some _ => s | None => with_pebble (Some peb_create) s end).

Definition wrapped {A} (msg : string) (m : M Site A) : M Site A :=
  let* r := try m in
  match r with Err e => throw (ErrWrap msg e) | _ => of_outcome r end.

Definition on_dst {A} (m : M P A) : M Site A := fun s =>
  match si_pebble s with
  | Some p => let '(r, p') := m p in (r, with_pebble (Some p') s)
  | None => (Panic, s)
  end.

Definition report (progress : bool) (name : bytes) (n : Z) : M Site unit :=
  if progress
  then modify (fun s => mkSite (si_bolt s) (si_migrated s) (si_pebble s) (si_faults s) (si_reports s ++ [(name, n)]))
  else ret tt.

(** ** The copy *)

(** One pair; the batch is committed every [migrateBatchSize] pairs. *)
Definition copy_step (mapKey : bytes -> outcome bytes) (bc : Batch * Z) (kv : bytes * bytes) : M P (Batch * Z) :=
  let* dk := of_outcome (mapKey kv.1) in
  let* b := Batch_Set bc.1 dk kv.2 in
  let count := i64 (bc.2 + 1) in
  if Z.rem count migrateBatchSize =? 0 then
    let* _ := Batch_Commit b true in ret (NewBatch, count)
  else ret (b, count).

Definition copyBucket (progress : bool) (src : B) (bucketName : bytes) (mapKey : bytes -> outcome bytes) : M Site unit :=
  match bolt_bucket src bucketName with
  | None => ret tt
  | Some l =>
      let* bc := on_dst (mfold (copy_step mapKey) (NewBatch, 0) l) in
      let* _ := on_dst (Batch_Commit bc.1 true) in
      report progress bucketName bc.2
  end.

Definition copy_counter (progress : bool) (src : B) : M Site unit :=
  match bolt_bucket src (str "_l4_meta") with
  | None => ret tt
  | Some l =>
      match bolt_get l (str "next_inode") with
      | None => ret tt
      | Some v =>
          let* _ := on_dst (let* b := Batch_Set NewBatch StoreNextInodeKey v in Batch_Commit b true) in
          report progress (str "_l4_meta") 1
      end
  end.

(** The transaction. *)
Definition copy_all (progress : bool) (src : B) : M Site unit :=
  let* _ := sys id in
  let* _ := copy_counter progress src in
  let* _ := copyBucket progress src (str "nodes") node_key in
  let* _ := copyBucket progress src (str "dirents") dirent_key in
  copyBucket progress src (str "stripes") stripe_key.

Definition rename_bolt : M Site unit := sys (fun s => with_bolt None (si_bolt s) s).

Definition MigrateFromBolt (progress : bool) : M Site unit :=
  let* st := try os_Stat_bolt in
  match st with
  | Err e => if bool_decide (e = os_ErrNotExist) then ret tt else throw e
  | Panic => panic
  | Ok _ =>
      let* p := populated in
      if p : bool then throw ErrAlreadyMigrated
      else
        let* src := wrapped "kv migrate: open legacy" bolt_Open in
        let* _ := wrapped "kv migrate: open pebble" kv_Open in
        let* r := try (
          let* _ := copy_all progress src in
          let* _ := sys id in                     (* src.Close() *)
          wrapped "kv migrate: rename legacy db" rename_bolt) in
        let* _ := try (on_dst DB_Close) in        (* deferred *)
        of_outcome r
  end.

(** The part of [index.Open] that opens the database. *)
Definition open_db : M Site unit :=
  let* _ := sys id in
  let* _ := sys id in
  let* r := try (MigrateFromBolt false) in
  match r with
  | Err e => if bool_decide (e = ErrAlreadyMigrated) then kv_Open else throw (ErrWrap "index: migrate legacy bbolt" e)
  | Panic => panic
  | Ok _ => kv_Open
  end.
End Migrate.
Arguments Site B P : clear implicits.

(** ** What a migration should copy *)

(** The pairs of a legacy bucket under their new keys. *)
Definition translated (mapKey : bytes -> outcome bytes) (l : list (bytes * bytes)) : list (bytes * bytes) :=
  omap (fun kv => match mapKey kv.1 with Ok k => Some (k, kv.2) | _ => None end) l.

Definition in_bucket {B} `{Bolt B} (b : B) (n k v : bytes) : Prop := exists l, bolt_bucket b n = Some l /\ (k, v) ∈ l.

(** The keyspace a legacy file stands for. *)
Inductive legacy {B} `{Bolt B} (b : B) : bytes -> bytes -> Prop :=
  | legacy_counter v : in_bucket b (str "_l4_meta") (str "next_inode") v -> legacy b StoreNextInodeKey v
  | legacy_node k v : in_bucket b (str "nodes") k v -> blen k = 8 -> legacy b (tagNode :: k) v
  | legacy_dirent k v : in_bucket b (str "dirents") k v -> 8 <= blen k -> legacy b (tagDirent :: k) v
  | legacy_stripe k v : in_bucket b (str "stripes") k v -> blen k = 12 -> legacy b (tagStripe :: k) v.

(** Keys that [MigrateFromBolt] accepts. *)
Definition well_keyed {B} `{Bolt B} (b : B) : Prop :=
  forall k v, (in_bucket b (str "nodes") k v -> blen k = 8) /\
    (in_bucket b (str "dirents") k v -> 8 <= blen k) /\
    (in_bucket b (str "stripes") k v -> blen k = 12).
