(* ===== verification/MigrateSpec.v ===== *)
(** * The migration copies the legacy file

    [MigrateFromBolt_copies]: success means that the database holds exactly
    the legacy keyspace and that the file is out of the way; a failure leaves
    a part of it.  [interrupted_migration_skipped]: that part is then taken
    for the whole by the next start. *)

From S2P Require Import Prelude Keys Kv Migrate.

Section Spec.
Context {B P : Type} `{BoltLaws B} `{PebbleCreate P}.
Implicit Types b : B.
Implicit Types s : Site B P.
Implicit Types p : P.

Definition counter_pairs b : list (bytes * bytes) :=
  match bolt_bucket b (str "_l4_meta") with
  | None => []
  | Some l => match bolt_get l (str "next_inode") with None => [] | Some v => [(StoreNextInodeKey, v)] end
  end.

Definition bucket_pairs b (n : bytes) (mapKey : bytes -> outcome bytes) : list (bytes * bytes) :=
  match bolt_bucket b n with None => [] | Some l => translated mapKey l end.

Definition targets b : list (bytes * bytes) :=
  counter_pairs b ++ bucket_pairs b (str "nodes") node_key ++
  bucket_pairs b (str "dirents") dirent_key ++ bucket_pairs b (str "stripes") stripe_key.

(** ** The targets are the legacy keyspace *)

Lemma elem_of_translated (mapKey : bytes -> outcome bytes) l k v :
  (k, v) ∈ translated mapKey l <-> exists k0, (k0, v) ∈ l /\ mapKey k0 = Ok k.
Proof.
  unfold translated. rewrite list_elem_of_omap. split.
  - intros ([k0 v0] & Hin & E). cbn [fst snd] in E. exists k0. destruct (mapKey k0) eqn:Ek; [|done..].
    by injection E as -> ->.
  - intros (k0 & Hin & E). exists (k0, v). split; [done|]. cbn [fst snd]. by rewrite E.
Qed.

Lemma elem_of_bucket_pairs b n (mapKey : bytes -> outcome bytes) k v :
  (k, v) ∈ bucket_pairs b n mapKey <-> exists k0, in_bucket b n k0 v /\ mapKey k0 = Ok k.
Proof.
  unfold bucket_pairs, in_bucket. destruct (bolt_bucket b n) as [l|].
  - rewrite elem_of_translated. split; intros (k0 & Hk & E); exists k0; naive_solver.
  - rewrite elem_of_nil. naive_solver.
Qed.

Lemma bucket_key_ok b n k v : in_bucket b n k v -> bytes_ok k.
Proof. intros (l & El & Hin). by eapply bolt_bytes. Qed.

Lemma put_get_len n (k : bytes) : bytes_ok k -> blen k = Z.of_nat n -> put_be n (get_be k) = k.
Proof. intros Hk Hl. unfold blen in Hl. apply Nat2Z.inj in Hl. subst n. by apply put_get_be. Qed.

Lemma node_key_Ok k k' : bytes_ok k -> node_key k = Ok k' <-> blen k = 8 /\ k' = tagNode :: k.
Proof.
  intros Hk. unfold node_key. destruct (Z.eqb_spec (blen k) 8) as [E|E]; cbn [negb]; [|naive_solver].
  unfold NodeKey. rewrite (put_get_len 8 k Hk E). naive_solver.
Qed.

Lemma slice_halves (k : bytes) n m : 0 <= n -> blen k = n + m -> 0 <= m -> slice k 0 n ++ slice k n (n + m) = k.
Proof. intros. rewrite <-slice_split by lia. by apply slice_all. Qed.

Lemma dirent_key_Ok k k' : bytes_ok k -> dirent_key k = Ok k' <-> 8 <= blen k /\ k' = tagDirent :: k.
Proof.
  intros Hk. unfold dirent_key. destruct (Z.ltb_spec (blen k) 8) as [E|E]; [split; [done|lia]|].
  unfold DirentKey. rewrite (put_get_len 8) by (try apply bytes_ok_slice; rewrite ?blen_slice; try done; lia).
  rewrite <-slice_split, slice_all by lia. naive_solver.
Qed.

Lemma stripe_key_Ok k k' : bytes_ok k -> stripe_key k = Ok k' <-> blen k = 12 /\ k' = tagStripe :: k.
Proof.
  intros Hk. unfold stripe_key. destruct (Z.eqb_spec (blen k) 12) as [E|E]; cbn [negb]; [|naive_solver].
  unfold LegacyStripeKey. rewrite (put_get_len 8), (put_get_len 4)
    by (try apply bytes_ok_slice; rewrite ?blen_slice; try done; lia).
  rewrite <-slice_split, slice_all by lia. naive_solver.
Qed.

Lemma keys_NoDup (l : list (bytes * bytes)) : StronglySorted key_before l -> NoDup l.*1.
Proof.
  induction 1 as [|a l Hs IH Hf]; [constructor|]. rewrite fmap_cons. constructor; [|done].
  intros ([k v] & E & Hin)%list_elem_of_fmap. rewrite Forall_forall in Hf. specialize (Hf _ Hin).
  unfold key_before in Hf. rewrite E, lex_lt_irrefl in Hf. done.
Qed.

Lemma bolt_get_in (l : list (bytes * bytes)) k v : NoDup l.*1 -> bolt_get l k = Some v <-> (k, v) ∈ l.
Proof.
  intros Hnd. unfold bolt_get. destruct (list_find _ l) as [[i [k' v']]|] eqn:E; cbn.
  - apply list_find_Some in E as (Hl & Hk & _). cbn in Hk. subst k'. split.
    + intros [= <-]. by eapply list_elem_of_lookup_2.
    + intros [j Hj]%list_elem_of_lookup. assert (i = j) as ->
        by (eapply NoDup_lookup; [exact Hnd| |]; rewrite list_lookup_fmap; [rewrite Hl|rewrite Hj]; done).
      congruence.
  - apply list_find_None in E. rewrite Forall_forall in E. split; [done|]. intros Hin. by destruct (E _ Hin).
Qed.

Lemma elem_of_targets b k v : (k, v) ∈ targets b <-> legacy b k v.
Proof.
  unfold targets. rewrite !elem_of_app, !elem_of_bucket_pairs. split.
  - intros [Hc|[(k0 & Hin & E)|[(k0 & Hin & E)|(k0 & Hin & E)]]].
    + unfold counter_pairs in Hc. destruct (bolt_bucket b _) as [l|] eqn:El; [|by apply elem_of_nil in Hc].
      destruct (bolt_get l _) as [w|] eqn:Ew; [|by apply elem_of_nil in Hc].
      apply list_elem_of_singleton in Hc as [= -> ->]. constructor. exists l. split; [done|].
      apply bolt_get_in; [|done]. eapply keys_NoDup, bolt_sorted, El.
    + apply node_key_Ok in E as [? ->]; [by constructor|by eapply bucket_key_ok].
    + apply dirent_key_Ok in E as [? ->]; [by constructor|by eapply bucket_key_ok].
    + apply stripe_key_Ok in E as [? ->]; [by constructor|by eapply bucket_key_ok].
  - destruct 1 as [v (l & El & Hin)|k v Hin Hl|k v Hin Hl|k v Hin Hl].
    + left. unfold counter_pairs. rewrite El. apply bolt_get_in in Hin; [|by eapply keys_NoDup, bolt_sorted].
      rewrite Hin. by apply list_elem_of_singleton.
    + right; left. exists k. split; [done|]. apply node_key_Ok; [by eapply bucket_key_ok|done].
    + right; right; left. exists k. split; [done|]. apply dirent_key_Ok; [by eapply bucket_key_ok|done].
    + right; right; right. exists k. split; [done|]. apply stripe_key_Ok; [by eapply bucket_key_ok|done].
Qed.

(** Their keys are distinct, so the order of the writes does not matter. *)
Lemma translated_NoDup (mapKey : bytes -> outcome bytes) tag l :
  (forall k v k', (k, v) ∈ l -> mapKey k = Ok k' -> k' = tag :: k) -> NoDup l.*1 -> NoDup (translated mapKey l).*1.
Proof.
  unfold translated. induction l as [|[k v] l IH]; intros Hm Hnd; [constructor|].
  rewrite fmap_cons in Hnd. apply NoDup_cons in Hnd as [Hk Hnd]. cbn [omap list_omap fst snd].
  assert (NoDup (translated mapKey l).*1) as Hl by (apply IH; [intros; eapply Hm; [by right|done]|done]).
  destruct (mapKey k) as [k'| |] eqn:E; [|done..]. rewrite fmap_cons. constructor; [|done].
  intros ([k1 v1] & E1 & Hin)%list_elem_of_fmap. cbn in E1. subst k1.
  apply elem_of_translated in Hin as (k0 & Hin & E0).
  assert (k' = tag :: k) as -> by (eapply Hm; [by left|done]).
  assert (tag :: k = tag :: k0) as [= <-] by (eapply Hm; [by right|done]).
  apply Hk, list_elem_of_fmap. by exists (k, v1).
Qed.

Lemma bucket_pairs_NoDup b n (mapKey : bytes -> outcome bytes) tag :
  (forall k k', bytes_ok k -> mapKey k = Ok k' -> k' = tag :: k) ->
  NoDup (bucket_pairs b n mapKey).*1 /\ forall k, k ∈ (bucket_pairs b n mapKey).*1 -> head k = Some tag.
Proof.
  intros Hm. split.
  - unfold bucket_pairs. destruct (bolt_bucket b n) as [l|] eqn:El; [|constructor].
    apply (translated_NoDup mapKey tag); [|by eapply keys_NoDup, bolt_sorted].
    intros k v k' Hin. apply Hm. by eapply bolt_bytes.
  - intros k ([k' v] & -> & Hin)%list_elem_of_fmap.
    apply elem_of_bucket_pairs in Hin as (k0 & Hin & E). by rewrite (Hm _ _ (bucket_key_ok _ _ _ _ Hin) E).
Qed.

Lemma counter_pairs_NoDup b :
  NoDup (counter_pairs b).*1 /\ forall k, k ∈ (counter_pairs b).*1 -> head k = Some tagStoreMeta.
Proof.
  unfold counter_pairs. destruct (bolt_bucket b _) as [l|]; [destruct (bolt_get l _) as [v|]|];
    (split; [repeat constructor; by intros ?%elem_of_nil|]); intros k Hk; try by apply elem_of_nil in Hk.
  by apply list_elem_of_singleton in Hk as ->.
Qed.

Lemma NoDup_heads (l1 l2 : list bytes) (T : Z -> Prop) tag :
  NoDup l1 -> (forall k, k ∈ l1 -> head k = Some tag) -> NoDup l2 ->
  (forall k, k ∈ l2 -> exists t, head k = Some t /\ T t) -> ~ T tag -> NoDup (l1 ++ l2).
Proof.
  intros Hn1 Ht Hn2 HT Hn. apply NoDup_app. split_and!; [done| |done].
  intros k Hk1 Hk2. apply Ht in Hk1. apply HT in Hk2 as (t & E & ?). congruence.
Qed.

Lemma targets_NoDup b : NoDup (targets b).*1.
Proof.
  unfold targets. rewrite !fmap_app. destruct (counter_pairs_NoDup b) as [C1 C2].
  destruct (bucket_pairs_NoDup b (str "nodes") node_key tagNode) as [N1 N2]; [intros k k' Hk; by apply node_key_Ok|].
  destruct (bucket_pairs_NoDup b (str "dirents") dirent_key tagDirent) as [D1 D2]; [intros k k' Hk; by apply dirent_key_Ok|].
  destruct (bucket_pairs_NoDup b (str "stripes") stripe_key tagStripe) as [S1 S2]; [intros k k' Hk; by apply stripe_key_Ok|].
  eapply (NoDup_heads _ _ (fun t => t = tagNode \/ t = tagDirent \/ t = tagStripe)); [done|done| | |by intros [|[]]].
  - eapply (NoDup_heads _ _ (fun t => t = tagDirent \/ t = tagStripe)); [done|done| | |by intros []].
    + eapply (NoDup_heads _ _ (fun t => t = tagStripe)); [done|done|done|eauto|done].
    + intros k [Hk|Hk]%elem_of_app; eauto.
  - intros k [Hk|[Hk|Hk]%elem_of_app]%elem_of_app; eauto 6.
Qed.

Lemma apply_sets_iff kvs k v : NoDup kvs.*1 -> apply_ops (set_ops kvs) ∅ !! k = Some v <-> (k, v) ∈ kvs.
Proof.
  intros Hnd. split; [|by apply apply_sets_in]. intros E. destruct (decide (k ∈ kvs.*1)) as [Hk|Hk].
  - apply list_elem_of_fmap in Hk as ([k' w] & Ek & Hin). cbn in Ek. subst k'.
    rewrite (apply_sets_in kvs ∅ k w Hnd Hin) in E. congruence.
  - by rewrite apply_sets_notin in E.
Qed.

(** ** The copy, step by step *)

Definition no_faults s : Prop := forall n, si_faults s n = None.
Definition honest s : Prop := forall n f, si_faults s n = Some f -> ft_err f <> os_ErrNotExist.

(** Nothing can fail. *)
Definition calm s : Prop := PebbleReliable P /\ no_faults s.

(** The database holds the pairs [done]. *)
Definition holds (ts : list (bytes * bytes)) p : Prop := contents p = apply_ops (set_ops ts) ∅.

Definition holds_part (ts : list (bytes * bytes)) p : Prop := exists pre, pre `prefix_of` ts /\ holds pre p.

Lemma set_ops_app k1 k2 : set_ops (k1 ++ k2) = set_ops k1 ++ set_ops k2.
Proof. apply fmap_app. Qed.

Lemma holds_commit pre rest p p' :
  holds pre p -> contents p' = apply_ops (set_ops rest) (contents p) -> holds (pre ++ rest) p'.
Proof. unfold holds. intros -> ->. by rewrite set_ops_app, apply_ops_app. Qed.

Lemma wp_Batch_Set_rel (bt : Batch) k v (Q : outcome Batch -> P -> Prop) p :
  Q (Ok (bt ++ [WSet k v])) p -> (forall e, ~ PebbleReliable P -> Q (Err e) p) -> wp (Batch_Set bt k v) Q p.
Proof.
  intros HO HE. unfold wp, Batch_Set, Batch_op. pose proof (peb_queue_law p (WSet k v)) as HL.
  destruct (peb_queue p (WSet k v)) eqn:E; [exact HO| |done].
  apply HE. intros Hr. by rewrite rel_queue in E.
Qed.

Lemma wp_commit_sets rest (Q : outcome unit -> P -> Prop) pre p :
  holds pre p ->
  (forall p', holds (pre ++ rest) p' -> Q (Ok tt) p') ->
  (forall e p', ~ PebbleReliable P -> holds_part (pre ++ rest) p' -> Q (Err e) p') ->
  wp (Batch_Commit (set_ops rest) true) Q p.
Proof.
  intros Hp HO HE. unfold wp, Batch_Commit. pose proof (peb_commit_law true p (set_ops rest)) as HL.
  destruct (peb_commit true p (set_ops rest)) as [[[]|e|] p'] eqn:E; cbn [fst snd]; [| |done].
  - apply HO. by eapply holds_commit.
  - apply HE; [intros Hr; pose proof (rel_commit true p (set_ops rest)) as Hc; by rewrite E in Hc|].
    destruct HL as [El|El].
    + exists pre. split; [by apply prefix_app_r|]. unfold holds. by rewrite El.
    + exists (pre ++ rest). split; [done|]. by eapply holds_commit.
Qed.

Lemma wp_copy_loop (mapKey : bytes -> outcome bytes) l : (forall k, mapKey k <> Panic) ->
  forall pre rest n p (Q : outcome (Batch * Z) -> P -> Prop),
  holds pre p ->
  (forall pre' rest' n' p', pre' ++ rest' = pre ++ rest ++ translated mapKey l -> holds pre' p' ->
     Q (Ok (set_ops rest', n')) p') ->
  (forall e p', ~ (PebbleReliable P /\ Forall (fun kv => is_ok (mapKey kv.1) = true) l) ->
     holds_part (pre ++ rest ++ translated mapKey l) p' -> Q (Err e) p') ->
  wp (mfold (copy_step mapKey) (set_ops rest, n) l) Q p.
Proof.
  intros Hm. induction l as [|[k v] l IH]; intros pre rest n p Q Hp HO HE; cbn [mfold].
  { wp_step. apply (HO pre rest n p); [|done]. cbn. by rewrite app_nil_r. }
  assert (holds_part (pre ++ rest ++ translated mapKey ((k, v) :: l)) p) as Hpart
    by (exists pre; split; [by apply prefix_app_r|done]).
  wp_step. unfold copy_step at 1. wp_step. cbn [fst snd]. apply wp_of_outcome.
  assert (translated mapKey ((k, v) :: l) =
    match mapKey k with Ok k' => [(k', v)] | _ => [] end ++ translated mapKey l) as Etr
    by (unfold translated; cbn [omap list_omap fst snd]; by destruct (mapKey k)).
  destruct (mapKey k) as [k'|e|] eqn:Ek; [| |by destruct (Hm k)].
  2: { apply HE; [|done]. intros [_ Hf]. apply Forall_cons in Hf as [Hf _]. cbn in Hf. by rewrite Ek in Hf. }
  wp_step. apply wp_Batch_Set_rel; [|intros e Hn; apply HE; [tauto|done]].
  change [WSet k' v] with (set_ops [(k', v)]). rewrite <-set_ops_app.
  assert (pre ++ rest ++ translated mapKey ((k, v) :: l) = pre ++ (rest ++ [(k', v)]) ++ translated mapKey l) as Eall
    by (by rewrite Etr, <-!app_assoc).
  rewrite Eall in *.
  assert (forall (C : Prop), ~ (C /\ Forall (fun kv : bytes * bytes => is_ok (mapKey kv.1) = true) l) ->
    ~ (C /\ Forall (fun kv : bytes * bytes => is_ok (mapKey kv.1) = true) ((k, v) :: l))) as Hcons
    by (intros C HC [? Hf]; apply HC; split; [done|by apply Forall_cons in Hf as [_ ?]]).
  destruct (_ =? 0).
  - wp_step. apply (wp_commit_sets _ _ pre); [done|..].
    + intros p' Hp'. wp_step. change NewBatch with (set_ops []).
      apply (IH (pre ++ rest ++ [(k', v)]) []); [done|..].
      * intros pre' rest' n' q E. apply HO. rewrite E. cbn [app]. by rewrite <-!app_assoc.
      * intros e q Hn Hq. apply HE; [by apply Hcons|]. rewrite <-!app_assoc in Hq. rewrite <-!app_assoc. exact Hq.
    + intros e p' Hn (pr & Hpr & Hh). apply HE; [tauto|]. exists pr. split; [|done].
      etrans; [exact Hpr|]. exists (translated mapKey l). by rewrite <-!app_assoc.
  - wp_step. apply (IH pre (rest ++ [(k', v)])); [done|exact HO|]. intros e q Hn Hq. apply HE; [by apply Hcons|done].
Qed.

(** Only the database and the list of faults have moved on. *)
Definition later s s' : Prop :=
  si_bolt s' = si_bolt s /\ si_migrated s' = si_migrated s /\
  (no_faults s -> no_faults s') /\ (honest s -> honest s').

Definition db_holds (Q : P -> Prop) s : Prop := exists p, si_pebble s = Some p /\ Q p.

Lemma later_refl s : later s s.
Proof. by split_and!. Qed.
Lemma later_trans s1 s2 s3 : later s1 s2 -> later s2 s3 -> later s1 s3.
Proof. intros (? & ? & ? & ?) (? & ? & ? & ?). split_and!; [congruence..| |]; auto. Qed.

Lemma wp_site_call effect (Q : outcome unit -> Site B P -> Prop) s :
  (forall s1, later s s1 -> si_pebble s1 = si_pebble s -> Q (Ok tt) (effect s1)) ->
  (forall e s1, ~ no_faults s -> (honest s -> e <> os_ErrNotExist) -> later s s1 -> si_pebble s1 = si_pebble s ->
     Q (Err e) s1 /\ Q (Err e) (effect s1)) ->
  wp (sys effect) Q s.
Proof.
  intros HO HE. unfold wp, sys.
  set (s1 := mkSite (si_bolt s) (si_migrated s) (si_pebble s) (fun n => si_faults s (S n)) (si_reports s)).
  assert (later s s1) as Hl by (split_and!; [done..| |]; intros Hf n; apply Hf).
  destruct (si_faults s 0%nat) as [f|] eqn:E; [|by apply HO]. cbn [fst snd].
  destruct (HE (ft_err f) s1) as [He1 He2]; [intros Hn; by rewrite Hn in E|intros Hh; by eapply Hh|done|done|].
  by destruct (ft_done f).
Qed.

(** A call without an effect. *)
Lemma wp_site_call_id (Q : outcome unit -> Site B P -> Prop) s :
  (forall r s1, later s s1 -> si_pebble s1 = si_pebble s -> (no_faults s -> r = Ok tt) -> r <> Panic ->
     (honest s -> r <> Err os_ErrNotExist) -> Q r s1) ->
  wp (sys id) Q s.
Proof.
  intros HQ. apply wp_site_call.
  - intros s1 Hl Hp. by apply HQ.
  - intros e s1 Hn Hh Hl Hp. split; apply HQ; try done; intros; intros [= ->]; by apply Hh.
Qed.

Lemma wp_on_dst {A} (m : M P A) (Q : outcome A -> Site B P -> Prop) s p :
  si_pebble s = Some p -> wp m (fun r p' => Q r (with_pebble (Some p') s)) p -> wp (on_dst m) Q s.
Proof. intros E Hw. unfold wp, on_dst in *. rewrite E. by destruct (m p). Qed.

Lemma wp_report progress n k (Q : outcome unit -> Site B P -> Prop) s :
  (forall s1, later s s1 -> si_pebble s1 = si_pebble s -> Q (Ok tt) s1) -> wp (report progress n k) Q s.
Proof. intros HQ. unfold report. destruct progress; wp_step; by apply HQ. Qed.

Lemma wrapped_wp {A} msg (m : M (Site B P) A) (Q : outcome A -> Site B P -> Prop) s :
  wp m (fun r s' => match r with Err e => Q (Err (ErrWrap msg e)) s' | _ => Q r s' end) s -> wp (wrapped msg m) Q s.
Proof.
  intros Hw. unfold wrapped. wp_step. apply wp_try. eapply wp_mono; [exact Hw|]. intros [a|e|] s' HQ; [|done..].
  by apply wp_of_outcome.
Qed.

Definition keys_fine b (n : bytes) (mapKey : bytes -> outcome bytes) : Prop :=
  forall k v, in_bucket b n k v -> is_ok (mapKey k) = true.

Lemma wp_copyBucket progress b n (mapKey : bytes -> outcome bytes) pre s (Q : outcome unit -> Site B P -> Prop) :
  (forall k, mapKey k <> Panic) -> db_holds (holds pre) s ->
  (forall s', later s s' -> db_holds (holds (pre ++ bucket_pairs b n mapKey)) s' -> Q (Ok tt) s') ->
  (forall e s', ~ (PebbleReliable P /\ keys_fine b n mapKey) -> later s s' ->
     db_holds (holds_part (pre ++ bucket_pairs b n mapKey)) s' -> Q (Err e) s') ->
  wp (copyBucket progress b n mapKey) Q s.
Proof.
  intros Hm (p & Ep & Hp) HO HE. unfold copyBucket, bucket_pairs in *.
  destruct (bolt_bucket b n) as [l|] eqn:El.
  2: { wp_step. apply HO; [apply later_refl|]. exists p. by rewrite app_nil_r. }
  assert (forall p', later s (with_pebble (Some p') s)) as Hl by done.
  wp_step. eapply (wp_on_dst _ _ _ p); [done|]. change NewBatch with (set_ops []).
  apply (wp_copy_loop mapKey l Hm pre []); [done|..].
  - intros pre' rest' n' p' E Hp'. cbn [app] in E. wp_step. eapply (wp_on_dst _ _ _ p'); [done|]. cbn [fst].
    apply (wp_commit_sets _ _ pre'); [done|..]; rewrite E.
    + intros p2 Hp2. apply wp_report. intros s1 Hl1 E1. apply HO; [by eapply later_trans; [|exact Hl1]|].
      exists p2. by rewrite E1.
    + intros e p2 Hn Hp2. apply HE; [tauto|done|]. by exists p2.
  - intros e p' Hn Hp'. apply HE; [|done|by exists p']. intros [Hr Hk]. apply Hn. split; [done|].
    apply Forall_forall. intros [k v] Hin. apply (Hk k v). by exists l.
Qed.

Lemma wp_copy_counter progress b s (Q : outcome unit -> Site B P -> Prop) :
  db_holds (holds []) s ->
  (forall s', later s s' -> db_holds (holds (counter_pairs b)) s' -> Q (Ok tt) s') ->
  (forall e s', ~ PebbleReliable P -> later s s' -> db_holds (holds_part (counter_pairs b)) s' -> Q (Err e) s') ->
  wp (copy_counter progress b) Q s.
Proof.
  intros (p & Ep & Hp) HO HE. unfold copy_counter, counter_pairs in *.
  assert (forall p', later s (with_pebble (Some p') s)) as Hl by done.
  destruct (bolt_bucket b _) as [l|]; [destruct (bolt_get l _) as [v|]|];
    [|wp_step; apply HO; [done|by exists p]..].
  wp_step. eapply (wp_on_dst _ _ _ p); [done|]. wp_step. apply wp_Batch_Set_rel.
  - apply (wp_commit_sets [(StoreNextInodeKey, v)] _ []); [done|..].
    + intros p2 Hp2. apply wp_report. intros s1 Hl1 E1. apply HO; [by eapply later_trans; [|exact Hl1]|].
      exists p2. by rewrite E1.
    + intros e p2 Hn Hp2. apply HE; [done..|]. by exists p2.
  - intros e Hn. apply HE; [done..|]. exists p. split; [done|]. exists []. split; [apply prefix_nil|done].
Qed.

Lemma mapKeys_total :
  (forall k, node_key k <> Panic) /\ (forall k, dirent_key k <> Panic) /\ (forall k, stripe_key k <> Panic).
Proof. unfold node_key, dirent_key, stripe_key. split_and!; intros k; by destruct (_ : bool). Qed.

Lemma well_keyed_fine b : well_keyed b ->
  keys_fine b (str "nodes") node_key /\ keys_fine b (str "dirents") dirent_key /\ keys_fine b (str "stripes") stripe_key.
Proof.
  intros Hk. split_and!; intros k v Hin; destruct (Hk k v) as (Hn & Hd & Hs).
  - unfold node_key. rewrite (proj2 (Z.eqb_eq _ _) (Hn Hin)). done.
  - unfold dirent_key. rewrite (proj2 (Z.ltb_ge _ _) (Hd Hin)). done.
  - unfold stripe_key. rewrite (proj2 (Z.eqb_eq _ _) (Hs Hin)). done.
Qed.

Lemma db_holds_part_mono ts ts' s : ts `prefix_of` ts' -> db_holds (holds_part ts) s -> db_holds (holds_part ts') s.
Proof. intros Hpre (p & E & pre & Hp & Hh). exists p. split; [done|]. exists pre. split; [by etrans|done]. Qed.

Lemma wp_copy_all progress b s (Q : outcome unit -> Site B P -> Prop) :
  db_holds (holds []) s ->
  (forall s', later s s' -> db_holds (holds (targets b)) s' -> Q (Ok tt) s') ->
  (forall e s', ~ (calm s /\ well_keyed b) -> later s s' -> db_holds (holds_part (targets b)) s' -> Q (Err e) s') ->
  wp (copy_all progress b) Q s.
Proof.
  intros Hp HO HE. unfold copy_all, calm in *. destruct mapKeys_total as (Mn & Md & Ms).
  pose proof (well_keyed_fine b) as Hfine. unfold targets in *.
  set (ca := counter_pairs b) in *. set (na := bucket_pairs b (str "nodes") node_key) in *.
  set (da := bucket_pairs b (str "dirents") dirent_key) in *. set (sa := bucket_pairs b (str "stripes") stripe_key) in *.
  wp_step. apply wp_site_call_id. intros r s1 Hl1 E1 Hr Hnp _. destruct Hp as (p & Ep & Hp).
  assert (db_holds (holds []) s1) as Hp1 by (exists p; by rewrite E1).
  destruct r as [[]|e|]; [| |done].
  2: { apply HE; [|done|]. { intros [[_ Hn] _]. by discriminate (Hr Hn). }
       exists p. rewrite E1. split; [done|]. exists []. split; [apply prefix_nil|done]. }
  wp_step. apply (wp_copy_counter progress b s1); [done|..].
  2: { intros e s' Hn Hl Hh. apply HE; [tauto|by eapply later_trans|].
       eapply db_holds_part_mono; [|exact Hh]. by apply prefix_app_r. }
  intros s2 Hl2 Hh2. wp_step. apply (wp_copyBucket progress b _ node_key ca); [done|exact Hh2|..].
  2: { intros e s' Hn Hl Hh. apply HE; [tauto|by do 2 (eapply later_trans; [eassumption|])|].
       eapply db_holds_part_mono; [|exact Hh]. rewrite app_assoc. by apply prefix_app_r. }
  intros s3 Hl3 Hh3. wp_step. apply (wp_copyBucket progress b _ dirent_key (ca ++ na)); [done|exact Hh3|..].
  2: { intros e s' Hn Hl Hh. apply HE; [tauto|by do 3 (eapply later_trans; [eassumption|])|].
       eapply db_holds_part_mono; [|exact Hh]. rewrite !app_assoc. by apply prefix_app_r. }
  intros s4 Hl4 Hh4. apply (wp_copyBucket progress b _ stripe_key ((ca ++ na) ++ da)); [done|exact Hh4|..];
    rewrite <-!app_assoc.
  - intros s' Hl Hh. apply HO; [|done]. by do 4 (eapply later_trans; [eassumption|]).
  - intros e s' Hn Hl Hh. apply HE; [tauto| |done]. by do 4 (eapply later_trans; [eassumption|]).
Qed.

(** ** The migration *)

(** The database is part of the legacy keyspace, or not there yet. *)
Definition copied_part b s : Prop := forall p, si_pebble s = Some p -> holds_part (targets b) p.

Definition kept_file b s : Prop := si_bolt s = Some b \/ si_migrated s = Some b.

Lemma holds_legacy b p : holds (targets b) p -> forall k v, contents p !! k = Some v <-> legacy b k v.
Proof. intros Hp k v. rewrite Hp, apply_sets_iff by apply targets_NoDup. apply elem_of_targets. Qed.

Lemma holds_part_legacy b p : holds_part (targets b) p -> forall k v, contents p !! k = Some v -> legacy b k v.
Proof.
  intros (pre & [post Epre] & Hp) k v. rewrite Hp. rewrite apply_sets_iff.
  - intros Hin. apply elem_of_targets. rewrite Epre. apply elem_of_app. by left.
  - pose proof (targets_NoDup b) as Hnd. rewrite Epre, fmap_app in Hnd. by apply NoDup_app in Hnd as (? & _).
Qed.

Definition migrated_post b s (r : outcome unit) s' : Prop :=
  match r with
  | Ok _ => si_bolt s' = None /\ si_migrated s' = Some b /\ db_holds (holds (targets b)) s'
  | Err _ => ~ (calm s /\ well_keyed b) /\ kept_file b s' /\ copied_part b s'
  | Panic => False
  end.

Lemma db_copied b s : db_holds (holds_part (targets b)) s -> copied_part b s.
Proof. intros (p & E & Hp) p' E'. congruence. Qed.

Lemma holds_whole b s : db_holds (holds (targets b)) s -> db_holds (holds_part (targets b)) s.
Proof. intros (p & E & Hp). exists p. split; [done|]. by exists (targets b). Qed.

(** From the copy to the rename. *)
Lemma wp_copy_rename progress b s :
  si_bolt s = Some b -> db_holds (holds []) s ->
  wp (let* _ := copy_all progress b in let* _ := sys id in wrapped "kv migrate: rename legacy db" rename_bolt)
    (fun r s' => migrated_post b s r s' /\ is_Some (si_pebble s')) s.
Proof.
  intros Eb Hp. wp_step. apply wp_copy_all; [done|..].
  2: { intros e s' Hn (Eb' & _) Hh. split; [|by destruct Hh as (p & E & _)].
       split_and!; [done|left; congruence|by apply db_copied]. }
  intros s1 (Eb1 & Em1 & Hf1 & _) Hh1. assert (exists p, si_pebble s1 = Some p) as [p Ep] by (by destruct Hh1 as (p & ? & _); exists p).
  wp_step. apply wp_site_call_id. intros r s2 (Eb2 & Em2 & Hf2 & _) E2 Hr Hnp _.
  assert (db_holds (holds (targets b)) s2) as Hh2 by (destruct Hh1 as (q & E & Hq); exists q; by rewrite E2).
  destruct r as [[]|e|]; [| |done].
  2: { split; [|by rewrite E2, Ep]. split_and!; [|left; congruence|by apply db_copied, holds_whole].
       intros [[_ Hn] _]. by discriminate (Hr (Hf1 Hn)). }
  apply wrapped_wp, wp_site_call.
  - intros s3 (Eb3 & _) E3. unfold with_bolt. cbn. split; [|by rewrite E3, E2, Ep].
    split_and!; [done|congruence|]. destruct Hh2 as (q & E & Hq). exists q. cbn. by rewrite E3.
  - intros e s3 Hn _ (Eb3 & _) E3.
    assert (db_holds (holds (targets b)) s3) as Hh3 by (destruct Hh2 as (q & E & Hq); exists q; by rewrite E3).
    assert (~ (calm s /\ well_keyed b)) as Hc by (intros [[_ Hn0] _]; apply Hn; auto).
    split; (split; [|cbn; by rewrite E3, E2, Ep]); (split_and!; [done| |by apply db_copied, holds_whole]);
      [left|right]; cbn; congruence.
Qed.

Lemma wp_populated (Q : outcome bool -> Site B P -> Prop) s :
  (forall v s', later s s' -> si_pebble s' = si_pebble s -> (si_pebble s = None -> v = false) ->
     (no_faults s -> v = true <-> is_Some (si_pebble s)) -> Q (Ok v) s') ->
  wp populated Q s.
Proof.
  intros HQ. unfold populated. wp_step. apply wp_try, wp_site_call_id. intros r s1 Hl1 E1 Hr1 Hnp _.
  destruct r as [u|e|]; [| |done]; wp_step; apply wp_get; [|apply HQ; [done..|intros Hn; by discriminate (Hr1 Hn)]].
  destruct (si_pebble s1) as [p|] eqn:Ep.
  2: { wp_step. apply HQ; [done|congruence|done|]. intros _. rewrite <-E1. split; [done|by intros []]. }
  wp_step. apply wp_try, wp_site_call_id. intros r s2 Hl2 E2 Hr2 Hnp2 _.
  destruct r as [u2|e|]; [| |done]; wp_step; (apply HQ; [by eapply later_trans|congruence|congruence|]); intros Hn.
  - split; [|done]. intros _. by rewrite <-E1.
  - destruct Hl1 as (_ & _ & Hf & _). by discriminate (Hr2 (Hf Hn)).
Qed.

Lemma wp_kv_Open (Q : outcome unit -> Site B P -> Prop) s :
  si_pebble s = None ->
  (forall s', later s s' -> db_holds (holds []) s' -> Q (Ok tt) s') ->
  (forall e s', ~ no_faults s -> later s s' -> (si_pebble s' = None \/ db_holds (holds []) s') -> Q (Err e) s') ->
  wp kv_Open Q s.
Proof.
  intros Ep HO HE.
  assert (forall s1, later s s1 -> si_pebble s1 = None ->
    later s (match si_pebble s1 with Some _ => s1 | None => with_pebble (Some peb_create) s1 end) /\
    db_holds (holds []) (match si_pebble s1 with Some _ => s1 | None => with_pebble (Some peb_create) s1 end)) as Hnew.
  { intros s1 Hl1 E1. rewrite E1. split; [done|]. exists peb_create. split; [done|]. apply peb_create_empty. }
  apply wp_site_call.
  - intros s1 Hl1 E1. destruct (Hnew s1) as [? ?]; [done|congruence|]. by apply HO.
  - intros e s1 Hn _ Hl1 E1. destruct (Hnew s1) as [? ?]; [done|congruence|].
    split; (apply HE; [done|done|]); [left; congruence|by right].
Qed.

Lemma wp_stat_bolt b (Q : outcome (outcome unit) -> Site B P -> Prop) s :
  si_bolt s = Some b -> honest s ->
  (forall s', later s s' -> si_pebble s' = si_pebble s -> Q (Ok (Ok tt)) s') ->
  (forall e s', e <> os_ErrNotExist -> ~ no_faults s -> later s s' -> si_pebble s' = si_pebble s -> Q (Ok (Err e)) s') ->
  wp (try os_Stat_bolt) Q s.
Proof.
  intros Eb Hh HO HE. apply wp_try. unfold os_Stat_bolt. wp_step. apply wp_site_call_id.
  intros r s1 Hl1 E1 Hr Hnp He. destruct r as [[]|e|]; [| |done].
  - wp_step. apply wp_get. destruct Hl1 as (Eb1 & ?). rewrite Eb1, Eb. wp_step. by apply HO.
  - apply HE; [|intros Hn; by discriminate (Hr Hn)|done..]. intros ->. by apply He.
Qed.

Lemma wp_bolt_Open b (Q : outcome B -> Site B P -> Prop) s :
  si_bolt s = Some b ->
  (forall s', later s s' -> si_pebble s' = si_pebble s -> Q (Ok b) s') ->
  (forall e s', ~ no_faults s -> later s s' -> si_pebble s' = si_pebble s -> Q (Err e) s') ->
  wp bolt_Open Q s.
Proof.
  intros Eb HO HE. unfold bolt_Open. wp_step. apply wp_site_call_id. intros r s1 Hl1 E1 Hr Hnp _.
  destruct r as [[]|e|]; [| |done].
  - wp_step. apply wp_get. destruct Hl1 as (Eb1 & ?). rewrite Eb1, Eb. wp_step. by apply HO.
  - apply HE; [intros Hn; by discriminate (Hr Hn)|done..].
Qed.

(** The deferred [Close] keeps what the database holds. *)
Lemma wp_dst_Close b s r (Q : outcome unit -> Site B P -> Prop) s0 :
  is_Some (si_pebble s) -> migrated_post b s0 r s -> (forall s', migrated_post b s0 r s' -> Q r s') ->
  wp (let* _ := try (on_dst DB_Close) in of_outcome r) Q s.
Proof.
  intros [p Ep] Hpost HQ. wp_step. apply wp_try. eapply (wp_on_dst _ _ _ p); [done|].
  unfold wp, DB_Close. destruct (peb_close_law p) as [Hnp Hc]. destruct (peb_close p) as [rc p'] eqn:E. cbn [fst snd] in *.
  assert (forall ts, holds ts p -> holds ts p') as Hhold by (unfold holds; intros ts; by rewrite Hc).
  assert (migrated_post b s0 r (with_pebble (Some p') s)) as Hpost'.
  { destruct r as [u|e|]; [| |done]; cbn.
    - destruct Hpost as (? & ? & q & Eq & Hq). split_and!; [done..|]. exists p'. split; [done|]. apply Hhold. congruence.
    - destruct Hpost as (? & ? & Hcp). split_and!; [done..|]. intros q [= <-]. destruct (Hcp p Ep) as (pre & ? & ?).
      exists pre. split; [done|by apply Hhold]. }
  destruct rc as [u|e|]; [| |done]; apply wp_of_outcome; by apply HQ.
Qed.

Lemma wp_MigrateFromBolt progress b s :
  si_bolt s = Some b -> si_pebble s = None -> honest s -> wp (MigrateFromBolt progress) (migrated_post b s) s.
Proof.
  intros Eb Ep Hh. unfold MigrateFromBolt.
  assert (forall e s', ~ no_faults s -> later s s' -> si_pebble s' = None \/ db_holds (holds []) s' ->
    migrated_post b s (Err e) s') as Herr.
  { intros e s' Hn (Eb' & _) Hp. split_and!; [by intros [[_ ?] _]|left; congruence|]. intros p E.
    destruct Hp as [Hp|(q & E' & Hq)]; [congruence|]. exists []. split; [apply prefix_nil|congruence]. }
  wp_step. apply (wp_stat_bolt b); [done|done| |].
  2: { intros e s1 He Hn Hl1 E1. rewrite bool_decide_eq_false_2 by done. wp_step. apply Herr; [done..|]. left. congruence. }
  intros s1 Hl1 E1. wp_step. apply wp_populated. intros v s2 Hl2 E2 Hv _. rewrite Hv by congruence.
  assert (later s s2) as Hl02 by (by eapply later_trans). pose proof Hl02 as (Eb2 & _ & Hf2 & _).
  wp_step. apply wrapped_wp, (wp_bolt_Open b); [congruence| |].
  2: { intros e s3 Hn Hl3 E3. apply Herr; [auto|by eapply later_trans|left; congruence]. }
  intros s3 Hl3 E3. assert (later s s3) as Hl03 by (by eapply later_trans). pose proof Hl03 as (_ & _ & Hf3 & _).
  wp_step. apply wrapped_wp, wp_kv_Open; [congruence| |].
  2: { intros e s4 Hn Hl4 Hp4. apply Herr; [auto|by eapply later_trans|done]. }
  intros s4 Hl4 Hp4. assert (later s s4) as Hl04 by (by eapply later_trans). pose proof Hl04 as (Eb4 & _ & Hf4 & _).
  wp_step. apply wp_try. eapply wp_mono; [apply (wp_copy_rename progress b s4); [congruence|done]|].
  intros r s5 [Hpost Hsome]. assert (migrated_post b s r s5) as Hpost5.
  { destruct r as [u|e|]; [done| |done]. destruct Hpost as (Hn & ? & ?). split_and!; [|done..].
    intros [[Hr Hf] Hk]. apply Hn. split; [split; [done|auto]|done]. }
  destruct r as [u|e|]; [| |done]; by apply (wp_dst_Close b s5 _ _ s).
Qed.

(** C31: migration copies the legacy file, whole or not at all.  When it
    succeeds the new database holds exactly the legacy keyspace and the file
    has been set aside; when it fails the file is still there and the database
    holds nothing but pairs of it; and it succeeds on every well-keyed file
    when no system call fails. *)
Theorem MigrateFromBolt_copies progress b s :
  si_bolt s = Some b -> si_pebble s = None -> honest s ->
  let '(r, s') := MigrateFromBolt progress s in
  match r with
  | Ok _ => si_bolt s' = None /\ si_migrated s' = Some b /\
      exists p, si_pebble s' = Some p /\ forall k v, contents p !! k = Some v <-> legacy b k v
  | Err _ => (si_bolt s' = Some b \/ si_migrated s' = Some b) /\
      forall p k v, si_pebble s' = Some p -> contents p !! k = Some v -> legacy b k v
  | Panic => False
  end /\ (PebbleReliable P -> no_faults s -> well_keyed b -> r = Ok tt).
Proof.
  intros Eb Ep Hh. pose proof (wp_MigrateFromBolt progress b s Eb Ep Hh) as Hw. unfold wp in Hw.
  destruct (MigrateFromBolt progress s) as [[[]|e|] s']; cbn [fst snd] in Hw; [| |done].
  - destruct Hw as (? & ? & p & E & Hp). split; [|done]. split_and!; [done..|]. exists p. split; [done|]. by apply holds_legacy.
  - destruct Hw as (Hn & Hk & Hc). split; [|intros; exfalso; apply Hn; by split; [split|]].
    split; [done|]. intros p k v E. apply holds_part_legacy, (Hc p E).
Qed.
End Spec.

(** ** Concrete runs *)

(** A legacy file as a map of buckets, walked in key order. *)
Abbreviation BoltFile := (gmap bytes MemDB).

Definition bytes_okb (b : bytes) : bool := forallb (fun x => (0 <=? x) && (x <? 256)) b.

#[global] Instance BoltFile_bolt : Bolt BoltFile := {
  bolt_bucket b n := (fun m => filter (fun kv => bytes_okb kv.1 = true) (mem_range m [] None)) <$> b !! n;
}.

Lemma StronglySorted_filter_pred {A} (R : A -> A -> Prop) (T : A -> Prop) `{forall x, Decision (T x)} l :
  StronglySorted R l -> StronglySorted R (filter T l).
Proof.
  induction 1 as [|a l Hs IH Hf]; [constructor|]. rewrite filter_cons. destruct (decide (T a)); [|done].
  constructor; [done|]. apply Forall_forall. intros x [_ Hx]%list_elem_of_filter. by eapply Forall_forall in Hf.
Qed.

#[global] Instance BoltFile_laws : BoltLaws BoltFile.
Proof.
  split.
  - intros b n l. cbn. destruct (b !! n) as [m|]; [|done]. intros [= <-]. apply StronglySorted_filter_pred.
    by destruct (peb_iter_law m [] None).
  - intros b n l k v. cbn. destruct (b !! n) as [m|]; [|done]. intros [= <-] [Hk _]%list_elem_of_filter.
    unfold bytes_okb in Hk. rewrite forallb_forall in Hk. apply Forall_forall. intros x Hx.
    apply list_elem_of_In, Hk in Hx. unfold in_u8. lia.
Qed.

#[global] Instance MemDB_create : PebbleCreate MemDB := {| peb_create := ∅; peb_create_empty := eq_refl |}.

(** Two inodes, the name [a] of the second, and one stripe. *)
Definition ex_root : bytes := [0; 0; 0; 0; 0; 0; 0; 1].
Definition ex_two : bytes := [0; 0; 0; 0; 0; 0; 0; 2].
Definition ex_bolt : BoltFile :=
  <[str "_l4_meta" := {[str "next_inode" := [3; 0; 0; 0; 0; 0; 0; 0]]}]>
  (<[str "nodes" := <[ex_root := [7]]> {[ex_two := [8]]}]>
  (<[str "dirents" := {[ex_root ++ str "a" := ex_two]}]>
  {[str "stripes" := {[ex_two ++ [0; 0; 0; 0] := [9]]}]})).

Definition ex_site (faults : nat -> option fault) : Site BoltFile MemDB := mkSite (Some ex_bolt) None None faults [].

Lemma MigrateFromBolt_copies_witness :
  let '(r, s') := MigrateFromBolt false (ex_site (fun _ => None)) in
  r = Ok tt /\ si_migrated s' = Some ex_bolt /\
  exists p, si_pebble s' = Some p /\ forall k v, p !! k = Some v <-> legacy ex_bolt k v.
Proof.
  pose proof (MigrateFromBolt_copies false ex_bolt (ex_site (fun _ => None)) eq_refl eq_refl ltac:(done)) as Hm.
  destruct (MigrateFromBolt false (ex_site (fun _ => None))) as [r s'] eqn:E.
  assert (r = Ok tt) as -> by (apply (f_equal fst) in E; vm_compute in E; exact (eq_sym E)).
  destruct Hm as [(_ & Hm & Hp) _]. split; [reflexivity|]. split; [exact Hm|exact Hp].
Defined.

(** The transaction cannot begin: the database has been created, empty. *)
Definition ex_faults : nat -> option fault := fun n => if (n =? 6)%nat then Some (mkFault ErrIO false) else None.

