(* ===== verification/Metrics.v ===== *)
(** * Counters of the FUSE layer (src/fuselayer/metrics.go)

    A row of three 64-bit counters per operation, created on first use; a
    snapshot lists the rows by name.  The locks and atomics make every call
    here one step. *)

From S2P Require Import Prelude Keys Kv.

Record opRow : Type := mkRow { row_calls : Z; row_errors : Z; row_duration : Z }.

(** [Metrics]: the map of rows. *)
Abbreviation rows := (gmap bytes opRow).
Definition Metrics : Type := rows.

Definition NewMetrics : rows := ∅.

(** The row of an operation, created lazily. *)
Definition row (m : rows) (op : bytes) : opRow := default (mkRow 0 0 0) (m !! op).

Definition Observe (op : bytes) (d : Z) (isErr : bool) (m : rows) : rows :=
  let r := row m op in
  <[op := mkRow (i64 (row_calls r + 1)) (if isErr then i64 (row_errors r + 1) else row_errors r)
            (i64 (row_duration r + d))]> m.

Record OpStat : Type := mkOpStat { os_Op : bytes; os_Calls : Z; os_Errors : Z; os_DurationNanos : Z }.

Definition op_le (a b : OpStat) : Prop := lex_le (os_Op a) (os_Op b) = true.

#[global] Instance op_le_dec a b : Decision (op_le a b).
Proof. unfold op_le. apply _. Defined.

Definition stat_of (kr : bytes * opRow) : OpStat :=
  mkOpStat kr.1 (row_calls kr.2) (row_errors kr.2) (row_duration kr.2).

(** The names are distinct, so every sort gives this list. *)
Definition Snapshot `{MapRange} (m : rows) : list OpStat :=
  merge_sort op_le (stat_of <$> range_order (map_to_list m)).

(** ** What was observed is what is reported *)

Definition observation : Type := bytes * Z * bool.

Definition observe_all (obs : list observation) (m : rows) : rows :=
  foldl (fun m o => Observe o.1.1 o.1.2 o.2 m) m obs.

Definition of_op (op : bytes) (obs : list observation) : list observation :=
  filter (fun o => o.1.1 = op) obs.

Definition total (obs : list observation) : Z := foldr (fun o n => o.1.2 + n) 0 obs.
Definition failed (obs : list observation) : list observation := filter (fun o => o.2 = true) obs.

Lemma i64_add_l x y : i64 (i64 x + y) = i64 (x + y).
Proof.
  unfold i64. replace ((x + 2 ^ 63) mod 2 ^ 64 - 2 ^ 63 + y + 2 ^ 63) with ((x + 2 ^ 63) mod 2 ^ 64 + y) by lia.
  rewrite Z.add_mod_idemp_l by lia. do 2 f_equal. lia.
Qed.

Definition row_of (obs : list observation) : opRow :=
  mkRow (i64 (blen obs)) (i64 (blen (failed obs))) (i64 (total obs)).

Lemma total_app a b : total (a ++ b) = total a + total b.
Proof. unfold total. induction a as [|o a IH]; cbn; lia. Qed.

Lemma of_op_snoc op obs o :
  of_op op (obs ++ [o]) = if decide (o.1.1 = op) then of_op op obs ++ [o] else of_op op obs.
Proof.
  unfold of_op. rewrite filter_app, filter_cons, filter_nil. destruct (decide (o.1.1 = op)); [done|]. by rewrite app_nil_r.
Qed.

Lemma row_of_snoc obs o :
  row_of (obs ++ [o]) = mkRow (i64 (row_calls (row_of obs) + 1))
    (if o.2 then i64 (row_errors (row_of obs) + 1) else row_errors (row_of obs)) (i64 (row_duration (row_of obs) + o.1.2)).
Proof.
  unfold row_of, failed. cbn [row_calls row_errors row_duration].
  rewrite filter_app, filter_cons, filter_nil, !i64_add_l, total_app, blen_app. unfold total at 2. cbn [foldr].
  rewrite Z.add_0_r. destruct o as [[op d] []]; cbn [snd fst]; [|by rewrite app_nil_r]. by rewrite blen_app.
Qed.

(** The row of an operation counts its observations. *)
Lemma observe_all_row obs op :
  observe_all obs NewMetrics !! op =
    match of_op op obs with [] => None | _ => Some (row_of (of_op op obs)) end.
Proof.
  induction obs as [|o obs IH] using rev_ind; [done|].
  assert (observe_all (obs ++ [o]) NewMetrics = Observe o.1.1 o.1.2 o.2 (observe_all obs NewMetrics)) as ->
    by (unfold observe_all; by rewrite foldl_app).
  generalize dependent (observe_all obs NewMetrics). intros m IH. unfold Observe, row. rewrite of_op_snoc.
  destruct (decide (o.1.1 = op)) as [<-|Hne]; [|by rewrite lookup_insert_ne].
  rewrite lookup_insert_eq, IH. set (l := of_op o.1.1 obs).
  assert (default (mkRow 0 0 0) (match l with [] => None | _ => Some (row_of l) end) = row_of l) as -> by (by destruct l).
  rewrite <-row_of_snoc. by destruct l.
Qed.

Section Snapshot.
Context `{MapRange}.

Lemma op_le_trans a b c : op_le a b -> op_le b c -> op_le a c.
Proof. unfold op_le. apply lex_le_trans. Qed.

Lemma op_le_total a b : op_le a b \/ op_le b a.
Proof.
  unfold op_le, lex_le. rewrite !negb_true_iff. destruct (lex_lt (os_Op b) (os_Op a)) eqn:E; [right; by apply lex_lt_asym|by left].
Qed.

Lemma elem_of_Snapshot m st : st ∈ Snapshot m <-> exists r, m !! os_Op st = Some r /\ st = stat_of (os_Op st, r).
Proof.
  unfold Snapshot. rewrite merge_sort_Permutation, list_elem_of_fmap. split.
  - intros ([k r] & -> & Hin). rewrite range_perm, elem_of_map_to_list in Hin. by exists r.
  - intros (r & Hr & E). exists (os_Op st, r). split; [done|]. by rewrite range_perm, elem_of_map_to_list.
Qed.

Lemma Snapshot_sorted m : StronglySorted (fun a b => lex_lt (os_Op a) (os_Op b) = true) (Snapshot m).
Proof.
  assert (NoDup (os_Op <$> Snapshot m)) as Hnd.
  { unfold Snapshot. rewrite merge_sort_Permutation, range_perm, <-list_fmap_compose. apply NoDup_fst_map_to_list. }
  assert (StronglySorted op_le (Snapshot m)) as Hs
    by (apply StronglySorted_merge_sort; [intros a b c; apply op_le_trans|intros a b; apply op_le_total]).
  revert Hnd. induction Hs as [|a l Hs IH Hf]; intros Hnd; [constructor|].
  rewrite fmap_cons in Hnd. apply NoDup_cons in Hnd as [Ha Hnd]. constructor; [by apply IH|].
  apply Forall_forall. intros b Hb. eapply Forall_forall in Hf; [|exact Hb]. unfold op_le, lex_le in Hf.
  apply negb_true_iff in Hf. destruct (lex_lt (os_Op a) (os_Op b)) eqn:E; [done|].
  destruct Ha. rewrite (lex_lt_total _ _ E Hf). by apply list_elem_of_fmap_2.
Qed.

End Snapshot.
