(* ===== verification/Fuse.v ===== *)
(** * The kernel protocol (src/fuselayer/fuselayer.go)

    Each callback translates its arguments, calls the store, and replies with
    an errno, 0 being success, and with attributes, bytes or a handle.  A node
    or handle is the inode it stands for.  go-fuse is not part of the
    repository: what its accessors return is an argument, and a reply is the
    value handed back to it.

    Spans and the log of slow operations have no effect here. *)

From S2P Require Import Prelude Keys Kv Gostr Segment Layer Index Node Coalescer Store Handle Metrics.

(** ** Errors *)

Definition EIO : Z := 5.
Definition EINVAL : Z := 22.

(** [errors.As(err, *syscall.Errno)], through the chain of wrapped errors. *)
Fixpoint as_errno (e : error) : option Z :=
  match e with
  | Errno n => Some n
  | ErrWrap _ e => as_errno e
  | _ => None
  end.

Definition errno (e : error) : Z := match as_errno e with Some n => n | None => EIO end.

(** ** Attributes *)

Record FuseAttr : Type := mkFuseAttr {
  fa_Mode : Z; fa_Size : Z; fa_Uid : Z; fa_Gid : Z;
  fa_Mtime : Z; fa_Mtimensec : Z;
  fa_Ctime : Z; fa_Ctimensec : Z;
  fa_Atime : Z; fa_Atimensec : Z;
  fa_Nlink : Z; fa_Blksize : Z; fa_Blocks : Z;
}.

(** [uint64(t / 1e9)] and [uint32(t % 1e9)]: Go's division truncates. *)
Definition time_sec (t : Z) : Z := u64 (Z.quot t 1000000000).
Definition time_nsec (t : Z) : Z := u32 (Z.rem t 1000000000).

Definition fillAttr (n : Node) : FuseAttr :=
  let size := u64 (nd_Size n) in
  mkFuseAttr (u32 (nd_Mode n)) size (nd_UID n) (nd_GID n)
    (time_sec (nd_Mtime n)) (time_nsec (nd_Mtime n))
    (time_sec (nd_Ctime n)) (time_nsec (nd_Ctime n))
    (time_sec (nd_Atime n)) (time_nsec (nd_Atime n))
    (if IsDir (nd_Mode n) then 2 else if 0 <? nd_Nlink n then nd_Nlink n else 1)
    4096 (u64 (size + 511) / 512).

Record StableAttr : Type := mkStableAttr { sb_Mode : Z; sb_Ino : Z; sb_Gen : Z }.

Definition stableAttr (n : Node) : StableAttr := mkStableAttr (Z.land (u32 (nd_Mode n)) ModeMask) (nd_Inode n) 1.

(** What a lookup or creation hands to the kernel: the attributes, and the
    inode with its stable part. *)
Definition entry_of (n : Node) : FuseAttr * StableAttr := (fillAttr n, stableAttr n).

(** The accessors of [fuse.SetAttrIn]: a time is its seconds and nanoseconds. *)
Record SetAttrIn : Type := mkSetAttrIn {
  in_Mode : option Z;
  in_UID : option Z;
  in_GID : option Z;
  in_Size : option Z;
  in_MTime : option (Z * Z);
  in_ATime : option (Z * Z);
}.

(** [Time.UnixNano] *)
Definition UnixNano (t : Z * Z) : Z := i64 (t.1 * 1000000000 + t.2).

Definition setattr_of (a : SetAttrIn) : SetAttr :=
  mkSetAttr (in_Mode a) (in_UID a) (in_GID a) (i64 <$> in_Size a) (UnixNano <$> in_MTime a) (UnixNano <$> in_ATime a).

(** [fuse.FromContext]: the caller's ids, when there is one. *)
Definition callerCreds (c : option (Z * Z)) : Z * Z := default (0, 0) c.

Record FuseDirEntry : Type := mkFuseDirEntry { fd_Name : bytes; fd_Ino : Z; fd_Mode : Z }.

Definition fuse_dirent (e : DirEntry) : FuseDirEntry :=
  mkFuseDirEntry (de_Name e) (de_Inode e) (Z.land (u32 (de_Mode e)) ModeMask).

(** [syscall.Statfs_t], as the kernel filled it. *)
Record Statfs_t : Type := mkStatfs_t { sf_Bsize : Z; sf_Blocks : Z; sf_Bfree : Z; sf_Bavail : Z }.
Record StatfsOut : Type := mkStatfsOut { so_Bsize : Z; so_Blocks : Z; so_Bfree : Z; so_Bavail : Z; so_NameLen : Z }.

(** [Store.Statfs], given what the system call returns. *)
Definition Statfs (st : outcome Statfs_t) : outcome Statfs_t :=
  let? st := st in Ok (mkStatfs_t (u32 (sf_Bsize st)) (sf_Blocks st) (sf_Bfree st) (sf_Bavail st)).

Section Fuse.
Context {P S W : Type} `{Pebble P} `{SegLayer S} `{MapRange} `{Semaphore W}.

Abbreviation St := (Store P S W).

(** ** A mount: the store, its counters, and the clock that times operations *)

Record Mount : Type := mkMount {
  mt_store : St;
  mt_metrics : option Metrics;
  mt_clock : nat -> Z;
}.

Definition with_store (s : St) (m : Mount) : Mount := mkMount s (mt_metrics m) (mt_clock m).
Definition on_mount {A} (c : M St A) : M Mount A := zoom mt_store with_store c.

Definition mount_now : M Mount Z := fun m =>
  (Ok (mt_clock m 0%nat), mkMount (mt_store m) (mt_metrics m) (fun n => mt_clock m (Datatypes.S n))).

Definition observe (op : bytes) (d : Z) (isErr : bool) : M Mount unit :=
  modify (fun m => mkMount (mt_store m) (Observe op d isErr <$> mt_metrics m) (mt_clock m)).

(** An operation replies with a value and errno 0, or with an errno. *)
Definition trackOp {A} (op : bytes) (fn : M St A) : M Mount (option A * Z) :=
  let* start := mount_now in
  let* r := try (on_mount fn) in
  let e := match r with Err err => errno err | _ => 0 end in
  let* fin := mount_now in
  let* _ := observe op (i64 (fin - start)) (negb (e =? 0)) in
  ret (match r with Ok a => Some a | _ => None end, e).

(** ** Nodes *)

Definition node_entry (m : M St Node) : M St (FuseAttr * StableAttr) := let* n := m in ret (entry_of n).

Definition node_Lookup (inode : Z) (name : bytes) : M Mount (option (FuseAttr * StableAttr) * Z) :=
  trackOp (str "lookup") (node_entry (Lookup inode name)).

Definition node_Getattr (inode : Z) : M Mount (option FuseAttr * Z) :=
  trackOp (str "getattr") (let* n := Stat inode in ret (fillAttr n)).

Definition node_Setattr (inode : Z) (a : SetAttrIn) : M Mount (option FuseAttr * Z) :=
  trackOp (str "setattr") (let* n := Setattr inode (setattr_of a) in ret (fillAttr n)).

(** With the entry comes a handle on the new inode. *)
Definition node_Create (creds : option (Z * Z)) (inode : Z) (name : bytes) (flags mode : Z)
    : M Mount (option (FuseAttr * StableAttr) * Z) :=
  trackOp (str "create")
    (let '(uid, gid) := callerCreds creds in node_entry (Create inode name mode uid gid)).

Definition node_Open (inode flags : Z) : M Mount (option Z * Z) := trackOp (str "open") (OpenInode inode).

Definition node_Mkdir (creds : option (Z * Z)) (inode : Z) (name : bytes) (mode : Z)
    : M Mount (option (FuseAttr * StableAttr) * Z) :=
  trackOp (str "mkdir")
    (let '(uid, gid) := callerCreds creds in node_entry (Mkdir inode name mode uid gid)).

Definition node_Unlink (inode : Z) (name : bytes) : M Mount (option unit * Z) := trackOp (str "unlink") (Unlink inode name).
Definition node_Rmdir (inode : Z) (name : bytes) : M Mount (option unit * Z) := trackOp (str "rmdir") (Rmdir inode name).

(** [newParent] is [None] when it is no node of this layer; [flags] is not looked at. *)
Definition node_Rename (inode : Z) (name : bytes) (newParent : option Z) (newName : bytes) (flags : Z)
    : M Mount (option unit * Z) :=
  trackOp (str "rename")
    match newParent with
    | None => throw (Errno EINVAL)
    | Some np => Rename inode name np newName
    end.

Definition node_Symlink (creds : option (Z * Z)) (inode : Z) (target name : bytes)
    : M Mount (option (FuseAttr * StableAttr) * Z) :=
  trackOp (str "symlink")
    (let '(uid, gid) := callerCreds creds in node_entry (Symlink inode name target uid gid)).

Definition node_Readlink (inode : Z) : M Mount (option bytes * Z) := trackOp (str "readlink") (Readlink inode).

Definition node_Link (inode : Z) (target : option Z) (name : bytes) : M Mount (option (FuseAttr * StableAttr) * Z) :=
  trackOp (str "link")
    match target with
    | None => throw (Errno EINVAL)
    | Some tgt => node_entry (Link tgt inode name)
    end.

Definition node_Readdir (inode : Z) : M Mount (option (list FuseDirEntry) * Z) :=
  trackOp (str "readdir") (let* es := Readdir inode in ret (fuse_dirent <$> es)).

Definition node_Statfs (st : outcome Statfs_t) : M Mount (option StatfsOut * Z) :=
  trackOp (str "statfs")
    (let* st := of_outcome (Statfs st) in
     ret (mkStatfsOut (sf_Bsize st) (sf_Blocks st) (sf_Bfree st) (sf_Bavail st) 255)).

(** ** Handles *)

Definition handle_Read (inode : Z) (dest : bytes) (off : Z) : M Mount (option bytes * Z) :=
  trackOp (str "read") (let* np := Handle_ReadAtCtx inode dest off in ret (slice np.2 0 np.1)).

Definition handle_Write (inode : Z) (data : bytes) (off : Z) : M Mount (option Z * Z) :=
  trackOp (str "write") (let* n := WriteAtCtx inode data off in ret (u32 n)).

Definition handle_Flush : M Mount Z := ret 0.

Definition handle_Fsync (inode : Z) : M Mount (option unit * Z) := trackOp (str "fsync") (Handle_SyncCtx inode).

(** [Handle.Close] *)
Definition Handle_Close : M St unit := ret tt.

Definition handle_Release (inode : Z) : M Mount (option unit * Z) := trackOp (str "release") Handle_Close.
End Fuse.
Arguments Mount : clear implicits.
