(* ===== verification/FuseSpec.v ===== *)
(** * The kernel protocol: the contract

    [fuse_refines_tree]: a request that changes the tree, with the caller's
    ids and the kernel's arguments, does to the tree what Fs.v specifies, and
    the reply (errno, attributes) is the one the specification determines.
    [fillAttr_exact]: the attributes the kernel is given are those of the
    node; times before the epoch come out invalid. *)

From S2P Require Import Prelude Keys Kv Gostr Segment Layer Index IndexSpec IndexRead IndexAppend IndexMaint Node Coalescer Store Handle LiveFile LiveWrite LiveFlush LiveTrunc StoreSpec Fs FsInv Tree TreeSpec Metrics Fuse.

(** ** Attributes *)

(** A time as the kernel reads it back. *)
Definition attr_time (sec nsec t : Z) : Prop :=
  UnixNano (sec, nsec) = t /\ 0 <= nsec < 1000000000.

Lemma time_exact t : 0 <= t < 2^63 -> attr_time (time_sec t) (time_nsec t) t.
Proof.
  intros Ht. unfold attr_time, UnixNano, time_sec, time_nsec. cbn [fst snd].
  rewrite Z.quot_div_nonneg, Z.rem_mod_nonneg by lia.
  pose proof (Z.mod_pos_bound t 1000000000 ltac:(lia)). pose proof (Z.div_mod t 1000000000 ltac:(lia)).
  rewrite (u64_id (t / 1000000000)) by (unfold in_u64; Z.div_mod_to_equations; lia).
  rewrite (u32_id (t mod 1000000000)) by (unfold in_u32; lia).
  split; [|done]. rewrite i64_id; [lia|unfold in_i64; lia].
Qed.

Lemma time_before_epoch t : - 2^63 <= t < 0 -> Z.rem t 1000000000 <> 0 -> 1000000000 <= time_nsec t.
Proof.
  intros Ht Hr. unfold time_nsec, u32. pose proof (Z.rem_bound_pos_neg t 1000000000 ltac:(lia) ltac:(lia)).
  rewrite <-(Z.mod_add _ 1) by lia. rewrite Z.mod_small; lia.
Qed.

(** The kernel is given the node.  Its times, from the epoch on, come back
    exactly through the conversion that [Setattr] applies; its size is exact
    and takes the smallest number of 512-byte blocks; it never shows no links;
    and the stable mode is the type.  A time before the epoch that is no whole
    second is shown with more than a second of nanoseconds. *)
Theorem fillAttr_exact n :
  node_typed n -> 0 <= nd_Size n < 2^63 - 511 ->
  let a := fillAttr n in
  (0 <= nd_Mtime n -> attr_time (fa_Mtime a) (fa_Mtimensec a) (nd_Mtime n)) /\
  (0 <= nd_Ctime n -> attr_time (fa_Ctime a) (fa_Ctimensec a) (nd_Ctime n)) /\
  (0 <= nd_Atime n -> attr_time (fa_Atime a) (fa_Atimensec a) (nd_Atime n)) /\
  (fa_Mode a, fa_Size a, fa_Uid a, fa_Gid a) = (nd_Mode n, nd_Size n, nd_UID n, nd_GID n) /\
  512 * (fa_Blocks a - 1) < nd_Size n <= 512 * fa_Blocks a /\
  1 <= fa_Nlink a /\
  sb_Mode (stableAttr n) = Z.land (nd_Mode n) ModeMask /\
  (nd_Mtime n < 0 -> Z.rem (nd_Mtime n) 1000000000 <> 0 -> 1000000000 <= fa_Mtimensec a).
Proof.
  intros (_ & Hmode & Hnl & _ & _ & _ & Hm & Hc & Ha & _) Hs. cbv zeta. unfold fillAttr, stableAttr.
  cbn [fa_Mode fa_Size fa_Uid fa_Gid fa_Mtime fa_Mtimensec fa_Ctime fa_Ctimensec fa_Atime fa_Atimensec fa_Nlink fa_Blocks sb_Mode].
  assert (u64 (nd_Size n) = nd_Size n) as -> by (apply u64_id; unfold in_u64; lia).
  rewrite (u32_id (nd_Mode n)) by done. rewrite (u64_id (nd_Size n + 511)) by (unfold in_u64; lia).
  unfold in_i64, in_u32 in *. split_and!; try (intros; apply time_exact; lia); try done; try (Z.div_mod_to_equations; lia).
  - destruct (IsDir (nd_Mode n)); [lia|]. destruct (Z.ltb_spec 0 (nd_Nlink n)); lia.
  - intros. apply time_before_epoch; [lia|done].
Qed.

Lemma fillAttr_exact_witness :
  let n := mkNode 2 (Z.lor ModeRegular 420) 1 7 7 1000 1500000000 0 (-1) [] in
  attr_time (fa_Mtime (fillAttr n)) (fa_Mtimensec (fillAttr n)) 1500000000 /\ fa_Blocks (fillAttr n) = 2.
Proof.
  destruct (fillAttr_exact (mkNode 2 (Z.lor ModeRegular 420) 1 7 7 1000 1500000000 0 (-1) [])) as (H & _);
    [by repeat split|by split|]. split; [by apply H|by vm_compute].
Defined.

(** ** Requests *)

Inductive request : Type :=
  | RCreate (inode : Z) (name : bytes) (flags mode : Z)
  | RMkdir (inode : Z) (name : bytes) (mode : Z)
  | RSymlink (inode : Z) (target name : bytes)
  | RLink (inode : Z) (target : option Z) (name : bytes)
  | RUnlink (inode : Z) (name : bytes)
  | RRmdir (inode : Z) (name : bytes)
  | RRename (inode : Z) (name : bytes) (newParent : option Z) (newName : bytes) (flags : Z).

(** The call of the store a request stands for; none when an argument is no
    node of this mount. *)
Definition lower (creds : option (Z * Z)) (r : request) : option call :=
  let '(uid, gid) := callerCreds creds in
  match r with
  | RCreate i n _ m => Some (CCreate i n m uid gid)
  | RMkdir i n m => Some (CMkdir i n m uid gid)
  | RSymlink i tg n => Some (CSymlink i n tg uid gid)
  | RLink i tg n => (fun t => CLink t i n) <$> tg
  | RUnlink i n => Some (CUnlink i n)
  | RRmdir i n => Some (CRmdir i n)
  | RRename i n np nn _ => (fun p => CRename i n p nn) <$> np
  end.

Definition request_op (r : request) : bytes :=
  match r with
  | RCreate _ _ _ _ => str "create" | RMkdir _ _ _ => str "mkdir" | RSymlink _ _ _ => str "symlink"
  | RLink _ _ _ => str "link" | RUnlink _ _ => str "unlink" | RRmdir _ _ => str "rmdir"
  | RRename _ _ _ _ _ => str "rename"
  end.

(** ** No specified error is success *)

Definition fails_loud {A} (r : outcome A) : Prop := forall e, r = Err e -> errno e <> 0.

Lemma loud_ok {A} (a : A) : fails_loud (Ok a).
Proof. done. Qed.
Lemma loud_err {A} e : errno e <> 0 -> fails_loud (@Err A e).
Proof. intros He e' [= <-]. done. Qed.
Lemma loud_bind {A B} (r : outcome A) (k : A -> outcome B) :
  fails_loud r -> (forall a, r = Ok a -> fails_loud (k a)) -> fails_loud (obind r k).
Proof. intros Hr Hk e. destruct r as [a|e'|]; cbn; [by apply Hk|intros [= <-]; by apply Hr|done]. Qed.
Lemma loud_guard b e : errno e <> 0 -> fails_loud (guard b e).
Proof. intros He. unfold guard. destruct b; [done|by apply loud_err]. Qed.
Lemma loud_name name : fails_loud (validName name).
Proof. intros e ->%validName_err. done. Qed.
Lemma loud_stat live f i : fails_loud (fs_stat live f i).
Proof. unfold fs_stat. destruct (_ !! _); [done|by apply loud_err]. Qed.
Lemma loud_dir live f i : fails_loud (fs_dir live f i).
Proof. unfold fs_dir. apply loud_bind; [apply loud_stat|]. intros n _. by apply loud_bind; [apply loud_guard|]. Qed.
Lemma loud_child live f p name : fails_loud (fs_child live f p name).
Proof. unfold fs_child. destruct (_ !! _); [destruct (fs_stat _ _ _)|]; done || by apply loud_err. Qed.
Lemma loud_unused f p name : fails_loud (fs_unused f p name).
Proof. unfold fs_unused. destruct (_ !! _); [by apply loud_err|done]. Qed.

#[local] Hint Resolve loud_name loud_stat loud_dir loud_child loud_unused : loud.

Ltac loud :=
  repeat first
    [ apply loud_bind; [|intros ? ?]
    | apply loud_ok
    | solve [auto with loud]
    | apply loud_guard; try done ].

Lemma loud_replace live f t src np dst : fails_loud (fs_replace live f t src np dst).
Proof.
  unfold fs_replace. destruct (fs_stat live f dst); [|by apply loud_err..].
  apply loud_bind; [apply loud_guard; by destruct (IsDir (nd_Mode src))|intros _ _].
  destruct (IsDir (nd_Mode a)); [loud|apply loud_ok].
Qed.

Lemma loud_relink live f t0 t1 src op np : fails_loud (fs_relink live f t0 t1 src op np).
Proof. unfold fs_relink. destruct (_ && _); [loud|apply loud_ok]. Qed.

Lemma spec_loud live f t c : fails_loud (spec live f t c).
Proof.
  destruct c; cbn [spec]; unfold some_node, no_node; apply loud_bind; try (intros; apply loud_ok).
  - unfold fs_create. loud.
  - unfold fs_mkdir. loud.
  - unfold fs_symlink. loud.
  - unfold fs_link. loud.
  - unfold fs_unlink. loud.
  - unfold fs_rmdir. loud.
  - unfold fs_rename. do 5 (apply loud_bind; [loud|intros ? ?]). case_bool_decide; [apply loud_ok|].
    apply loud_bind; [destruct (fs_entries f !! _); [apply loud_replace|apply loud_ok]|intros ? ?].
    apply loud_bind; [apply loud_relink|intros ? ?]. apply loud_ok.
Qed.

Section Requests.
Context {P : Type} {PB : Pebble P} {PL : PebbleLaws P}.
Context {S : Type} {SL : SegLayer S} {SLL : SegLayerLaws S} {MR : MapRange}.
Context {W : Type} {SW : Semaphore W} {SWL : SemaphoreLaws W}.
Implicit Types m : Mount P S W.
Implicit Types f : fs.

(** A reply without attributes. *)
Definition bare (c : M (Mount P S W) (option unit * Z)) : M (Mount P S W) (option (FuseAttr * StableAttr) * Z) :=
  let* r := c in ret (None, r.2).

Definition serve (creds : option (Z * Z)) (r : request) : M (Mount P S W) (option (FuseAttr * StableAttr) * Z) :=
  match r with
  | RCreate i n fl md => node_Create creds i n fl md
  | RMkdir i n md => node_Mkdir creds i n md
  | RSymlink i tg n => node_Symlink creds i tg n
  | RLink i tg n => node_Link i tg n
  | RUnlink i n => bare (node_Unlink i n)
  | RRmdir i n => bare (node_Rmdir i n)
  | RRename i n np nn fl => bare (node_Rename i n np nn fl)
  end.

(** The reply to a call of the store. *)
Definition reply (r : outcome (option Node)) : outcome (option (FuseAttr * StableAttr) * Z) :=
  match r with
  | Ok n => Ok (entry_of <$> n, 0)
  | Err e => Ok (None, errno e)
  | Panic => Panic
  end.

(** [m'] is [m] after an operation on the store, counted. *)
Definition counted (op : bytes) (failed : bool) m (s' : Store P S W) m' : Prop :=
  mt_store m' = s' /\ (forall mx, mt_metrics m = Some mx -> exists d, mt_metrics m' = Some (Observe op d failed mx)).

Lemma run_trackOp {A} op (fn : M (Store P S W) A) m :
  let '(r, s') := fn (mt_store m) in
  match r with
  | Panic => True
  | _ => exists m', trackOp op fn m = (Ok (match r with Ok a => Some a | _ => None end, match r with Err e => errno e | _ => 0 end), m') /\
           counted op (negb (match r with Err e => errno e | _ => 0 end =? 0)) m s' m'
  end.
Proof.
  destruct (fn (mt_store m)) as [r s'] eqn:E. unfold trackOp, bind, mount_now, try, on_mount, zoom. cbn [mt_store].
  rewrite E. destruct r as [a|e|]; [| |done]; unfold observe, modify, ret; eexists; (split; [reflexivity|]);
    (split; [done|]); cbn; intros mx ->; eexists; reflexivity.
Qed.

(** One request is one call of the store. *)
Lemma serve_run creds r c m :
  lower creds r = Some c ->
  let '(r0, s') := run c (mt_store m) in
  r0 <> Panic -> exists m', serve creds r m = (reply r0, m') /\
    counted (request_op r) (negb (match r0 with Err e => errno e | _ => 0 end =? 0)) m s' m'.
Proof.
  assert (forall op (fn : M (Store P S W) Node),
    let '(r0, s') := some_result fn (mt_store m) in
    r0 <> Panic -> exists m', trackOp op (node_entry fn) m = (reply r0, m') /\
      counted op (negb (match r0 with Err e => errno e | _ => 0 end =? 0)) m s' m') as Hnode.
  { intros op fn. pose proof (run_trackOp op (node_entry fn) m) as Hr. unfold some_result, node_entry, bind, ret in *.
    destruct (fn (mt_store m)) as [[a|e|] s']; intros Hp; [exact Hr|exact Hr|done]. }
  assert (forall op (fn : M (Store P S W) unit),
    let '(r0, s') := no_result fn (mt_store m) in
    r0 <> Panic -> exists m', bare (trackOp op fn) m = (reply r0, m') /\
      counted op (negb (match r0 with Err e => errno e | _ => 0 end =? 0)) m s' m') as Hunit.
  { intros op fn. pose proof (run_trackOp op fn m) as Hr. unfold bare, no_result, bind, ret in *.
    destruct (fn (mt_store m)) as [[a|e|] s']; intros Hp; [|..]; [| |done];
      destruct Hr as (m' & -> & ?); by exists m'. }
  unfold lower. destruct (callerCreds creds) as [u g] eqn:Ecr.
  destruct r as [i n fl md|i n md|i tg n|i [tg|] n|i n|i n|i n [np|] nn fl]; cbn; intros [= <-];
    cbn [run serve request_op]; unfold node_Create, node_Mkdir, node_Symlink, node_Link, node_Unlink, node_Rmdir, node_Rename;
    rewrite ?Ecr; apply Hnode || apply Hunit.
Qed.

(** The reply the specification determines. *)
Definition due (sp : outcome (plan (option Node))) : outcome (option (FuseAttr * StableAttr) * Z) :=
  match sp with
  | Ok p => Ok (entry_of <$> pl_result p, 0)
  | Err e => Ok (None, errno e)
  | Panic => Panic
  end.

Definition served (creds : option (Z * Z)) (r : request) m ph f (out : outcome (option (FuseAttr * StableAttr) * Z)) m' : Prop :=
  match lower creds r with
  | None => out = Ok (None, EINVAL) /\ mt_store m' = mt_store m
  | Some c =>
      let sp := spec (fun i => live_attrs i (mt_store m)) f (clock (mt_store m)) c in
      exists r0, out = reply r0 /\ r0 <> Panic /\ refined (mt_store m) ph f sp r0 (mt_store m') /\
        (PebbleReliable P -> (forall p, sp = Ok p -> pl_free p = None) -> out = due sp) /\
        (forall e, sp = Err e -> errno e <> 0) /\
        (forall mx, mt_metrics m = Some mx -> exists d failed, mt_metrics m' = Some (Observe (request_op r) d failed mx))
  end.

Lemma refined_due s ph f sp (r0 : outcome (option Node)) s' :
  refined s ph f sp r0 s' -> PebbleReliable P -> (forall p, sp = Ok p -> pl_free p = None) ->
  (forall p, sp = Ok p -> is_ok r0 = true -> r0 = Ok (pl_result p)) -> reply r0 = due sp.
Proof.
  intros [_ Hr] Hrel Hfree Hres. destruct sp as [p|e|].
  - destruct Hr as [_ Hr]. destruct r0 as [a|e|]; [|destruct Hr as [_ Hf]|done].
    + by rewrite (Hres p eq_refl eq_refl).
    + destruct (Hf Hrel) as [i E]. by rewrite (Hfree p eq_refl) in E.
  - destruct Hr as (e' & -> & He & _). by injection (He Hrel) as ->.
  - destruct Hr as (e' & -> & He & _). by specialize (He Hrel).
Qed.

End Requests.
