(* ===== verification/FuseExamples.v ===== *)
(** * The kernel protocol at work *)

From S2P Require Import Prelude Keys Kv Gostr Segment Layer SegmentSet Index IndexSpec IndexRead IndexAppend IndexMaint IndexRecover IndexExamples Node Coalescer Store Handle LiveFile LiveWrite LiveFlush LiveTrunc StoreSpec Fs FsInv Tree TreeSpec StoreExamples Metrics Fuse FuseSpec.

#[local] Existing Instance insertion_order.

Definition ex_mount : Mount MemDB SetSt (Z * Z) := mkMount ex_s1 (Some NewMetrics) (fun n => Z.of_nat n).
Definition ex_request : request := RCreate RootInode ex_name 0 420.

(** The reply to [open("/notes", O_CREAT, 0644)] by user 7. *)
Definition ex_entry : FuseAttr * StableAttr :=
  (mkFuseAttr 33188 0 7 7 0 1001 0 1001 0 1001 1 4096 0, mkStableAttr 32768 2 1).


(** A rejected request, with its errno, and what the counters then say. *)
Example ex_rejected :
  let '(out, m') := serve None (RRmdir RootInode ex_name) ex_mount in
  out = Ok (None, 2) /\ (Snapshot <$> mt_metrics m') = Some [mkOpStat (str "rmdir") 1 1 1].
Proof. split; by vm_compute. Qed.
