(* ===== verification/Rooted.v ===== *)
(** * The directories form a tree

    Every directory is reached from the root.  The calls keep this as long as
    no directory is more than 1000 levels deep: a rename looks that far up for
    the directory it moves, and no further.  In a deeper tree it can cut a
    loop off the root ([deep_rename_cuts_loop] in RootedSpec.v). *)

From S2P Require Import Prelude Keys Node Fs FsInv.

Implicit Types f : fs.

(** ** Depth *)

Inductive at_depth f : Z -> nat -> Prop :=
  | depth_root : at_depth f RootInode 0
  | depth_child p name c d : fs_entries f !! (p, name) = Some c -> at_depth f p d -> at_depth f c (S d).

Definition rooted f : Prop := forall i, is_dir f i -> exists d, at_depth f i d.
Definition shallow f : Prop := forall i d, is_dir f i -> at_depth f i d -> (d <= 1000)%nat.

(** [i] is [c] or lies in it. *)
Inductive below f (c : Z) : Z -> Prop :=
  | below_self : below f c c
  | below_child p name i : fs_entries f !! (p, name) = Some i -> below f c p -> below f c i.

(** ** Changes that leave the edges to directories alone *)

Lemma keep_rooted f f' :
  fs_ok f -> fs_ok f' ->
  (forall p name c, fs_entries f !! (p, name) = Some c -> is_dir f c -> is_dir f' c -> fs_entries f' !! (p, name) = Some c) ->
  (forall i, is_dir f' i -> is_dir f i \/ exists p name, fs_entries f' !! (p, name) = Some i /\ is_dir f p) ->
  rooted f -> rooted f'.
Proof.
  intros Hok Hok' He Hn Hr.
  assert (forall i d, at_depth f i d -> is_dir f i -> is_dir f' i -> exists d', at_depth f' i d') as Hold.
  { induction 1 as [|p name c d Hl Hd IH]; intros Hi Hi'; [exists O; constructor|].
    pose proof (He _ _ _ Hl Hi Hi') as Hl'. destruct IH as [d' Hd']; [by eapply entry_dir|by eapply entry_dir|].
    exists (S d'). by econstructor. }
  intros i Hi'. destruct (Hn i Hi') as [Hi|(p & name & Hl & Hp)].
  - destruct (Hr i Hi) as [d Hd]. by eapply Hold.
  - destruct (Hr p Hp) as [d Hd]. destruct (Hold p d Hd Hp) as [d' Hd']; [by eapply (entry_dir f' Hok')|].
    exists (S d'). by econstructor.
Qed.

(** The kinds of nodes after changes. *)
Lemma is_dir_back f o i :
  is_dir (apply_fop f o) i -> is_dir f i \/ exists n, o = FNode n /\ nd_Inode n = i /\ IsDir (nd_Mode n) = true.
Proof.
  intros (n & Hn & Hd). destruct o as [m|j|p nm c|p nm|x]; cbn in Hn; unfold is_dir; [| |eauto..].
  - apply lookup_insert_Some in Hn as [[<- <-]|[_ Hn]]; eauto.
  - apply lookup_delete_Some in Hn as [_ Hn]. eauto.
Qed.

Lemma is_dir_back_all ops : forall f i,
  is_dir (apply_fops ops f) i -> is_dir f i \/ exists n, FNode n ∈ ops /\ nd_Inode n = i /\ IsDir (nd_Mode n) = true.
Proof.
  induction ops as [|o ops IH]; intros f i H; [by left|]. cbn [apply_fops foldl] in H.
  destruct (IH _ _ H) as [H1|(n & Hn & ? & ?)]; [|right; exists n; split; [by right|done]].
  apply is_dir_back in H1 as [|(n & -> & ? & ?)]; [by left|right; exists n; split; [by left|done]].
Qed.

Section Calls.
Context (live : Z -> option (Z * Z)) (t : nat -> Z) (f : fs) (Hok : fs_ok f).

Lemma stat_kind i n : fs_stat live f i = Ok n -> nd_Inode n = i /\ (IsDir (nd_Mode n) = true -> is_dir f i).
Proof.
  intros Hs. pose proof (stat_node _ _ _ _ Hs) as (n0 & Hn & Hi & Hm & _). pose proof (fo_node _ _ _ Hok _ _ Hn) as [Hi0 _].
  split; [congruence|]. intros Hd. by eapply stat_is_dir.
Qed.

Lemma not_dir_stat i n : fs_stat live f i = Ok n -> IsDir (nd_Mode n) = false -> ~ is_dir f i.
Proof. intros (n0 & Hn & _ & Hm & _)%stat_node Hd (n1 & Hn1 & Hd1). congruence. Qed.

(** A new node hangs below an old directory. *)
Lemma rooted_new parent name n more p :
  link_new f parent name n more = Ok p -> is_dir f parent -> fs_entries f !! (parent, name) = None ->
  (forall m, FNode m ∈ more -> is_dir f (nd_Inode m)) ->
  Forall node_op more -> fs_ok (apply_fops (pl_ops p) f) -> rooted f -> rooted (apply_fops (pl_ops p) f).
Proof.
  intros [= <-] Hp Hnone Hmore Hops Hok' Hr. cbn [pl_ops] in *.
  assert (fs_entries (apply_fops (FNext (u64 (fs_next f + 1)) :: FNode n :: FEntry parent name (nd_Inode n) :: more) f) =
    <[(parent, name) := nd_Inode n]> (fs_entries f)) as Ee
    by (change (fs_entries (apply_fops more (apply_fops [FNext (u64 (fs_next f + 1)); FNode n; FEntry parent name (nd_Inode n)] f)) =
      <[(parent, name) := nd_Inode n]> (fs_entries f)); by rewrite node_ops_entries).
  apply (keep_rooted f); [done|done| | |done]; rewrite Ee.
  - intros p' name' c Hl _ _. rewrite lookup_insert_ne; [done|]. intros E. by rewrite E, Hl in Hnone.
  - intros i [Hi|(m & Hm & <- & Hd)]%is_dir_back_all; [by left|].
    repeat (apply elem_of_cons in Hm as [Hm|Hm]; [first [discriminate Hm|injection Hm as ->]|]).
    + right. exists parent, name. by rewrite lookup_insert_eq.
    + left. by apply Hmore.
Qed.

(** An entry of a file, or of a directory that goes, is removed. *)
Lemma rooted_removed parent name c ops :
  fs_entries f !! (parent, name) = Some c -> Forall node_op ops ->
  (is_dir f c -> ~ is_dir (apply_fops (FRemove parent name :: ops) f) c) ->
  (forall m, FNode m ∈ ops -> IsDir (nd_Mode m) = true -> is_dir f (nd_Inode m)) ->
  fs_ok (apply_fops (FRemove parent name :: ops) f) -> rooted f -> rooted (apply_fops (FRemove parent name :: ops) f).
Proof.
  intros Hc Hops Hgone Hnodes Hok' Hr.
  assert (fs_entries (apply_fops (FRemove parent name :: ops) f) = delete (parent, name) (fs_entries f)) as Ee
    by (rewrite apply_node_ops by done; cbn [apply_fop fs_entries]; by rewrite node_ops_entries).
  apply (keep_rooted f); [done|done| | |done].
  - intros p' name' c' Hl Hd Hd'. rewrite Ee, lookup_delete_ne; [done|]. intros E. rewrite E, Hl in Hc. injection Hc as <-.
    by destruct (Hgone Hd).
  - intros i [Hi|(m & Hm & <- & Hd)]%is_dir_back_all; [by left|]. left.
    apply elem_of_cons in Hm as [Hm|Hm]; [done|]. by apply Hnodes.
Qed.

(** ** Renaming *)

(** A climb that finds nothing is right, if it went far enough. *)
Lemma climb_false c fuel : forall i d,
  at_depth f i d -> is_dir f i -> (d <= fuel)%nat -> i <> c -> fs_climb fuel f i c = false -> ~ below f c i.
Proof.
  assert (RootInode <> c -> ~ below f c RootInode) as Hroot.
  { intros Hne Hb. inversion Hb as [E|p name i Hl _ E]; [done|]. by apply (root_unlinked f Hok) in Hl. }
  induction fuel as [|fuel IH]; intros i d Hd Hi Hle Hne Hc.
  - destruct Hd; [by apply Hroot|lia].
  - cbn [fs_climb] in Hc. destruct Hd as [|p name i d Hl Hd]; [by apply Hroot|].
    assert (i <> RootInode) as Hnr by (intros ->; by apply (root_unlinked f Hok) in Hl).
    rewrite (proj2 (Z.eqb_neq _ _) Hnr) in Hc.
    destruct (fs_parent f i) as [q|] eqn:Eq; unfold fs_parent in Eq;
      destruct (list_find _ _) as [[k [[q' name'] c']]|] eqn:El; try done.
    + injection Eq as <-. apply list_find_Some in El as (Hk & Hc' & _). cbn in Hc'. subst c'. cbn [fst snd] in Hc.
      assert (fs_entries f !! (q', name') = Some i) as Hl' by (apply elem_of_map_to_list; by eapply list_elem_of_lookup_2).
      pose proof (dir_once f Hok _ _ _ _ _ Hi Hl Hl') as [= <- <-].
      destruct (Z.eqb_spec p c) as [->|Hpc]; [done|].
      intros Hb. inversion Hb as [E|p2 name2 i2 Hl2 Hb2 E]; subst; [done|].
      pose proof (dir_once f Hok _ _ _ _ _ Hi Hl Hl2) as [= <- <-].
      revert Hb2. apply (IH p d); [done|by eapply entry_dir|lia|done|done].
    + apply list_find_None in El. rewrite Forall_forall in El. by destruct (El ((p, name), i)); [apply elem_of_map_to_list|].
Qed.

(** A directory moves to where it is not below. *)
Lemma rooted_moved f' oldParent oldName newParent newName c :
  fs_ok f' -> fs_entries f !! (oldParent, oldName) = Some c -> is_dir f newParent ->
  fs_entries f' = <[(newParent, newName) := c]> (delete (oldParent, oldName) (fs_entries f)) ->
  (forall i, is_dir f' i -> is_dir f i) ->
  (forall d, fs_entries f !! (newParent, newName) = Some d -> ~ is_dir f' d) ->
  ~ below f c newParent -> rooted f -> rooted f'.
Proof.
  intros Hok' Hold Hnp Ee Hback Hgone Hnb Hr.
  assert (forall p name i, fs_entries f !! (p, name) = Some i -> is_dir f' i -> i <> c -> fs_entries f' !! (p, name) = Some i) as Hedge.
  { intros p name i Hl Hi Hne. rewrite Ee. destruct (decide ((newParent, newName) = (p, name))) as [E|E].
    - rewrite <-E in Hl. by destruct (Hgone i Hl).
    - rewrite lookup_insert_ne by done. rewrite lookup_delete_ne; [done|]. intros E2. rewrite E2 in Hold. congruence. }
  assert (forall i d, at_depth f i d -> is_dir f' i -> ~ below f c i -> exists d', at_depth f' i d') as Hout.
  { induction 1 as [|p name i d Hl Hd IH]; intros Hi Hb; [exists O; constructor|].
    pose proof (Hedge _ _ _ Hl Hi ltac:(intros ->; apply Hb; constructor)) as Hl'.
    destruct IH as [d' Hd']; [by eapply entry_dir|intros Hp; apply Hb; by econstructor|]. exists (S d'). by econstructor. }
  assert (fs_entries f' !! (newParent, newName) = Some c) as Hnew by (by rewrite Ee, lookup_insert_eq).
  assert (exists d, at_depth f' c d) as [dc Hdc].
  { destruct (Hr newParent Hnp) as [d Hd]. destruct (Hout newParent d Hd) as [d' Hd']; [by eapply entry_dir|done|].
    exists (S d'). by econstructor. }
  assert (forall i d, at_depth f i d -> is_dir f' i -> exists d', at_depth f' i d') as Hall.
  { induction 1 as [|p name i d Hl Hd IH]; intros Hi; [exists O; constructor|].
    destruct (decide (i = c)) as [->|Hne]; [by exists dc|].
    pose proof (Hedge _ _ _ Hl Hi Hne) as Hl'. destruct IH as [d' Hd']; [by eapply entry_dir|]. exists (S d'). by econstructor. }
  intros i Hi. destruct (Hr i (Hback i Hi)) as [d Hd]. by eapply Hall.
Qed.

(** What a rename replaces has gone, if it is a directory, and makes no new one. *)
Lemma replaced_gone src newParent newName d rep free k f' :
  fs_entries f !! (newParent, newName) = Some d ->
  fs_replace live f t src newParent d = Ok (rep, free, k) ->
  Forall node_op rep /\
  (forall m, FNode m ∈ rep -> IsDir (nd_Mode m) = true -> is_dir f (nd_Inode m)) /\
  (IsDir (nd_Mode src) = false -> ~ is_dir f d) /\
  (is_dir f d -> (forall i, fs_nodes (apply_fops (FRemove newParent newName :: rep) f) !! i = None -> fs_nodes f' !! i = None) ->
     ~ is_dir f' d).
Proof.
  intros He H. unfold fs_replace in H. destruct (fs_stat live f d) as [dn| |] eqn:Es; [|done..].
  pose proof (stat_kind _ _ Es) as [_ Hkind]. pose proof (not_dir_stat _ _ Es) as Hfile.
  destruct (Bool.eqb _ _) eqn:Ek; [|done]. apply Bool.eqb_prop in Ek. cbn [guard obind] in H.
  destruct (IsDir (nd_Mode dn)) eqn:Ed.
  - destruct (fs_empty f d) eqn:Em; [|done]. cbn [guard obind] in H.
    destruct (fs_stat live f newParent) as [np| |] eqn:Enp; [|done..]. injection H as <- <- <-.
    destruct (stat_kind _ _ Enp) as [Hi Hd]. split_and!; [by repeat constructor| |congruence|].
    + intros m [Hm|[Hm|Hm%elem_of_nil]%elem_of_cons]%elem_of_cons; [done| |done]. injection Hm as ->.
      cbn [add_links set_Ctime set_Nlink nd_Inode nd_Mode]. intros. rewrite Hi. by apply Hd.
    + intros _ Hn (n & Hn' & _). rewrite Hn in Hn'; [done|]. cbn. rewrite Hi.
      pose proof (empty_dir f _ _ _ _ Em He) as Hne. by rewrite lookup_insert_ne, lookup_delete_eq.
  - destruct (unlink_node d (t O) dn) as [o fr] eqn:Eu. injection H as <- <- <-. unfold unlink_node in Eu.
    split_and!; [apply Forall_singleton; by case_match; injection Eu as <- <-| |by intros _; apply Hfile|by intros Hd; destruct (Hfile eq_refl Hd)].
    intros m Hm Hd. cbn [fst] in Hm. apply list_elem_of_singleton in Hm. subst o. case_match; injection Eu; intros; subst; try done.
    cbn [add_links set_Ctime set_Nlink nd_Mode] in Hd. congruence.
Qed.

Lemma relink_dirs_back t0 t1 src oldParent newParent l :
  fs_relink live f t0 t1 src oldParent newParent = Ok l -> is_dir f oldParent -> is_dir f newParent ->
  Forall node_op l /\ forall m, FNode m ∈ l -> is_dir f (nd_Inode m).
Proof.
  intros H Hop Hnp. pose proof (relink_dirs live f Hok _ _ _ _ _ _ H Hop Hnp) as Hl. split.
  - apply Forall_forall. intros o Ho. by destruct (Hl o Ho) as (n & -> & _).
  - intros m Hm. destruct (Hl _ Hm) as (n & [= <-] & _ & [->| ->]); done.
Qed.

Lemma rooted_rename oldParent oldName newParent newName p :
  fs_room f -> fs_rename live f t oldParent oldName newParent newName = Ok p -> shallow f -> rooted f ->
  rooted (apply_fops (pl_ops p) f).
Proof.
  intros Hroom H Hsh Hr. destruct (ok_rename live t f _ _ _ _ p Hok Hroom H) as [Hok' _].
  unfold fs_rename in H. obind_inv H. destruct x1 as [c cn]. cbn [fst snd] in H.
  apply child_ok in E1 as [He Hs]. apply dir_ok in E2 as [Hsp Hdp]. pose proof (stat_is_dir _ _ _ _ Hsp Hdp) as Hnp.
  destruct x3. apply guard_ok, negb_true_iff in E3.
  case_bool_decide as Hdst; [by injection H as <-|]. obind_inv H. injection H as <-.
  destruct x1 as [[rep free] k]. cbn [pl_ops pl_free fst snd] in *.
  pose proof (entry_dir f Hok _ _ _ He) as Hop. destruct (stat_kind _ _ Hs) as [_ Hck]. pose proof (not_dir_stat _ _ Hs) as Hcf.
  destruct (relink_dirs_back _ _ _ _ _ _ E2 Hop Hnp) as [Hlo Hlb]. pose proof (relink_dirs live f Hok _ _ _ _ _ _ E2 Hop Hnp) as Hl.
  set (f' := apply_fops _ f) in *.
  assert (Forall node_op rep /\ (forall m, FNode m ∈ rep -> IsDir (nd_Mode m) = true -> is_dir f (nd_Inode m)) /\
    (forall d, fs_entries f !! (newParent, newName) = Some d -> is_dir f d -> IsDir (nd_Mode cn) = true /\ ~ is_dir f' d))
    as (Hrep & Hrepd & Hgone).
  { destruct (fs_entries f !! (newParent, newName)) as [d|] eqn:Ed.
    - destruct (replaced_gone _ _ _ _ _ _ _ f' Ed E1) as (H1 & H2 & H3 & H4). split_and!; [done..|].
      intros d' [= <-] Hd. split; [by destruct (IsDir (nd_Mode cn)); [|destruct (H3 eq_refl)]|].
      destruct (ok_replace live t f Hok Hroom _ _ _ _ _ _ _ Ed E1) as (_ & Hok1 & Hnp1 & Hkeep & _).
      apply H4; [done|].
      destruct (ok_rename_ops f oldParent oldName newParent newName c rep x3 (apply_fops (FRemove newParent newName :: rep) f) He) as [_ Hn]; try done.
      + by rewrite Ed.
      + by destruct x0.
      + apply Hkeep; [done|]. by eapply parent_not_empty.
    - injection E1 as <- <- <-. split_and!; [constructor|by intros m ?%elem_of_nil|done]. }
  assert (fs_entries f' = <[(newParent, newName) := c]> (delete (oldParent, oldName) (fs_entries f))) as Ee.
  { unfold f'. change (rep ++ FRemove oldParent oldName :: FEntry newParent newName c :: x3)
      with (rep ++ ([FRemove oldParent oldName; FEntry newParent newName c] ++ x3)).
    assert (forall a b (g : fs), apply_fops (a ++ b) g = apply_fops b (apply_fops a g)) as Happ by (intros; apply foldl_app).
    rewrite !Happ, node_ops_entries by done. cbn [apply_fops foldl apply_fop fs_entries]. by rewrite node_ops_entries. }
  assert (forall i, is_dir f' i -> is_dir f i) as Hback.
  { intros i [Hi|(m & Hm & <- & Hd)]%is_dir_back_all; [done|].
    apply elem_of_app in Hm as [Hm|Hm]; [by apply Hrepd|].
    apply elem_of_cons in Hm as [Hm|Hm]; [done|]. apply elem_of_cons in Hm as [Hm|Hm]; [done|]. by apply Hlb. }
  destruct (IsDir (nd_Mode cn)) eqn:Ec.
  - eapply (rooted_moved f' oldParent oldName newParent newName c); try done.
    + intros d Hd Hdd. by destruct (Hgone d Hd (Hback d Hdd)) as [_ Hn].
    + unfold fs_under in E3. cbn [andb] in E3. apply orb_false_iff in E3 as [E4 E5]. apply Z.eqb_neq in E4.
      destruct (Hr newParent Hnp) as [d Hd]. by apply (climb_false c 1000 newParent d Hd Hnp (Hsh _ _ Hnp Hd)).
  - apply (keep_rooted f); try done; [|by intros i Hi; left; apply Hback].
    intros p' name' i Hl' Hi Hi'. rewrite Ee.
    destruct (decide ((newParent, newName) = (p', name'))) as [Eq|Hne1].
    + rewrite <-Eq in Hl'. by destruct (Hgone i Hl' Hi).
    + rewrite lookup_insert_ne by done. rewrite lookup_delete_ne; [done|]. intros Eq. rewrite Eq, Hl' in He.
      injection He as ->. by destruct (Hcf eq_refl).
Qed.
Lemma rooted_link i par nm p :
  fs_room f -> fs_link live f t i par nm = Ok p -> rooted f -> rooted (apply_fops (pl_ops p) f).
Proof.
  intros Hroom H Hr. destruct (ok_link live t f Hok Hroom _ _ _ p H) as [Hok' _]. cbn [fst snd] in Hok'.
  unfold fs_link in H. rename H into E; obind_inv E. injection E as <-. apply unused_ok in E4. cbn [pl_ops] in *.
  apply guard_ok, negb_true_iff in E2. pose proof (not_dir_stat _ _ E1 E2) as Hnd.
  apply (keep_rooted f); [done|done| | |done].
  - intros p name c Hl _ _. cbn [apply_fops foldl apply_fop fs_entries].
    rewrite lookup_insert_ne; [done|]. intros Eq. by rewrite Eq, Hl in E4.
  - intros j [Hj|(m & Hm & <- & Hd)]%is_dir_back_all; [by left|]. cbn in Hm.
    apply elem_of_cons in Hm as [[= ->]|Hm]; [cbn in Hd; congruence|]. by apply elem_of_cons in Hm as [?|Hm%elem_of_nil].
Qed.

Lemma rooted_unlink par nm p :
  fs_room f -> fs_unlink live f t par nm = Ok p -> rooted f -> rooted (apply_fops (pl_ops p) f).
Proof.
  intros Hroom H Hr. destruct (ok_unlink_op live t f Hok Hroom _ _ p H) as [Hok' _]. cbn [fst snd] in Hok'.
  unfold fs_unlink in H. rename H into E; obind_inv E. injection E as <-. destruct x0 as [c n]. cbn [fst snd pl_ops] in *.
  apply guard_ok, negb_true_iff in E2. apply child_ok in E1 as [He Hs]. pose proof (not_dir_stat _ _ Hs E2) as Hnd.
  eapply rooted_removed; [exact He| |done| |done|done].
  - apply Forall_singleton. unfold unlink_node. by case_match.
  - intros m Hm%list_elem_of_singleton Hd. unfold unlink_node in Hm. case_match; [done|]. injection Hm as ->. cbn in Hd. congruence.
Qed.

Lemma rooted_rmdir par nm p :
  fs_rmdir live f t par nm = Ok p -> rooted f -> rooted (apply_fops (pl_ops p) f).
Proof.
  intros H Hr. destruct (ok_rmdir_op live t f Hok _ _ p H) as [Hok' _]. cbn [fst snd] in Hok'.
  unfold fs_rmdir in H. rename H into E; obind_inv E. injection E as <-. destruct x0 as [c n]. cbn [fst snd pl_ops] in *.
  apply guard_ok in E3. apply child_ok in E1 as [He Hs]. destruct (stat_kind _ _ E4) as [Hi Hk].
  eapply rooted_removed; [exact He|by repeat constructor| | |done|done].
  - intros _ (m & Hm & _). cbn in Hm. rewrite Hi in Hm. pose proof (empty_dir f _ _ _ _ E3 He) as Hne.
    by rewrite lookup_insert_ne, lookup_delete_eq in Hm.
  - intros m Hm Hd. apply elem_of_cons in Hm as [Hm|Hm]; [done|]. apply elem_of_cons in Hm as [[= ->]|Hm]; [|by apply elem_of_nil in Hm].
    cbn in *. rewrite Hi. by apply Hk.
Qed.

Lemma rooted_mkdir par nm m u g p :
  fs_room f -> fs_mkdir live f t par nm m u g = Ok p -> rooted f -> rooted (apply_fops (pl_ops p) f).
Proof.
  intros Hroom H Hr. destruct (ok_mkdir live t f Hok Hroom _ _ _ _ _ p H) as [Hok' _]. cbn [fst snd] in Hok'.
  unfold fs_mkdir in H. rename H into E; obind_inv E. apply dir_ok in E1 as [Hs Hd]. apply unused_ok in E2.
  pose proof (stat_is_dir _ _ _ _ Hs Hd) as Hp. destruct (stat_kind _ _ Hs) as [Hi _].
  eapply rooted_new; [exact E|done|done| |by repeat constructor|done|done].
  intros m' [= ->]%list_elem_of_singleton. cbn. by rewrite Hi.
Qed.

Lemma spec_rooted c p :
  fs_room f -> spec live f t c = Ok p -> shallow f -> rooted f -> rooted (apply_fops (pl_ops p) f).
Proof.
  intros Hroom H Hsh Hr. destruct (spec_keeps live t f Hok Hroom c p H) as [Hok' _]. cbn [fst snd] in Hok'.
  destruct c as [par nm m u g|par nm m u g|par nm tg u g|tgt par nm|par nm|par nm|op on np nn];
    cbn [spec] in H; unfold some_node, no_node in H; obind_inv H; injection H as <-; cbn [pl_ops] in *.
  - unfold fs_create in E. obind_inv E. apply dir_ok in E1 as [Hs Hd]. apply unused_ok in E2.
    by eapply rooted_new; [exact E|by eapply stat_is_dir|done|intros ? ?%elem_of_nil|..].
  - by eapply rooted_mkdir.
  - unfold fs_symlink in E. obind_inv E. apply dir_ok in E1 as [Hs Hd]. apply unused_ok in E2.
    by eapply rooted_new; [exact E|by eapply stat_is_dir|done|intros ? ?%elem_of_nil|..].
  - by eapply rooted_link.
  - by eapply rooted_unlink.
  - by eapply rooted_rmdir.
  - by eapply rooted_rename.
Qed.
End Calls.
