(* ===== verification/RootedSpec.v ===== *)
(** * The directories form a tree: the contract

    The calls that change the tree keep every directory reachable from the
    root, as long as no directory is more than 1000 levels deep.  A deeper
    one can be renamed into itself. *)

From S2P Require Import Prelude Keys Kv Gostr Segment Layer SegmentSet Index IndexSpec IndexExamples Node Coalescer Store StoreSpec Fs FsInv Tree TreeSpec Rooted StoreExamples.

Section Calls.
Context {P : Type} {PB : Pebble P} {PL : PebbleLaws P}.
Context {S : Type} {SL : SegLayer S} {SLL : SegLayerLaws S} {MR : MapRange}.
Context {W : Type} {SW : Semaphore W} {SWL : SemaphoreLaws W}.
Implicit Types s : Store P S W.
Implicit Types f : fs.

(** C5: The directories stay a tree under every call, whatever it returned and
    whatever failed: each is reached from the root, if no directory was more
    than 1000 levels below it. *)
Theorem calls_keep_rooted s ph f c :
  at_rest s ph f -> call_typed c -> fs_room f -> shallow f -> rooted f ->
  let '(r, s') := run c s in exists f', represents (disk s') f' /\ fs_ok f' /\ rooted f'.
Proof.
  intros Hr Hty Hroom Hsh Hro. pose proof (wp_run s ph f c Hr Hty) as Hw. unfold wp in Hw.
  destruct (run c s) as [r s']. cbn [fst snd] in Hw. destruct Hw as [Hst Hw]. pose proof (ar_tree _ _ _ Hr) as Hok.
  destruct (spec _ f _ c) as [p|e|] eqn:E.
  - destruct (spec_keeps _ _ f Hok Hroom c p E) as [Hok' _]. cbn [fst snd] in Hok'. destruct Hw as [_ Hw].
    pose proof (spec_rooted _ _ f Hok c p Hroom E Hsh Hro) as Hro'.
    destruct r as [a|e|]; [| |done].
    + destruct Hw as (_ & Hf & _). eauto.
    + destruct Hw as [[Hf|Hf] _]; eauto.
  - destruct Hw as (e' & -> & _ & Hf & _). eauto.
  - destruct Hw as (e' & -> & _ & Hf & _). eauto.
Qed.
End Calls.

(** ** A chain of directories *)

Implicit Types f : fs.

Definition unbuffered (_ : Z) : option (Z * Z) := None.
Definition midnight (_ : nat) : Z := 0.

Definition fs_do f (c : call) : fs :=
  match spec unbuffered f midnight c with Ok p => apply_fops (pl_ops p) f | _ => f end.

(** [n] times [mkdir d && cd d], from an empty file system. *)
Fixpoint deep (n : nat) : fs :=
  match n with
  | O => mkfs 0
  | S n => fs_do (deep n) (CMkdir (Z.of_nat n + 1) (str "d") 493 0 0)
  end.

Record chain f (n : nat) : Prop := {
  ch_ok : fs_ok f;
  ch_rooted : rooted f;
  ch_next : fs_next f = Z.of_nat n + 2;
  ch_size : size (fs_entries f) = n;
  ch_bottom : is_dir f (Z.of_nat n + 1);
  ch_entries : forall p name c, fs_entries f !! (p, name) = Some c <-> name = str "d" /\ 1 <= p <= Z.of_nat n /\ c = p + 1;
}.

Lemma dir_stat f i : fs_ok f -> is_dir f i ->
  exists n, fs_stat unbuffered f i = Ok n /\ nd_Inode n = i /\ IsDir (nd_Mode n) = true.
Proof.
  intros Hok (n & Hn & Hd). exists n. unfold fs_stat. rewrite Hn. destruct (fo_node _ _ _ Hok _ _ Hn) as [Hi _]. by cbn.
Qed.

Lemma dir_fs_dir f i : fs_ok f -> is_dir f i -> exists n, fs_dir unbuffered f i = Ok n /\ nd_Inode n = i.
Proof. intros Hok (n & Hs & Hi & Hd)%dir_stat; [|done]. exists n. unfold fs_dir. by rewrite Hs; cbn [obind]; rewrite Hd. Qed.

Lemma mkfs_rooted now : rooted (mkfs now).
Proof.
  intros i (n & Hn & _). cbn in Hn. apply lookup_singleton_Some in Hn as [<- _]. exists O. constructor.
Qed.

Lemma chain_mkdir f n :
  Z.of_nat n < 2^20 -> chain f n -> chain (fs_do f (CMkdir (Z.of_nat n + 1) (str "d") 493 0 0)) (S n).
Proof.
  intros Hlt [Hok Hro Hnx Hsz Hbot Hent].
  assert (fs_room f) as Hroom by (split; [rewrite Hnx|rewrite Hsz]; lia).
  destruct (dir_fs_dir _ _ Hok Hbot) as (pn & Hdir & Hpi).
  assert (fs_entries f !! (Z.of_nat n + 1, str "d") = None) as Hnone.
  { destruct (_ !! _) as [c|] eqn:E; [|done]. apply Hent in E as (_ & ? & _). lia. }
  destruct (fs_mkdir unbuffered f midnight (Z.of_nat n + 1) (str "d") 493 0 0) as [p|e|] eqn:E.
  2,3: unfold fs_mkdir, fs_unused in E; rewrite Hdir, Hnone in E; done.
  destruct (ok_mkdir unbuffered midnight f Hok Hroom _ _ _ _ _ _ E) as [Hok' _]. cbn [fst snd] in Hok'.
  pose proof (rooted_mkdir unbuffered midnight f Hok _ _ _ _ _ _ Hroom E Hro) as Hro'.
  unfold fs_do. cbn [spec]. rewrite E. cbn [some_node obind pl_ops].
  unfold fs_mkdir, fs_unused in E. rewrite Hdir, Hnone in E. cbn [obind link_new] in E.
  change (validName (str "d")) with (Ok tt : outcome unit) in E. cbn [obind link_new] in E. injection E as <-.
  cbn [pl_ops] in *. rewrite Hnx in *.
  split; [done|done|..]; cbn [apply_fops foldl apply_fop fs_entries fs_next fs_nodes nd_Inode new_node add_links set_Ctime set_Nlink].
  - unfold u64. rewrite Z.mod_small; lia.
  - rewrite map_size_insert_None by done. by rewrite Hsz.
  - unfold is_dir. cbn [fs_nodes]. rewrite Hpi, lookup_insert_ne by lia.
    replace (Z.of_nat (S n) + 1) with (Z.of_nat n + 2) by lia. rewrite lookup_insert_eq. by eexists.
  - intros p name c. split.
    + intros [[[= <- <-] <-]|[_ Hl]]%lookup_insert_Some; [split_and!; [done|lia..]|]. apply Hent in Hl as (? & ? & ?). split_and!; [done|lia..].
    + intros (-> & Hp & ->). destruct (decide (p = Z.of_nat n + 1)) as [->|].
      * rewrite lookup_insert_eq. f_equal. lia.
      * rewrite lookup_insert_ne by (intros [= ?]; lia). apply Hent. split_and!; [done|lia..].
Qed.

Lemma deep_chain n : Z.of_nat n < 2^20 -> chain (deep n) n.
Proof.
  induction n as [|n IH]; intros Hn.
  - split; [apply mkfs_ok|apply mkfs_rooted|done|done| |].
    + eexists. by split; [apply lookup_insert_eq|].
    + intros p name c. cbn [deep mkfs fs_entries]. rewrite lookup_empty. split; [done|]. intros (_ & ? & _). lia.
  - cbn [deep]. apply chain_mkdir; [lia|]. apply IH. lia.
Qed.

Lemma chain_parent f n i : chain f n -> 1 < i <= Z.of_nat n + 1 -> fs_parent f i = Some (i - 1).
Proof.
  intros Hc Hi. assert (fs_entries f !! (i - 1, str "d") = Some i) as He by (apply (ch_entries _ _ Hc); split_and!; [done|lia..]).
  unfold fs_parent. destruct (list_find _ _) as [[k [[q name] c]]|] eqn:El.
  - apply list_find_Some in El as (Hk & Hci & _). cbn in Hci |- *. subst c.
    assert (fs_entries f !! (q, name) = Some i) as Hq by (apply elem_of_map_to_list; by eapply list_elem_of_lookup_2).
    apply (ch_entries _ _ Hc) in Hq as (_ & _ & ?). f_equal. lia.
  - apply list_find_None in El. rewrite Forall_forall in El. by destruct (El ((i - 1, str "d"), i)); [apply elem_of_map_to_list|].
Qed.

(** The climb gives up one level too early. *)
Lemma chain_climb f n root fuel : forall i,
  chain f n -> 1 < i <= Z.of_nat n + 1 -> 1 < root -> root + Z.of_nat fuel < i -> fs_climb fuel f i root = false.
Proof.
  induction fuel as [|fuel IH]; intros i Hc Hi Hr Hf; [done|]. cbn [fs_climb].
  rewrite (proj2 (Z.eqb_neq _ _)) by (unfold RootInode; lia). rewrite (chain_parent f n) by done.
  rewrite (proj2 (Z.eqb_neq _ _)) by lia. apply IH; [done|lia..].
Qed.

(** Without an entry in the root nothing but the root is reached. *)
Lemma cut_off f i d : (forall name c, fs_entries f !! (RootInode, name) <> Some c) -> at_depth f i d -> i = RootInode.
Proof. intros Hn. induction 1 as [|p name c d Hl Hd ->]; [done|]. by destruct (Hn name c). Qed.

Definition loop_rename : call := CRename RootInode (str "d") 1003 (str "x").

Lemma loop_cut_off f :
  chain f 1002 -> exists p, spec unbuffered f midnight loop_rename = Ok p /\
  let f' := apply_fops (pl_ops p) f in fs_ok f' /\ is_dir f' 2 /\ forall i d, at_depth f' i d -> i = RootInode.
Proof.
  intros Hc. pose proof Hc as [Hok Hro Hnx Hsz Hbot Hent]. change (Z.of_nat 1002) with 1002 in *.
  assert (fs_room f) as Hroom by (split; [rewrite Hnx|rewrite Hsz]; lia).
  assert (forall i, 1 <= i <= 1003 -> is_dir f i) as Hdirs.
  { intros i Hi. destruct (decide (i = 1003)) as [->|]; [exact Hbot|]. apply (entry_dir f Hok i (str "d") (i + 1)). apply Hent. split_and!; [done|lia..]. }
  destruct (dir_stat f 2 Hok (Hdirs 2 ltac:(lia))) as (cn & Hcs & _ & Hcd).
  destruct (dir_stat f RootInode Hok (Hdirs 1 ltac:(lia))) as (rn & Hrs & Hri & _).
  destruct (dir_stat f 1003 Hok (Hdirs 1003 ltac:(lia))) as (bn & Hbs & Hbi & Hbd).
  assert (fs_entries f !! (RootInode, str "d") = Some 2) as He by (apply Hent; unfold RootInode; split_and!; [done|lia..]).
  assert (fs_entries f !! (1003, str "x") = None) as Hnone.
  { destruct (fs_entries f !! (1003, str "x")) as [c|] eqn:E; [|done]. apply Hent in E as (_ & ? & _). lia. }
  assert (fs_under f 1003 2 = false) as Hu by (unfold fs_under; rewrite (chain_climb f 1002); [done|done|lia..]).
  set (ops := [FRemove RootInode (str "d"); FEntry 1003 (str "x") 2; FNode (add_links (-1) 0 rn); FNode (add_links 1 0 bn)]).
  assert (fs_rename unbuffered f midnight RootInode (str "d") 1003 (str "x") = Ok (mkPlan tt ops None)) as E.
  { unfold fs_rename, fs_child, fs_dir. rewrite He, Hcs, Hbs. cbn [obind fst snd]. rewrite Hbd, Hcd, Hu, Hnone.
    cbn [guard negb andb obind]. change (validName (str "d")) with (Ok tt : outcome unit). change (validName (str "x")) with (Ok tt : outcome unit).
    cbn [obind]. rewrite bool_decide_eq_false_2 by done. unfold fs_relink. rewrite Hcd, Hrs, Hbs. done. }
  exists (mkPlan None ops None). split; [cbn [spec loop_rename]; by rewrite E|].
  destruct (ok_rename unbuffered midnight f _ _ _ _ _ Hok Hroom E) as [Hok' _]. cbn [pl_ops] in Hok' |- *. split; [exact Hok'|]. split.
  - destruct (Hdirs 2 ltac:(lia)) as (n & Hn & Hd). exists n. split; [|done]. cbn. by rewrite Hri, Hbi, !lookup_insert_ne.
  - intros i d. apply cut_off. intros name c Hl. cbn [apply_fops ops foldl apply_fop fs_entries] in Hl.
    rewrite lookup_insert_ne in Hl by done. apply lookup_delete_Some in Hl as [Hne Hl]. by apply Hent in Hl as (-> & _).
Qed.


(** ** The example *)

Definition ex_mkdir : call := CMkdir RootInode (str "papers") 493 7 7.

Lemma ex_mkdir_typed : call_typed ex_mkdir.
Proof. split_and!; try done; by apply bytes_ok_dec. Qed.

Lemma ex_f1_rooted : rooted ex_f1 /\ shallow ex_f1.
Proof.
  split; [apply mkfs_rooted|]. intros i d _ Hd. induction Hd as [|p name c d Hl]; [lia|]. cbn in Hl. by rewrite lookup_empty in Hl.
Qed.

Lemma calls_keep_rooted_witness :
  (rooted ex_f1 /\ shallow ex_f1) /\
  let '(r, s') := run ex_mkdir ex_s1 in
  is_ok r = true /\ exists f', represents (disk s') f' /\ fs_ok f' /\ rooted f'.
Proof.
  assert (fs_room ex_f1) as Hroom by by vm_compute.
  pose proof (calls_keep_rooted ex_s1 ∅ ex_f1 ex_mkdir ex_s1_rest ex_mkdir_typed Hroom (proj2 ex_f1_rooted) (proj1 ex_f1_rooted)) as H.
  split; [exact ex_f1_rooted|]. destruct (run ex_mkdir ex_s1) as [r s'] eqn:E. split; [|exact H].
  apply (f_equal (fun p => is_ok p.1)) in E. vm_compute in E. exact (eq_sym E).
Defined.

(** ** Links of directories *)

(** [mkdir a b a/x b/x], then [rename a/x b/x]: the parent of the replaced
    directory is written twice, and the second write, made from the node before
    the first, wins.  The directory b has one subdirectory and counts four
    links. *)
Definition ex_mkdirs : M St Node :=
  let* a := Mkdir RootInode (str "a") 493 7 7 in
  let* b := Mkdir RootInode (str "b") 493 7 7 in
  let* _ := Mkdir (nd_Inode a) (str "x") 493 7 7 in
  let* _ := Mkdir (nd_Inode b) (str "x") 493 7 7 in
  let* _ := Rename (nd_Inode a) (str "x") (nd_Inode b) (str "x") in
  Stat (nd_Inode b).

Example rename_over_directory_miscounts :
  match (ex_mkdirs ex_s1).1 with Ok b => nd_Nlink b = 4 /\ (Readdir (nd_Inode b) (ex_mkdirs ex_s1).2).1 = Ok [mkDirEntry (str "x") 4 16877] | _ => False end.
Proof. by vm_compute. Qed.
