(* ===== verification/Sizes.v ===== *)
(** * Byte sizes on the command line (src/cmd/placefs/bytes.go)

    A size is a number with an optional suffix, a power of 1024.  Whole numbers
    keep full precision; anything else goes through a float64.  What is printed
    reads back; a product that leaves 64 bits wraps. *)

From S2P Require Import Prelude Gostr.

(** ** float64 and [strconv.ParseFloat] *)

(** [FNum neg m e] is [m * 2^e], negated. *)
Inductive float64 : Type :=
  | FNum (neg : bool) (m e : Z)
  | FInf (neg : bool)
  | FNaN.

(** [num / den] in [2^e] units, to the nearest integer, ties to even. *)
Definition round_ratio (num den e : Z) : Z :=
  let num := if 0 <=? e then num else num * 2 ^ (- e) in
  let den := if 0 <=? e then den * 2 ^ e else den in
  let q := num / den in
  let r := num mod den in
  if (den <? 2 * r) || ((2 * r =? den) && Z.odd q) then q + 1 else q.

(** The nearest float64 to a non-negative ratio. *)
Definition float_of_ratio (neg : bool) (num den : Z) : float64 :=
  if num =? 0 then FNum neg 0 0
  else
    let e := Z.log2 num - Z.log2 den - 52 in
    let e := if round_ratio num den e <? 2 ^ 52 then e - 1 else e in
    let e := Z.max e (-1074) in
    let m := round_ratio num den e in
    if (0 <=? e) && (2 ^ 1024 <=? m * 2 ^ e) then FInf neg else FNum neg m e.

(** The digits before the exponent, with at most one point: their value, how
    many came after the point, whether there were any, an underscore, and the
    rest. *)
Record mantissa : Type := mkMantissa {
  mt_value : Z;
  mt_frac : Z;
  mt_dot : bool;
  mt_digits : bool;
  mt_under : bool;
}.

Definition hex_digit (c : Z) : option Z :=
  if is_digit c then Some (c - 48)
  else if (97 <=? c) && (c <=? 102) then Some (c - 87)
  else if (65 <=? c) && (c <=? 70) then Some (c - 55)
  else None.

Fixpoint read_mantissa (hex : bool) (a : mantissa) (s : bytes) : mantissa * bytes :=
  match s with
  | [] => (a, [])
  | c :: r =>
      if c =? 95 then read_mantissa hex (mkMantissa (mt_value a) (mt_frac a) (mt_dot a) (mt_digits a) true) r
      else if c =? 46 then
        if mt_dot a then (a, s)
        else read_mantissa hex (mkMantissa (mt_value a) (mt_frac a) true (mt_digits a) (mt_under a)) r
      else
        match (if hex then hex_digit c else if is_digit c then Some (c - 48) else None) with
        | Some d =>
            read_mantissa hex
              (mkMantissa (mt_value a * (if hex then 16 else 10) + d) (if mt_dot a then mt_frac a + 1 else 0)
                 (mt_dot a) true (mt_under a)) r
        | None => (a, s)
        end
  end.

(** The digits of an exponent, which stops growing at 10000. *)
Fixpoint read_exponent (e : Z) (under : bool) (s : bytes) : Z * bool * bytes :=
  match s with
  | [] => (e, under, [])
  | c :: r =>
      if c =? 95 then read_exponent e true r
      else if is_digit c then read_exponent (if e <? 10000 then e * 10 + (c - 48) else e) under r
      else (e, under, s)
  end.

(** Underscores stand between digits, or after a base prefix; [saw] is the
    class of the last character: a digit, an underscore, or another. *)
Inductive seen : Type := SawStart | SawDigit | SawUnder | SawOther.

Fixpoint underscores_between (hex : bool) (saw : seen) (s : bytes) : bool :=
  match s with
  | [] => match saw with SawUnder => false | _ => true end
  | c :: r =>
      if is_digit c || (hex && match hex_digit c with Some _ => true | None => false end)
      then underscores_between hex SawDigit r
      else if c =? 95 then
        match saw with SawDigit => underscores_between hex SawUnder r | _ => false end
      else match saw with SawUnder => false | _ => underscores_between hex SawOther r end
  end.

Definition has_base_prefix (s : bytes) : option bool :=
  match s with
  | 48 :: c :: _ =>
      if bool_decide (c ∈ [120; 88]) then Some true
      else if bool_decide (c ∈ [98; 66; 111; 79]) then Some false else None
  | _ => None
  end.

(** On the text after the sign. *)
Definition underscore_ok (s : bytes) : bool :=
  match has_base_prefix s with
  | Some hex => underscores_between hex SawDigit (drop 2 s)
  | None => underscores_between false SawStart s
  end.

Definition read_sign (s : bytes) : bool * bytes :=
  match s with
  | 45 :: r => (true, r)
  | 43 :: r => (false, r)
  | _ => (false, s)
  end.

(** [inf], [infinity], and [nan] without a sign. *)
Definition special (s : bytes) : option float64 :=
  let '(neg, r) := read_sign s in
  if bool_decide (to_lower r = str "inf") || bool_decide (to_lower r = str "infinity") then Some (FInf neg)
  else if bool_decide (to_lower s = str "nan") then Some FNaN
  else None.

(** The number without its sign: value, digits after the point, exponent,
    base; [None] is a syntax error. *)
Definition read_float (s : bytes) : option (Z * Z * Z * bool) :=
  let hex := match s with 48 :: c :: _ :: _ => bool_decide (c ∈ [120; 88]) | _ => false end in
  let '(a, r) := read_mantissa hex (mkMantissa 0 0 false false false) (if hex then drop 2 s else s) in
  if negb (mt_digits a) then None
  else
    let exp :=
      match r with
      | c :: r =>
          if bool_decide (c ∈ (if hex then [112; 80] else [101; 69])) then
            let '(neg, r) := read_sign r in
            match r with
            | d :: _ =>
                if is_digit d then
                  let '(e, under, r) := read_exponent 0 false r in
                  Some (if neg : bool then - e else e, under, r)
                else None
            | [] => None
            end
          else None
      | [] => if hex then None else Some (0, false, [])
      end in
    match exp with
    | Some (e, under, []) =>
        if (mt_under a || under) && negb (underscore_ok s) then None
        else Some (mt_value a, mt_frac a, e, hex)
    | _ => None
    end.

(** [strconv.ParseFloat(s, 64)]; [None] is an error, of syntax or of range. *)
Definition parse_float (s : bytes) : option float64 :=
  match special s with
  | Some f => Some f
  | None =>
      let '(neg, r) := read_sign s in
      match read_float r with
      | None => None
      | Some (v, frac, e, hex) =>
          let '(base, scale) := if hex : bool then (2, e - 4 * frac) else (10, e - frac) in
          let f := if 0 <=? scale then float_of_ratio neg (v * base ^ scale) 1
                   else float_of_ratio neg v (base ^ (- scale)) in
          match f with FInf _ => None | _ => Some f end
      end
  end.

Definition float_negative (f : float64) : bool :=
  match f with FNum neg m _ => neg && negb (m =? 0) | FInf neg => neg | FNaN => false end.

(** [f * float64(unit)] for a power of two [2^k]. *)
Definition float_scale (f : float64) (k : Z) : float64 :=
  match f with
  | FNum neg m e => if (0 <=? e + k) && (2 ^ 1024 <=? m * 2 ^ (e + k)) then FInf neg else FNum neg m (e + k)
  | _ => f
  end.

Section Sizes.

(** [int64(f)] of a float that is no int64 depends on the machine. *)
Context (int64_of_other : float64 -> Z).

Definition int64_of_float (f : float64) : Z :=
  match f with
  | FNum neg m e =>
      let n := Z.shiftl m e in
      let n := if neg then - n else n in
      if (- 2 ^ 63 <=? n) && (n <? 2 ^ 63) then n else int64_of_other f
  | _ => int64_of_other f
  end.

(** ** Parsing *)

(** The longest trailing run of letters, and what is before it. *)
Fixpoint split_letters (fuel : nat) (s : bytes) (suf : bytes) : bytes * bytes :=
  match fuel with
  | O => (s, suf)
  | S fuel =>
      match last s with
      | Some c => if is_letter c then split_letters fuel (take (length s - 1) s) (c :: suf) else (s, suf)
      | None => (s, suf)
      end
  end.

(** The exponent of the unit. *)
Definition unit_of (suf : bytes) : option Z :=
  if bool_decide (suf ∈ [[]; str "b"]) then Some 0
  else if bool_decide (suf ∈ [str "k"; str "kb"; str "kib"]) then Some 10
  else if bool_decide (suf ∈ [str "m"; str "mb"; str "mib"]) then Some 20
  else if bool_decide (suf ∈ [str "g"; str "gb"; str "gib"]) then Some 30
  else if bool_decide (suf ∈ [str "t"; str "tb"; str "tib"]) then Some 40
  else if bool_decide (suf ∈ [str "p"; str "pb"; str "pib"]) then Some 50
  else None.

Definition parseBytes (s : bytes) : outcome Z :=
  let s := trim_space s in
  if bool_decide (s = []) then Err (ErrMsg "empty value")
  else
    let '(num, suf) := split_letters (length s) s [] in
    let numPart := trim_space num in
    let suf := to_lower (trim_space suf) in
    if bool_decide (numPart = []) then Err (ErrMsg "no numeric prefix")
    else
      match unit_of suf with
      | None => Err (ErrMsg "unknown size suffix")
      | Some k =>
          match parse_int64 numPart with
          | Some n => if n <? 0 then Err (ErrMsg "negative size") else Ok (i64 (n * 2 ^ k))
          | None =>
              match parse_float numPart with
              | None => Err (ErrMsg "invalid number")
              | Some f =>
                  if float_negative f then Err (ErrMsg "negative size")
                  else Ok (int64_of_float (float_scale f k))
              end
          end
      end.

(** ** Printing *)

Definition units : list (Z * bytes) :=
  [(2 ^ 50, str "PiB"); (2 ^ 40, str "TiB"); (2 ^ 30, str "GiB"); (2 ^ 20, str "MiB"); (2 ^ 10, str "KiB")].

Definition formatBytes (n : Z) : bytes :=
  if n =? 0 then str "0"
  else
    match list_find (fun u => Z.rem n u.1 = 0) units with
    | Some (_, u) => format_int (Z.quot n u.1) ++ u.2
    | None => format_int n
    end.

(** The flag: [String] of a nil pointer, and [Set], which keeps the old value
    on an error. *)
Definition bytesValue_String (b : option Z) : bytes :=
  match b with None => str "0" | Some n => formatBytes n end.

Definition bytesValue_Set (s : bytes) (b : Z) : outcome unit * Z :=
  match parseBytes s with Ok v => (Ok tt, v) | Err e => (Err e, b) | Panic => (Panic, b) end.
End Sizes.

(** On amd64 a conversion out of range gives the least int64. *)
Definition amd64_other (_ : float64) : Z := - 2 ^ 63.

Example parse_tests :
  (fun s => parseBytes amd64_other (str s)) <$> ["0"; "1024"; "1b"; "1KiB"; "500MB"; "10gb"; "1.5GiB"; "  10MiB  "; "1_0.5e1k"; "0x1p4"; "16384P"]%string
  = Ok <$> [0; 1024; 1; 1024; 500 * 2^20; 10 * 2^30; 1610612736; 10 * 2^20; 107520; 16; 0].
Proof. by vm_compute. Qed.

Example parse_errors :
  (fun s => parseBytes amd64_other (str s)) <$> [""; "K"; "500XB"; "-1G"; "1.2.3GB"; "1e400"]%string
  = Err <$> [ErrMsg "empty value"; ErrMsg "no numeric prefix"; ErrMsg "unknown size suffix"; ErrMsg "negative size"; ErrMsg "invalid number"; ErrMsg "invalid number"].
Proof. by vm_compute. Qed.

(** ** What is printed reads back *)

Lemma strip_other runes fuel c s :
  Forall (fun r => match r with x :: _ => x <> c | [] => False end) runes -> strip runes fuel (c :: s) = c :: s.
Proof.
  intros H. destruct fuel; [done|]. cbn [strip].
  assert (list_find (fun r => take (length r) (c :: s) = r) runes = None) as ->; [|done].
  apply list_find_None. eapply Forall_impl; [exact H|]. intros [|x r]; [done|]. cbn. congruence.
Qed.

(** A digit or the B of a unit. *)
Definition solid (c : Z) : Prop := is_digit c = true \/ c = 66.

Lemma solid_trim c s d : solid c -> solid d -> head s = Some c -> last s = Some d -> trim_space s = s.
Proof.
  intros Hc Hd Eh El. assert (forall x, solid x -> 48 <= x <= 57 \/ x = 66) as Hs.
  { intros x [Hx| ->]; [|by right]. left. unfold is_digit in Hx. lia. }
  destruct s as [|c' s]; [done|]. injection Eh as ->. unfold trim_space. cbv zeta.
  assert (forall x, solid x -> Forall (fun r => match r with y :: _ => y <> x | [] => False end) (space_runes ++ (@rev Z <$> space_runes))) as Hsp.
  { intros x Hx%Hs. let l := eval vm_compute in (space_runes ++ (@rev Z <$> space_runes)) in change (space_runes ++ (@rev Z <$> space_runes)) with l.
    repeat (apply Forall_cons; split; [lia|]). by apply Forall_nil. }
  rewrite strip_other; [|by apply Hsp, Forall_app in Hc as [Hc _]].
  destruct (rev (c :: s)) as [|d' r] eqn:Er; [by apply (f_equal length) in Er; rewrite length_rev in Er|].
  assert (d' = d) as ->.
  { apply (f_equal (@rev Z)) in Er. rewrite rev_involutive in Er. cbn [rev] in Er. rewrite Er, last_snoc in El. congruence. }
  rewrite strip_other; [|by apply Hsp, Forall_app in Hd as [_ Hd]]. by rewrite <-Er, rev_involutive.
Qed.

Lemma split_letters_app w : forall d fuel suf,
  Forall (fun c => is_letter c = true) w -> (forall c, last d = Some c -> is_letter c = false) ->
  (length w <= fuel)%nat -> split_letters fuel (d ++ w) suf = (d, w ++ suf).
Proof.
  induction w as [|c w IH] using rev_ind; intros d fuel suf Hw Hd Hf.
  - rewrite app_nil_r. destruct fuel; [done|]. cbn [split_letters]. destruct (last d) eqn:E; [|done]. by rewrite (Hd _ eq_refl).
  - apply Forall_app in Hw as [Hw Hc%Forall_inv]. cbv beta in Hc. rewrite length_app in Hf. cbn in Hf. destruct fuel; [lia|].
    cbn [split_letters]. rewrite app_assoc, last_snoc. cbv iota.
    rewrite Hc. rewrite length_app. cbn [length]. rewrite Nat.add_sub. rewrite take_app_length.
    rewrite IH; [|done|done|lia].
    by rewrite <-app_assoc.
Qed.

Lemma digit_not_letter c : is_digit c = true -> is_letter c = false.
Proof. unfold is_digit, is_letter. intros. z_cases. Qed.

Lemma parse_int64_format n : 0 <= n < 2 ^ 63 -> parse_int64 (format_int n) = Some n.
Proof.
  intros Hn. pose proof (parse_format_int n ltac:(lia)) as Hp. pose proof (format_int_digits n ltac:(lia)) as Hd.
  pose proof (format_int_nonempty n) as Hne. unfold parse_int64. destruct (format_int n) as [|c r]; [done|].
  apply Forall_cons in Hd as [Hc _]. unfold is_digit in Hc.
  assert (match c with 45 => (true, r) | 43 => (false, r) | _ => (false, c :: r) end = (false, c :: r)) as ->.
  { assert (48 <= c <= 57) by lia. assert (c = 48 \/ c = 49 \/ c = 50 \/ c = 51 \/ c = 52 \/ c = 53 \/ c = 54 \/ c = 55 \/ c = 56 \/ c = 57) as Hcs by lia.
    destruct_or! Hcs; by subst. }
  rewrite Hp. by rewrite (proj2 (Z.ltb_lt _ _)) by lia.
Qed.

(** A whole number with a unit. *)
Lemma parse_whole other n suf k :
  0 <= n < 2 ^ 63 -> (suf, k) ∈ [([], 0); (str "KiB", 10); (str "MiB", 20); (str "GiB", 30); (str "TiB", 40); (str "PiB", 50)] ->
  parseBytes other (format_int n ++ suf) = Ok (i64 (n * 2 ^ k)).
Proof.
  intros Hn Hs. pose proof (format_int_digits n ltac:(lia)) as Hd. pose proof (format_int_nonempty n) as Hne.
  assert (exists c, head (format_int n) = Some c /\ solid c) as (c & Hh & Hc).
  { destruct (format_int n) as [|c r]; [done|]. apply Forall_cons in Hd as [Hc _]. exists c. split; [done|by left]. }
  assert (exists d, last (format_int n) = Some d /\ is_digit d = true) as (d & Hl & Hdd).
  { destruct (format_int n) as [|d r _] using rev_ind; [done|]. apply Forall_app in Hd as [_ Hd%Forall_inv].
    exists d. by rewrite last_snoc. }
  assert (Forall (fun c => is_letter c = true) suf /\ (suf = [] \/ last suf = Some 66) /\ trim_space suf = suf /\ unit_of (to_lower suf) = Some k)
    as (Hlet & Hlast & Htrim & Hunit).
  { repeat (apply elem_of_cons in Hs as [Hs|Hs]; [injection Hs as -> ->; split_and!; [by repeat constructor|by (left + right)|by vm_compute|by vm_compute]|]).
    by apply elem_of_nil in Hs. }
  assert (trim_space (format_int n ++ suf) = format_int n ++ suf) as Ht.
  { apply (solid_trim c _ (default d (last suf))); [done| |by destruct (format_int n)|].
    - destruct Hlast as [->|Hlast]; [by left|]. rewrite Hlast. by right.
    - destruct Hlast as [->|Hlast]; [by rewrite app_nil_r|]. by rewrite last_app, Hlast. }
  unfold parseBytes. cbv zeta. rewrite Ht. rewrite bool_decide_eq_false_2 by (intros [E _]%app_eq_nil; by destruct (Hne)).
  rewrite split_letters_app; [|done| |rewrite length_app; lia].
  2: { intros x Hx. rewrite Hl in Hx. injection Hx as <-. by apply digit_not_letter. }
  rewrite app_nil_r, (solid_trim c (format_int n) d Hc ltac:(by left) Hh Hl), bool_decide_eq_false_2 by done.
  rewrite Htrim, Hunit, parse_int64_format by done. by rewrite (proj2 (Z.ltb_ge _ _)) by lia.
Qed.

(** Every size that is printed reads back as the size. *)
Theorem parseBytes_formatBytes other n : 0 <= n < 2 ^ 63 -> parseBytes other (formatBytes n) = Ok n.
Proof.
  intros Hn. assert (forall m k suf, 2 ^ k * m = n -> 0 <= k -> (suf, k) ∈ [([], 0); (str "KiB", 10); (str "MiB", 20); (str "GiB", 30); (str "TiB", 40); (str "PiB", 50)] ->
    parseBytes other (format_int m ++ suf) = Ok n) as H.
  { intros m k suf Em Hk Hs. assert (0 < 2 ^ k) by (apply Z.pow_pos_nonneg; lia). rewrite (parse_whole _ _ _ k); [|nia|done].
    f_equal. rewrite Z.mul_comm, Em. apply i64_id. unfold in_i64. lia. }
  unfold formatBytes. destruct (Z.eqb_spec n 0) as [->|Hz]; [by vm_compute|].
  destruct (list_find _ units) as [[i u]|] eqn:E.
  - apply list_find_Some in E as (Hi & Hr & _). apply list_elem_of_lookup_2 in Hi.
    assert (exists k, u.1 = 2 ^ k /\ 0 <= k /\ (u.2, k) ∈ [([], 0); (str "KiB", 10); (str "MiB", 20); (str "GiB", 30); (str "TiB", 40); (str "PiB", 50)]) as (k & Ek & Hk & Hs).
    { unfold units in Hi. repeat (apply elem_of_cons in Hi as [->|Hi]; [eexists; split; [reflexivity|split; [lia|set_solver]]|]). by apply elem_of_nil in Hi. }
    apply (H _ k); [|done|done]. rewrite <-Ek. rewrite (Z.quot_rem' n u.1) at 2. lia.
  - rewrite <-(app_nil_r (format_int n)). apply (H n 0); [lia|done|set_solver].
Qed.

Lemma parseBytes_formatBytes_witness : formatBytes (3 * 2^30) = str "3GiB" /\ parseBytes amd64_other (formatBytes (3 * 2^30)) = Ok (3 * 2^30).
Proof. split; [by vm_compute|]. exact (parseBytes_formatBytes amd64_other (3 * 2^30) ltac:(lia)). Defined.

(** A size whose number is whole is multiplied without a check: one that does
    not fit comes out as another, 16384P as 0. *)
Example large_size_wraps other : parseBytes other (str "16384P") = Ok 0.
Proof. by vm_compute. Qed.
