(* ===== verification/Health.v ===== *)
(** * The admin server (src/admin/admin.go, [Serve] and [healthHandler])

    Which paths are served, and the health check; the metrics page is
    Exposition.v.  The process is healthy once it is ready and as long as the mover's last
    round is recent.  The answer depends on the readiness flag, the mover's
    counters and the clocks; the text of a stale answer prints two durations,
    which are kept as numbers here. *)

From S2P Require Import Prelude Keys Kv Gostr Fragment Plan Segment Layer Index Mover Metrics.

(** ** Routes *)

Inductive endpoint : Type :=
  | Healthz
  | MetricsPage
  | Pprof (profile : bytes)     (* [Index] for the empty name *)
  | RootPage (text : bytes)
  | Redirect (path : bytes)
  | NotFound.

Definition pprof_root : bytes := str "/debug/pprof/".
Definition pprof_profiles : list bytes := [str "cmdline"; str "profile"; str "symbol"; str "trace"].

(** The handlers [Serve] registers, on a clean path.  The longest pattern wins;
    one that ends in a slash takes the paths below it, and a redirect from the
    path without the slash. *)
Definition route (enablePprof : bool) (path : bytes) : endpoint :=
  if bool_decide (path = str "/healthz") then Healthz
  else if bool_decide (path = str "/metrics") then MetricsPage
  else if enablePprof && bool_decide (take (length pprof_root) path = pprof_root) then
    let profile := drop (length pprof_root) path in
    Pprof (if bool_decide (profile ∈ pprof_profiles) then profile else [])
  else if enablePprof && bool_decide (path = str "/debug/pprof") then Redirect pprof_root
  else if bool_decide (path = str "/") then
    RootPage (str "placefs admin: /healthz /metrics" ++ (if enablePprof then str " /debug/pprof/" else []) ++ [10])
  else NotFound.

(** [Serve]: [listen] is the answer of [net.Listen]. *)
Definition Serve (addr : bytes) (listen : outcome unit) : outcome unit :=
  match addr with
  | [] => Err (ErrMsg "admin: empty listen addr")
  | _ => listen
  end.

(** The profiles are out of reach unless enabled. *)
Lemma route_no_pprof path p : route false path <> Pprof p.
Proof. unfold route. cbn [andb]. by repeat case_match. Qed.

Example route_tests :
  route true <$> [str "/"; str "/healthz"; str "/metrics"; str "/debug/pprof"; str "/debug/pprof/heap"; str "/debug/pprof/trace"; str "/x"] =
  [RootPage (str "placefs admin: /healthz /metrics /debug/pprof/" ++ [10]); Healthz; MetricsPage; Redirect (str "/debug/pprof/");
   Pprof []; Pprof (str "trace"); NotFound].
Proof. by vm_compute. Qed.

(** ** Health *)

Inductive HealthBody : Type :=
  | BodyOk
  | BodyNotReady
  | BodyNotTicking
  | BodyStale (ago limit : Z).

Record HealthReply : Type := mkReply { hr_status : Z; hr_body : HealthBody }.

Definition StatusOK : Z := 200.
Definition StatusServiceUnavailable : Z := 503.

Definition minDuration : Z := - 2 ^ 63.
Definition maxDuration : Z := 2 ^ 63 - 1.

(** [t.Sub(u)] saturates. *)
Definition clamp_duration (d : Z) : Z := Z.max minDuration (Z.min maxDuration d).

(** [d.Round(m)]: to the nearest multiple, halves away from zero, saturating. *)
Definition round_duration (d m : Z) : Z :=
  if m <=? 0 then d
  else
    let r := Z.abs (Z.rem d m) in
    if d <? 0 then
      if 2 * r <? m then d + r else let d1 := i64 (d - m + r) in if d1 <? d then d1 else minDuration
    else
      if 2 * r <? m then d - r else let d1 := i64 (d + m - r) in if d <? d1 then d1 else maxDuration.

Definition Second : Z := 1000000000.

(** The dependencies, as snapshots: the mover's counters, the rows of the FUSE
    counters, and whether [StartTime] is set.  Each may be missing. *)
Record Deps : Type := mkDeps {
  dp_Mover : option Stats;
  dp_Fuse : option rows;
  dp_HealthMaxTickGap : Z;
  dp_Started : bool;
}.

(** [ready] is the flag, [up] is [time.Since(deps.StartTime)], and [t0] and [t1]
    are the readings of the wall clock, in nanoseconds, of the two calls of
    [time.Since(last)]. *)
Definition healthHandler (deps : Deps) (ready : bool) (up t0 t1 : Z) : HealthReply :=
  if negb ready then mkReply StatusServiceUnavailable BodyNotReady
  else
    match dp_Mover deps with
    | Some s =>
        if 0 <? dp_HealthMaxTickGap deps then
          let gracePeriod := i64 (dp_HealthMaxTickGap deps + 2 * Second) in
          if dp_Started deps && (gracePeriod <? up) then
            if sa_LastTickUnix s =? 0 then mkReply StatusServiceUnavailable BodyNotTicking
            else
              let since t := clamp_duration (t - sa_LastTickUnix s * Second) in
              if dp_HealthMaxTickGap deps <? since t0 then
                mkReply StatusServiceUnavailable
                  (BodyStale (round_duration (since t1) Second) (dp_HealthMaxTickGap deps))
              else mkReply StatusOK BodyOk
          else mkReply StatusOK BodyOk
        else mkReply StatusOK BodyOk
    | None => mkReply StatusOK BodyOk
    end.

(** The mover is due: it exists, is watched, and has had its time to start. *)
Definition watched (deps : Deps) (up : Z) : Prop :=
  exists s, dp_Mover deps = Some s /\ 0 < dp_HealthMaxTickGap deps /\ dp_Started deps = true /\
    dp_HealthMaxTickGap deps + 2 * Second < up.

(** The answer is 200 exactly when the process is ready and the mover, if it is
    watched, has finished a round no longer ago than the limit. *)
Theorem health_ok deps ready up t0 t1 :
  dp_HealthMaxTickGap deps + 2 * Second < 2 ^ 63 ->
  hr_status (healthHandler deps ready up t0 t1) = StatusOK <->
  ready = true /\ (watched deps up -> exists s, dp_Mover deps = Some s /\ sa_LastTickUnix s <> 0 /\
    t0 - sa_LastTickUnix s * Second <= dp_HealthMaxTickGap deps).
Proof.
  intros Hgap. unfold healthHandler, watched. destruct ready; cbn [negb]; [|split; [done|by intros [? _]]].
  destruct (dp_Mover deps) as [s|]; [|split; [intros _; split; [done|by intros (s & [=] & _)]|done]].
  destruct (Z.ltb_spec 0 (dp_HealthMaxTickGap deps)); [|split; [intros _; split; [done|intros (? & _ & ? & _); lia]|done]].
  rewrite i64_id by (unfold in_i64, Second in *; lia).
  destruct (dp_Started deps); cbn [andb]; [|split; [intros _; split; [done|by intros (? & _ & _ & ? & _)]|done]].
  destruct (Z.ltb_spec (dp_HealthMaxTickGap deps + 2 * Second) up); [|split; [intros _; split; [done|intros (? & _ & _ & _ & ?); lia]|done]].
  destruct (Z.eqb_spec (sa_LastTickUnix s) 0) as [E|E].
  { split; [done|]. intros [_ Hw]. destruct Hw as (s' & [= <-] & ? & _); [by exists s|done]. }
  destruct (Z.ltb_spec (dp_HealthMaxTickGap deps) (clamp_duration (t0 - sa_LastTickUnix s * Second))) as [Hc|Hc];
    unfold clamp_duration, minDuration, maxDuration, Second in *; (split; [|done || idtac]).
  - done.
  - intros [_ Hw]. destruct Hw as (s' & [= <-] & _ & Hle); [by exists s|]. lia.
  - intros _. split; [done|]. intros _. exists s. split_and!; [done|done|lia].
Qed.

Lemma health_ok_witness :
  let deps := mkDeps (Some (mark_tick 1000 zero_stats)) None (300 * Second) true in
  hr_body (healthHandler deps true (400 * Second) (1301 * Second) (1302 * Second)) = BodyStale (302 * Second) (300 * Second) /\
  hr_status (healthHandler deps true (400 * Second) (1300 * Second) (1300 * Second)) = StatusOK.
Proof.
  cbv zeta. split; [by vm_compute|]. apply health_ok; [by vm_compute|]. split; [done|]. intros _.
  eexists. split_and!; [reflexivity|done|by vm_compute].
Defined.
