(* ===== verification/Exposition.v ===== *)
(** * The metrics page (src/admin/admin.go, [metricsHandler])

    The counters of the mover, the index, the engine and the FUSE layer, in the
    text format of Prometheus: per family a HELP line, a TYPE line, and one line
    per sample.  Counters become float64 values and are printed with the fewest
    digits that read back.

    What Pebble and [statfs] report are arguments here.  The page is read back
    by a parser that refuses what Prometheus refuses. *)

From S2P Require Import Prelude Keys Kv Gostr Fragment Plan Segment Layer SegmentSet Index IndexExamples Mover Metrics Sizes Health.

(** ** Arithmetic of float64 *)

(** A finite number as a ratio. *)
Definition ratio (m e : Z) : Z * Z := (m * 2 ^ Z.max e 0, 2 ^ Z.max (- e) 0).

Definition float_of_Z (n : Z) : float64 := float_of_ratio (n <? 0) (Z.abs n) 1.

(** [f / n] and [f * n] for a whole number that is a float64. *)
Definition float_div (f : float64) (n : Z) : float64 :=
  match f with
  | FNum neg m e => let '(a, b) := ratio m e in float_of_ratio neg a (b * n)
  | _ => f
  end.

Definition float_mul (f g : float64) : float64 :=
  match f, g with
  | FNum n1 m1 e1, FNum n2 m2 e2 => let '(a, b) := ratio (m1 * m2) (e1 + e2) in float_of_ratio (xorb n1 n2) a b
  | _, _ => FNaN   (* not for finite operands *)
  end.

Definition float_add (f g : float64) : float64 :=
  match f, g with
  | FNum n1 m1 e1, FNum n2 m2 e2 =>
      let e := Z.min e1 e2 in
      let s1 := m1 * 2 ^ (e1 - e) in
      let s2 := m2 * 2 ^ (e2 - e) in
      let n := (if n1 then - s1 else s1) + (if n2 then - s2 else s2) in
      let '(a, b) := ratio (Z.abs n) e in float_of_ratio (n <? 0) a b
  | _, _ => FNaN   (* not for finite operands *)
  end.

(** [d.Seconds()]. *)
Definition Seconds (d : Z) : float64 :=
  float_add (float_of_Z (Z.quot d Second)) (float_div (float_of_Z (Z.rem d Second)) Second).

(** ** [%g]: the fewest digits that read back *)

(** [10^(p-1) <= num/den < 10^p] for positive [num]; the fuel bounds the
    leading zeros of a fraction. *)
Fixpoint leading_zeros (fuel : nat) (num den : Z) : Z :=
  match fuel with
  | O => 0
  | S fuel => if den <=? num * 10 then 0 else 1 + leading_zeros fuel (num * 10) den
  end.
Definition decimal_point (num den : Z) : Z :=
  if den <=? num then blen (format_int (num / den)) else - leading_zeros 330 num den.

(** [c * 10^(-s)]. *)
Definition float_of_decimal (c s : Z) : float64 :=
  float_of_ratio false (c * 10 ^ Z.max (- s) 0) (10 ^ Z.max s 0).

Definition same_float (m e : Z) (f : float64) : bool :=
  match f with FNum _ m' e' => (m =? m') && (e =? e') | _ => false end.

(** The number with [s] digits after the point that reads back as [m * 2^e]:
    the digits cut off, or one up, the nearer if both do. *)
Definition digits_at (m e s : Z) : option Z :=
  let '(num, den) := ratio m e in
  let num := num * 10 ^ Z.max s 0 in
  let den := den * 10 ^ Z.max (- s) 0 in
  let q := num / den in
  let r := num mod den in
  let down := same_float m e (float_of_decimal q s) in
  let up := same_float m e (float_of_decimal (q + 1) s) in
  if down && up then Some (if (den <? 2 * r) || ((2 * r =? den) && Z.odd q) then q + 1 else q)
  else if down then Some q
  else if up then Some (q + 1)
  else None.

(** Seventeen digits are always enough. *)
Fixpoint shortest_from (fuel : nat) (m e s : Z) : Z * Z :=
  match digits_at m e s, fuel with
  | Some c, _ => (c, s)
  | None, S fuel => shortest_from fuel m e (s + 1)
  | None, O => (0, 0)
  end.

Fixpoint strip_zeros (fuel : nat) (c s : Z) : Z * Z :=
  match fuel with
  | O => (c, s)
  | S fuel => if c mod 10 =? 0 then strip_zeros fuel (c / 10) (s - 1) else (c, s)
  end.

(** The digits of a positive number, and where the point goes. *)
Definition shortest (m e : Z) : bytes * Z :=
  let '(num, den) := ratio m e in
  let '(c, s) := shortest_from 17 m e (1 - decimal_point num den) in
  let '(c, s) := strip_zeros 20 c s in
  let d := format_int c in (d, blen d - s).

(** Digits [d] with [dp] of them before the point, if positive. *)
Definition fmtF (d : bytes) (dp : Z) : bytes :=
  let nd := blen d in
  if dp <=? 0 then str "0." ++ zreplicate (- dp) 48 ++ d
  else if nd <=? dp then d ++ zreplicate (dp - nd) 48
  else take (Z.to_nat dp) d ++ 46 :: drop (Z.to_nat dp) d.

Definition fmtE (d : bytes) (dp : Z) : bytes :=
  let exp := dp - 1 in
  take 1 d ++ (match drop 1 d with [] => [] | r => 46 :: r end) ++
  101 :: (if exp <? 0 then 45 else 43) :: format_padded 2 (Z.abs exp).

Definition format_g (f : float64) : bytes :=
  match f with
  | FNaN => str "NaN"
  | FInf neg => if neg then str "-Inf" else str "+Inf"
  | FNum neg m e =>
      (if neg then [45] else []) ++
      if m =? 0 then str "0"
      else
        let '(d, dp) := shortest m e in
        if (dp - 1 <? -4) || (6 <=? dp - 1) then fmtE d dp else fmtF d dp
  end.

Example format_g_tests :
  (fun f => format_g f) <$> [float_of_Z 0; float_of_Z 1; float_of_Z 123456; float_of_Z 1000000; float_of_Z 1234567;
    float_of_Z (-1); float_div (float_of_Z 1500000000) Second; float_div (float_of_Z 1) Second; float_div (float_of_Z 100000) Second;
    float_of_Z (2^53 + 1); Seconds 12345678901; float_div (float_of_Z 1) 3; float_of_Z (2^63)]
  = str <$> ["0"; "1"; "123456"; "1e+06"; "1.234567e+06"; "-1"; "1.5"; "1e-09"; "0.0001"; "9.007199254740992e+15"; "12.345678901"; "0.3333333333333333";
     "9.223372036854776e+18"]%string.
Proof. by vm_compute. Qed.

(** ** [%q] *)

Definition hex_char (n : Z) : Z := if n <? 10 then 48 + n else 87 + n.

(** The names of operations are ASCII literals; other runes are left alone. *)
Definition quote_char (c : Z) : bytes :=
  if (c =? 34) || (c =? 92) then [92; c]
  else if c =? 7 then str "\a"
  else if c =? 8 then str "\b"
  else if c =? 12 then str "\f"
  else if c =? 10 then str "\n"
  else if c =? 13 then str "\r"
  else if c =? 9 then str "\t"
  else if c =? 11 then str "\v"
  else if ((0 <=? c) && (c <? 32)) || (c =? 127) then str "\x" ++ [hex_char (c / 16); hex_char (c mod 16)]
  else [c].

Definition quote (s : bytes) : bytes := [34] ++ (s ≫= quote_char) ++ [34].

(** [key=%q]. *)
Definition label (key : bytes) (v : bytes) : bytes := key ++ [61] ++ quote v.

(** ** The page *)

Record sample : Type := mkSample { sm_labels : bytes; sm_value : float64 }.

Definition sample_line (name : bytes) (s : sample) : bytes :=
  name ++ (match sm_labels s with [] => [] | l => [123] ++ l ++ [125] end) ++ [32] ++ format_g (sm_value s) ++ [10].

Definition writeOne (kind name help : bytes) (samples : list sample) : bytes :=
  match samples with
  | [] => []
  | _ =>
      str "# HELP " ++ name ++ [32] ++ help ++ [10] ++
      str "# TYPE " ++ name ++ [32] ++ kind ++ [10] ++
      (samples ≫= sample_line name)
  end.

Definition gauge : bytes := str "gauge".
Definition counter : bytes := str "counter".

(** A family of one sample without labels. *)
Definition one (v : float64) : list sample := [mkSample [] v].

(** What [syscall.Statfs] reports. *)
Record Statfs_t : Type := mkStatfs { sf_Blocks : Z; sf_Bavail : Z; sf_Bsize : Z }.

(** The fields read of Pebble's metrics. *)
Record PebbleMetrics : Type := mkPebbleMetrics {
  pm_WAL_BytesWritten : Z;
  pm_WAL_Files : Z;
  pm_WAL_ObsoleteFiles : Z;
  pm_WAL_Size : Z;
  pm_Compact_Count : Z;
  pm_Compact_EstimatedDebt : Z;
  pm_Compact_NumInProgress : Z;
  pm_Flush_Count : Z;
  pm_Levels : list (Z * Z);   (* [Size] and [NumFiles] *)
  pm_BlockCache_Hits : Z;
  pm_BlockCache_Misses : Z;
  pm_BlockCache_Size : Z;
}.

Section Page.
Context (statfs : bytes -> option Statfs_t).

Definition writeDiskGauges (hotDir coldDir : bytes) : bytes :=
  let tiers := omap (fun ed : bytes * bytes => pair ed.1 <$> statfs ed.2) [(str "hot", hotDir); (str "cold", coldDir)] in
  let gauges (f : Statfs_t -> Z) := (fun est : bytes * Statfs_t =>
    mkSample (label (str "tier") est.1) (float_mul (float_of_Z (f est.2)) (float_of_Z (sf_Bsize est.2)))) <$> tiers in
  match gauges sf_Blocks with
  | [] => []
  | totalSamples =>
      writeOne gauge (str "placefs_disk_total_bytes") (str "Total capacity of the underlying filesystem hosting each tier.") totalSamples ++
      writeOne gauge (str "placefs_disk_avail_bytes") (str "Available (unprivileged-writable) bytes on the underlying filesystem.") (gauges sf_Bavail)
  end.

Definition level_samples (f : Z * Z -> Z) (levels : list (Z * Z)) : list sample :=
  imap (fun i l => mkSample (str "level=" ++ [34] ++ format_int (Z.of_nat i) ++ [34]) (float_of_Z (f l))) levels.

Definition writePebbleStats (m : PebbleMetrics) : bytes :=
  writeOne counter (str "placefs_pebble_wal_bytes_written_total") (str "Total bytes written to the pebble WAL.")
    (one (float_of_Z (pm_WAL_BytesWritten m))) ++
  writeOne gauge (str "placefs_pebble_wal_files") (str "Number of WAL files on disk (active + obsolete).")
    (one (float_of_Z (i64 (pm_WAL_Files m + pm_WAL_ObsoleteFiles m)))) ++
  writeOne gauge (str "placefs_pebble_wal_size_bytes") (str "On-disk size of the active WAL file.")
    (one (float_of_Z (pm_WAL_Size m))) ++
  writeOne counter (str "placefs_pebble_compactions_total") (str "Total compactions run.")
    (one (float_of_Z (pm_Compact_Count m))) ++
  writeOne gauge (str "placefs_pebble_compact_debt_bytes") (str "Pebble's estimate of compaction work remaining.")
    (one (float_of_Z (pm_Compact_EstimatedDebt m))) ++
  writeOne gauge (str "placefs_pebble_compact_in_progress") (str "Compactions currently running.")
    (one (float_of_Z (pm_Compact_NumInProgress m))) ++
  writeOne counter (str "placefs_pebble_flushes_total") (str "Total memtable flushes.")
    (one (float_of_Z (pm_Flush_Count m))) ++
  writeOne gauge (str "placefs_pebble_level_bytes") (str "Bytes per LSM level.")
    (level_samples fst (pm_Levels m)) ++
  writeOne gauge (str "placefs_pebble_level_files") (str "sstable files per LSM level.")
    (level_samples snd (pm_Levels m)) ++
  writeOne counter (str "placefs_pebble_block_cache_hits_total") (str "Block-cache hits.")
    (one (float_of_Z (pm_BlockCache_Hits m))) ++
  writeOne counter (str "placefs_pebble_block_cache_misses_total") (str "Block-cache misses.")
    (one (float_of_Z (pm_BlockCache_Misses m))) ++
  writeOne gauge (str "placefs_pebble_block_cache_size_bytes") (str "Bytes currently held in the block cache.")
    (one (float_of_Z (pm_BlockCache_Size m))).

Definition mover_page (s : Stats) : bytes :=
  writeOne counter (str "placefs_mover_evict_runs_total") (str "Eviction policy invocations.")
    (one (float_of_Z (sa_EvictRuns s))) ++
  writeOne counter (str "placefs_mover_gc_runs_total") (str "GC policy invocations.")
    (one (float_of_Z (sa_GCRuns s))) ++
  writeOne counter (str "placefs_mover_moves_ok_total") (str "Successful stripe moves.")
    (one (float_of_Z (sa_MovesOK s))) ++
  writeOne counter (str "placefs_mover_moves_failed_total") (str "Failed stripe moves.")
    (one (float_of_Z (sa_MoveFailures s))) ++
  writeOne counter (str "placefs_mover_bytes_moved_total") (str "Bytes moved hot→cold.")
    (one (float_of_Z (sa_BytesMoved s))) ++
  writeOne counter (str "placefs_mover_move_duration_seconds_total") (str "Total wall-time spent inside successful Moves. Divide by moves_ok for avg.")
    (one (float_div (float_of_Z (sa_MoveDurationNanos s)) Second)) ++
  writeOne counter (str "placefs_mover_gc_duration_seconds_total") (str "Total wall-time spent inside GC. Divide by gc_runs for avg.")
    (one (float_div (float_of_Z (sa_GCDurationNanos s)) Second)) ++
  writeOne gauge (str "placefs_mover_consecutive_errors") (str "Number of consecutive failing ticks (resets to 0 on a clean tick).")
    (one (float_of_Z (sa_ConsecutiveErrs s))) ++
  writeOne gauge (str "placefs_mover_last_tick_unix_seconds") (str "Unix timestamp of the last mover tick.")
    (one (float_of_Z (sa_LastTickUnix s))).

Definition op_samples (f : OpStat -> float64) (ops : list OpStat) : list sample :=
  (fun op => mkSample (label (str "op") (os_Op op)) (f op)) <$> ops.

Definition fuse_page (ops : list OpStat) : bytes :=
  match ops with
  | [] => []
  | _ =>
      writeOne counter (str "placefs_fuse_op_calls_total") (str "FUSE entrypoint invocations by op name.")
        (op_samples (fun op => float_of_Z (os_Calls op)) ops) ++
      writeOne counter (str "placefs_fuse_op_errors_total") (str "FUSE entrypoint errors by op name.")
        (op_samples (fun op => float_of_Z (os_Errors op)) ops) ++
      writeOne counter (str "placefs_fuse_op_duration_seconds_total") (str "FUSE entrypoint total wall-time by op name.")
        (op_samples (fun op => float_div (float_of_Z (os_DurationNanos op)) Second) ops)
  end.

Context {P S : Type} `{Pebble P} `{SegLayer S} `{MapRange}.

(** [up] is [time.Since(deps.StartTime)]. *)
Definition metricsHandler (deps : Deps) (up : Z) (ix : Index P S) (hotDir coldDir : bytes) (pm : PebbleMetrics) : bytes :=
  (if dp_Started deps then
     writeOne gauge (str "placefs_process_uptime_seconds") (str "Seconds since the placefs process started.") (one (Seconds up))
   else []) ++
  writeOne gauge (str "placefs_hot_segment_bytes") (str "Total bytes across all hot tier segment files.")
    (one (float_of_Z (HotUsedBytes ix))) ++
  writeOne gauge (str "placefs_segment_count") (str "Number of open segment files per tier.")
    [mkSample (label (str "tier") (str "hot")) (float_of_Z (blen (SegmentIDs TierHot ix)));
     mkSample (label (str "tier") (str "cold")) (float_of_Z (blen (SegmentIDs TierCold ix)))] ++
  writeDiskGauges hotDir coldDir ++
  writePebbleStats pm ++
  match dp_Mover deps with Some s => mover_page s | None => [] end ++
  match dp_Fuse deps with Some m => fuse_page (Snapshot m) | None => [] end.
End Page.

(** ** A reader of the page

    One family after the other, each with its HELP line, its TYPE line and its
    samples; a family that comes a second time is refused. *)

(** [fa_kind] is missing until the TYPE line; samples are labels and value. *)
Record family : Type := mkFamily { fa_name : bytes; fa_kind : option bytes; fa_samples : list (bytes * bytes) }.

Fixpoint lines (t : bytes) : list bytes :=
  match t with
  | [] => []
  | c :: r =>
      if c =? 10 then [] :: lines r
      else match lines r with [] => [[c]] | l :: ls => (c :: l) :: ls end
  end.

Fixpoint strip_prefix (p l : bytes) : option bytes :=
  match p, l with
  | [], _ => Some l
  | x :: p, c :: l => if x =? c then strip_prefix p l else None
  | _, [] => None
  end.

(** The text before the first space, and after it. *)
Fixpoint word (l : bytes) : bytes * bytes :=
  match l with
  | [] => ([], [])
  | c :: r => if c =? 32 then ([], r) else let '(w, t) := word r in (c :: w, t)
  end.

(** The labels up to the closing brace; braces between quotes do not count. *)
Fixpoint read_labels (quoted : bool) (l : bytes) : option (bytes * bytes) :=
  match l with
  | [] => None
  | c :: r =>
      if (c =? 125) && negb quoted then Some ([], r)
      else if (c =? 92) && quoted then
        match r with
        | d :: r => '(w, t) ← read_labels true r; Some (c :: d :: w, t)
        | [] => None
        end
      else '(w, t) ← read_labels (if c =? 34 then negb quoted else quoted) r; Some (c :: w, t)
  end.

(** What follows the name of a sample. *)
Definition read_sample (l : bytes) : option (bytes * bytes) :=
  match l with
  | 123 :: r =>
      '(labels, t) ← read_labels false r;
      match t with 32 :: v => Some (labels, v) | _ => None end
  | 32 :: v => Some ([], v)
  | _ => None
  end.

(** The last family has its type and a sample. *)
Definition closed (st : list family) : bool :=
  match st with
  | mkFamily _ (Some _) (_ :: _) :: _ | [] => true
  | _ => false
  end.

(** One line; the families read so far, the last one first. *)
Definition read_line (st : list family) (l : bytes) : option (list family) :=
  match strip_prefix (str "# HELP ") l with
  | Some r =>
      let name := (word r).1 in
      if closed st && negb (bool_decide (name ∈ fa_name <$> st)) then Some (mkFamily name None [] :: st) else None
  | None =>
      match strip_prefix (str "# TYPE ") l, st with
      | Some r, mkFamily n None ss :: st =>
          let '(name, kind) := word r in
          if bool_decide (name = n) && bool_decide (kind ∈ [gauge; counter]) then Some (mkFamily n (Some kind) ss :: st) else None
      | None, mkFamily n (Some k) ss :: st =>
          r ← strip_prefix n l; s ← read_sample r; Some (mkFamily n (Some k) (ss ++ [s]) :: st)
      | _, _ => None
      end
  end.

Fixpoint read_lines (st : list family) (ls : list bytes) : option (list family) :=
  match ls with
  | [] => Some st
  | l :: ls => st ← read_line st l; read_lines st ls
  end.

Definition read_page (t : bytes) : option (list family) :=
  st ← read_lines [] (lines t); if closed st then Some (rev st) else None.

(** ** Lemmas: lines *)

Definition no_break (l : bytes) : Prop := 10 ∉ l.

Lemma lines_cons l t : no_break l -> lines (l ++ 10 :: t) = l :: lines t.
Proof.
  unfold no_break. induction l as [|c l IH]; intros Hn; cbn [lines app]; [done|].
  apply not_elem_of_cons in Hn as [Hc Hn]. rewrite (proj2 (Z.eqb_neq c 10)) by done. by rewrite IH.
Qed.

Lemma strip_prefix_app p l : strip_prefix p (p ++ l) = Some l.
Proof. induction p as [|x p IH]; cbn [strip_prefix app]; [done|]. by rewrite Z.eqb_refl. Qed.

Lemma word_app w t : 32 ∉ w -> word (w ++ 32 :: t) = (w, t).
Proof.
  induction w as [|c w IH]; intros Hn; cbn [word app]; [done|].
  apply not_elem_of_cons in Hn as [Hc Hn]. rewrite (proj2 (Z.eqb_neq c 32)) by done. by rewrite IH.
Qed.

(** ** Lemmas: numbers and labels *)

(** What numbers are written with. *)
Definition number_char (c : Z) : Prop := 43 <= c <= 122.

Lemma digits_number fuel n : 0 <= n -> Forall number_char (dec_digits fuel n).
Proof.
  intros Hn. eapply Forall_impl; [by apply dec_digits_digit|]. intros c Hc. unfold is_digit in Hc. unfold number_char. lia.
Qed.

Lemma format_int_number n : Forall number_char (format_int n).
Proof.
  unfold format_int. destruct (Z.ltb_spec n 0); [apply Forall_cons; split; [unfold number_char; lia|]|]; apply digits_number; lia.
Qed.

Lemma zeros_number n : Forall number_char (zreplicate n 48).
Proof. unfold zreplicate. apply Forall_replicate. unfold number_char. lia. Qed.

Lemma format_g_number f : Forall number_char (format_g f).
Proof.
  assert (forall s, forallb (fun c => (43 <=? c) && (c <=? 122)) s = true -> Forall number_char s) as Hlit.
  { intros s Hs. rewrite Forall_forall. intros c Hc. rewrite forallb_forall in Hs. specialize (Hs c). rewrite <-list_elem_of_In in Hs.
    specialize (Hs Hc). unfold number_char. lia. }
  unfold format_g. destruct f as [neg m e|[]|]; [|by apply Hlit..]. apply Forall_app. split; [by destruct neg; apply Hlit|].
  destruct (m =? 0); [by apply Hlit|]. unfold shortest. destruct (ratio m e) as [num den].
  destruct (shortest_from _ _ _ _) as [c0 s0]. destruct (strip_zeros _ c0 s0) as [c s].
  pose proof (format_int_number c) as Hc. set (dp := blen (format_int c) - s). destruct (_ || _).
  - unfold fmtE. apply Forall_app. split; [by apply Forall_take|]. apply Forall_app. split.
    + assert (Forall number_char (drop 1 (format_int c))) as Hd by by apply Forall_drop.
      destruct (drop 1 (format_int c)); [done|]. apply Forall_cons. split; [unfold number_char; lia|done].
    + apply Forall_cons. split; [unfold number_char; lia|]. apply Forall_cons. split; [unfold number_char; destruct (dp - 1 <? 0); lia|].
      unfold format_padded. apply Forall_app. split; [apply Forall_replicate; unfold number_char; lia|apply format_int_number].
  - unfold fmtF. destruct (dp <=? 0); [|destruct (_ <=? _)].
    + apply Forall_app. split; [by apply Hlit|]. apply Forall_app. split; [apply zeros_number|done].
    + apply Forall_app. split; [done|apply zeros_number].
    + apply Forall_app. split; [by apply Forall_take|]. apply Forall_cons. split; [unfold number_char; lia|by apply Forall_drop].
Qed.

(** Labels that end where the brace is, on one line. *)
Definition labels_ok (l : bytes) : Prop :=
  no_break l /\ forall t, read_labels false (l ++ 125 :: t) = Some (l, t).

Lemma read_unquoted w l :
  Forall (fun c => c <> 125 /\ c <> 34) w ->
  read_labels false (w ++ l) = ('(w', t) ← read_labels false l; Some (w ++ w', t)).
Proof.
  induction 1 as [|c w [H1' H2'] _ IH]; cbn [app read_labels]; [by destruct (read_labels false l) as [[]|]|].
  rewrite (proj2 (Z.eqb_neq c 125)), (proj2 (Z.eqb_neq c 34)), andb_false_r by done. cbn [andb].
  rewrite IH. by destruct (read_labels false l) as [[]|].
Qed.

Lemma read_quoted_plain c l :
  c <> 34 -> c <> 92 -> read_labels true (c :: l) = ('(w', t) ← read_labels true l; Some (c :: w', t)).
Proof.
  intros ??. cbn [read_labels negb]. rewrite (proj2 (Z.eqb_neq c 92)), (proj2 (Z.eqb_neq c 34)), andb_false_r by done. done.
Qed.

Lemma read_quoted_escape c l :
  read_labels true (92 :: c :: l) = ('(w', t) ← read_labels true l; Some (92 :: c :: w', t)).
Proof. done. Qed.

Lemma hex_char_range n : 0 <= n < 16 -> 48 <= hex_char n <= 57 \/ 97 <= hex_char n <= 102.
Proof. intros. unfold hex_char. destruct (Z.ltb_spec n 10); lia. Qed.

Lemma quote_char_cases c :
  (c <> 34 /\ c <> 92 /\ c <> 10 /\ quote_char c = [c]) \/
  exists d, d <> 10 /\ (quote_char c = [92; d] \/
    exists x y, (48 <= x <= 57 \/ 97 <= x <= 102) /\ (48 <= y <= 57 \/ 97 <= y <= 102) /\ quote_char c = [92; d; x; y]).
Proof.
  unfold quote_char. repeat (match goal with |- context [c =? ?n] => destruct (Z.eqb_spec c n) end; [right; eexists; split; [|left; reflexivity]; subst; done|]; cbn [orb]).
  destruct (_ && _) eqn:E; cbn [orb].
  2: destruct (Z.eqb_spec c 127).
  3: by left.
  all: right; exists 120; split; [done|]; right.
  - exists (hex_char (c / 16)), (hex_char (c mod 16)). split_and!; [apply hex_char_range; Z.to_euclidean_division_equations; lia..|done].
  - exists (hex_char (c / 16)), (hex_char (c mod 16)). split_and!; [apply hex_char_range; Z.to_euclidean_division_equations; lia..|done].
Qed.

Lemma read_quoted s l :
  read_labels true ((s ≫= quote_char) ++ l) = ('(w', t) ← read_labels true l; Some ((s ≫= quote_char) ++ w', t)).
Proof.
  induction s as [|c s IH]; [cbn; by destruct (read_labels true l) as [[]|]|].
  rewrite bind_cons, <-!app_assoc.
  destruct (quote_char_cases c) as [(? & ? & ? & ->)|(d & ? & [->|(x & y & ? & ? & ->)])]; cbn [app].
  - rewrite read_quoted_plain, IH by done. by destruct (read_labels true l) as [[]|].
  - rewrite read_quoted_escape, IH. by destruct (read_labels true l) as [[]|].
  - rewrite read_quoted_escape, !read_quoted_plain, IH by lia. by destruct (read_labels true l) as [[]|].
Qed.

Lemma quoted_no_break s : no_break (s ≫= quote_char).
Proof.
  unfold no_break. intros Hin. apply list_elem_of_bind in Hin as (c & Hc & _).
  destruct (quote_char_cases c) as [(? & ? & ? & E)|(d & ? & [E|(x & y & ? & ? & E)])]; rewrite E in Hc;
    repeat (apply elem_of_cons in Hc as [Hc|Hc]; [lia|]); by apply elem_of_nil in Hc.
Qed.

(** A key without quotes, braces and line breaks. *)
Definition plain_key (key : bytes) : Prop := Forall (fun c => c <> 125 /\ c <> 34 /\ c <> 10) key.

Lemma label_ok key v : plain_key key -> labels_ok (label key v).
Proof.
  unfold plain_key. intros Hk. unfold label, quote, labels_ok. split.
  - unfold no_break. rewrite !elem_of_app. pose proof (quoted_no_break v) as Hq. unfold no_break in Hq.
    assert (10 ∉ key) by (intros Hin; rewrite Forall_forall in Hk; by apply Hk in Hin as (_ & _ & ?)). set_solver.
  - intros t. rewrite <-!app_assoc. rewrite read_unquoted by (eapply Forall_impl; [exact Hk|]; naive_solver).
    cbn [app]. change (read_labels false (61 :: 34 :: (v ≫= quote_char) ++ 34 :: 125 :: t))
      with ('(w, t) ← ('(w, t) ← read_labels true ((v ≫= quote_char) ++ 34 :: 125 :: t); Some (34 :: w, t)); Some (61 :: w, t)).
    rewrite read_quoted. done.
Qed.

(** ** Lemmas: families *)

(** A name as the page uses them: without spaces, braces, line breaks, and not
    a comment. *)
Definition plain_name (n : bytes) : bool :=
  match n with [] => false | c :: _ => negb (c =? 35) end && forallb (fun c => negb (bool_decide (c ∈ [10; 32; 123]))) n.

Lemma plain_name_spec n : plain_name n = true -> (exists c r, n = c :: r /\ c <> 35) /\ 10 ∉ n /\ 32 ∉ n.
Proof.
  unfold plain_name. intros [H1' H2']%andb_true_iff. rewrite forallb_forall in H2'.
  assert (forall c, c ∈ n -> c ∉ [10; 32; 123]) as Hc.
  { intros c Hc. specialize (H2' c). rewrite <-list_elem_of_In in H2'. specialize (H2' Hc).
    by apply negb_true_iff, bool_decide_eq_false in H2'. }
  split_and!; [destruct n as [|c r]; [done|]; exists c, r; split; [done|]; by apply negb_true_iff, Z.eqb_neq in H1'|..];
    intros Hin; apply Hc in Hin; set_solver.
Qed.

(** What the reader keeps of a sample. *)
Definition text_of (s : sample) : bytes * bytes := (sm_labels s, format_g (sm_value s)).

Definition sample_ok (s : sample) : Prop := sm_labels s = [] \/ labels_ok (sm_labels s).

Lemma number_no_break l : Forall number_char l -> no_break l.
Proof. unfold no_break. rewrite Forall_forall. intros H' Hin. apply H' in Hin. unfold number_char in Hin. lia. Qed.

(** The line of a sample, without its end. *)
Definition sample_text (name : bytes) (s : sample) : bytes :=
  name ++ (match sm_labels s with [] => [] | l => [123] ++ l ++ [125] end) ++ [32] ++ format_g (sm_value s).

Lemma sample_line_text name s : sample_line name s = sample_text name s ++ [10].
Proof. unfold sample_line, sample_text. by rewrite <-!app_assoc. Qed.

Lemma sample_text_no_break name s : 10 ∉ name -> sample_ok s -> no_break (sample_text name s).
Proof.
  intros Hn Hs. unfold sample_text, no_break. pose proof (number_no_break _ (format_g_number (sm_value s))) as Hg. unfold no_break in Hg.
  rewrite !elem_of_app. assert (10 ∉ match sm_labels s with [] => [] | l => [123] ++ l ++ [125] end) as Hl; [|set_solver].
  destruct Hs as [->|[Hl _]]; [apply not_elem_of_nil|]. unfold no_break in Hl. destruct (sm_labels s); [apply not_elem_of_nil|].
  rewrite !elem_of_app. set_solver.
Qed.

Lemma read_sample_line st name k ss s :
  plain_name name = true -> sample_ok s ->
  read_line (mkFamily name (Some k) ss :: st) (sample_text name s) = Some (mkFamily name (Some k) (ss ++ [text_of s]) :: st).
Proof.
  intros ((c & r & En & Hc) & _)%plain_name_spec Hs. unfold read_line.
  assert (forall p, head p = Some 35 -> strip_prefix p (sample_text name s) = None) as Hno.
  { intros [|x p] E; [done|]. injection E as ->. unfold sample_text. rewrite En. cbn [app strip_prefix].
    by rewrite (proj2 (Z.eqb_neq 35 c)). }
  rewrite !Hno by done. unfold sample_text. rewrite strip_prefix_app. cbn [mbind option_bind].
  assert (read_sample ((match sm_labels s with [] => [] | l => [123] ++ l ++ [125] end) ++ [32] ++ format_g (sm_value s)) = Some (text_of s)) as ->; [|done].
  unfold text_of. destruct Hs as [->|[_ Hl]]; [done|]. destruct (sm_labels s) as [|l0 l1] eqn:El; [done|]. rewrite <-El in *.
  cbn [app]. rewrite <-!app_assoc. cbn [app read_sample]. by rewrite Hl.
Qed.

Lemma read_samples st name k samples : forall ss rest,
  plain_name name = true -> Forall sample_ok samples ->
  read_lines (mkFamily name (Some k) ss :: st) (lines ((samples ≫= sample_line name) ++ rest)) =
    read_lines (mkFamily name (Some k) (ss ++ (text_of <$> samples)) :: st) (lines rest).
Proof.
  induction samples as [|s samples IH]; intros ss rest Hn Hs; [by rewrite fmap_nil, app_nil_r|].
  apply Forall_cons in Hs as [Hs Hs']. rewrite bind_cons, sample_line_text, <-!app_assoc. cbn [app].
  destruct (plain_name_spec _ Hn) as (_ & Hn10 & _).
  rewrite lines_cons by (by apply sample_text_no_break). cbn [read_lines].
  rewrite read_sample_line by done. cbn [mbind option_bind]. rewrite IH by done. by rewrite fmap_cons, <-app_assoc.
Qed.

(** ** Pages *)

Definition names (fams : list family) : list bytes := fa_name <$> fams.

(** [t] is read as [fams], after any page that names none of them. *)
Definition reads (t : bytes) (fams : list family) : Prop :=
  forall st rest, closed st = true -> NoDup (names (rev fams ++ st)) ->
    closed (rev fams ++ st) = true /\ read_lines st (lines (t ++ rest)) = read_lines (rev fams ++ st) (lines rest).

Lemma reads_nil : reads [] [].
Proof. by intros st rest. Qed.

Lemma reads_app t1 t2 f1 f2 : reads t1 f1 -> reads t2 f2 -> reads (t1 ++ t2) (f1 ++ f2).
Proof.
  intros R1 R2 st rest Hc. rewrite rev_app_distr, <-!app_assoc. intros Hnd.
  assert (NoDup (names (rev f1 ++ st))) as Hnd1 by (unfold names in Hnd; rewrite fmap_app in Hnd; by apply NoDup_app in Hnd as (_ & _ & ?)).
  destruct (R1 st (t2 ++ rest) Hc Hnd1) as [Hc1 ->]. destruct (R2 (rev f1 ++ st) rest Hc1 Hnd) as [Hc2 ->]. done.
Qed.

(** The families of a call of [writeOne]. *)
Definition one_family (kind name : bytes) (samples : list sample) : list family :=
  match samples with [] => [] | _ => [mkFamily name (Some kind) (text_of <$> samples)] end.

Lemma writeOne_reads kind name help samples :
  plain_name name = true -> kind ∈ [gauge; counter] -> forallb (fun c => negb (c =? 10)) help = true -> Forall sample_ok samples ->
  reads (writeOne kind name help samples) (one_family kind name samples).
Proof.
  intros Hn Hk Hh Hs. unfold writeOne, one_family. destruct samples as [|s0 sr] eqn:Es; [apply reads_nil|]. rewrite <-Es in *.
  intros st rest Hc Hnd. cbn [rev app]. split; [by rewrite Es|].
  pose proof (plain_name_spec _ Hn) as (_ & Hn10 & Hn32).
  assert (10 ∉ help) as Hh10.
  { intros Hin. rewrite forallb_forall in Hh. specialize (Hh 10). rewrite <-list_elem_of_In in Hh. by specialize (Hh Hin). }
  assert (10 ∉ kind) as Hk10 by (repeat (apply elem_of_cons in Hk as [->|Hk]; [by apply (bool_decide_unpack _)|]); by apply elem_of_nil in Hk).
  assert (forall p w x t, 10 ∉ p -> 10 ∉ w -> 10 ∉ x -> lines (p ++ w ++ 32 :: x ++ 10 :: t) = (p ++ w ++ 32 :: x) :: lines t) as Hl.
  { intros p w x t ???. rewrite <-lines_cons; [by rewrite <-!app_assoc; cbn [app]|]. unfold no_break. rewrite !elem_of_app. set_solver. }
  repeat (rewrite <-!app_assoc; cbn [app]).
  rewrite Hl; [|by apply (bool_decide_unpack _)|done..]. cbn [read_lines]. unfold read_line at 1.
  rewrite strip_prefix_app, word_app by done. cbn [fst rev app names] in *. unfold names in Hnd. rewrite fmap_cons in Hnd. cbn [fa_name] in Hnd.
  apply NoDup_cons in Hnd as [Hnew _]. rewrite Hc, bool_decide_eq_false_2 by done. cbn [andb negb mbind option_bind].
  rewrite Hl; [|by apply (bool_decide_unpack _)|done..]. cbn [read_lines]. unfold read_line at 1.
  change (strip_prefix (str "# HELP ") (str "# TYPE " ++ name ++ 32 :: kind)) with (@None bytes).
  rewrite strip_prefix_app, word_app by done. rewrite !bool_decide_eq_true_2 by done. cbn [andb mbind option_bind].
  by rewrite read_samples.
Qed.

(** A page that reads as families named in [all]. *)
Definition page (t : bytes) (all : list bytes) : Prop :=
  exists fams, reads t fams /\ names fams `sublist_of` all.

Lemma page_nil all : page [] all.
Proof. exists []. split; [apply reads_nil|apply sublist_nil_l]. Qed.

Lemma page_app t1 t2 all1 all2 : page t1 all1 -> page t2 all2 -> page (t1 ++ t2) (all1 ++ all2).
Proof.
  intros (f1 & R1 & S1) (f2 & R2 & S2). exists (f1 ++ f2). split; [by apply reads_app|].
  unfold names. rewrite fmap_app. by apply sublist_app.
Qed.

Lemma page_one kind name help samples :
  plain_name name = true -> kind ∈ [gauge; counter] -> forallb (fun c => negb (c =? 10)) help = true -> Forall sample_ok samples ->
  page (writeOne kind name help samples) [name].
Proof.
  intros. exists (one_family kind name samples). split; [by apply writeOne_reads|].
  unfold one_family. destruct samples; [apply sublist_nil_l|done].
Qed.

Lemma one_ok v : Forall sample_ok (one v).
Proof. repeat constructor. Qed.

Lemma level_samples_ok f levels : Forall sample_ok (level_samples f levels).
Proof.
  unfold level_samples. apply Forall_forall. intros s Hs. apply list_elem_of_lookup in Hs as [i Hi].
  rewrite list_lookup_imap in Hi. destruct (levels !! i) as [l|]; [|done]. injection Hi as <-. right. cbn [sm_labels].
  pose proof (format_int_digits (Z.of_nat i) ltac:(lia)) as Hd. set (d := format_int (Z.of_nat i)) in *.
  assert (quote d = [34] ++ d ++ [34]) as Hq.
  { unfold quote. do 2 f_equal. induction d as [|c d IH]; [done|]. apply Forall_cons in Hd as [Hc Hd]. rewrite bind_cons, IH by done.
    destruct (quote_char_cases c) as [(_ & _ & _ & ->)|E]; [done|]. exfalso. unfold is_digit in Hc. revert E. unfold quote_char. 
    repeat (match goal with |- context [c =? ?n] => destruct (Z.eqb_spec c n) as [|_]; [lia|] end). cbn [orb].
    rewrite (proj2 (Z.ltb_ge c 32)), andb_false_r by lia. cbn [orb]. intros (x & _ & [[=]|(y & z & _ & _ & [=])]). }
  change (labels_ok (str "level" ++ [61] ++ [34] ++ d ++ [34])). rewrite <-Hq. apply label_ok.
  apply (bool_decide_unpack _). by vm_compute.
Qed.

Create HintDb page.
#[local] Hint Resolve one_ok level_samples_ok : page.

(** ** The whole page *)

Definition mover_names : list bytes := (fun s => str "placefs_mover_" ++ s) <$>
  [str "evict_runs_total"; str "gc_runs_total"; str "moves_ok_total"; str "moves_failed_total"; str "bytes_moved_total";
   str "move_duration_seconds_total"; str "gc_duration_seconds_total"; str "consecutive_errors"; str "last_tick_unix_seconds"].
Definition pebble_names : list bytes := (fun s => str "placefs_pebble_" ++ s) <$>
  [str "wal_bytes_written_total"; str "wal_files"; str "wal_size_bytes"; str "compactions_total"; str "compact_debt_bytes";
   str "compact_in_progress"; str "flushes_total"; str "level_bytes"; str "level_files"; str "block_cache_hits_total";
   str "block_cache_misses_total"; str "block_cache_size_bytes"].
Definition store_names : list bytes :=
  [str "placefs_process_uptime_seconds"; str "placefs_hot_segment_bytes"; str "placefs_segment_count"].
Definition disk_names : list bytes := [str "placefs_disk_total_bytes"; str "placefs_disk_avail_bytes"].
Definition fuse_names : list bytes :=
  [str "placefs_fuse_op_calls_total"; str "placefs_fuse_op_errors_total"; str "placefs_fuse_op_duration_seconds_total"].

(** One call of [writeOne] on literals. *)
Ltac one_page := apply page_one; [reflexivity|by apply (bool_decide_unpack _)|reflexivity|auto with page].

Lemma mover_page_ok s : page (mover_page s) mover_names.
Proof.
  unfold mover_page. change mover_names with
    ([str "placefs_mover_evict_runs_total"] ++ [str "placefs_mover_gc_runs_total"] ++ [str "placefs_mover_moves_ok_total"] ++
     [str "placefs_mover_moves_failed_total"] ++ [str "placefs_mover_bytes_moved_total"] ++
     [str "placefs_mover_move_duration_seconds_total"] ++ [str "placefs_mover_gc_duration_seconds_total"] ++
     [str "placefs_mover_consecutive_errors"] ++ [str "placefs_mover_last_tick_unix_seconds"]).
  repeat (apply page_app; [one_page|]). one_page.
Qed.

Lemma pebble_page_ok m : page (writePebbleStats m) pebble_names.
Proof.
  unfold writePebbleStats. change pebble_names with
    ([str "placefs_pebble_wal_bytes_written_total"] ++ [str "placefs_pebble_wal_files"] ++ [str "placefs_pebble_wal_size_bytes"] ++
     [str "placefs_pebble_compactions_total"] ++ [str "placefs_pebble_compact_debt_bytes"] ++ [str "placefs_pebble_compact_in_progress"] ++
     [str "placefs_pebble_flushes_total"] ++ [str "placefs_pebble_level_bytes"] ++ [str "placefs_pebble_level_files"] ++
     [str "placefs_pebble_block_cache_hits_total"] ++ [str "placefs_pebble_block_cache_misses_total"] ++
     [str "placefs_pebble_block_cache_size_bytes"]).
  repeat (apply page_app; [one_page|]). one_page.
Qed.

Lemma tier_label_ok v x : sample_ok (mkSample (label (str "tier") v) x).
Proof. right. apply label_ok. apply (bool_decide_unpack _). by vm_compute. Qed.

Lemma disk_page_ok statfs hotDir coldDir : page (writeDiskGauges statfs hotDir coldDir) disk_names.
Proof.
  unfold writeDiskGauges. cbv zeta. set (tiers := omap _ _).
  set (gs := fun f : Statfs_t -> Z => (fun est : bytes * Statfs_t =>
    mkSample (label (str "tier") est.1) (float_mul (float_of_Z (f est.2)) (float_of_Z (sf_Bsize est.2)))) <$> tiers).
  change (page match gs sf_Blocks with [] => [] | l => writeOne gauge (str "placefs_disk_total_bytes") (str "Total capacity of the underlying filesystem hosting each tier.") l ++
    writeOne gauge (str "placefs_disk_avail_bytes") (str "Available (unprivileged-writable) bytes on the underlying filesystem.") (gs sf_Bavail) end disk_names).
  assert (forall f, Forall sample_ok (gs f)) as Hok.
  { intros f. apply Forall_fmap, Forall_forall. intros est _. apply tier_label_ok. }
  destruct (gs sf_Blocks) as [|s0 sr] eqn:E; [apply page_nil|]. rewrite <-E.
  change disk_names with ([str "placefs_disk_total_bytes"] ++ [str "placefs_disk_avail_bytes"]).
  apply page_app; (apply page_one; [reflexivity|by apply (bool_decide_unpack _)|reflexivity|apply Hok]).
Qed.

Definition fuse_families (ops : list OpStat) : list family :=
  one_family counter (str "placefs_fuse_op_calls_total") (op_samples (fun op => float_of_Z (os_Calls op)) ops) ++
  one_family counter (str "placefs_fuse_op_errors_total") (op_samples (fun op => float_of_Z (os_Errors op)) ops) ++
  one_family counter (str "placefs_fuse_op_duration_seconds_total") (op_samples (fun op => float_div (float_of_Z (os_DurationNanos op)) Second) ops).

Lemma op_samples_ok f ops : Forall sample_ok (op_samples f ops).
Proof.
  apply Forall_fmap, Forall_forall. intros op _. right. apply label_ok. apply (bool_decide_unpack _). by vm_compute.
Qed.

Lemma fuse_page_reads ops : reads (fuse_page ops) (fuse_families ops).
Proof.
  unfold fuse_page. destruct ops as [|o ops'] eqn:E; [apply reads_nil|]. rewrite <-E.
  repeat apply reads_app; (apply writeOne_reads; [reflexivity|by apply (bool_decide_unpack _)|reflexivity|apply op_samples_ok]).
Qed.

(** The page shows a value under a name and labels. *)
Definition shows (fams : list family) (name labels : bytes) (v : float64) : Prop :=
  exists k ss, mkFamily name k ss ∈ fams /\ (labels, format_g v) ∈ ss.

Lemma one_family_shows kind name f ops op :
  op ∈ ops -> shows (one_family kind name (op_samples f ops)) name (label (str "op") (os_Op op)) (f op).
Proof.
  intros Hin. exists (Some kind), (text_of <$> op_samples f ops). split.
  - unfold one_family. destruct ops as [|o ops]; [by apply elem_of_nil in Hin|]. by left.
  - apply list_elem_of_fmap. exists (mkSample (label (str "op") (os_Op op)) (f op)). split; [done|].
    apply list_elem_of_fmap. by exists op.
Qed.

Lemma shows_app a b name l v : shows a name l v \/ shows b name l v -> shows (a ++ b) name l v.
Proof. intros [(k & ss & Hin & Hs)|(k & ss & Hin & Hs)]; exists k, ss; (split; [apply elem_of_app; auto|done]). Qed.

(** What an operation of the FUSE layer shows. *)
Definition shows_row (fams : list family) (op : bytes) (r : opRow) : Prop :=
  shows fams (str "placefs_fuse_op_calls_total") (label (str "op") op) (float_of_Z (row_calls r)) /\
  shows fams (str "placefs_fuse_op_errors_total") (label (str "op") op) (float_of_Z (row_errors r)) /\
  shows fams (str "placefs_fuse_op_duration_seconds_total") (label (str "op") op) (float_div (float_of_Z (row_duration r)) Second).

Section Whole.
Context {P S : Type} `{Pebble P} `{SegLayer S} `{MapRange}.

(** C30: the metrics page is well formed, whatever is counted and whichever
    parts are missing.  A reader that wants the preamble of every family before
    its samples, and no family twice, reads it to the end; and it finds the
    counters of every FUSE operation under its name. *)
Theorem metrics_page_reads statfs deps up (ix : Index P S) hotDir coldDir pm :
  exists fams, read_page (metricsHandler statfs deps up ix hotDir coldDir pm) = Some fams /\
    NoDup (fa_name <$> fams) /\
    forall m op r, dp_Fuse deps = Some m -> m !! op = Some r -> shows_row fams op r.
Proof.
  set (fs := match dp_Fuse deps with Some m => fuse_families (Snapshot m) | None => [] end).
  assert (exists front, reads (metricsHandler statfs deps up ix hotDir coldDir pm) (front ++ fs) /\
    names front `sublist_of` store_names ++ disk_names ++ pebble_names ++ mover_names) as (front & Hr & Hsub).
  { assert (page ((if dp_Started deps then
        writeOne gauge (str "placefs_process_uptime_seconds") (str "Seconds since the placefs process started.") (one (Seconds up)) else []))
        [str "placefs_process_uptime_seconds"]) as (f1 & R1 & S1) by (destruct (dp_Started deps); [one_page|apply page_nil]).
    assert (page (writeOne gauge (str "placefs_hot_segment_bytes") (str "Total bytes across all hot tier segment files.")
      (one (float_of_Z (HotUsedBytes ix)))) [str "placefs_hot_segment_bytes"]) as (f2 & R2 & S2) by one_page.
    assert (page (writeOne gauge (str "placefs_segment_count") (str "Number of open segment files per tier.")
      [mkSample (label (str "tier") (str "hot")) (float_of_Z (blen (SegmentIDs TierHot ix)));
       mkSample (label (str "tier") (str "cold")) (float_of_Z (blen (SegmentIDs TierCold ix)))]) [str "placefs_segment_count"])
      as (f3 & R3 & S3).
    { apply page_one; [reflexivity|by apply (bool_decide_unpack _)|reflexivity|]. by repeat (apply Forall_cons; split; [apply tier_label_ok|]). }
    destruct (disk_page_ok statfs hotDir coldDir) as (f4 & R4 & S4). destruct (pebble_page_ok pm) as (f5 & R5 & S5).
    assert (page (match dp_Mover deps with Some s => mover_page s | None => [] end) mover_names) as (f6 & R6 & S6)
      by (destruct (dp_Mover deps); [apply mover_page_ok|apply page_nil]).
    assert (reads (match dp_Fuse deps with Some m => fuse_page (Snapshot m) | None => [] end) fs) as R7
      by (unfold fs; destruct (dp_Fuse deps); [apply fuse_page_reads|apply reads_nil]).
    exists (f1 ++ f2 ++ f3 ++ f4 ++ f5 ++ f6). rewrite <-!app_assoc. split.
    - unfold metricsHandler. do 6 (apply reads_app; [assumption|]). exact R7.
    - unfold names. rewrite !fmap_app. change store_names with
        ([str "placefs_process_uptime_seconds"] ++ [str "placefs_hot_segment_bytes"] ++ [str "placefs_segment_count"]).
      rewrite <-!app_assoc. do 5 (apply sublist_app; [assumption|]). exact S6. }
  assert (names fs `sublist_of` fuse_names) as Hfs.
  { unfold fs. destruct (dp_Fuse deps) as [m|]; [|apply sublist_nil_l]. unfold fuse_families, one_family.
    destruct (Snapshot m); [apply sublist_nil_l|done]. }
  assert (NoDup (names (front ++ fs))) as Hnd.
  { eapply (sublist_NoDup _ ((store_names ++ disk_names ++ pebble_names ++ mover_names) ++ fuse_names));
      [apply (bool_decide_unpack _); by vm_compute|]. unfold names. rewrite fmap_app. by apply sublist_app. }
  exists (front ++ fs). split; [|split; [exact Hnd|]].
  - destruct (Hr [] [] eq_refl) as [Hc Hl].
    { rewrite app_nil_r. unfold names. by rewrite <-Permutation_rev. }
    unfold read_page. rewrite app_nil_r in Hl. rewrite Hl. cbn [lines read_lines mbind option_bind]. rewrite Hc.
    by rewrite app_nil_r, rev_involutive.
  - intros m op r Hm Hrow. assert (stat_of (op, r) ∈ Snapshot m) as Hin by (apply elem_of_Snapshot; by exists r).
    assert (fs = fuse_families (Snapshot m)) as -> by (unfold fs; by rewrite Hm). unfold fuse_families.
    split_and!; apply shows_app; right; apply shows_app; [left|right; apply shows_app; left|right; apply shows_app; right];
      [exact (one_family_shows _ _ (fun op => float_of_Z (os_Calls op)) _ _ Hin)
      |exact (one_family_shows _ _ (fun op => float_of_Z (os_Errors op)) _ _ Hin)
      |exact (one_family_shows _ _ (fun op => float_div (float_of_Z (os_DurationNanos op)) Second) _ _ Hin)].
Qed.
End Whole.

(** ** The example *)

#[local] Existing Instance insertion_order.

Definition ex_rows : rows := Observe (str "read") 1500000000 true (Observe (str "read") 500000000 false NewMetrics).
Definition ex_deps : Deps := mkDeps None (Some ex_rows) 0 false.
Definition ex_pebble : PebbleMetrics := mkPebbleMetrics 0 1 2 0 0 0 0 0 [(4096, 2)] 0 0 0.
Definition ex_statfs (dir : bytes) : option Statfs_t :=
  if bool_decide (dir = str "/hot") then Some (mkStatfs 1000000 10 4096) else None.
Definition ex_page : bytes := metricsHandler ex_statfs ex_deps 0 ex_ix1 (str "/hot") (str "/cold") ex_pebble.

(** Its first lines, the disk's, and its last ones. *)
Example ex_page_lines :
  take 4 (lines ex_page) ++ take 6 (drop 7 (lines ex_page)) ++ take 3 (drop (length (lines ex_page) - 9) (lines ex_page)) ++
    drop (length (lines ex_page) - 1) (lines ex_page) =
  (str "# HELP placefs_hot_segment_bytes Total bytes across all hot tier segment files." ::
   str "# TYPE placefs_hot_segment_bytes gauge" ::
   str "placefs_hot_segment_bytes 98" ::
   str "# HELP placefs_segment_count Number of open segment files per tier." :: []) ++
  [str "# HELP placefs_disk_total_bytes Total capacity of the underlying filesystem hosting each tier.";
   str "# TYPE placefs_disk_total_bytes gauge";
   str "placefs_disk_total_bytes{tier=" ++ quote (str "hot") ++ str "} 4.096e+09";
   str "# HELP placefs_disk_avail_bytes Available (unprivileged-writable) bytes on the underlying filesystem.";
   str "# TYPE placefs_disk_avail_bytes gauge";
   str "placefs_disk_avail_bytes{tier=" ++ quote (str "hot") ++ str "} 40960"] ++
  [str "# HELP placefs_fuse_op_calls_total FUSE entrypoint invocations by op name.";
   str "# TYPE placefs_fuse_op_calls_total counter";
   str "placefs_fuse_op_calls_total{op=" ++ quote (str "read") ++ str "} 2"] ++
  [str "placefs_fuse_op_duration_seconds_total{op=" ++ quote (str "read") ++ str "} 2"].
Proof. vm_compute. reflexivity. Qed.

Lemma metrics_page_reads_witness :
  exists fams, read_page ex_page = Some fams /\ NoDup (fa_name <$> fams) /\
    shows_row fams (str "read") (mkRow 2 1 2000000000).
Proof.
  destruct (metrics_page_reads ex_statfs ex_deps 0 ex_ix1 (str "/hot") (str "/cold") ex_pebble) as (fams & Hr & Hnd & Hs).
  exists fams. split; [exact Hr|]. split; [exact Hnd|]. apply (Hs ex_rows); [reflexivity|by vm_compute].
Defined.
