(* ===== verification/Main.v ===== *)
(** * The process (src/cmd/placefs/main.go)

    [main] opens the layers from the bottom up, mounts, waits, and closes them
    from the top down; on an error it closes what is open and exits.  Here it is
    a program that records what it does: the answers of the layers and what
    happens while the file system is mounted are its environment.

    A separate account of what may be done when ([hold]) says which sequences
    are in order. *)

From S2P Require Import Prelude Keys Kv Gostr Fragment Plan Segment Layer Index Mover Sizes.

(** ** Flags *)

Record Flags : Type := mkFlags {
  fl_hot : bytes;
  fl_cold : bytes;
  fl_mount : bytes;
  fl_db : bytes;
  fl_hotMax : Z;
  fl_hotTarget : Z;
  fl_stripe : Z;
  fl_segMax : Z;
  fl_tick : Z;
  fl_adminAddr : bytes;
  fl_healthMaxGap : Z;
  fl_shutdownGrace : Z;
  fl_logLevel : bytes;
  fl_logFormat : bytes;
  fl_debugPprof : bool;
  fl_slowOpThreshold : Z;
  fl_allowOther : bool;
  fl_defaultPermissions : bool;
  fl_maxWrite : Z;
  fl_writebackCache : bool;
  fl_otelEndpoint : bytes;
}.

Definition second : Z := 1000000000.

(** The defaults, with the three directories that have none. *)
Definition default_flags (hot cold mount : bytes) : Flags :=
  mkFlags hot cold mount [] 0 0 DefaultStripeSize DefaultSegmentMaxSize (30 * second) (str ":9090") (300 * second) (30 * second)
    (str "info") (str "text") false second true true (2 ^ 20) true [].

Inductive Level : Type := LevelDebug | LevelInfo | LevelWarn | LevelError.
Inductive Format : Type := TextHandler | JSONHandler.

Definition makeLogger (level format : bytes) : outcome (Level * Format) :=
  let level := to_lower level in
  let format := to_lower format in
  let? lv :=
    if bool_decide (level = str "debug") then Ok LevelDebug
    else if bool_decide (level = str "info") then Ok LevelInfo
    else if bool_decide (level ∈ [str "warn"; str "warning"]) then Ok LevelWarn
    else if bool_decide (level = str "error") then Ok LevelError
    else Err (ErrMsg "invalid -log-level") in
  let? h :=
    if bool_decide (format ∈ [str "text"; []]) then Ok TextHandler
    else if bool_decide (format = str "json") then Ok JSONHandler
    else Err (ErrMsg "invalid -log-format") in
  Ok (lv, h).

(** ** What the process does *)

Record MountOptions : Type := mkMountOptions {
  mo_Name : bytes;
  mo_FsName : bytes;
  mo_AllowOther : bool;
  mo_MaxWrite : Z;
  mo_Options : list bytes;
  mo_Writeback : bool;   (* CAP_WRITEBACK_CACHE among the extra capabilities *)
}.

Inductive action : Type :=
  | AInitTrace (ok : bool)
  | AShutdownTrace
  | AMkdir (dir : bytes) (ok : bool)
  | AOpenIndex (cfg : Config) (ok : bool)
  | ACloseIndex
  | AOpenStore (ok : bool)
  | AStartMover (cfg : MoverConfig)
  | AStopMover
  | AServeAdmin (addr : bytes) (gap : Z) (pprof : bool) (ok : bool)
  | ACancelAdmin
  | AServePprof
  | AMount (dir : bytes) (opts : MountOptions) (ok : bool)
  | AMarkReady
  | AUnmount
  | AServed              (* [server.Wait] returned: nothing is mounted any more *)
  | ACloseStore
  | AExit (code : Z).

(** What happens while the file system is mounted: a signal; the call of
    [server.Unmount] returns, well or not; the grace period of that call ends;
    the server ends. *)
Inductive happening : Type :=
  | HSignal
  | HUnmounted (ok : bool)
  | HGrace
  | HServed.

(** The answers of the layers. *)
Record Env : Type := mkEnv {
  ev_trace : bool;
  ev_mkdir : bytes -> bool;
  ev_index : bool;
  ev_store : bool;
  ev_admin : bool;
  ev_mount : bool;
  ev_run : list happening;
}.

Abbreviation log := (list action).

Definition act (a : action) : M log unit := modify (fun l => l ++ [a]).

(** Leave without running the deferred calls. *)
Definition leave {A} : M log A := throw (ErrMsg "main").
Definition os_Exit {A} (code : Z) : M log A := let* _ := act (AExit code) in leave.

Fixpoint acts (l : list action) : M log unit :=
  match l with [] => ret tt | a :: l => let* _ := act a in acts l end.

(** A call and its answer. *)
Definition attempt (a : bool -> action) (ok : bool) (cleanup : list action) : M log unit :=
  let* _ := act (a ok) in
  if ok then ret tt else let* _ := acts cleanup in os_Exit 1.

(** The goroutine that waits for a signal. *)
Inductive waiter : Type := WaitSignal | Unmounting | WaiterDone.

(** While the server runs.  The goroutine takes one signal; when its unmount
    returns it is done, and when the grace period ends first it exits.  An
    environment that stops before the server does leaves the process running. *)
Fixpoint serve (w : waiter) (hs : list happening) : M log unit :=
  match hs with
  | [] => leave
  | HServed :: _ => act AServed
  | HSignal :: hs =>
      match w with
      | WaitSignal => let* _ := act AUnmount in serve Unmounting hs
      | _ => serve w hs
      end
  | HUnmounted _ :: hs => serve (match w with Unmounting => WaiterDone | _ => w end) hs
  | HGrace :: hs =>
      match w with
      | Unmounting => os_Exit 1
      | _ => serve w hs
      end
  end.

Definition index_config (f : Flags) : Config :=
  mkConfig (fl_hot f) (fl_cold f) (fl_db f) (fl_stripe f) (fl_segMax f) [].
Definition mover_config (f : Flags) : MoverConfig :=
  start_config (mkMoverConfig (fl_hotMax f) (fl_hotTarget f) (fl_tick f) 0).
Definition mount_options (f : Flags) : MountOptions :=
  mkMountOptions (str "placefs") (str "placefs") (fl_allowOther f) (fl_maxWrite f)
    (if fl_defaultPermissions f then [str "default_permissions"] else []) (fl_writebackCache f).

Definition main (f : Flags) (e : Env) : M log unit :=
  match makeLogger (fl_logLevel f) (fl_logFormat f) with
  | Ok _ =>
      if is_empty (fl_hot f) || is_empty (fl_cold f) || is_empty (fl_mount f) then os_Exit 2
      else
        let* _ := attempt AInitTrace (ev_trace e) [] in
        let* _ := mfor [fl_hot f; fl_cold f; fl_mount f] (fun p => attempt (AMkdir p) (ev_mkdir e p) []) in
        let* _ := attempt (AOpenIndex (index_config f)) (ev_index e) [] in
        let* _ := attempt AOpenStore (ev_store e) [ACloseIndex] in
        let* _ := act (AStartMover (mover_config f)) in
        let* _ :=
          if negb (is_empty (fl_adminAddr f)) then
            attempt (AServeAdmin (fl_adminAddr f) (fl_healthMaxGap f) (fl_debugPprof f)) (ev_admin e) [AStopMover; ACloseStore]
          else if fl_debugPprof f then act AServePprof
          else ret tt in
        let* _ := attempt (AMount (fl_mount f) (mount_options f)) (ev_mount e) [ACancelAdmin; AStopMover; ACloseStore] in
        let* _ := act AMarkReady in
        let* _ := serve WaitSignal (ev_run e) in
        let* _ := act ACancelAdmin in
        let* _ := act AStopMover in
        let* _ := act ACloseStore in
        (* deferred, the last first *)
        let* _ := act ACancelAdmin in
        act AShutdownTrace
  | _ => os_Exit 2
  end.

(** How it ended. *)
Inductive ending : Type := Returned | Exited (code : Z) | Running.

Definition run_main (f : Flags) (e : Env) : ending * log :=
  let '(r, l) := main f e [] in
  (match r with
   | Ok _ => Returned
   | _ => match last l with Some (AExit c) => Exited c | _ => Running end
   end, l).

(** ** What may be done when *)

(** What is open. *)
Record held : Type := mkHeld {
  h_trace : bool;
  h_index : bool;
  h_store : bool;
  h_mover : bool;
  h_admin : bool;
  h_mounted : bool;
}.

Definition nothing : held := mkHeld false false false false false false.

(** An action out of order has no next state: the store needs the index, the
    mover and the mount need the store; the index of a store is closed with it,
    and the store only when nothing uses it any more. *)
Definition hold (h : held) (a : action) : option held :=
  let '(mkHeld t i s m d k) := h in
  match a with
  | AInitTrace ok => if t then None else Some (mkHeld ok i s m d k)
  | AShutdownTrace => if t then Some (mkHeld false i s m d k) else None
  | AMkdir _ _ | AServePprof | AExit _ => Some h
  | AOpenIndex _ ok => if i then None else Some (mkHeld t ok s m d k)
  | ACloseIndex => if i && negb s then Some (mkHeld t false s m d k) else None
  | AOpenStore ok => if i && negb s then Some (mkHeld t i ok m d k) else None
  | AStartMover _ => if s && negb m then Some (mkHeld t i s true d k) else None
  | AStopMover => if m then Some (mkHeld t i s false d k) else None
  | AServeAdmin _ _ _ ok => if s && m && negb d then Some (mkHeld t i s m ok k) else None
  | ACancelAdmin => Some (mkHeld t i s m false k)
  | AMount _ _ ok => if s && negb k then Some (mkHeld t i s m d ok) else None
  | AMarkReady | AUnmount => if k then Some h else None
  | AServed => if k then Some (mkHeld t i s m d false) else None
  | ACloseStore => if s && negb m && negb d && negb k then Some (mkHeld t false false m d k) else None
  end.

Fixpoint holds (h : held) (l : log) : option held :=
  match l with [] => Some h | a :: l => h ← hold h a; holds h l end.

Lemma holds_snoc h l a : holds h (l ++ [a]) = (h ← holds h l; hold h a).
Proof.
  revert h. induction l as [|b l IH]; intros h; cbn [app holds mbind option_bind]; [by destruct (hold h a)|].
  destruct (hold h b) as [h'|]; cbn [mbind option_bind]; [apply IH|done].
Qed.

Lemma holds_app h l1 l2 : holds h (l1 ++ l2) = (h ← holds h l1; holds h l2).
Proof.
  revert h. induction l1 as [|b l1 IH]; intros h; cbn [app holds]; [done|].
  destruct (hold h b) as [h'|]; cbn [mbind option_bind]; [apply IH|done].
Qed.

(** How the process may end, and with what still open: after an orderly end
    nothing; after an exit at most the tracer, unless the grace period of an
    unmount ended. *)
Definition end_ok (f : Flags) (e : Env) (r : ending) (h : held) : Prop :=
  match r with
  | Returned => h = nothing
  | Exited c => h = mkHeld (h_trace h) false false false false false \/
      c = 1 /\ HGrace ∈ ev_run e /\ h = mkHeld true true true true (negb (is_empty (fl_adminAddr f))) true
  | Running => h = mkHeld true true true true (negb (is_empty (fl_adminAddr f))) true
  end.

(** ** Lemmas *)

Definition ended {A} (r : outcome A) (l : log) : ending :=
  match r with Ok _ => Returned | _ => match last l with Some (AExit c) => Exited c | _ => Running end end.

Lemma wp_act a h h' l (Q : outcome unit -> log -> Prop) :
  holds nothing l = Some h -> hold h a = Some h' ->
  (forall l', holds nothing l' = Some h' -> last l' = Some a -> Q (Ok tt) l') -> wp (act a) Q l.
Proof.
  intros Hl Ha HQ. unfold act. wp_step. apply HQ; [by rewrite holds_snoc, Hl|by rewrite last_snoc].
Qed.

Lemma wp_exit {A} c h l (Q : outcome A -> log -> Prop) :
  holds nothing l = Some h ->
  (forall e l', holds nothing l' = Some h -> last l' = Some (AExit c) -> Q (Err e) l') -> wp (os_Exit c) Q l.
Proof.
  intros Hl HQ. unfold os_Exit, leave. wp_step. eapply wp_act; [done|by destruct h|]. intros l' Hl' Hlast. wp_step. by apply HQ.
Qed.

Lemma wp_acts al : forall h h' l (Q : outcome unit -> log -> Prop),
  holds nothing l = Some h -> holds h al = Some h' ->
  (forall l', holds nothing l' = Some h' -> Q (Ok tt) l') -> wp (acts al) Q l.
Proof.
  induction al as [|a al IH]; intros h h' l Q Hl Ha HQ; cbn [acts].
  - cbn in Ha. injection Ha as <-. wp_step. by apply HQ.
  - cbn [holds] in Ha. destruct (hold h a) as [h1|] eqn:E; [|done]. wp_step. eapply wp_act; [done..|].
    intros l1 Hl1 _. eapply IH; [exact Hl1|exact Ha|exact HQ].
Qed.

Lemma wp_attempt a ok cleanup h h' l (Q : outcome unit -> log -> Prop) :
  holds nothing l = Some h -> (ok = true -> hold h (a true) = Some h') ->
  (ok = false -> exists h1 h2, hold h (a false) = Some h1 /\ holds h1 cleanup = Some h2 /\
     h2 = mkHeld (h_trace h2) false false false false false) ->
  (forall l', ok = true -> holds nothing l' = Some h' -> Q (Ok tt) l') ->
  (forall e l' h2, holds nothing l' = Some h2 -> h2 = mkHeld (h_trace h2) false false false false false ->
     last l' = Some (AExit 1) -> Q (Err e) l') ->
  wp (attempt a ok cleanup) Q l.
Proof.
  intros Hl Ht Hf HO HE. unfold attempt. wp_step. destruct ok.
  - eapply wp_act; [done|by apply Ht|]. intros l' Hl' _. wp_step. by apply HO.
  - destruct (Hf eq_refl) as (h1 & h2 & E1 & E2 & E3). eapply wp_act; [done..|]. intros l1 Hl1 _. wp_step.
    eapply wp_acts; [done..|]. intros l2 Hl2. eapply wp_exit; [done|]. intros e l3 Hl3 Hlast. by eapply HE.
Qed.

Lemma wp_serve hs : forall w h l (Q : outcome unit -> log -> Prop),
  holds nothing l = Some h -> h_mounted h = true -> (forall c, last l <> Some (AExit c)) ->
  (forall l', holds nothing l' = Some (mkHeld (h_trace h) (h_index h) (h_store h) (h_mover h) (h_admin h) false) -> Q (Ok tt) l') ->
  (forall e l', holds nothing l' = Some h -> (forall c, last l' <> Some (AExit c)) \/
     last l' = Some (AExit 1) /\ HGrace ∈ hs -> Q (Err e) l') ->
  wp (serve w hs) Q l.
Proof.
  induction hs as [|x hs IH]; intros w h l Q Hl Hk Hlast HO HE; cbn [serve].
  { unfold leave. wp_step. apply HE; [done|by left]. }
  assert (forall w', wp (serve w' hs) Q l) as Hskip.
  { intros w'. eapply IH; [done..|]. intros e l' Hl' [?|[? ?]]; apply HE; try done; [by left|right; split; [done|by right]]. }
  destruct h as [t i s m d k]; cbn [h_mounted] in Hk; subst k. destruct x as [|ok| |].
  - destruct w; try apply Hskip. wp_step. eapply wp_act; [exact Hl|done|]. intros l' Hl' Hlast'.
    eapply IH; [exact Hl'|done| |exact HO|]; [intros c; by rewrite Hlast'|].
    intros e l2 Hl2 [?|[? ?]]; apply HE; try done; [by left|right; split; [done|by right]].
  - apply Hskip.
  - destruct w; try apply Hskip. eapply wp_exit; [exact Hl|]. intros e l' Hl' Hlast'. apply HE; [done|right; split; [done|by left]].
  - eapply wp_act; [exact Hl|done|]. intros l' Hl' _. by apply HO.
Qed.

(** Left early: nothing but the tracer is open. *)
Definition released {A} (r : outcome A) (l : log) : Prop :=
  is_ok r = false /\ exists h c, holds nothing l = Some h /\ h = mkHeld (h_trace h) false false false false false /\
    last l = Some (AExit c).

Lemma released_end f e {A} (r : outcome A) l : released r l -> exists h, holds nothing l = Some h /\ end_ok f e (ended r l) h.
Proof.
  intros (Hr & h & c & Hl & Hh & Hlast). exists h. split; [done|]. unfold ended. rewrite Hlast. destruct r; [done|by left..].
Qed.

Lemma wp_mkdirs dirs mk t l (Q : outcome unit -> log -> Prop) :
  holds nothing l = Some (mkHeld t false false false false false) ->
  (forall l', holds nothing l' = Some (mkHeld t false false false false false) -> Q (Ok tt) l') ->
  (forall e l', released (Err e : outcome unit) l' -> Q (Err e) l') ->
  wp (mfor dirs (fun p => attempt (AMkdir p) (mk p) [])) Q l.
Proof.
  revert l. induction dirs as [|p dirs IH]; intros l Hl HO HE; cbn [mfor]; [wp_step; by apply HO|]. wp_step.
  eapply wp_attempt; [exact Hl|done|intros _; by eexists _, _|..].
  - intros l' _ Hl'. by apply IH.
  - intros e l' h2 Hl' Hh Hlast. apply HE. split; [done|]. by exists h2, 1.
Qed.

Lemma wp_admin f ok l (Q : outcome unit -> log -> Prop) :
  holds nothing l = Some (mkHeld true true true true false false) ->
  (forall l', holds nothing l' = Some (mkHeld true true true true (negb (is_empty (fl_adminAddr f))) false) -> Q (Ok tt) l') ->
  (forall er l' h2, holds nothing l' = Some h2 -> h2 = mkHeld (h_trace h2) false false false false false ->
     last l' = Some (AExit 1) -> Q (Err er) l') ->
  wp (if negb (is_empty (fl_adminAddr f)) then
        attempt (AServeAdmin (fl_adminAddr f) (fl_healthMaxGap f) (fl_debugPprof f)) ok [AStopMover; ACloseStore]
      else if fl_debugPprof f then act AServePprof else ret tt) Q l.
Proof.
  intros Hl HO HE. destruct (is_empty _); cbn [negb] in *.
  - destruct (fl_debugPprof f); [|wp_step; by apply HO]. eapply wp_act; [exact Hl|done|]. intros l' Hl' _. by apply HO.
  - eapply wp_attempt; [exact Hl|done|intros _; by eexists _, _| |exact HE]. intros l' _. apply HO.
Qed.


(** ** Signals *)

Lemma serve_done hs l : HServed ∉ hs -> serve WaiterDone hs l = (leave l : outcome unit * log).
Proof.
  induction hs as [|x hs IH]; intros Hn; cbn [serve]; [done|]. apply not_elem_of_cons in Hn as [Hx Hn]. by destruct x; [apply IH..|].
Qed.

(** An unmount that fails makes the process deaf.  The goroutine takes one
    signal, and does not look at the answer of the unmount: a file system that
    is busy stays mounted, and whatever comes then, further signals and the end
    of the grace period included, nothing is done any more until the server
    ends by itself. *)
Theorem failed_unmount_ignores_signals hs l :
  HServed ∉ hs -> serve WaitSignal (HSignal :: HUnmounted false :: hs) l = (Err (ErrMsg "main"), l ++ [AUnmount]).
Proof. intros Hn. cbn [serve]. unfold bind, act, modify. by rewrite serve_done. Qed.

Definition ex_flags : Flags := default_flags (str "/hot") (str "/cold") (str "/mnt").
Definition ex_env (run : list happening) : Env := mkEnv true (fun _ => true) true true true true run.

Lemma failed_unmount_ignores_signals_witness :
  (serve WaitSignal [HSignal; HUnmounted false; HSignal; HGrace; HSignal] [] = (Err (ErrMsg "main"), [AUnmount])) /\
  (run_main ex_flags (ex_env [HSignal; HUnmounted false; HSignal; HGrace; HSignal])).1 = Running.
Proof.
  split; [|by vm_compute]. apply (failed_unmount_ignores_signals [HSignal; HGrace; HSignal] []).
  repeat (apply not_elem_of_cons; split; [discriminate|]). apply not_elem_of_nil.
Defined.

(** A signal, an unmount that succeeds, and the end of the server. *)
Example ex_clean : (run_main ex_flags (ex_env [HSignal; HUnmounted true; HServed])).1 = Returned.
Proof. by vm_compute. Qed.

(** The grace period ends first: the process exits with the store open, and
    what is buffered is lost. *)
Example ex_forced :
  let '(r, l) := run_main ex_flags (ex_env [HSignal; HGrace]) in r = Exited 1 /\ ~ In ACloseStore l.
Proof. vm_compute. split; [done|]. intuition discriminate. Qed.

(** The mount fails: everything is closed again. *)
Example ex_no_mount :
  run_main ex_flags (mkEnv true (fun _ => true) true true true false []) =
  (Exited 1,
   [AInitTrace true; AMkdir (str "/hot") true; AMkdir (str "/cold") true; AMkdir (str "/mnt") true;
    AOpenIndex (index_config ex_flags) true; AOpenStore true; AStartMover (mover_config ex_flags);
    AServeAdmin (str ":9090") (300 * second) false true; AMount (str "/mnt") (mount_options ex_flags) false;
    ACancelAdmin; AStopMover; ACloseStore; AExit 1]).
Proof. vm_compute. reflexivity. Qed.
